(** * Monte Carlo tree search of PessimisticAlphaZero: a shallow embedding

    The development follows the Python sources:
    - [alphazero.py]: the single-file prototype ([Node], [UCB],
      [sample_unexplored_action], [default_value], [step]);
    - [mcts.py]: the search driver ([search], [build_tree], [expand],
      [backup], the zero and random-rollout estimators);
    - [policies/policies.py]: [PolicyDistribution.softmaxed_distribution].

    Python objects live in arenas: a node is named by its index in a list
    of node records (the object graph with its [parent] back references),
    an environment by its index in a list of environment states.  Python
    exceptions are the [Raise] results of a small error monad. *)

From Stdlib Require Import ZArith QArith Qabs Qcanon Lia.
From stdpp Require Import base list.

Local Open Scope Z_scope.

(** ** Scalars

    The sources compute with Python floats and [np.float32].  The driver
    never inspects their bits, so the arithmetic is an interface: every
    theorem below that needs no law of arithmetic holds for any
    implementation of it, rounding included. *)

Class Scalar := {
  F : Type;
  fzero : F;                      (* 0.0 *)
  fone : F;                       (* 1.0 *)
  fadd : F -> F -> F;             (* x + y *)
  fmul : F -> F -> F;             (* x * y *)
  fsub : F -> F -> F;             (* x - y *)
  fdiv : F -> F -> F;             (* x / y, y non-zero *)
  fabs : F -> F;                  (* abs(x) *)
  fsqrt : F -> F;                 (* x ** 0.5 *)
  f_of_int : Z -> F;              (* int -> float conversion *)
  fgt : F -> F -> bool;           (* x > y *)
  fle : F -> F -> bool;           (* x <= y *)
}.

(** The order laws of [>] on floats that are not NaN. *)
Class ScalarOrder (S : Scalar) := {
  fgt_trans : forall x y z : F, fgt x y = true -> fgt y z = true -> fgt x z = true;
  fgt_cotrans : forall x y z : F, fgt x y = true -> fgt z y = true \/ fgt x z = true;
}.

(** The laws of [<=] and [+], [*] that monotonicity of a running sum needs. *)
Class ScalarMonotone (S : Scalar) := {
  fle_refl : forall x : F, fle x x = true;
  fle_trans : forall x y z : F, fle x y = true -> fle y z = true -> fle x z = true;
  fle_add_nonneg : forall s g : F, fle fzero g = true -> fle s (fadd s g) = true;
  fle_nonneg_add : forall x y : F,
    fle fzero x = true -> fle fzero y = true -> fle fzero (fadd x y) = true;
  fle_nonneg_mul : forall x y : F,
    fle fzero x = true -> fle fzero y = true -> fle fzero (fmul x y) = true;
}.

(** The exact cases of float arithmetic that normalising a one-hot vector
    and validating the result use; [1 / 1000000] is the tolerance
    [1e-6] of the validation. *)
Class ScalarUnit (S : Scalar) := {
  fadd_zero_zero : fadd fzero fzero = fzero;
  fadd_zero_one : fadd fzero fone = fone;
  fdiv_zero_one : fdiv fzero fone = fzero;
  fdiv_one_one : fdiv fone fone = fone;
  fle_zero_zero : fle fzero fzero = true;
  fle_zero_one : fle fzero fone = true;
  fsub_one_one : fsub fone fone = fzero;
  fabs_zero : fabs fzero = fzero;
  fgt_tolerance : fgt (fdiv fone (f_of_int 1000000)) fzero = true;
}.

(** Exact arithmetic: the laws of an ordered field of characteristic 0.
    The rationals satisfy them; floats do only up to rounding. *)
Class ScalarExact (S : Scalar) := {
  exact_field :
    field_theory fzero fone fadd fmul fsub (fun x => fsub fzero x)
      fdiv (fun x => fdiv fone x) eq;
  f_of_int_zero : f_of_int 0 = fzero;
  f_of_int_one : f_of_int 1 = fone;
  f_of_int_add : forall a b : Z, f_of_int (a + b) = fadd (f_of_int a) (f_of_int b);
  fgt_of_int : forall k : Z, 0 < k -> fgt (f_of_int k) fzero = true;
  fgt_irrefl : forall x : F, fgt x x = false;
  fgt_fle : forall x : F, fgt x fzero = true -> fle fzero x = true;
  fle_zero : fle fzero fzero = true;
  fgt_add : forall x y : F,
    fgt x fzero = true -> fgt y fzero = true -> fgt (fadd x y) fzero = true;
  fgt_div : forall x y : F,
    fgt x fzero = true -> fgt y fzero = true -> fgt (fdiv x y) fzero = true;
  fle_div : forall x y : F,
    fle fzero x = true -> fgt y fzero = true -> fle fzero (fdiv x y) = true;
  fabs_exact_zero : fabs fzero = fzero;
}.

(** Exact rationals: the instance the examples run on.  [Qsqrt] is the
    integer square root of the floor, a stand-in that is only evaluated
    on the examples' inputs. *)
Definition Qsqrt (q : Q) : Q := inject_Z (Z.sqrt (Qnum q / Zpos (Qden q))).

Definition Qgtb (x y : Q) : bool := negb (Qle_bool x y).

#[export] Instance QScalar : Scalar := {|
  F := Q;
  fzero := 0%Q;
  fone := 1%Q;
  fadd := Qplus;
  fmul := Qmult;
  fsub := Qminus;
  fdiv := Qdiv;
  fabs := Qabs;
  fsqrt := Qsqrt;
  f_of_int := inject_Z;
  fgt := Qgtb;
  fle := Qle_bool;
|}.

(** Exact rationals in lowest terms: equal numbers are equal terms, so
    the laws of exact arithmetic hold as equations. *)
Definition QcScalar : Scalar := {|
  F := Qc;
  fzero := Q2Qc 0;
  fone := Q2Qc 1;
  fadd := Qcplus;
  fmul := Qcmult;
  fsub := Qcminus;
  fdiv := Qcdiv;
  fabs := fun x => Q2Qc (Qabs x);
  fsqrt := fun x => Q2Qc (Qsqrt x);
  f_of_int := fun k => Q2Qc (inject_Z k);
  fgt := fun x y => Qgtb x y;
  fle := fun x y => Qle_bool x y;
|}.

(** ** Exceptions and results *)

Inductive exn : Type :=
  | KeyError            (* dict[key] on a missing key *)
  | IndexError          (* array index out of range *)
  | ZeroDivisionError   (* x / 0 *)
  | ValueError          (* max() of an empty iterable; a failed
                           validation of torch *)
  | RuntimeError        (* a reduction of torch over an empty tensor *)
  | AssertionError      (* a failed assert *)
  | PolicyError         (* raised inside a caller-supplied policy *)
  | DanglingReference.  (* a node or environment index outside its arena;
                           no Python reference dangles, so this marks an
                           ill-formed arena *)

Inductive result (A : Type) : Type :=
  | Ok (a : A)
  | Raise (e : exn)
  | OutOfFuel.           (* the loop did not finish within the given fuel *)

Arguments Ok {A} a.
Arguments Raise {A} e.
Arguments OutOfFuel {A}.

Definition bind {A B : Type} (m : result A) (k : A -> result B) : result B :=
  match m with
  | Ok a => k a
  | Raise e => Raise e
  | OutOfFuel => OutOfFuel
  end.

Notation "'let*' x ':=' m 'in' k" := (bind m (fun x => k))
  (at level 10, x pattern, m at level 100, k at level 200).

Definition of_option {A : Type} (e : exn) (o : option A) : result A :=
  match o with
  | Some a => Ok a
  | None => Raise e
  end.

(** Arena access: [arena[i]]. *)
Definition deref {A : Type} (arena : list A) (i : nat) : result A :=
  of_option DanglingReference (arena !! i).

(** ** Python dictionaries keyed by action index

    A [dict] keeps its keys in insertion order; assigning to a key that is
    present keeps its position. *)

Section Dict.
Context {V : Type}.

Definition dict := list (nat * V).

Fixpoint dict_get (k : nat) (d : dict) : option V :=
  match d with
  | [] => None
  | (k', v) :: d' => if Nat.eqb k k' then Some v else dict_get k d'
  end.

Fixpoint dict_set (k : nat) (v : V) (d : dict) : dict :=
  match d with
  | [] => [(k, v)]
  | (k', v') :: d' =>
      if Nat.eqb k k' then (k, v) :: d' else (k', v') :: dict_set k v d'
  end.

Definition dict_keys (d : dict) : list nat := map fst d.

Definition dict_len (d : dict) : nat := length d.
End Dict.

Arguments dict V : clear implicits.

(** [max(iterable, key=key)]: the first element wins unless a later one
    has a strictly greater key; [ValueError] on an empty iterable. *)
Section PyMax.
Context `{Scalar}.

Fixpoint max_loop (key : nat -> result F) (best : nat) (best_key : F)
    (rest : list nat) : result nat :=
  match rest with
  | [] => Ok best
  | x :: rest' =>
      let* k := key x in
      if fgt k best_key then max_loop key x k rest'
      else max_loop key best best_key rest'
  end.

Definition py_max (xs : list nat) (key : nat -> result F) : result nat :=
  match xs with
  | [] => Raise ValueError
  | x :: rest => let* k := key x in max_loop key x k rest
  end.
End PyMax.

(** ** The prototype of [alphazero.py] *)

Module AlphaZero.
Section Prototype.
Context `{Scalar}.
Variable Obs : Type.

(** [class Node]; [action_space_n] is [action_space.n]. *)
Record Node : Type := mkNode {
  parent : option nat;
  children : dict nat;
  visits : Z;
  subtree_value : F;
  value_evaluation : F;
  reward : F;
  action_space_n : nat;
  observation : option Obs;
  terminal : bool;
}.

(** [Node.__init__]: the class attributes give [visits = 1],
    [subtree_value = 0.0] and [value_evaluation = 0.0]. *)
Definition Node_init (parent : option nat) (reward : F) (action_space_n : nat)
    (observaton : option Obs) (terminal : bool) : Node :=
  {| parent := parent; children := []; visits := 1;
     subtree_value := fzero; value_evaluation := fzero; reward := reward;
     action_space_n := action_space_n; observation := observaton;
     terminal := terminal |}.

Definition set_visits (nd : Node) (v : Z) : Node :=
  {| parent := parent nd; children := children nd; visits := v;
     subtree_value := subtree_value nd;
     value_evaluation := value_evaluation nd; reward := reward nd;
     action_space_n := action_space_n nd; observation := observation nd;
     terminal := terminal nd |}.

Definition is_terminal (nd : Node) : bool := terminal nd.

(** [Node.step]: [child = self.children[action]; child.visits += 1;
    return child]. *)
Definition step (tree : list Node) (self : nat) (action : nat)
    : result (nat * list Node) :=
  let* nd := deref tree self in
  let* child := of_option KeyError (dict_get action (children nd)) in
  let* ch := deref tree child in
  Ok (child, <[child := set_visits ch (visits ch + 1)]> tree).

(** Python's [x / d] for a float [x] and an int [d]. *)
Definition truediv_int (x : F) (d : Z) : result F :=
  if d =? 0 then Raise ZeroDivisionError else Ok (fdiv x (f_of_int d)).

(** [Node.default_value]: [self.subtree_value / self.visits]. *)
Definition default_value (nd : Node) : result F :=
  truediv_int (subtree_value nd) (visits nd).

(** [Node.is_fully_expanded]. *)
Definition is_fully_expanded (nd : Node) : bool :=
  Nat.eqb (dict_len (children nd)) (action_space_n nd).

(** [mask[action] = 0] for every key of [children], on a numpy array. *)
Fixpoint clear_mask (mask : list Z) (keys : list nat) : result (list Z) :=
  match keys with
  | [] => Ok mask
  | a :: keys' =>
      if Nat.ltb a (length mask) then clear_mask (<[a := 0]> mask) keys'
      else Raise IndexError
  end.

(** [np.where(mask == 1)[0]]. *)
Definition where_one (mask : list Z) : list nat :=
  filter (fun i => mask !! i = Some 1) (seq 0 (length mask)).

(** [space.start] of the [Discrete(n)] spaces of the environments. *)
Definition space_start : nat := 0.

(** [Discrete.sample(mask=mask)] of gymnasium, as the docstring of
    [sample_unexplored_action] quotes it: a random valid action, and
    [space.start] when the mask has none.  [draw] is the number the
    generator produces; [np_random.choice] reduces it to a position. *)
Definition discrete_sample (mask : list Z) (draw : nat) : nat :=
  let valid := where_one mask in
  match valid !! (draw mod length valid)%nat with
  | Some a => (space_start + a)%nat
  | None => space_start
  end.

(** [Node.sample_unexplored_action]. *)
Definition sample_unexplored_action (nd : Node) (draw : nat) : result nat :=
  let* mask := clear_mask (replicate (action_space_n nd) 1) (dict_keys (children nd)) in
  Ok (discrete_sample mask draw).

(** [UCB.ucb]. *)
Definition ucb (c : F) (tree : list Node) (nd : Node) (action : nat) : result F :=
  let* child := of_option KeyError (dict_get action (children nd)) in
  let* ch := deref tree child in
  let* q := default_value ch in
  if visits ch =? 0 then Raise ZeroDivisionError
  else Ok (fadd q (fmul c (fsqrt (fdiv (f_of_int (visits nd)) (f_of_int (visits ch)))))).

(** [UCB.__call__]; [None] is "expand here". *)
Definition UCB (c : F) (tree : list Node) (node : nat) : result (option nat) :=
  let* nd := deref tree node in
  if negb (is_fully_expanded nd) then Ok None
  else
    let* a := py_max (dict_keys (children nd)) (ucb c tree nd) in
    Ok (Some a).

End Prototype.

Arguments parent {_ _} _.
Arguments children {_ _} _.
Arguments visits {_ _} _.
Arguments subtree_value {_ _} _.
Arguments value_evaluation {_ _} _.
Arguments reward {_ _} _.
Arguments action_space_n {_ _} _.
Arguments observation {_ _} _.
Arguments terminal {_ _} _.
End AlphaZero.

(** ** The search driver of [mcts.py] *)

Module Core.
Section Driver.
Context `{Scalar}.
Variable Obs : Type.

(** The environment: [Env] is the whole state of a gymnasium
    environment, the generators of the environment and of its action
    space included. *)
Variable Env : Type.
(** [env.step(action)]: the next state and
    [(observation, reward, terminated, truncated)]. *)
Variable env_step : Env -> nat -> Env * (Obs * F * bool * bool).
(** [env.action_space.sample()]. *)
Variable env_sample : Env -> Env * nat.
(** [env.action_space.n]. *)
Variable env_n : Env -> nat.

(** The node class of the driver.  [env] is a reference into the arena
    of environments, [parent] and the values of [children] are
    references into the arena of nodes. *)
Record Node : Type := mkNode {
  env : option nat;
  parent : option nat;
  reward : F;
  action_space_n : nat;
  terminal : bool;
  observation : option Obs;
  children : dict nat;
  visits : Z;
  subtree_sum : F;
  value_evaluation : F;
}.

(** Modelled from the spec: the constructor of the node class of
    [mcts.py] ([from node import Node]; the class is not among the
    sources).  A new node has no children, [visits = 0] and
    [subtree_sum = 0]. *)
Definition Node_init (env : option nat) (parent : option nat) (reward : F)
    (action_space_n : nat) (terminal : bool) (observation : option Obs) : Node :=
  {| env := env; parent := parent; reward := reward;
     action_space_n := action_space_n; terminal := terminal;
     observation := observation; children := []; visits := 0;
     subtree_sum := fzero; value_evaluation := fzero |}.

Definition set_env (nd : Node) (e : option nat) : Node :=
  {| env := e; parent := parent nd; reward := reward nd;
     action_space_n := action_space_n nd; terminal := terminal nd;
     observation := observation nd; children := children nd;
     visits := visits nd; subtree_sum := subtree_sum nd;
     value_evaluation := value_evaluation nd |}.

Definition set_children (nd : Node) (c : dict nat) : Node :=
  {| env := env nd; parent := parent nd; reward := reward nd;
     action_space_n := action_space_n nd; terminal := terminal nd;
     observation := observation nd; children := c;
     visits := visits nd; subtree_sum := subtree_sum nd;
     value_evaluation := value_evaluation nd |}.

Definition set_value_evaluation (nd : Node) (v : F) : Node :=
  {| env := env nd; parent := parent nd; reward := reward nd;
     action_space_n := action_space_n nd; terminal := terminal nd;
     observation := observation nd; children := children nd;
     visits := visits nd; subtree_sum := subtree_sum nd;
     value_evaluation := v |}.

(** [node.subtree_sum += g; node.visits += k]. *)
Definition add_visit (nd : Node) (g : F) (k : Z) : Node :=
  {| env := env nd; parent := parent nd; reward := reward nd;
     action_space_n := action_space_n nd; terminal := terminal nd;
     observation := observation nd; children := children nd;
     visits := visits nd + k; subtree_sum := fadd (subtree_sum nd) g;
     value_evaluation := value_evaluation nd |}.

(** Modelled from the spec: [Node.is_terminal] of the missing node class. *)
Definition is_terminal (nd : Node) : bool := terminal nd.

(** Modelled from the spec: [Node.step] of the missing node class
    returns the child for [action], fails if the action is not in
    [children], and mutates nothing. *)
Definition Node_step (nodes : list Node) (node : nat) (action : nat) : result nat :=
  let* nd := deref nodes node in
  of_option KeyError (dict_get action (children nd)).

(** The interpreter state: both arenas and the position in the stream
    of random numbers that the expansion policy draws from. *)
Record State : Type := mkState {
  nodes : list Node;
  envs : list Env;
  rng : nat;
}.

Definition set_nodes (st : State) (ns : list Node) : State :=
  {| nodes := ns; envs := envs st; rng := rng st |}.

Definition set_envs (st : State) (es : list Env) : State :=
  {| nodes := nodes st; envs := es; rng := rng st |}.

(** [copy.deepcopy(env)]: a fresh environment object with the same
    state; [deepcopy(None)] is [None]. *)
Definition deepcopy (st : State) (e : option nat) : result (option nat * State) :=
  match e with
  | None => Ok (None, st)
  | Some l =>
      let* v := deref (envs st) l in
      Ok (Some (length (envs st)), set_envs st (envs st ++ [v]))
  end.

(** The value estimators: [MCTS.value_function] and
    [RandomRolloutMCTS.value_function]. *)
Inductive estimator : Type :=
  | Zero
  | RandomRollout (rollout_budget : nat).

(** The fields of an [MCTS] object.  The selection policy reads the
    tree and returns [None] for "expand here"; the expansion policy
    reads the tree and one random number; [None] as expansion policy
    expands all actions. *)
Variable selection_policy : list Node -> nat -> result (option nat).
Variable expansion_policy : option (list Node -> nat -> nat -> result nat).
Variable discount_factor : F.
Variable value_fn : estimator.
(** The stream of the random generator. *)
Variable rand : nat -> nat.

(** The loop of [RandomRolloutMCTS.value_function], on the private deep
    copy [e] of the node's environment. *)
Fixpoint rollout (budget : nat) (e : Env) (accumulated_reward : F) : F :=
  match budget with
  | O => accumulated_reward
  | S budget' =>
      let '(e1, a) := env_sample e in
      let '(e2, (_, reward, terminated, truncated)) := env_step e1 a in
      let acc := fadd accumulated_reward reward in
      if terminated || truncated then acc else rollout budget' e2 acc
  end.

(** [value_function].  The deep copy made by the rollout is local to
    the call, so it is a value here and no arena changes. *)
Definition value_function (st : State) (node : nat) : result F :=
  match value_fn with
  | Zero => Ok fzero
  | RandomRollout rollout_budget =>
      let* nd := deref (nodes st) node in
      if is_terminal nd then Ok fzero
      else
        let* l := of_option AssertionError (env nd) in
        let* e := deref (envs st) l in
        Ok (rollout rollout_budget e fzero)
  end.

(** [MCTS.backup]: the loop [while node is not None].  A parent chain
    without a cycle has at most as many nodes as the arena, which is
    the fuel [backup] gives the loop. *)
Fixpoint backup_loop (fuel : nat) (ns : list Node) (node : option nat)
    (cum_reward : F) (new_visits : Z) : result (list Node) :=
  match node with
  | None => Ok ns
  | Some i =>
      match fuel with
      | O => OutOfFuel
      | S fuel' =>
          let* nd := deref ns i in
          let cum_reward := fmul cum_reward discount_factor in
          let cum_reward := fadd cum_reward (reward nd) in
          backup_loop fuel' (<[i := add_visit nd cum_reward new_visits]> ns)
            (parent nd) cum_reward new_visits
      end
  end.

Definition backup (st : State) (start_node : nat) (value : F) (new_visits : Z)
    : result State :=
  let* ns := backup_loop (length (nodes st)) (nodes st) (Some start_node)
               value new_visits in
  Ok (set_nodes st ns).

(** [MCTS.expand]. *)
Definition expand (st : State) (node : nat) (action : nat) : result (nat * State) :=
  let* nd := deref (nodes st) node in
  let* (e, st1) :=
    if Z.of_nat (dict_len (children nd)) =? Z.of_nat (action_space_n nd) - 1
    then Ok (env nd, set_nodes st (<[node := set_env nd None]> (nodes st)))
    else deepcopy st (env nd) in
  let* l := of_option AssertionError e in
  let* ev := deref (envs st1) l in
  let '(ev', (observation, reward, terminated, truncated)) := env_step ev action in
  let st2 := set_envs st1 (<[l := ev']> (envs st1)) in
  let terminal := terminated || truncated in
  let observation := if terminated then None else Some observation in
  let new_child :=
    Node_init (Some l) (Some node) reward (action_space_n nd) terminal observation in
  let child := length (nodes st2) in
  let st3 := set_nodes st2 (nodes st2 ++ [new_child]) in
  let* nd' := deref (nodes st3) node in
  Ok (child,
      set_nodes st3
        (<[node := set_children nd' (dict_set action child (children nd'))]> (nodes st3))).

(** [MCTS.handle_single]. *)
Definition handle_single (st : State) (node : nat) (action : nat) : result State :=
  let* (eval_node, st1) := expand st node action in
  let* value := value_function st1 eval_node in
  let* nd := deref (nodes st1) eval_node in
  let st2 := set_nodes st1 (<[eval_node := set_value_evaluation nd value]> (nodes st1)) in
  backup st2 eval_node value 1.

(** [MCTS.handle_all]: [for action in range(node.action_space.n)]. *)
Fixpoint handle_all_loop (st : State) (node : nat) (actions : list nat) : result State :=
  match actions with
  | [] => Ok st
  | action :: actions' =>
      let* st' := handle_single st node action in
      handle_all_loop st' node actions'
  end.

Definition handle_all (st : State) (node : nat) : result State :=
  let* nd := deref (nodes st) node in
  handle_all_loop st node (seq 0 (action_space_n nd)).

(** [MCTS.handle_selected_node]. *)
Definition handle_selected_node (st : State) (node : nat) : result State :=
  match expansion_policy with
  | None => handle_all st node
  | Some policy =>
      let* action := policy (nodes st) node (rand (rng st)) in
      let st' := {| nodes := nodes st; envs := envs st; rng := S (rng st) |} in
      handle_single st' node action
  end.

(** [MCTS.select_node_to_expand]: the loop
    [while not node.is_terminal()].  A descent that meets no node twice
    sees at most as many nodes as the arena holds. *)
Fixpoint select_loop (fuel : nat) (ns : list Node) (node : nat) : result nat :=
  match fuel with
  | O => OutOfFuel
  | S fuel' =>
      let* nd := deref ns node in
      if is_terminal nd then Ok node
      else
        let* action := selection_policy ns node in
        match action with
        | None => Ok node
        | Some a =>
            let* child := Node_step ns node a in
            select_loop fuel' ns child
        end
  end.

Definition select_node_to_expand (st : State) (from_node : nat) : result nat :=
  select_loop (length (nodes st)) (nodes st) from_node.

(** One turn of the loop of [MCTS.build_tree]. *)
Definition iteration (st : State) (from_node : nat) : result State :=
  let* selected := select_node_to_expand st from_node in
  let* nd := deref (nodes st) selected in
  if is_terminal nd then
    let st1 := set_nodes st (<[selected := set_value_evaluation nd fzero]> (nodes st)) in
    backup st1 selected fzero 1
  else handle_selected_node st selected.

(** [MCTS.build_tree]: [while from_node.visits < iterations]; [fuel]
    bounds the number of turns. *)
Fixpoint build_tree (fuel : nat) (st : State) (from_node : nat) (iterations : Z)
    : result (nat * State) :=
  let* nd := deref (nodes st) from_node in
  if visits nd <? iterations then
    match fuel with
    | O => OutOfFuel
    | S fuel' =>
        let* st' := iteration st from_node in
        build_tree fuel' st' from_node iterations
    end
  else Ok (from_node, st).

(** [MCTS.search]; [env] is the caller's environment. *)
Definition search (fuel : nat) (st : State) (env : nat) (iterations : Z)
    (obs : Obs) (reward : F) : result (nat * State) :=
  let* e := deref (envs st) env in
  let* (root_env, st1) := deepcopy st (Some env) in
  let root_node := length (nodes st1) in
  let st2 :=
    set_nodes st1
      (nodes st1 ++ [Node_init root_env None reward (env_n e) false (Some obs)]) in
  let* value := value_function st2 root_node in
  let* nd := deref (nodes st2) root_node in
  let st3 := set_nodes st2 (<[root_node := set_value_evaluation nd value]> (nodes st2)) in
  let* st4 := backup st3 root_node value 1 in
  build_tree fuel st4 root_node iterations.

End Driver.

Arguments env {_ _} _.
Arguments parent {_ _} _.
Arguments reward {_ _} _.
Arguments action_space_n {_ _} _.
Arguments terminal {_ _} _.
Arguments observation {_ _} _.
Arguments children {_ _} _.
Arguments visits {_ _} _.
Arguments subtree_sum {_ _} _.
Arguments value_evaluation {_ _} _.
Arguments nodes {_ _ _} _.
Arguments envs {_ _ _} _.
Arguments rng {_ _ _} _.
End Core.

(** ** Tree-evaluation policies of [policies/policies.py] *)

Module Policies.
Section PolicyDistribution.
Context `{Scalar}.
Variable Obs : Type.

Abbreviation Node := (Core.Node Obs).

(** Tensor operations of torch that the class uses.  A one-dimensional
    [float32] tensor is a list of scalars. *)

(** [probs.sum()]. *)
Definition tensor_sum (t : list F) : F := fold_left fadd t fzero.

(** The maximum of a tensor that is not empty. *)
Variable tensor_max : list F -> F.
(** [x == y] on floats. *)
Variable feq : F -> F -> bool.
(** [Categorical(logits=t).probs]: the softmax of [t]. *)
Variable softmax : list F -> list F.
(** The validation of [Categorical(logits=t)]: the check
    [constraints.real_vector] of the normalised logits
    [t - t.logsumexp()]. *)
Variable logits_valid : list F -> bool.

(** [th.max(t)]: torch raises [RuntimeError] on an empty tensor. *)
Definition th_max (t : list F) : result F :=
  match t with
  | [] => Raise RuntimeError
  | _ :: _ => Ok (tensor_max t)
  end.

(** [t[-1] = x]; [IndexError] on an empty tensor. *)
Definition set_last (t : list F) (x : F) : result (list F) :=
  match t with
  | [] => Raise IndexError
  | _ => Ok (<[(length t - 1)%nat := x]> t)
  end.

(** [constraints.simplex.check(value)]:
    [torch.all(value >= 0) & ((value.sum() - 1).abs() < 1e-6)]. *)
Definition simplex (value : list F) : bool :=
  forallb (fun p => fle fzero p) value
  && fgt (fdiv fone (f_of_int 1000000)) (fabs (fsub (tensor_sum value) fone)).

(** [Categorical(probs=t)]: torch normalises, [t / t.sum()], and then
    validates its arguments, which is on by default: [ValueError] unless
    the normalised vector lies on the simplex.  The distribution is its
    vector of probabilities. *)
Definition Categorical (t : list F) : result (list F) :=
  let probs := map (fun p => fdiv p (tensor_sum t)) t in
  if simplex probs then Ok probs else Raise ValueError.

(** [Categorical(logits=t)], as its [probs]. *)
Definition Categorical_logits (t : list F) : result (list F) :=
  if logits_valid t then Ok (softmax t) else Raise ValueError.

(** The fields and the abstract method [_probs] of a
    [PolicyDistribution]. *)
Variable temperature : option F.
Variable _probs : Node -> list F.

(** [self_prob]. *)
Definition self_prob (node : Node) (probs : list F) : F :=
  fdiv (tensor_sum probs) (f_of_int (Core.visits node - 1)).

(** [add_self_to_probs]: [th.cat([probs, th.tensor([self_prob])])]. *)
Definition add_self_to_probs (node : Node) (probs : list F) : list F :=
  probs ++ [self_prob node probs].

(** [softmaxed_distribution]; in [n + include_self] the boolean counts
    as 0 or 1. *)
Definition softmaxed_distribution (node : Node) (include_self : bool)
    : result (list F) :=
  if include_self && Nat.eqb (dict_len (Core.children node)) 0 then
    let probs :=
      replicate (Core.action_space_n node + (if include_self then 1 else 0))%nat fzero in
    let* probs := set_last probs fone in
    Categorical probs
  else
    let probs := _probs node in
    match temperature with
    | None =>
        let probs := if include_self then add_self_to_probs node probs else probs in
        Categorical probs
    | Some t =>
        if feq t fzero then
          let* max_logits := th_max probs in
          let probs := map (fun p => if feq p max_logits then fone else fzero) probs in
          let probs := if include_self then add_self_to_probs node probs else probs in
          Categorical probs
        else
          let* dist := Categorical_logits (map (fun p => fdiv p t) probs) in
          if include_self then Categorical (add_self_to_probs node dist)
          else Ok dist
    end.

End PolicyDistribution.
End Policies.

(** ** Trees in the arena: paths, shape and the contracts of the policies *)

Section TreeShape.
Context `{Scalar}.
Variable Obs : Type.
Variable Env : Type.

Abbreviation TNode := (Core.Node Obs).
Abbreviation TState := (Core.State Obs Env).

(** [ns[i].parent]. *)
Definition parent_of (ns : list TNode) (i : nat) : option nat :=
  match ns !! i with
  | Some nd => Core.parent nd
  | None => None
  end.

(** The nodes met when walking the parent links from [node], in the
    order of the walk. *)
Fixpoint parent_chain (fuel : nat) (ns : list TNode) (node : option nat) : list nat :=
  match node, fuel with
  | Some i, S fuel' => i :: parent_chain fuel' ns (parent_of ns i)
  | _, _ => []
  end.

Definition path_to_root (ns : list TNode) (start : nat) : list nat :=
  parent_chain (length ns) ns (Some start).

(** The accumulator of the backup as the spec gives it: [g] starts at
    the leaf estimate and becomes [gamma * g + n.reward] at each node
    [n] of the path (the source multiplies in place,
    [cum_reward *= discount_factor], which is the product written
    here).  [returns] lists its value at each node of [path]. *)
Fixpoint returns (gamma : F) (ns : list TNode) (path : list nat) (g : F) : list F :=
  match path with
  | [] => []
  | i :: path' =>
      match ns !! i with
      | Some nd =>
          let g' := fadd (fmul g gamma) (Core.reward nd) in
          g' :: returns gamma ns path' g'
      | None => []
      end
  end.

(** Modelled from the spec: [default_value()] of the missing node class
    of the driver returns [subtree_sum / visits], and 0 if
    [visits == 0]. *)
Definition default_value (nd : TNode) : F :=
  if Core.visits nd =? 0 then fzero
  else fdiv (Core.subtree_sum nd) (f_of_int (Core.visits nd)).

(** What one turn of the loop of [build_tree] adds to the sum of a
    terminal root: the backup of the estimate 0. *)
Definition terminal_gain (gamma : F) (nd : TNode) : F :=
  fadd (fmul fzero gamma) (Core.reward nd).

(** Parent links lead to earlier nodes of the arena, from index [r0]
    on: no walk along them meets a node twice. *)
Definition parents_decrease (r0 : nat) (ns : list TNode) : Prop :=
  forall i nd p,
    (r0 <= i)%nat -> ns !! i = Some nd -> Core.parent nd = Some p ->
    (r0 <= p < i)%nat.

(** The shape of the tree that occupies the arena from index [r0] on:
    parents come before their children, the entries of [children]
    point to nodes whose [parent] points back, the keys of [children]
    are distinct action indices, the action space is not empty, and
    [r0] is the only root. *)
Record tree_links (r0 : nat) (ns : list TNode) : Prop := {
  links_parent : parents_decrease r0 ns;
  links_child : forall i nd a c,
    (r0 <= i)%nat -> ns !! i = Some nd ->
    dict_get a (Core.children nd) = Some c ->
    (i < c)%nat /\ exists cn, ns !! c = Some cn /\ Core.parent cn = Some i;
  links_keys : forall i nd,
    (r0 <= i)%nat -> ns !! i = Some nd ->
    NoDup (dict_keys (Core.children nd)) /\
    forall a, a ∈ dict_keys (Core.children nd) -> (a < Core.action_space_n nd)%nat;
  links_actions : forall i nd,
    (r0 <= i)%nat -> ns !! i = Some nd -> (1 <= Core.action_space_n nd)%nat;
  links_root : forall i nd,
    (r0 <= i)%nat -> ns !! i = Some nd -> Core.parent nd = None -> i = r0;
}.

(** A node after some backups: the same links, flags, reward and
    snapshot, and at least as many visits. *)
Definition node_grows (nd nd' : TNode) : Prop :=
  Core.env nd' = Core.env nd /\
  Core.parent nd' = Core.parent nd /\
  Core.children nd' = Core.children nd /\
  Core.action_space_n nd' = Core.action_space_n nd /\
  Core.terminal nd' = Core.terminal nd /\
  Core.reward nd' = Core.reward nd /\
  Core.visits nd <= Core.visits nd'.

(** Every node of the tree has been backed up at least once. *)
Definition all_visited (r0 : nat) (ns : list TNode) : Prop :=
  forall i nd, (r0 <= i)%nat -> ns !! i = Some nd -> 1 <= Core.visits nd.

(** The snapshot discipline: a node with an unexpanded action holds an
    environment, and the environments of the tree were all allocated
    after the first [base] ones. *)
Record env_links (r0 base : nat) (st : TState) : Prop := {
  env_base : (base <= length (Core.envs st))%nat;
  env_present : forall i nd,
    (r0 <= i)%nat -> Core.nodes st !! i = Some nd ->
    (length (Core.children nd) < Core.action_space_n nd)%nat ->
    exists l, Core.env nd = Some l;
  env_valid : forall i nd l,
    (r0 <= i)%nat -> Core.nodes st !! i = Some nd -> Core.env nd = Some l ->
    (base <= l < length (Core.envs st))%nat;
}.

(** The invariant of the search loop between two turns: the shape, the
    snapshot discipline, and every node visited. *)
Definition loop_inv (r0 base : nat) (st : TState) : Prop :=
  tree_links r0 (Core.nodes st) /\
  env_links r0 base st /\
  all_visited r0 (Core.nodes st).

(** The contract of a selection policy: on a tree of this shape whose
    nodes have all been visited, at a node that is not terminal, it
    either answers "expand here", and then the node has an unexpanded
    action, or it answers an action that has a child. *)
Definition selection_contract
    (policy : list TNode -> nat -> result (option nat)) : Prop :=
  forall r0 ns i nd,
    tree_links r0 ns -> all_visited r0 ns ->
    (r0 <= i)%nat -> ns !! i = Some nd -> Core.terminal nd = false ->
    (policy ns i = Ok None /\
     (length (Core.children nd) < Core.action_space_n nd)%nat) \/
    (exists a, policy ns i = Ok (Some a) /\ a ∈ dict_keys (Core.children nd)).

(** The contract of an expansion policy: at a node with an unexpanded
    action it answers an unexpanded action index. *)
Definition expansion_contract
    (policy : list TNode -> nat -> nat -> result nat) : Prop :=
  forall r0 ns i nd draw,
    tree_links r0 ns ->
    (r0 <= i)%nat -> ns !! i = Some nd ->
    (length (Core.children nd) < Core.action_space_n nd)%nat ->
    exists a, policy ns i draw = Ok a /\
              (a < Core.action_space_n nd)%nat /\
              dict_get a (Core.children nd) = None.

(** Two simple policies for running the driver in the examples (the
    policy classes of [mcts.py] are arguments of the driver): descend
    into the child that was expanded first once every action has a
    child, and expand the lowest unexpanded action. *)
Definition first_child_policy (ns : list TNode) (node : nat) : result (option nat) :=
  let* nd := deref ns node in
  if negb (Nat.eqb (dict_len (Core.children nd)) (Core.action_space_n nd)) then Ok None
  else
    match dict_keys (Core.children nd) with
    | [] => Raise ValueError
    | a :: _ => Ok (Some a)
    end.

Definition lowest_unexpanded_policy (ns : list TNode) (node : nat) (draw : nat)
    : result nat :=
  let* nd := deref ns node in
  of_option ValueError
    (find (fun a => bool_decide (dict_get a (Core.children nd) = None))
       (seq 0 (Core.action_space_n nd))).
End TreeShape.

(** ** Growth of the statistics *)

Section Growth.
Context `{Scalar}.
Variables (Obs Env : Type).
Variable env_step : Env -> nat -> Env * (Obs * F * bool * bool).
Variable gamma : F.

(** The reward of a step of the environment. *)
Definition step_reward (res : Env * (Obs * F * bool * bool)) : F :=
  snd (fst (fst (snd res))).

(** Every step of the environment pays a reward that is not negative. *)
Definition nonneg_env : Prop :=
  forall e a, fle fzero (step_reward (env_step e a)) = true.

(** Every node was entered with a reward that is not negative. *)
Definition nonneg_rewards (ns : list (Core.Node Obs)) : Prop :=
  forall j nd, ns !! j = Some nd -> fle fzero (Core.reward nd) = true.

(** The setting without negative returns: ordered arithmetic, a discount
    and rewards that are not negative. *)
Definition positive : Prop :=
  ScalarMonotone H /\ fle fzero gamma = true /\ nonneg_env.

(** From one arena to a later one: every node is still there, with the
    reward it was entered with and at least as many visits; and, under
    the condition [P], with a sum at least as large. *)
Definition stats_grow (P : Prop) (ns ns' : list (Core.Node Obs)) : Prop :=
  forall j nd, ns !! j = Some nd ->
    exists nd', ns' !! j = Some nd' /\
      Core.reward nd' = Core.reward nd /\
      Core.visits nd <= Core.visits nd' /\
      (P -> fle (Core.subtree_sum nd) (Core.subtree_sum nd') = true).
End Growth.

(** ** Visit accounting and snapshot ownership in the driver's tree *)

(** [d.values()]. *)
Definition dict_values {V : Type} (d : dict V) : list V := map snd d.

Section Accounting.
Context `{Scalar}.
Variable Obs : Type.

Abbreviation ANodes := (list (Core.Node Obs)).

(** [ns[c].visits]; 0 stands for a reference out of the arena. *)
Definition visits_at (ns : ANodes) (c : nat) : Z :=
  match ns !! c with
  | Some nd => Core.visits nd
  | None => 0
  end.

(** [sum(child.visits for child in children.values())]. *)
Definition children_visits (ns : ANodes) (d : dict nat) : Z :=
  foldr (fun c acc => visits_at ns c + acc) 0 (dict_values d).

(** The converse of the child links: every node with a parent is listed
    among the children of that parent, no node is listed twice, and a
    terminal node has no children. *)
Record tree_counts (r0 : nat) (ns : ANodes) : Prop := {
  counts_listed : forall i nd p pn,
    (r0 <= i)%nat -> ns !! i = Some nd -> Core.parent nd = Some p ->
    ns !! p = Some pn -> i ∈ dict_values (Core.children pn);
  counts_once : forall i nd,
    (r0 <= i)%nat -> ns !! i = Some nd -> NoDup (dict_values (Core.children nd));
  counts_leaf : forall i nd,
    (r0 <= i)%nat -> ns !! i = Some nd -> Core.terminal nd = true ->
    Core.children nd = [];
}.

(** The visits of a node that is not terminal: one for its own
    evaluation and one for every visit of a child. *)
Definition visits_balanced (r0 : nat) (ns : ANodes) : Prop :=
  forall i nd,
    (r0 <= i)%nat -> ns !! i = Some nd -> Core.terminal nd = false ->
    Core.visits nd = 1 + children_visits ns (Core.children nd).

(** The accounts in the middle of a backup that is about to count a visit
    at node [i]: that visit is still owed at [i], every other node is
    balanced. *)
Definition visit_owed (r0 i : nat) (ns : ANodes) : Prop :=
  forall j nd,
    (r0 <= j)%nat -> ns !! j = Some nd -> Core.terminal nd = false ->
    Core.visits nd
    = (if decide (j = i) then 0 else 1) + children_visits ns (Core.children nd).

(** No two nodes of the tree hold the same environment object. *)
Definition snapshots_owned (r0 : nat) (ns : ANodes) : Prop :=
  forall i j ndi ndj l,
    (r0 <= i)%nat -> (r0 <= j)%nat ->
    ns !! i = Some ndi -> ns !! j = Some ndj ->
    Core.env ndi = Some l -> Core.env ndj = Some l -> i = j.

(** A node whose actions are all expanded holds no environment. *)
Definition snapshots_released (r0 : nat) (ns : ANodes) : Prop :=
  forall i nd,
    (r0 <= i)%nat -> ns !! i = Some nd ->
    length (Core.children nd) = Core.action_space_n nd -> Core.env nd = None.

(** The tree has at most as many nodes as its root has visits. *)
Definition nodes_counted (r0 : nat) (ns : ANodes) : Prop :=
  forall rd, ns !! r0 = Some rd ->
    Z.of_nat (length ns) - Z.of_nat r0 <= Core.visits rd.

(** The accounts of a tree between two turns of the search loop. *)
Definition accounts (r0 : nat) (ns : ANodes) : Prop :=
  tree_counts r0 ns /\ visits_balanced r0 ns /\
  snapshots_owned r0 ns /\ snapshots_released r0 ns /\ nodes_counted r0 ns.
End Accounting.

(** ** Expand-all mode *)

Section ExpandAll.
Context `{Scalar}.
Variable Obs : Type.

(** With [expansion_policy = None] a node has no children or a child for
    every action, expanded in the order of [range(n)]; all nodes share
    the action space of the root. *)
Definition all_or_none (r0 N : nat) (ns : list (Core.Node Obs)) : Prop :=
  forall i nd,
    (r0 <= i)%nat -> ns !! i = Some nd ->
    Core.action_space_n nd = N /\
    (Core.children nd = [] \/ dict_keys (Core.children nd) = seq 0 N).

(** The state in the middle of [handle_all] at node [s]: the actions
    below [k] are expanded at [s], every other node is as between two
    turns. *)
Definition expanding (r0 N s k : nat) (ns : list (Core.Node Obs)) : Prop :=
  forall i nd,
    (r0 <= i)%nat -> ns !! i = Some nd ->
    Core.action_space_n nd = N /\
    if decide (i = s)
    then Core.terminal nd = false /\ dict_keys (Core.children nd) = seq 0 k
    else Core.children nd = [] \/ dict_keys (Core.children nd) = seq 0 N.

End ExpandAll.

(** ** The search of the prototype, [alphazero.py] *)

(** [max(iterable, key=key)] with integer keys: the first element wins
    unless a later one has a strictly greater key. *)
Fixpoint max_loop_int (key : nat -> result Z) (best : nat) (best_key : Z)
    (rest : list nat) : result nat :=
  match rest with
  | [] => Ok best
  | x :: rest' =>
      let* k := key x in
      if best_key <? k then max_loop_int key x k rest'
      else max_loop_int key best best_key rest'
  end.

Definition py_max_int (xs : list nat) (key : nat -> result Z) : result nat :=
  match xs with
  | [] => Raise ValueError
  | x :: rest => let* k := key x in max_loop_int key x k rest
  end.

Module AlphaZeroMCTS.
Section Search.
Context `{Scalar}.
Variables (Obs Env : Type).

(** The environment: [Env] is the whole state of a gymnasium
    environment, the generator of its action space included.  The nodes
    of a tree share the action space object of the environment that
    [search] was called with. *)
(** [env.step(action)]. *)
Variable env_step : Env -> nat -> Env * (Obs * F * bool * bool).
(** [env.action_space.sample()]. *)
Variable env_sample : Env -> Env * nat.
(** [env.action_space.n]. *)
Variable env_n : Env -> nat.
(** One number from the generator of [env.action_space], for
    [sample(mask=mask)]. *)
Variable space_draw : Env -> Env * nat.

Abbreviation Node := (AlphaZero.Node Obs).

Definition set_children (nd : Node) (c : dict nat) : Node :=
  AlphaZero.mkNode Obs (AlphaZero.parent nd) c (AlphaZero.visits nd)
    (AlphaZero.subtree_value nd) (AlphaZero.value_evaluation nd) (AlphaZero.reward nd)
    (AlphaZero.action_space_n nd) (AlphaZero.observation nd) (AlphaZero.terminal nd).

Definition set_subtree_value (nd : Node) (v : F) : Node :=
  AlphaZero.mkNode Obs (AlphaZero.parent nd) (AlphaZero.children nd) (AlphaZero.visits nd)
    v (AlphaZero.value_evaluation nd) (AlphaZero.reward nd)
    (AlphaZero.action_space_n nd) (AlphaZero.observation nd) (AlphaZero.terminal nd).

Definition set_value_evaluation (nd : Node) (v : F) : Node :=
  AlphaZero.mkNode Obs (AlphaZero.parent nd) (AlphaZero.children nd) (AlphaZero.visits nd)
    (AlphaZero.subtree_value nd) v (AlphaZero.reward nd)
    (AlphaZero.action_space_n nd) (AlphaZero.observation nd) (AlphaZero.terminal nd).

(** [Node.backprop]: the loop [while node is not None]; every turn
    reads [self.value_evaluation + self.reward] anew.  A parent chain
    without a cycle has at most as many nodes as the arena, which is
    the fuel [backprop] gives the loop. *)
Fixpoint backprop_loop (fuel : nat) (ns : list Node) (self : nat) (node : option nat)
    : result (list Node) :=
  match node with
  | None => Ok ns
  | Some i =>
      match fuel with
      | O => OutOfFuel
      | S fuel' =>
          let* me := deref ns self in
          let* nd := deref ns i in
          let ns' :=
            <[i := set_subtree_value nd
                     (fadd (AlphaZero.subtree_value nd)
                        (fadd (AlphaZero.value_evaluation me) (AlphaZero.reward me)))]> ns in
          backprop_loop fuel' ns' self (AlphaZero.parent nd)
      end
  end.

Definition backprop (ns : list Node) (self : nat) (value : F) : result (list Node) :=
  let* me := deref ns self in
  let ns1 := <[self := set_value_evaluation me value]> ns in
  backprop_loop (length ns1) ns1 self (Some self).

(** [DefaultExpansionPolicy.__call__]: [node.sample_unexplored_action()].
    The mask is the one that [sample_unexplored_action] builds; the
    sample of gymnasium asks the generator of the action space for a
    number only if the mask has a valid action. *)
Definition DefaultExpansionPolicy (ns : list Node) (e : Env) (node : nat)
    : result (nat * Env) :=
  let* nd := deref ns node in
  let* mask :=
    AlphaZero.clear_mask (replicate (AlphaZero.action_space_n nd) 1)
      (dict_keys (AlphaZero.children nd)) in
  match AlphaZero.where_one mask with
  | [] => Ok (AlphaZero.space_start, e)
  | _ :: _ =>
      let '(e', draw) := space_draw e in
      Ok (AlphaZero.discrete_sample mask draw, e')
  end.

(** [DefaultTreeEvaluator.__call__]:
    [max(node.children, key=lambda action: node.children[action].visits)]. *)
Definition DefaultTreeEvaluator (ns : list Node) (node : nat) : result nat :=
  let* nd := deref ns node in
  py_max_int (dict_keys (AlphaZero.children nd))
    (fun action =>
       let* child := of_option KeyError (dict_get action (AlphaZero.children nd)) in
       let* ch := deref ns child in
       Ok (AlphaZero.visits ch)).

(** The fields of an [MCTS] object.  The selection policy reads the
    tree; the expansion policy reads the tree and may draw from the
    generator of the shared action space. *)
Variable selection_policy : list Node -> nat -> result (option nat).
Variable expansion_policy : list Node -> Env -> nat -> result (nat * Env).

(** The interpreter state: the arena of nodes and the environment that
    [search] was called with, which is [self.env]. *)
Record State : Type := mkState {
  nodes : list Node;
  self_env : Env;
}.

(** [MCTS.select_node_to_expand]: the loop [while not
    node.is_terminal()], on the deep copy [env] of [self.env].  A
    descent that meets no node twice sees at most as many nodes as the
    arena holds. *)
Fixpoint select_loop (fuel : nat) (ns : list Node) (node : nat) (env : Env)
    : result (nat * list Node * Env) :=
  match fuel with
  | O => OutOfFuel
  | S fuel' =>
      let* nd := deref ns node in
      if AlphaZero.is_terminal Obs nd then Ok (node, ns, env)
      else
        let* action := selection_policy ns node in
        match action with
        | None => Ok (node, ns, env)
        | Some a =>
            let* (child, ns') := AlphaZero.step Obs ns node a in
            let '(env', _) := env_step env a in
            select_loop fuel' ns' child env'
        end
  end.

Definition select_node_to_expand (st : State) (from_node : nat)
    : result (nat * State * Env) :=
  let* nd := deref (nodes st) from_node in
  let ns := <[from_node := AlphaZero.set_visits Obs nd (AlphaZero.visits nd + 1)]> (nodes st) in
  let* (node, ns', env') := select_loop (length ns) ns from_node (self_env st) in
  Ok (node, mkState ns' (self_env st), env').

(** [MCTS.expand]; [env] is the local copy. *)
Definition expand (st : State) (node : nat) (env : Env) : result (nat * State * Env) :=
  let* (action, e') := expansion_policy (nodes st) (self_env st) node in
  let '(env', (observation, reward, terminated, truncated)) := env_step env action in
  let terminal := terminated || truncated in
  let* nd := deref (nodes st) node in
  let new_child :=
    AlphaZero.Node_init Obs (Some node) reward (AlphaZero.action_space_n nd)
      (Some observation) terminal in
  let child := length (nodes st) in
  Ok (child,
      mkState
        (<[node := set_children nd (dict_set action child (AlphaZero.children nd))]>
           (nodes st) ++ [new_child])
        e',
      env').

(** The loop of [MCTS.value_function]. *)
Fixpoint rollout (budget : nat) (e : Env) (accumulated_reward : F) : F :=
  match budget with
  | O => accumulated_reward
  | S budget' =>
      let '(e1, a) := env_sample e in
      let '(e2, (_, reward, terminated, truncated)) := env_step e1 a in
      let acc := fadd accumulated_reward reward in
      if terminated || truncated then acc else rollout budget' e2 acc
  end.

(** [MCTS.value_function]. *)
Definition value_function (ns : list Node) (node : nat) (env : Env)
    (rollout_budget : nat) : result F :=
  let* nd := deref ns node in
  if AlphaZero.is_terminal Obs nd then Ok (AlphaZero.reward nd)
  else Ok (rollout rollout_budget env fzero).

(** One turn of the loop of [MCTS.build_tree]; the rollout budget is the
    default of [value_function]. *)
Definition iteration (st : State) (from_node : nat) : result State :=
  let* (selected, st1, env) := select_node_to_expand st from_node in
  let* nd := deref (nodes st1) selected in
  let* (eval_node, st2, env2) :=
    if AlphaZero.is_terminal Obs nd then Ok (selected, st1, env)
    else expand st1 selected env in
  let* value := value_function (nodes st2) eval_node env2 40 in
  let* ns3 := backprop (nodes st2) eval_node value in
  Ok (mkState ns3 (self_env st2)).

(** [MCTS.build_tree]: [for _ in range(iterations)]. *)
Fixpoint build_tree_loop (turns : nat) (st : State) (from_node : nat) : result State :=
  match turns with
  | O => Ok st
  | S turns' =>
      let* st' := iteration st from_node in
      build_tree_loop turns' st' from_node
  end.

Definition build_tree (st : State) (from_node : nat) (iterations : Z)
    : result (nat * State) :=
  let* st' := build_tree_loop (Z.to_nat iterations) st from_node in
  Ok (from_node, st').

(** [MCTS.search]: the root is a new node with reward 0.0. *)
Definition search (st : State) (iterations : Z) : result (nat * State) :=
  let root_node := length (nodes st) in
  let st1 :=
    mkState
      (nodes st ++ [AlphaZero.Node_init Obs None fzero (env_n (self_env st)) None false])
      (self_env st) in
  build_tree st1 root_node iterations.

(** [run_episode] with [render_env=None] and [verbose=False]; the
    [print] evaluates [tree.default_value()]. *)
Variable tree_evaluation_policy : list Node -> nat -> result nat.

Fixpoint run_episode_loop (steps : nat) (st : State) (compute_budget : Z)
    (total_reward : F) : result (F * State) :=
  match steps with
  | O => Ok (total_reward, st)
  | S steps' =>
      let* (tree, st1) := search st compute_budget in
      let* rt := deref (nodes st1) tree in
      let* _ := AlphaZero.default_value Obs rt in
      let* action := tree_evaluation_policy (nodes st1) tree in
      let '(e', (_, reward, terminated, truncated)) :=
        env_step (self_env st1) action in
      let total_reward := fadd total_reward reward in
      let st2 := mkState (nodes st1) e' in
      if terminated || truncated then Ok (total_reward, st2)
      else run_episode_loop steps' st2 compute_budget total_reward
  end.

Definition run_episode (st : State) (compute_budget : Z) (max_steps : Z)
    : result (F * State) :=
  run_episode_loop (Z.to_nat max_steps) st compute_budget fzero.
End Search.

Arguments nodes {_ _ _} _.
Arguments self_env {_ _ _} _.
End AlphaZeroMCTS.

(** ** Trees of the prototype *)

Section ProtoShape.
Context `{Scalar}.
Variables (Obs Env : Type).

Abbreviation PNode := (AlphaZero.Node Obs).

(** The nodes met when walking the parent links from [node]. *)
Fixpoint az_parent_chain (fuel : nat) (ns : list PNode) (node : option nat) : list nat :=
  match node, fuel with
  | Some i, S fuel' =>
      i :: az_parent_chain fuel' ns
             (match ns !! i with Some nd => AlphaZero.parent nd | None => None end)
  | _, _ => []
  end.

Definition az_path_to_root (ns : list PNode) (start : nat) : list nat :=
  az_parent_chain (length ns) ns (Some start).

(** The shape of the tree that occupies the arena from index [r0] on:
    parents come before their children; the entries of [children] point
    to nodes whose [parent] points back, and every node with a parent is
    listed there, once; the keys of [children] are distinct action
    indices; a terminal node has no children; the action space is not
    empty; every node has been visited. *)
Record az_links (r0 : nat) (ns : list PNode) : Prop := {
  az_parent : forall i nd p,
    (r0 <= i)%nat -> ns !! i = Some nd -> AlphaZero.parent nd = Some p ->
    (r0 <= p < i)%nat;
  az_child : forall i nd a c,
    (r0 <= i)%nat -> ns !! i = Some nd ->
    dict_get a (AlphaZero.children nd) = Some c ->
    (i < c)%nat /\ exists cn, ns !! c = Some cn /\ AlphaZero.parent cn = Some i;
  az_keys : forall i nd,
    (r0 <= i)%nat -> ns !! i = Some nd ->
    NoDup (dict_keys (AlphaZero.children nd)) /\
    forall a, a ∈ dict_keys (AlphaZero.children nd) ->
              (a < AlphaZero.action_space_n nd)%nat;
  az_listed : forall i nd p pn,
    (r0 <= i)%nat -> ns !! i = Some nd -> AlphaZero.parent nd = Some p ->
    ns !! p = Some pn -> i ∈ dict_values (AlphaZero.children pn);
  az_once : forall i nd,
    (r0 <= i)%nat -> ns !! i = Some nd -> NoDup (dict_values (AlphaZero.children nd));
  az_leaf : forall i nd,
    (r0 <= i)%nat -> ns !! i = Some nd -> AlphaZero.terminal nd = true ->
    AlphaZero.children nd = [];
  az_actions : forall i nd,
    (r0 <= i)%nat -> ns !! i = Some nd -> (1 <= AlphaZero.action_space_n nd)%nat;
  az_visited : forall i nd,
    (r0 <= i)%nat -> ns !! i = Some nd -> 1 <= AlphaZero.visits nd;
  az_root : forall i nd,
    (r0 <= i)%nat -> ns !! i = Some nd -> AlphaZero.parent nd = None -> i = r0;
}.

(** [ns[c].visits]; 0 stands for a reference out of the arena. *)
Definition az_visits_at (ns : list PNode) (c : nat) : Z :=
  match ns !! c with
  | Some nd => AlphaZero.visits nd
  | None => 0
  end.

(** [sum(child.visits for child in children.values())]. *)
Definition az_children_visits (ns : list PNode) (d : dict nat) : Z :=
  foldr (fun c acc => az_visits_at ns c + acc) 0 (dict_values d).

(** The visit accounts during a descent that stands at node [i]: that
    node has been entered once more than its children account for; every
    other node that is not terminal has one visit of its own and one for
    every visit of a child.  With [i = None] every node is settled. *)
Definition az_accounts (r0 : nat) (at_node : option nat) (ns : list PNode) : Prop :=
  forall j nd,
    (r0 <= j)%nat -> ns !! j = Some nd -> AlphaZero.terminal nd = false ->
    AlphaZero.visits nd
    = (if decide (at_node = Some j) then 2 else 1)
      + az_children_visits ns (AlphaZero.children nd).

(** Two nodes that differ in their statistics only, the later one with
    at least as many visits. *)
Definition az_grows (nd nd' : PNode) : Prop :=
  AlphaZero.parent nd' = AlphaZero.parent nd /\
  AlphaZero.children nd' = AlphaZero.children nd /\
  AlphaZero.action_space_n nd' = AlphaZero.action_space_n nd /\
  AlphaZero.terminal nd' = AlphaZero.terminal nd /\
  AlphaZero.reward nd' = AlphaZero.reward nd /\
  AlphaZero.visits nd <= AlphaZero.visits nd'.

(** The contract of a selection policy: at a node of a tree that is not
    terminal it either answers "expand here", and then the node has an
    unexpanded action, or it answers an action that has a child. *)
Definition az_selection_contract
    (policy : list PNode -> nat -> result (option nat)) : Prop :=
  forall r0 ns i nd,
    az_links r0 ns -> (r0 <= i)%nat -> ns !! i = Some nd ->
    AlphaZero.terminal nd = false ->
    (policy ns i = Ok None /\
     (length (AlphaZero.children nd) < AlphaZero.action_space_n nd)%nat) \/
    (exists a, policy ns i = Ok (Some a) /\ a ∈ dict_keys (AlphaZero.children nd)).

(** The contract of an expansion policy: at a node with an unexpanded
    action it answers an unexpanded action index. *)
Definition az_expansion_contract
    (policy : list PNode -> Env -> nat -> result (nat * Env)) : Prop :=
  forall r0 ns e i nd,
    az_links r0 ns -> (r0 <= i)%nat -> ns !! i = Some nd ->
    (length (AlphaZero.children nd) < AlphaZero.action_space_n nd)%nat ->
    exists a e', policy ns e i = Ok (a, e') /\
                 (a < AlphaZero.action_space_n nd)%nat /\
                 dict_get a (AlphaZero.children nd) = None.
End ProtoShape.

(** * Concrete inputs

    The trees and environments the examples below are run on, over exact
    rationals and with [unit] observations. *)

Module Examples.
Local Open Scope Q_scope.

Abbreviation ANode := (@AlphaZero.Node QScalar unit).

(** A prototype node as [Node.__init__] leaves it, and the same node
    with its visit counter set to zero. *)
Definition az_fresh : ANode := AlphaZero.Node_init unit None 0 2%nat None false.

Definition az_unvisited : ANode := AlphaZero.set_visits unit az_fresh 0%Z.

(** A root (node 0) whose action 0 leads to node 1. *)
Definition az_pair : list ANode :=
  [ AlphaZero.mkNode unit None [(0%nat, 1%nat)] 3%Z 2 0 0 2%nat None false;
    AlphaZero.mkNode unit (Some 0%nat) [] 1%Z 1 1 0 2%nat None false ].

(** A fully expanded node of a one-action space, and a node of a
    two-action space with action 1 expanded. *)
Definition az_full : ANode :=
  AlphaZero.mkNode unit None [(0%nat, 1%nat)] 2%Z 0 0 0 1%nat None false.

Definition az_half : ANode :=
  AlphaZero.mkNode unit None [(1%nat, 1%nat)] 2%Z 0 0 0 2%nat None false.

(** A fully expanded root (node 0) of a two-action space whose action 1
    was expanded before action 0; both children carry the same
    statistics. *)
Definition az_tie : list ANode :=
  [ AlphaZero.mkNode unit None [(1%nat, 1%nat); (0%nat, 2%nat)] 3%Z 0 0 0 2%nat None false;
    AlphaZero.mkNode unit (Some 0%nat) [] 1%Z 0 0 0 2%nat None false;
    AlphaZero.mkNode unit (Some 0%nat) [] 1%Z 0 0 0 2%nat None false ].

Abbreviation CNode := (@Core.Node QScalar unit).

(** A leaf of the driver's tree in a three-action space. *)
Definition leaf3 : CNode :=
  Core.mkNode unit None None 0 3%nat false None [] 1%Z 0 0.

(** A root (node 0, reward 1) and the child of its action 0 (node 1,
    reward 2) that was just created; no environments. *)
Definition chain2 : @Core.State QScalar unit unit :=
  Core.mkState unit unit
    [ Core.mkNode unit None None 1 2%nat false None [(0%nat, 1%nat)] 1%Z 1 0;
      Core.mkNode unit None (Some 0%nat) 2 2%nat false None [] 0%Z 0 0 ]
    [] 0.

(** An environment with one action that has ended: every step reports
    termination, with reward 0. *)
Definition ended_step (e : unit) (a : nat) : unit * (unit * Q * bool * bool) :=
  (tt, (tt, 0, true, false)).
Definition ended_sample (e : unit) : unit * nat := (tt, 0%nat).
Definition one_action (e : unit) : nat := 1%nat.

(** The caller's state before a search: no nodes yet and the caller's
    environment at index 0. *)
Definition fresh_state : @Core.State QScalar unit unit :=
  Core.mkState unit unit [] [tt] 0.

(** A tree that is a single root flagged terminal, entered with reward
    1 and not yet visited. *)
Definition terminal_root_state : @Core.State QScalar unit unit :=
  Core.mkState unit unit
    [ Core.mkNode unit None None 1 1%nat true None [] 0%Z 0 0 ] [] 0.

(** The driver with the example policies, discount 1 and the zero
    estimator, on the ended environment. *)
Definition build_tree_ended :=
  Core.build_tree unit unit ended_step ended_sample
    (first_child_policy unit) (Some (lowest_unexpanded_policy unit)) 1 Core.Zero
    (fun n => n).
Definition search_ended :=
  Core.search unit unit ended_step ended_sample one_action
    (first_child_policy unit) (Some (lowest_unexpanded_policy unit)) 1 Core.Zero
    (fun n => n).

(** A two-action environment that counts: action [a] adds [a + 1] to the
    state and pays [a]; the episode terminates once the state reaches 3. *)
Definition count_step (e : nat) (a : nat) : nat * (unit * Q * bool * bool) :=
  ((e + a + 1)%nat, (tt, inject_Z (Z.of_nat a), Nat.leb 3 (e + a + 1), false)).
Definition count_sample (e : nat) : nat * nat := (e, 0%nat).
Definition two_actions (e : nat) : nat := 2%nat.

(** The caller's state before a search on the counting environment. *)
Definition count_state : @Core.State QScalar unit nat :=
  Core.mkState unit nat [] [0%nat] 0.

(** The driver with the example policies, discount 1/2 and rollouts of
    three steps, on the counting environment. *)
Definition search_count :=
  Core.search unit nat count_step count_sample two_actions
    (first_child_policy unit) (Some (lowest_unexpanded_policy unit)) (1 # 2)
    (Core.RandomRollout 3) (fun n => n).

(** The state after the root of a search on the counting environment
    was created: the caller's environment at index 0, the root's
    snapshot at index 1. *)
Definition snapshot_state : @Core.State QScalar unit nat :=
  Core.mkState unit nat
    [ Core.mkNode unit (Some 1%nat) None 0 2%nat false (Some tt) [] 1%Z 0 0 ]
    [0%nat; 0%nat] 0.

(** The root of a search that was entered with reward -1, as [search]
    creates it, before its evaluation is backed up. *)
Definition penalty_state : @Core.State QScalar unit nat :=
  Core.mkState unit nat
    [ Core.Node_init unit (Some 1%nat) None (-1) 2%nat false (Some tt) ]
    [0%nat; 0%nat] 0.

(** Stand-ins for the tensor operations of torch, for running the
    tree-evaluation policy on [leaf3]. *)
Definition q_tensor_max (t : list Q) : Q :=
  fold_right (fun x m => if Qle_bool m x then x else m) 0 t.
Definition q_softmax (t : list Q) : list Q := t.
Definition q_logits_valid (t : list Q) : bool := true.
Definition visit_probs (nd : CNode) : list Q := [].
End Examples.

(** ** Further inputs *)

Module MoreExamples.
Local Open Scope Q_scope.

(** A root of the driver's tree in a two-action space, visited four
    times, with both actions expanded. *)
Definition visited_root : Examples.CNode :=
  Core.mkNode unit None None 0 2%nat false None [(0%nat, 1%nat); (1%nat, 2%nat)] 4%Z 0 0.

(** Relative probabilities 1 and 3 for the two actions. *)
Definition prior_probs (nd : Examples.CNode) : list Q := [1; 3].

(** The driver in expand-all mode on the counting environment, with
    discount 1/2 and rollouts of three steps. *)
Definition search_count_all :=
  Core.search unit nat Examples.count_step Examples.count_sample Examples.two_actions
    (first_child_policy unit) None (1 # 2) (Core.RandomRollout 3) (fun n => n).
End MoreExamples.

(** ** Inputs for the prototype's search *)

Module ProtoExamples.
Local Open Scope Q_scope.

(** The generator of the action space of the counting environment: it
    always draws 0. *)
Definition count_draw (e : nat) : nat * nat := (e, 0%nat).

(** The state before the first search: no nodes yet, the counting
    environment at 0. *)
Definition az_count_state : @AlphaZeroMCTS.State QScalar unit nat :=
  AlphaZeroMCTS.mkState unit nat [] 0%nat.

(** The prototype's search and episode loop with [UCB(c=1)] and the
    default expansion and tree-evaluation policies, on the counting
    environment. *)
Definition az_search_count :=
  AlphaZeroMCTS.search unit nat Examples.count_step Examples.count_sample
    Examples.two_actions (AlphaZero.UCB unit 1)
    (AlphaZeroMCTS.DefaultExpansionPolicy unit nat count_draw).

Definition az_run_episode_count :=
  AlphaZeroMCTS.run_episode unit nat Examples.count_step Examples.count_sample
    Examples.two_actions (AlphaZero.UCB unit 1)
    (AlphaZeroMCTS.DefaultExpansionPolicy unit nat count_draw)
    (AlphaZeroMCTS.DefaultTreeEvaluator unit).

(** A root (node 0) whose action 0 leads to a terminal node (node 1)
    that was entered with reward 1. *)
Definition az_ended_pair : list Examples.ANode :=
  [ AlphaZero.mkNode unit None [(0%nat, 1%nat)] 2%Z 0 0 0 2%nat None false;
    AlphaZero.mkNode unit (Some 0%nat) [] 1%Z 0 0 1 2%nat None true ].
End ProtoExamples.

(** ** Inputs in exact arithmetic *)

Module ExactExamples.

Abbreviation XNode := (@Core.Node QcScalar unit).

(** The ended environment over the rationals in lowest terms. *)
Definition ended_step (e : unit) (a : nat) : unit * (unit * Qc * bool * bool) :=
  (tt, (tt, Q2Qc 0, true, false)).
Definition ended_sample (e : unit) : unit * nat := (tt, 0%nat).

(** A tree that is a single root flagged terminal, entered with reward
    0 and not yet visited. *)
Definition zero_root_state : @Core.State QcScalar unit unit :=
  @Core.mkState QcScalar unit unit
    [ @Core.mkNode QcScalar unit None None (Q2Qc 0) 1%nat true None [] 0%Z (Q2Qc 0)
        (Q2Qc 0) ] [] 0.

(** The driver with the example policies, discount 1 and the zero
    estimator, on the ended environment. *)
Definition build_tree_ended :=
  @Core.build_tree QcScalar unit unit ended_step ended_sample
    (@first_child_policy QcScalar unit) (Some (@lowest_unexpanded_policy QcScalar unit))
    (Q2Qc 1) Core.Zero (fun n => n).

(** A root in a two-action space, visited four times, with both actions
    expanded, and relative probabilities 1 and 3 for the two actions. *)
Definition visited_root : XNode :=
  @Core.mkNode QcScalar unit None None (Q2Qc 0) 2%nat false None
    [(0%nat, 1%nat); (1%nat, 2%nat)] 4%Z (Q2Qc 0) (Q2Qc 0).

Definition prior_probs (nd : XNode) : list Qc := [Q2Qc 1; Q2Qc 3].

(** The tensor operations of torch over the rationals: the maximum,
    [==], and stand-ins for the softmax and for the validation of
    logits, which finds no NaN among rationals. *)
Definition tensor_max (t : list Qc) : Qc :=
  fold_right (fun x m : Qc => if Qle_bool m x then x else m) (Q2Qc 0) t.
Definition feq (x y : Qc) : bool := Qeq_bool x y.
Definition softmax (t : list Qc) : list Qc := t.
Definition logits_valid (t : list Qc) : bool := true.
End ExactExamples.

(** * Properties of the prototype *)

Section AlphaZeroFacts.
Context `{Scalar}.
Variable Obs : Type.

Abbreviation ANode := (AlphaZero.Node Obs).

Lemma deref_Some {A : Type} (arena : list A) (i : nat) (x : A) :
  arena !! i = Some x -> deref arena i = Ok x.
Proof. intros Hx. unfold deref. rewrite Hx. reflexivity. Qed.

(** C5, as the prototype has it: [default_value] is the quotient
    [subtree_value / visits] whenever [visits] is not zero; it has no
    guard for [visits == 0], where the division raises
    [ZeroDivisionError]; a node starts with [visits = 1]. *)
Theorem default_value_quotient_or_fault (nd : ANode) :
  (AlphaZero.visits nd <> 0 ->
     AlphaZero.default_value Obs nd
     = Ok (fdiv (AlphaZero.subtree_value nd) (f_of_int (AlphaZero.visits nd)))) /\
  (AlphaZero.visits nd = 0 ->
     AlphaZero.default_value Obs nd = Raise ZeroDivisionError) /\
  (forall p r n o t,
     AlphaZero.default_value Obs (AlphaZero.Node_init Obs p r n o t)
     = Ok (fdiv fzero (f_of_int 1))).
Proof.
  unfold AlphaZero.default_value, AlphaZero.truediv_int.
  repeat split.
  - intros Hv. destruct (Z.eqb_spec (AlphaZero.visits nd) 0); [contradiction | reflexivity].
  - intros ->. reflexivity.
Qed.

(** C3, as the prototype has it: [step] returns the child stored under
    the action and raises [KeyError] when there is none; it adds one to
    the visit counter of the returned child and changes nothing else:
    every other node, and every other field of the child, is as
    before. *)
Theorem step_counts_child_visit (tree : list ANode) (self action : nat) (nd : ANode) :
  tree !! self = Some nd ->
  match dict_get action (AlphaZero.children nd) with
  | None => AlphaZero.step Obs tree self action = Raise KeyError
  | Some c =>
      forall ch, tree !! c = Some ch ->
      exists tree' ch',
        AlphaZero.step Obs tree self action = Ok (c, tree') /\
        length tree' = length tree /\
        (forall i, i <> c -> tree' !! i = tree !! i) /\
        tree' !! c = Some ch' /\
        AlphaZero.visits ch' = AlphaZero.visits ch + 1 /\
        AlphaZero.subtree_value ch' = AlphaZero.subtree_value ch /\
        AlphaZero.value_evaluation ch' = AlphaZero.value_evaluation ch /\
        AlphaZero.reward ch' = AlphaZero.reward ch /\
        AlphaZero.children ch' = AlphaZero.children ch /\
        AlphaZero.parent ch' = AlphaZero.parent ch
  end.
Proof.
  intros Hself. unfold AlphaZero.step.
  rewrite (deref_Some _ _ _ Hself). cbn [bind].
  destruct (dict_get action (AlphaZero.children nd)) as [c|] eqn:Hc; cbn; [|reflexivity].
  intros ch Hch. rewrite (deref_Some _ _ _ Hch). cbn [bind].
  eexists _, _. split; [reflexivity|].
  split; [apply length_insert|].
  split; [intros i Hi; apply list_lookup_insert_ne; congruence|].
  split; [apply list_lookup_insert_eq; eapply lookup_lt_Some; eassumption|].
  cbn. repeat split.
Qed.

End AlphaZeroFacts.

(** C5 fails as stated: at a node with [visits = 0] the call does not
    return 0, it raises. *)
Lemma default_value_zero_visits_raises :
  AlphaZero.visits Examples.az_unvisited = 0 /\
  AlphaZero.default_value unit Examples.az_unvisited = Raise ZeroDivisionError /\
  AlphaZero.default_value unit Examples.az_unvisited <> Ok fzero.
Proof. repeat split. discriminate. Qed.

Lemma default_value_quotient_or_fault_witness :
  AlphaZero.default_value unit Examples.az_fresh = Ok (fdiv fzero (f_of_int 1)).
Proof.
  apply (proj1 (default_value_quotient_or_fault unit Examples.az_fresh)).
  cbn. lia.
Defined.

(** C3 fails as stated: after a successful [step] the visit counter of
    the returned child is 2, and it was 1. *)
Lemma step_changes_child_visits :
  exists tree',
    AlphaZero.step unit Examples.az_pair 0 0 = Ok (1%nat, tree') /\
    AlphaZero.visits <$> Examples.az_pair !! 1%nat = Some 1 /\
    AlphaZero.visits <$> tree' !! 1%nat = Some 2.
Proof. eexists. repeat split. Qed.

Lemma step_counts_child_visit_witness :
  exists tree' ch',
    AlphaZero.step unit Examples.az_pair 0 0 = Ok (1%nat, tree') /\
    tree' !! 1%nat = Some ch' /\ AlphaZero.visits ch' = 2.
Proof.
  destruct (step_counts_child_visit unit Examples.az_pair 0 0 _ eq_refl _ eq_refl)
    as (tree' & ch' & Hs & _ & _ & Hc & Hv & _).
  exists tree', ch'. repeat split; assumption.
Defined.

(** * Dictionaries and masks *)

Section DictFacts.
Context {V : Type}.
Implicit Types (d : dict V) (k : nat) (v : V).

Lemma dict_get_None d k : dict_get k d = None <-> k ∉ dict_keys d.
Proof.
  induction d as [|[k' v'] d IH]; cbn.
  - split; [intros _; apply not_elem_of_nil | reflexivity].
  - destruct (Nat.eqb_spec k k') as [->|Hne].
    + split; [discriminate | intros Hn; exfalso; apply Hn; left].
    + rewrite IH. rewrite not_elem_of_cons. tauto.
Qed.

Lemma dict_get_Some_key d k v : dict_get k d = Some v -> k ∈ dict_keys d.
Proof.
  intros Hg. destruct (decide (k ∈ dict_keys d)) as [|Hn]; [assumption|].
  apply dict_get_None in Hn. congruence.
Qed.

Lemma dict_get_is_Some d k : k ∈ dict_keys d -> exists v, dict_get k d = Some v.
Proof.
  intros Hk. destruct (dict_get k d) as [v|] eqn:Hg; [eauto|].
  apply dict_get_None in Hg. contradiction.
Qed.

Lemma dict_get_elem d k v : dict_get k d = Some v -> (k, v) ∈ d.
Proof.
  induction d as [|[k' v'] d IH]; cbn; [discriminate|].
  destruct (Nat.eqb_spec k k') as [->|Hne].
  - intros [= ->]. left.
  - intros Hg. right. auto.
Qed.

Lemma dict_keys_set d k v :
  dict_keys (dict_set k v d)
  = if decide (k ∈ dict_keys d) then dict_keys d else dict_keys d ++ [k].
Proof.
  induction d as [|[k' v'] d IH]; cbn.
  - rewrite decide_False; [reflexivity | apply not_elem_of_nil].
  - destruct (Nat.eqb_spec k k') as [->|Hne]; cbn.
    + rewrite decide_True; [reflexivity | left].
    + unfold dict_keys in IH. rewrite IH.
      destruct (decide (k ∈ map fst d)) as [Hin|Hin].
      * rewrite decide_True; [reflexivity | right; assumption].
      * rewrite decide_False; [reflexivity|].
        rewrite not_elem_of_cons. auto.
Qed.

Lemma dict_get_set d k k' v :
  dict_get k' (dict_set k v d) = if Nat.eqb k' k then Some v else dict_get k' d.
Proof.
  induction d as [|[k0 v0] d IH]; cbn.
  - destruct (Nat.eqb k' k); reflexivity.
  - destruct (Nat.eqb_spec k k0) as [->|Hne]; cbn.
    + destruct (Nat.eqb k' k0); reflexivity.
    + rewrite IH. destruct (Nat.eqb_spec k' k0) as [->|Hne'].
      * destruct (Nat.eqb_spec k0 k); [congruence | reflexivity].
      * reflexivity.
Qed.
End DictFacts.

Section SampleFacts.
Context `{Scalar}.
Variable Obs : Type.

Abbreviation SNode := (AlphaZero.Node Obs).

Lemma clear_mask_spec (keys : list nat) (mask : list Z) :
  (forall a, a ∈ keys -> (a < length mask)%nat) ->
  exists mask',
    AlphaZero.clear_mask mask keys = Ok mask' /\
    length mask' = length mask /\
    forall i, mask' !! i = if decide (i ∈ keys) then
                             (if decide (i < length mask)%nat then Some 0 else None)
                           else mask !! i.
Proof.
  revert mask. induction keys as [|a keys IH]; intros mask Hlt;
    cbn [AlphaZero.clear_mask].
  - exists mask. split; [reflexivity|]. split; [reflexivity|]. intros i.
    rewrite decide_False; [reflexivity | apply not_elem_of_nil].
  - assert (Ha : (a < length mask)%nat) by (apply Hlt; left).
    destruct (Nat.ltb_spec a (length mask)) as [_|]; [|lia].
    destruct (IH (<[a := 0]> mask)) as (mask' & Hm & Hlen & Hlk).
    { intros b Hb. rewrite length_insert. apply Hlt. right. assumption. }
    rewrite length_insert in Hlen.
    exists mask'. split; [assumption|]. split; [assumption|].
    intros i. rewrite Hlk, length_insert.
    destruct (decide (i ∈ keys)) as [Hin|Hin].
    + rewrite (decide_True (P := i ∈ a :: keys)) by (right; assumption).
      reflexivity.
    + destruct (decide (i = a)) as [->|Hne].
      * rewrite (decide_True (P := a ∈ a :: keys)) by left.
        rewrite list_lookup_insert_eq by assumption.
        rewrite decide_True by assumption. reflexivity.
      * rewrite (decide_False (P := i ∈ a :: keys))
          by (rewrite not_elem_of_cons; auto).
        apply list_lookup_insert_ne. congruence.
Qed.

Lemma where_one_elem (mask : list Z) (i : nat) :
  i ∈ AlphaZero.where_one mask <-> mask !! i = Some 1.
Proof.
  unfold AlphaZero.where_one. rewrite list_elem_of_filter, elem_of_seq.
  split; [tauto|]. intros Hi. split; [assumption|].
  apply lookup_lt_Some in Hi. lia.
Qed.

Lemma where_one_NoDup (mask : list Z) : NoDup (AlphaZero.where_one mask).
Proof. apply NoDup_filter, NoDup_seq. Qed.

(** The valid actions of the mask that [sample_unexplored_action]
    builds are the unexpanded ones. *)
Lemma unexplored_mask (nd : SNode) :
  (forall a, a ∈ dict_keys (AlphaZero.children nd) ->
     (a < AlphaZero.action_space_n nd)%nat) ->
  exists mask,
    AlphaZero.clear_mask (replicate (AlphaZero.action_space_n nd) 1)
      (dict_keys (AlphaZero.children nd)) = Ok mask /\
    forall a, a ∈ AlphaZero.where_one mask <->
              (a < AlphaZero.action_space_n nd)%nat /\
              dict_get a (AlphaZero.children nd) = None.
Proof.
  intros Hkeys.
  destruct (clear_mask_spec (dict_keys (AlphaZero.children nd))
              (replicate (AlphaZero.action_space_n nd) 1)) as (mask & Hm & _ & Hlk).
  { intros a Ha. rewrite length_replicate. auto. }
  exists mask. split; [assumption|].
  intros a. rewrite where_one_elem, Hlk, dict_get_None, length_replicate.
  destruct (decide (a ∈ dict_keys (AlphaZero.children nd))) as [Hin|Hin].
  - destruct (decide (a < AlphaZero.action_space_n nd)%nat); split;
      try discriminate; tauto.
  - split.
    + intros Hone. split; [|assumption].
      apply lookup_lt_Some in Hone. rewrite length_replicate in Hone. assumption.
    + intros [Hlt _]. apply lookup_replicate_2. assumption.
Qed.

(** A dictionary with as many keys as there are actions has them all. *)
Lemma full_keys (keys : list nat) (n : nat) :
  NoDup keys -> (forall a, a ∈ keys -> (a < n)%nat) -> length keys = n ->
  forall a, (a < n)%nat -> a ∈ keys.
Proof.
  intros Hnd Hlt Hlen a Ha.
  assert (Hsub : keys ⊆+ seq 0 n).
  { apply NoDup_submseteq; [assumption|]. intros b Hb. apply elem_of_seq.
    specialize (Hlt b Hb). lia. }
  assert (Hperm : keys ≡ₚ seq 0 n).
  { apply submseteq_length_Permutation; [assumption|]. rewrite length_seq. lia. }
  rewrite Hperm. apply elem_of_seq. lia.
Qed.

(** A dictionary with fewer keys than actions misses one. *)
Lemma missing_key (keys : list nat) (n : nat) :
  NoDup keys -> (length keys < n)%nat -> exists a, (a < n)%nat /\ a ∉ keys.
Proof.
  intros Hnd Hlen.
  destruct (decide (Forall (fun a => a ∈ keys) (seq 0 n))) as [Hall|Hex].
  - exfalso.
    assert (Hsub : seq 0 n ⊆+ keys).
    { apply NoDup_submseteq; [apply NoDup_seq|].
      intros a Ha. rewrite Forall_forall in Hall. auto. }
    apply submseteq_length in Hsub. rewrite length_seq in Hsub. lia.
  - apply not_Forall_Exists in Hex; [|intros a; apply _].
    apply Exists_exists in Hex as (a & Ha & Hna).
    apply elem_of_seq in Ha. exists a. split; [lia | assumption].
Qed.

(** C4, as the prototype has it: on a node that is not fully expanded,
    [sample_unexplored_action] returns an action index in [[0, A)] that
    is not in [children]: the entry at position [draw mod k] of the
    duplicate-free list of the [k] unexpanded actions, so that uniform
    draws give a uniform choice.  On a fully expanded node it does not
    fail: it returns [space.start], as its docstring says. *)
Theorem sample_unexplored_action_spec (nd : SNode) :
  NoDup (dict_keys (AlphaZero.children nd)) ->
  (forall a, a ∈ dict_keys (AlphaZero.children nd) ->
     (a < AlphaZero.action_space_n nd)%nat) ->
  (AlphaZero.is_fully_expanded Obs nd = false ->
     exists valid,
       NoDup valid /\
       (forall a, a ∈ valid <->
          (a < AlphaZero.action_space_n nd)%nat /\
          dict_get a (AlphaZero.children nd) = None) /\
       forall draw, exists a,
         AlphaZero.sample_unexplored_action Obs nd draw = Ok a /\
         valid !! (draw mod length valid)%nat = Some a /\
         (a < AlphaZero.action_space_n nd)%nat /\
         dict_get a (AlphaZero.children nd) = None) /\
  (AlphaZero.is_fully_expanded Obs nd = true ->
     forall draw,
       AlphaZero.sample_unexplored_action Obs nd draw = Ok AlphaZero.space_start).
Proof.
  intros Hnd Hkeys.
  destruct (unexplored_mask nd Hkeys) as (mask & Hmask & Hvalid).
  unfold AlphaZero.sample_unexplored_action, AlphaZero.is_fully_expanded, dict_len.
  rewrite Hmask. cbn [bind]. unfold AlphaZero.discrete_sample.
  assert (Hklen : length (dict_keys (AlphaZero.children nd))
                  = length (AlphaZero.children nd))
    by apply length_map.
  split.
  - intros Hfull. apply Nat.eqb_neq in Hfull.
    exists (AlphaZero.where_one mask).
    split; [apply where_one_NoDup|]. split; [assumption|].
    assert (Hle : (length (dict_keys (AlphaZero.children nd))
                   <= AlphaZero.action_space_n nd)%nat).
    { assert (Hsub : dict_keys (AlphaZero.children nd)
                       ⊆+ seq 0 (AlphaZero.action_space_n nd)).
      { apply NoDup_submseteq; [assumption|].
        intros a Ha. apply elem_of_seq. specialize (Hkeys a Ha). lia. }
      apply submseteq_length in Hsub. rewrite length_seq in Hsub. assumption. }
    destruct (missing_key (dict_keys (AlphaZero.children nd))
                (AlphaZero.action_space_n nd) Hnd) as (a0 & Ha0 & Hn0); [lia|].
    assert (Hin0 : a0 ∈ AlphaZero.where_one mask).
    { apply Hvalid. split; [assumption | apply dict_get_None; assumption]. }
    assert (Hpos : (0 < length (AlphaZero.where_one mask))%nat).
    { destruct (AlphaZero.where_one mask); [inversion Hin0 | cbn; lia]. }
    intros draw.
    destruct (lookup_lt_is_Some_2 (AlphaZero.where_one mask)
                (draw mod length (AlphaZero.where_one mask))%nat) as [a Ha].
    { apply Nat.mod_upper_bound. lia. }
    exists a. rewrite Ha. split; [reflexivity|]. split; [reflexivity|].
    apply Hvalid. eapply list_elem_of_lookup_2. eassumption.
  - intros Hfull draw. apply Nat.eqb_eq in Hfull.
    assert (Hempty : AlphaZero.where_one mask = []).
    { destruct (AlphaZero.where_one mask) as [|a l] eqn:Hw; [reflexivity|].
      exfalso. assert (Ha : a ∈ a :: l) by left.
      apply Hvalid in Ha as [Hlt Hnone]. apply dict_get_None in Hnone.
      apply Hnone. eapply full_keys; try eassumption. lia. }
    rewrite Hempty. reflexivity.
Qed.
End SampleFacts.

(** C4 fails as stated: on a fully expanded node the call returns action
    0 and raises nothing. *)
Lemma sample_unexplored_action_full_returns :
  AlphaZero.is_fully_expanded unit Examples.az_full = true /\
  AlphaZero.sample_unexplored_action unit Examples.az_full 7 = Ok 0%nat.
Proof. split; reflexivity. Qed.

Lemma sample_unexplored_action_spec_witness :
  exists a,
    AlphaZero.sample_unexplored_action unit Examples.az_half 5 = Ok a /\
    (a < 2)%nat /\ dict_get a (AlphaZero.children Examples.az_half) = None.
Proof.
  assert (Hnd : NoDup (dict_keys (AlphaZero.children Examples.az_half))).
  { cbn. apply NoDup_singleton. }
  assert (Hk : forall a, a ∈ dict_keys (AlphaZero.children Examples.az_half) ->
                 (a < AlphaZero.action_space_n Examples.az_half)%nat).
  { cbn. intros a Ha. apply list_elem_of_singleton in Ha. lia. }
  destruct (sample_unexplored_action_spec unit Examples.az_half Hnd Hk) as [Hsome _].
  destruct (Hsome eq_refl) as (valid & _ & _ & Hdraw).
  destruct (Hdraw 5%nat) as (a & Hs & _ & Hlt & Hnone).
  exists a. repeat split; assumption.
Defined.


(** * The UCB selection policy *)

Section QOrder.
Lemma Qgtb_lt (x y : Q) : Qgtb x y = true <-> (y < x)%Q.
Proof.
  unfold Qgtb. rewrite negb_true_iff, <- not_true_iff_false, Qle_bool_iff.
  split; [apply Qnot_le_lt | apply Qlt_not_le].
Qed.

#[export] Instance QScalarOrder : ScalarOrder QScalar.
Proof.
  split; cbn.
  - intros x y z Hxy Hyz. apply Qgtb_lt. apply Qgtb_lt in Hxy, Hyz.
    eapply Qlt_trans; eassumption.
  - intros x y z Hxy. apply Qgtb_lt in Hxy.
    destruct (Qlt_le_dec y z) as [Hlt|Hle].
    + left. apply Qgtb_lt. assumption.
    + right. apply Qgtb_lt. eapply Qle_lt_trans; eassumption.
Qed.
End QOrder.

Section MaxFacts.
Context `{SO : ScalarOrder}.

(** [max] returns the first element, in iteration order, whose key no
    other element exceeds. *)
Lemma max_loop_first_max (key : nat -> result F) (rest : list nat) :
  forall (best : nat) (best_key : F),
  key best = Ok best_key ->
  (forall x, x ∈ rest -> exists k, key x = Ok k) ->
  exists a before after ka,
    max_loop key best best_key rest = Ok a /\
    best :: rest = before ++ a :: after /\
    key a = Ok ka /\
    (forall b, b ∈ before -> exists kb, key b = Ok kb /\ fgt ka kb = true) /\
    (forall b, b ∈ after -> exists kb, key b = Ok kb /\ fgt kb ka = false).
Proof.
  induction rest as [|x rest IH]; intros best bk Hbest Hkeys; cbn [max_loop].
  - exists best, [], [], bk. repeat split; try assumption;
      intros b Hb; inversion Hb.
  - destruct (Hkeys x) as [k Hk]; [left|]. rewrite Hk. cbn [bind].
    assert (Hrest : forall y, y ∈ rest -> exists ky, key y = Ok ky)
      by (intros y Hy; apply Hkeys; right; assumption).
    destruct (fgt k bk) eqn:Hgt.
    + destruct (IH x k Hk Hrest) as (a & before & after & ka & Hm & Hsplit & Ha & Hb & Hafter).
      exists a, (best :: before), after, ka.
      split; [assumption|]. split; [cbn; congruence|]. split; [assumption|].
      split; [|assumption].
      intros b Hin. apply elem_of_cons in Hin as [->|Hin]; [|auto].
      exists bk. split; [assumption|].
      destruct before as [|x' before].
      * cbn in Hsplit. injection Hsplit as -> _. congruence.
      * cbn in Hsplit. injection Hsplit as <- _.
        destruct (Hb x) as (kx & Hkx & Hgx); [left|].
        eapply fgt_trans; [eassumption|]. congruence.
    + destruct (IH best bk Hbest Hrest) as (a & before & after & ka & Hm & Hsplit & Ha & Hb & Hafter).
      destruct before as [|b0 before].
      * cbn in Hsplit. injection Hsplit as <- <-.
        exists best, [], (x :: rest), ka.
        split; [assumption|]. split; [reflexivity|]. split; [assumption|].
        split; [intros b Hin; inversion Hin|].
        intros b Hin. apply elem_of_cons in Hin as [->|Hin]; [|auto].
        exists k. split; [assumption|]. congruence.
      * cbn in Hsplit. injection Hsplit as <- ->.
        exists a, (best :: x :: before), after, ka.
        split; [assumption|]. split; [reflexivity|]. split; [assumption|].
        split; [|assumption].
        intros b Hin. apply elem_of_cons in Hin as [->|Hin]; [apply Hb; left|].
        apply elem_of_cons in Hin as [->|Hin]; [|apply Hb; right; assumption].
        exists k. split; [assumption|].
        destruct (Hb best) as (kb & Hkb & Hgb); [left|].
        assert (kb = bk) by congruence. subst kb.
        destruct (fgt_cotrans ka bk k Hgb) as [Hc|Hc]; [congruence | assumption].
Qed.

Lemma py_max_first_max (key : nat -> result F) (xs : list nat) :
  xs <> [] ->
  (forall x, x ∈ xs -> exists k, key x = Ok k) ->
  exists a before after ka,
    py_max xs key = Ok a /\
    xs = before ++ a :: after /\
    key a = Ok ka /\
    (forall b, b ∈ before -> exists kb, key b = Ok kb /\ fgt ka kb = true) /\
    (forall b, b ∈ after -> exists kb, key b = Ok kb /\ fgt kb ka = false).
Proof.
  destruct xs as [|x rest]; [congruence|]. intros _ Hkeys.
  destruct (Hkeys x) as [k Hk]; [left|].
  unfold py_max. rewrite Hk. cbn [bind].
  apply max_loop_first_max; [assumption|].
  intros y Hy. apply Hkeys. right. assumption.
Qed.
End MaxFacts.

Section UCBFacts.
Context `{SO : ScalarOrder}.
Variable Obs : Type.

Abbreviation UNode := (AlphaZero.Node Obs).

(** The score of an expanded action whose child has been visited. *)
Lemma ucb_defined (c : F) (tree : list UNode) (nd : UNode) (a : nat) :
  (forall b child, (b, child) ∈ AlphaZero.children nd ->
     exists ch, tree !! child = Some ch /\ AlphaZero.visits ch <> 0) ->
  a ∈ dict_keys (AlphaZero.children nd) ->
  exists k, AlphaZero.ucb Obs c tree nd a = Ok k.
Proof.
  intros Hch Ha. unfold AlphaZero.ucb.
  destruct (dict_get_is_Some _ _ Ha) as [child Hget]. rewrite Hget. cbn [of_option bind].
  destruct (Hch a child (dict_get_elem _ _ _ Hget)) as (ch & Hlk & Hv).
  rewrite (deref_Some _ _ _ Hlk). cbn [bind].
  unfold AlphaZero.default_value, AlphaZero.truediv_int.
  destruct (Z.eqb_spec (AlphaZero.visits ch) 0) as [|_]; [contradiction|].
  cbn [bind]. eauto.
Qed.

(** C2, as the prototype has it: UCB returns "expand here" on a node
    that is not fully expanded; on a fully expanded node whose children
    have all been visited it returns an expanded action whose score
    [child.default_value() + c * sqrt(n.visits / child.visits)] no
    other action exceeds, and among the actions of maximal score the
    one that was expanded first (the iteration order of the
    dictionary), not the one of lowest index. *)
Theorem UCB_first_expanded_argmax (c : F) (tree : list UNode) (node : nat) (nd : UNode) :
  tree !! node = Some nd ->
  (AlphaZero.is_fully_expanded Obs nd = false ->
     AlphaZero.UCB Obs c tree node = Ok None) /\
  (AlphaZero.is_fully_expanded Obs nd = true ->
   AlphaZero.children nd <> [] ->
   (forall b child, (b, child) ∈ AlphaZero.children nd ->
      exists ch, tree !! child = Some ch /\ AlphaZero.visits ch <> 0) ->
   exists a before after score,
     AlphaZero.UCB Obs c tree node = Ok (Some a) /\
     dict_keys (AlphaZero.children nd) = before ++ a :: after /\
     AlphaZero.ucb Obs c tree nd a = Ok score /\
     (forall b, b ∈ before ->
        exists sb, AlphaZero.ucb Obs c tree nd b = Ok sb /\ fgt score sb = true) /\
     (forall b, b ∈ after ->
        exists sb, AlphaZero.ucb Obs c tree nd b = Ok sb /\ fgt sb score = false)).
Proof.
  intros Hnode. unfold AlphaZero.UCB. rewrite (deref_Some _ _ _ Hnode). cbn [bind].
  split.
  - intros ->. reflexivity.
  - intros -> Hne Hch. cbn [negb].
    destruct (py_max_first_max (AlphaZero.ucb Obs c tree nd)
                (dict_keys (AlphaZero.children nd)))
      as (a & before & after & ka & Hm & Hsplit & Ha & Hb & Hafter).
    { destruct (AlphaZero.children nd); [congruence | discriminate]. }
    { intros x Hx. apply ucb_defined; assumption. }
    exists a, before, after, ka. rewrite Hm. cbn [bind]. auto.
Qed.
End UCBFacts.

(** C2 fails as stated: actions 0 and 1 have the same score, and UCB
    returns action 1, which was expanded first. *)
Lemma UCB_tie_not_lowest_index :
  AlphaZero.UCB unit 1%Q Examples.az_tie 0 = Ok (Some 1%nat) /\
  (exists nd s,
     Examples.az_tie !! 0%nat = Some nd /\
     AlphaZero.is_fully_expanded unit nd = true /\
     AlphaZero.ucb unit 1%Q Examples.az_tie nd 0 = Ok s /\
     AlphaZero.ucb unit 1%Q Examples.az_tie nd 1 = Ok s).
Proof.
  split; [reflexivity|].
  eexists _, _. split; [reflexivity|]. split; [reflexivity|]. split; reflexivity.
Qed.

Lemma UCB_first_expanded_argmax_witness :
  exists a, AlphaZero.UCB unit 1%Q Examples.az_tie 0 = Ok (Some a).
Proof.
  destruct (@UCB_first_expanded_argmax QScalar _ unit 1%Q Examples.az_tie 0 _ eq_refl)
    as [_ Hfull].
  destruct Hfull as (a & _ & _ & _ & Ha & _).
  - reflexivity.
  - discriminate.
  - intros b child Hin. cbn in Hin.
    apply elem_of_cons in Hin as [Hin|Hin].
    + injection Hin as -> ->. eexists. split; [reflexivity | discriminate].
    + apply list_elem_of_singleton in Hin. injection Hin as -> ->.
      eexists. split; [reflexivity | discriminate].
  - exists a. exact Ha.
Defined.

(** * The tree-evaluation distribution *)

#[export] Instance QScalarUnit : ScalarUnit QScalar.
Proof. split; reflexivity. Qed.

Section PolicyFacts.
Context `{SU : ScalarUnit}.
Variable Obs : Type.
Variable tensor_max : list F -> F.
Variable feq : F -> F -> bool.
Variable softmax : list F -> list F.
Variable logits_valid : list F -> bool.
Variable temperature : option F.
Variable _probs : Core.Node Obs -> list F.

Lemma set_last_one_hot (n : nat) :
  Policies.set_last (replicate (n + 1) fzero) fone = Ok (replicate n fzero ++ [fone]).
Proof.
  replace (replicate (n + 1) fzero) with (replicate n fzero ++ [fzero])
    by (rewrite replicate_add; reflexivity).
  unfold Policies.set_last.
  destruct (replicate n fzero ++ [fzero]) eqn:Hl.
  { apply (f_equal length) in Hl. rewrite length_app in Hl. cbn in Hl. lia. }
  rewrite <- Hl. f_equal.
  rewrite length_app, length_replicate. cbn [length].
  replace (n + 1 - 1)%nat with (length (replicate n fzero) + 0)%nat
    by (rewrite length_replicate; lia).
  rewrite insert_app_r. reflexivity.
Qed.

Lemma fold_zeros (n : nat) : fold_left fadd (replicate n fzero) fzero = fzero.
Proof.
  induction n as [|n IH]; cbn; [reflexivity|].
  rewrite fadd_zero_zero. assumption.
Qed.

Lemma tensor_sum_one_hot (n : nat) :
  Policies.tensor_sum (replicate n fzero ++ [fone]) = fone.
Proof.
  unfold Policies.tensor_sum. rewrite fold_left_app, fold_zeros. cbn.
  apply fadd_zero_one.
Qed.

Lemma normalise_one_hot (n : nat) :
  map (fun p => fdiv p fone) (replicate n fzero ++ [fone]) = replicate n fzero ++ [fone].
Proof.
  rewrite map_app. cbn. rewrite fdiv_one_one. f_equal.
  induction n as [|n IH]; cbn; [reflexivity|].
  rewrite fdiv_zero_one, IH. reflexivity.
Qed.

(** The validation of torch accepts a one-hot vector. *)
Lemma simplex_one_hot (n : nat) :
  Policies.simplex (replicate n fzero ++ [fone]) = true.
Proof.
  unfold Policies.simplex. rewrite tensor_sum_one_hot, fsub_one_one, fabs_zero.
  rewrite fgt_tolerance, andb_true_r.
  rewrite forallb_app. cbn. rewrite fle_zero_one, andb_true_r.
  induction n as [|n IH]; cbn; [reflexivity|].
  rewrite fle_zero_zero, IH. reflexivity.
Qed.

Lemma Categorical_one_hot (n : nat) :
  Policies.Categorical (replicate n fzero ++ [fone]) = Ok (replicate n fzero ++ [fone]).
Proof.
  unfold Policies.Categorical. rewrite tensor_sum_one_hot, normalise_one_hot.
  rewrite simplex_one_hot. reflexivity.
Qed.

(** C10: on a node without children, [softmaxed_distribution] with
    [include_self=True] returns, whatever the temperature, the
    distribution over [A + 1] slots that gives probability 1 to the
    last slot, the node itself, and 0 to every action. *)
Theorem leaf_distribution_selects_self (node : Core.Node Obs) :
  Core.children node = [] ->
  exists dist,
    Policies.softmaxed_distribution Obs tensor_max feq softmax logits_valid temperature
      _probs node true = Ok dist /\
    dist = replicate (Core.action_space_n node) fzero ++ [fone] /\
    length dist = (Core.action_space_n node + 1)%nat /\
    dist !! Core.action_space_n node = Some fone /\
    forall a, (a < Core.action_space_n node)%nat -> dist !! a = Some fzero.
Proof.
  intros Hleaf. eexists. split; [|split; [reflexivity|]].
  - unfold Policies.softmaxed_distribution. rewrite Hleaf. cbn [dict_len length Nat.eqb andb].
    rewrite set_last_one_hot. cbn [bind]. rewrite Categorical_one_hot. reflexivity.
  - split; [rewrite length_app, length_replicate; reflexivity|].
    split.
    + rewrite lookup_app_r by (rewrite length_replicate; lia).
      rewrite length_replicate, Nat.sub_diag. reflexivity.
    + intros a Ha. rewrite lookup_app_l by (rewrite length_replicate; lia).
      apply lookup_replicate_2. assumption.
Qed.
End PolicyFacts.

Lemma leaf_distribution_selects_self_witness :
  exists dist,
    Policies.softmaxed_distribution unit Examples.q_tensor_max Qeq_bool
      Examples.q_softmax Examples.q_logits_valid (Some 0%Q) Examples.visit_probs
      Examples.leaf3 true = Ok dist /\
    dist = [0%Q; 0%Q; 0%Q; 1%Q].
Proof.
  destruct (@leaf_distribution_selects_self QScalar _ unit Examples.q_tensor_max Qeq_bool
              Examples.q_softmax Examples.q_logits_valid (Some 0%Q) Examples.visit_probs
              Examples.leaf3 eq_refl)
    as (dist & Hd & Heq & _).
  exists dist. split; [exact Hd | exact Heq].
Defined.

(** * The backup *)

Section BackupFacts.
Context `{Scalar}.
Variable Obs : Type.
Variable gamma : F.

Abbreviation BNode := (Core.Node Obs).

Implicit Types (ns : list BNode) (o : option nat) (g : F).

Lemma parent_chain_ext fuel ns ns' o :
  (forall j, parent_of Obs ns' j = parent_of Obs ns j) ->
  parent_chain Obs fuel ns' o = parent_chain Obs fuel ns o.
Proof.
  intros Hpar. revert o. induction fuel as [|fuel IH]; intros [i|]; cbn; try reflexivity.
  rewrite Hpar, IH. reflexivity.
Qed.

Lemma returns_ext ns ns' path g :
  (forall j, j ∈ path -> ns' !! j = ns !! j) ->
  returns Obs gamma ns' path g = returns Obs gamma ns path g.
Proof.
  revert g. induction path as [|i path IH]; intros g Hsame; cbn; [reflexivity|].
  rewrite (Hsame i) by left.
  destruct (ns !! i) as [nd|]; [|reflexivity].
  cbn. rewrite IH; [reflexivity|]. intros j Hj. apply Hsame. right. assumption.
Qed.

(** A walk along the parent links goes down in the arena. *)
Lemma parent_chain_bound r0 ns fuel :
  parents_decrease Obs r0 ns ->
  forall i j, (r0 <= i)%nat -> j ∈ parent_chain Obs fuel ns (Some i) ->
              (r0 <= j <= i)%nat.
Proof.
  intros Hwf. induction fuel as [|fuel IH]; intros i j Hi Hj; cbn in Hj.
  - inversion Hj.
  - apply elem_of_cons in Hj as [->|Hj]; [lia|].
    unfold parent_of in Hj. destruct (ns !! i) as [nd|] eqn:Hnd.
    + destruct (Core.parent nd) as [p|] eqn:Hp.
      * destruct (Hwf i nd p Hi Hnd Hp) as [Hr0 Hlt].
        specialize (IH p j Hr0 Hj). lia.
      * destruct fuel; inversion Hj.
    + destruct fuel; inversion Hj.
Qed.

Lemma parent_chain_above r0 ns fuel i nd :
  parents_decrease Obs r0 ns -> (r0 <= i)%nat -> ns !! i = Some nd ->
  forall j, j ∈ parent_chain Obs fuel ns (Core.parent nd) -> (j < i)%nat.
Proof.
  intros Hwf Hi Hnd j Hj. destruct (Core.parent nd) as [p|] eqn:Hp.
  - destruct (Hwf i nd p Hi Hnd Hp) as [Hr0 Hlt].
    pose proof (parent_chain_bound r0 ns fuel Hwf p j Hr0 Hj). lia.
  - destruct fuel; inversion Hj.
Qed.

Lemma parent_of_add_visit ns i nd g k :
  ns !! i = Some nd ->
  forall j, parent_of Obs (<[i := Core.add_visit Obs nd g k]> ns) j = parent_of Obs ns j.
Proof.
  intros Hnd j. unfold parent_of. destruct (decide (j = i)) as [->|Hne].
  - rewrite list_lookup_insert_eq by (eapply lookup_lt_Some; eassumption).
    rewrite Hnd. reflexivity.
  - rewrite list_lookup_insert_ne by congruence. reflexivity.
Qed.

Lemma parents_decrease_add_visit r0 ns i nd g k :
  ns !! i = Some nd -> parents_decrease Obs r0 ns ->
  parents_decrease Obs r0 (<[i := Core.add_visit Obs nd g k]> ns).
Proof.
  intros Hnd Hwf j ndj p Hj Hlk Hp. destruct (decide (j = i)) as [->|Hne].
  - rewrite list_lookup_insert_eq in Hlk by (eapply lookup_lt_Some; eassumption).
    injection Hlk as <-. exact (Hwf i nd p Hj Hnd Hp).
  - rewrite list_lookup_insert_ne in Hlk by congruence. exact (Hwf j ndj p Hj Hlk Hp).
Qed.

(** The loop of the backup changes the nodes of the walk, each by its
    own return, and no other node. *)
Lemma backup_loop_spec (r0 : nat) (k : Z) (fuel : nat) :
  forall ns o g,
  parents_decrease Obs r0 ns ->
  (forall i, o = Some i -> (r0 <= i < length ns)%nat /\ (i < fuel)%nat) ->
  exists ns',
    Core.backup_loop Obs gamma fuel ns o g k = Ok ns' /\
    length ns' = length ns /\
    (forall pos i, parent_chain Obs fuel ns o !! pos = Some i ->
       exists nd gi, ns !! i = Some nd /\
         returns Obs gamma ns (parent_chain Obs fuel ns o) g !! pos = Some gi /\
         ns' !! i = Some (Core.add_visit Obs nd gi k)) /\
    (forall j, j ∉ parent_chain Obs fuel ns o -> ns' !! j = ns !! j).
Proof.
  induction fuel as [|fuel IH]; intros ns o g Hwf Ho.
  - destruct o as [i|]; [destruct (Ho i eq_refl); lia|].
    exists ns. cbn. repeat split; try reflexivity. intros pos i Hpos. inversion Hpos.
  - destruct o as [i|].
    2:{ exists ns. cbn. repeat split; try reflexivity. intros pos i Hpos. inversion Hpos. }
    destruct (Ho i eq_refl) as [[Hr0 Hlen] Hfuel].
    destruct (lookup_lt_is_Some_2 ns i Hlen) as [nd Hnd].
    cbn [Core.backup_loop]. rewrite (deref_Some _ _ _ Hnd). cbn [bind].
    set (g' := fadd (fmul g gamma) (Core.reward nd)).
    destruct (IH (<[i := Core.add_visit Obs nd g' k]> ns) (Core.parent nd) g')
      as (ns' & Hrun & Hlen' & Hpath & Hother).
    { apply parents_decrease_add_visit; assumption. }
    { intros p Hp. destruct (Hwf i nd p Hr0 Hnd Hp). rewrite length_insert. lia. }
    rewrite (parent_chain_ext fuel ns _ _ (parent_of_add_visit ns i nd g' k Hnd))
      in Hpath, Hother.
    pose proof (parent_chain_above r0 ns fuel i nd Hwf Hr0 Hnd) as Hlt.
    exists ns'. split; [exact Hrun|].
    split; [rewrite Hlen'; apply length_insert|].
    cbn [parent_chain].
    replace (parent_of Obs ns i) with (Core.parent nd)
      by (unfold parent_of; rewrite Hnd; reflexivity).
    split.
    + intros [|pos] j Hpos; cbn in Hpos.
      * injection Hpos as <-. exists nd, g'.
        split; [exact Hnd|]. split; [cbn [returns]; rewrite Hnd; reflexivity|].
        rewrite Hother by (intros Hin; apply Hlt in Hin; lia).
        apply list_lookup_insert_eq. assumption.
      * destruct (Hpath pos j Hpos) as (ndj & gj & Hndj & Hret & Hres).
        assert (Hji : (j < i)%nat).
        { apply Hlt. eapply list_elem_of_lookup_2. eassumption. }
        exists ndj, gj.
        split; [rewrite <- Hndj; symmetry; apply list_lookup_insert_ne; lia|].
        split; [|exact Hres].
        cbn [returns]. rewrite Hnd. cbn. rewrite <- Hret. f_equal.
        symmetry. apply returns_ext. intros j' Hj'. apply Hlt in Hj'.
        apply list_lookup_insert_ne. lia.
    + intros j Hj. apply not_elem_of_cons in Hj as [Hne Hj].
      rewrite Hother by assumption. apply list_lookup_insert_ne. congruence.
Qed.

(** The walk starts at the start node and ends at a root. *)
Lemma parent_chain_ends r0 ns fuel :
  parents_decrease Obs r0 ns ->
  forall i, (r0 <= i < length ns)%nat -> (i < fuel)%nat ->
  head (parent_chain Obs fuel ns (Some i)) = Some i /\
  exists r, last (parent_chain Obs fuel ns (Some i)) = Some r /\
            parent_of Obs ns r = None /\ (r < length ns)%nat.
Proof.
  intros Hwf. induction fuel as [|fuel IH]; intros i Hi Hfuel; [lia|].
  cbn [parent_chain]. split; [reflexivity|].
  destruct (parent_of Obs ns i) as [p|] eqn:Hp.
  - unfold parent_of in Hp.
    destruct (ns !! i) as [nd|] eqn:Hnd; [|discriminate].
    destruct (Hwf i nd p (proj1 Hi) Hnd Hp) as [Hr0 Hlt].
    destruct (IH p) as [_ (r & Hlast & Hroot)]; [lia | lia |].
    exists r. split; [|assumption].
    rewrite last_cons, Hlast. reflexivity.
  - exists i. split; [|split; [assumption | lia]].
    destruct fuel; reflexivity.
Qed.

Lemma returns_length ns path :
  (forall j, j ∈ path -> is_Some (ns !! j)) ->
  forall g, length (returns Obs gamma ns path g) = length path.
Proof.
  induction path as [|i path IH]; intros Hall g; cbn; [reflexivity|].
  destruct (Hall i) as [nd Hnd]; [left|]. rewrite Hnd. cbn.
  rewrite IH; [reflexivity|]. intros j Hj. apply Hall. right. assumption.
Qed.

(** The accumulator at a node of the walk is the discounted accumulator
    of the node before, plus the reward of the node. *)
Lemma returns_recurrence ns path :
  forall g pos i nd,
  path !! pos = Some i -> ns !! i = Some nd ->
  (forall j, j ∈ path -> is_Some (ns !! j)) ->
  returns Obs gamma ns path g !! pos
  = Some (fadd (fmul (match pos with
                      | O => g
                      | S pos' => default g (returns Obs gamma ns path g !! pos')
                      end) gamma) (Core.reward nd)).
Proof.
  induction path as [|i0 path IH]; intros g pos i nd Hpos Hnd Hall; [inversion Hpos|].
  destruct (Hall i0) as [nd0 Hnd0]; [left|].
  assert (Hall' : forall j, j ∈ path -> is_Some (ns !! j))
    by (intros j Hj; apply Hall; right; assumption).
  cbn [returns]. rewrite Hnd0. destruct pos as [|pos]; cbn in Hpos |- *.
  - injection Hpos as ->. rewrite Hnd in Hnd0. injection Hnd0 as ->. reflexivity.
  - rewrite (IH _ pos i nd Hpos Hnd Hall').
    destruct pos as [|pos]; [reflexivity|].
    cbn.
    destruct (lookup_lt_is_Some_2
                (returns Obs gamma ns path (fadd (fmul g gamma) (Core.reward nd0))) pos)
      as [gp Hgp].
    { rewrite returns_length by assumption. apply lookup_lt_Some in Hpos. lia. }
    rewrite Hgp. cbn. do 3 f_equal.
    assert (Hdef : forall o : option F, o = Some gp -> gp = default g o)
      by (intros ? ->; reflexivity).
    apply Hdef. exact Hgp.
Qed.
End BackupFacts.

Section BackupTheorem.
Context `{Scalar}.
Variable Obs : Type.
Variable Env : Type.
Variable gamma : F.

Lemma backup_unfold (st : Core.State Obs Env) (start : nat) (v : F) (k : Z) ns' :
  Core.backup_loop Obs gamma (length (Core.nodes st)) (Core.nodes st) (Some start) v k
  = Ok ns' ->
  Core.backup Obs Env gamma st start v k = Ok (Core.set_nodes Obs Env st ns').
Proof. intros Hrun. unfold Core.backup. rewrite Hrun. reflexivity. Qed.

(** C1: a backup from [start] with leaf estimate [v] walks the parent
    links from [start] to the root.  The accumulator starts at [v]; at
    each node of the walk, [start] included, it first becomes
    [gamma * g + n.reward], and that value is then added to
    [n.subtree_sum] while [n.visits] grows by one.  No other node
    changes, and neither do the environments. *)
Theorem backup_walks_parent_chain (st : Core.State Obs Env) (start : nat) (v : F) :
  parents_decrease Obs 0 (Core.nodes st) ->
  (start < length (Core.nodes st))%nat ->
  exists st',
    Core.backup Obs Env gamma st start v 1 = Ok st' /\
    Core.envs st' = Core.envs st /\
    length (Core.nodes st') = length (Core.nodes st) /\
    head (path_to_root Obs (Core.nodes st) start) = Some start /\
    (exists r, last (path_to_root Obs (Core.nodes st) start) = Some r /\
               parent_of Obs (Core.nodes st) r = None) /\
    (forall pos i, path_to_root Obs (Core.nodes st) start !! pos = Some i ->
       exists nd nd' g,
         Core.nodes st !! i = Some nd /\
         g = fadd (fmul (match pos with
                         | O => v
                         | S pos' =>
                             default v
                               (returns Obs gamma (Core.nodes st)
                                  (path_to_root Obs (Core.nodes st) start) v !! pos')
                         end) gamma) (Core.reward nd) /\
         returns Obs gamma (Core.nodes st)
           (path_to_root Obs (Core.nodes st) start) v !! pos = Some g /\
         Core.nodes st' !! i = Some nd' /\
         nd' = Core.add_visit Obs nd g 1 /\
         Core.subtree_sum nd' = fadd (Core.subtree_sum nd) g /\
         Core.visits nd' = Core.visits nd + 1) /\
    (forall j, j ∉ path_to_root Obs (Core.nodes st) start ->
       Core.nodes st' !! j = Core.nodes st !! j).
Proof.
  intros Hwf Hstart. unfold path_to_root.
  destruct (backup_loop_spec Obs gamma 0 1 (length (Core.nodes st)) (Core.nodes st)
              (Some start) v Hwf) as (ns' & Hrun & Hlen & Hpath & Hother).
  { intros i [= <-]. lia. }
  destruct (parent_chain_ends Obs 0 (Core.nodes st) (length (Core.nodes st)) Hwf start)
    as [Hhead (r & Hlast & Hroot & _)]; [lia | lia |].
  exists (Core.set_nodes Obs Env st ns').
  split; [apply backup_unfold; assumption|].
  split; [reflexivity|]. split; [exact Hlen|]. split; [exact Hhead|].
  split; [exists r; split; assumption|].
  split; [|exact Hother].
  intros pos i Hpos.
  destruct (Hpath pos i Hpos) as (nd & g & Hnd & Hret & Hres).
  exists nd, (Core.add_visit Obs nd g 1), g.
  split; [exact Hnd|]. split.
  - assert (Hsome : Some g = Some (fadd (fmul (match pos with
                         | O => v
                         | S pos' =>
                             default v
                               (returns Obs gamma (Core.nodes st)
                                  (parent_chain Obs (length (Core.nodes st))
                                     (Core.nodes st) (Some start)) v !! pos')
                         end) gamma) (Core.reward nd))).
    { rewrite <- Hret. apply (returns_recurrence Obs gamma _ _ v pos i nd Hpos Hnd).
      intros j Hj. apply list_elem_of_lookup in Hj as [pj Hpj].
      destruct (Hpath pj j Hpj) as (ndj & _ & Hndj & _). eauto. }
    congruence.
  - split; [exact Hret|]. split; [exact Hres|]. repeat split.
Qed.
End BackupTheorem.

Lemma chain2_parents_decrease : parents_decrease unit 0 (Core.nodes Examples.chain2).
Proof.
  intros i nd p _ Hnd Hp.
  destruct i as [|[|i]]; cbn in Hnd; try discriminate;
    injection Hnd as <-; cbn in Hp; try discriminate.
  injection Hp as <-. lia.
Qed.

Lemma backup_walks_parent_chain_witness :
  exists st',
    Core.backup unit unit (1 # 2)%Q Examples.chain2 1 4%Q 1 = Ok st' /\
    path_to_root unit (Core.nodes Examples.chain2) 1 = [1%nat; 0%nat] /\
    Core.subtree_sum <$> Core.nodes st' !! 1%nat = Some (0 + (4 * (1 # 2) + 2))%Q /\
    Core.visits <$> Core.nodes st' !! 1%nat = Some 1.
Proof.
  destruct (@backup_walks_parent_chain QScalar unit unit (1 # 2)%Q Examples.chain2 1 4%Q
              chain2_parents_decrease)
    as (st' & Hrun & _ & _ & _ & _ & Hpath & _); [cbn; lia|].
  exists st'. split; [exact Hrun|]. split; [reflexivity|].
  destruct (Hpath 0%nat 1%nat eq_refl) as (nd & nd' & g & Hnd & Hg & _ & Hnd' & _ & Hsum & Hvis).
  injection Hnd as <-. rewrite Hnd'. cbn [fmap option_fmap option_map].
  rewrite Hsum, Hvis. subst g. split; reflexivity.
Defined.

(** * The driver on a terminal root *)

Section TerminalRoot.
Context `{Scalar}.
Variables (Obs Env : Type).
Variable env_step : Env -> nat -> Env * (Obs * F * bool * bool).
Variable env_sample : Env -> Env * nat.
Variable selection_policy : list (Core.Node Obs) -> nat -> result (option nat).
Variable expansion_policy : option (list (Core.Node Obs) -> nat -> nat -> result nat).
Variable gamma : F.
Variable value_fn : Core.estimator.
Variable rand : nat -> nat.

Abbreviation iteration_t :=
  (Core.iteration Obs Env env_step env_sample selection_policy expansion_policy
     gamma value_fn rand).
Abbreviation build_tree_t :=
  (Core.build_tree Obs Env env_step env_sample selection_policy expansion_policy
     gamma value_fn rand).

(** One turn on a terminal root: the selection stops at the root, and the
    backup of 0 counts one visit and adds the root's own reward. *)
Lemma iteration_terminal_root (st : Core.State Obs Env) (r : nat) (nd : Core.Node Obs) :
  Core.nodes st !! r = Some nd ->
  Core.terminal nd = true ->
  Core.parent nd = None ->
  iteration_t st r
  = Ok (Core.set_nodes Obs Env st
          (<[r := Core.add_visit Obs (Core.set_value_evaluation Obs nd fzero)
                    (terminal_gain Obs gamma nd) 1]> (Core.nodes st))).
Proof.
  intros Hnd Hterm Hpar.
  assert (Hlen : (r < length (Core.nodes st))%nat) by (eapply lookup_lt_Some; eassumption).
  unfold Core.iteration, Core.select_node_to_expand.
  destruct (length (Core.nodes st)) as [|n] eqn:Hn; [lia|].
  cbn [Core.select_loop]. rewrite (deref_Some _ _ _ Hnd). cbn [bind].
  unfold Core.is_terminal. rewrite Hterm. cbn [bind].
  rewrite (deref_Some _ _ _ Hnd). cbn [bind]. rewrite Hterm.
  unfold Core.backup. cbn [Core.set_nodes Core.nodes].
  rewrite length_insert, Hn. cbn [Core.backup_loop].
  assert (Hr : <[r := Core.set_value_evaluation Obs nd fzero]> (Core.nodes st) !! r
               = Some (Core.set_value_evaluation Obs nd fzero))
    by (apply list_lookup_insert_eq; lia).
  rewrite (deref_Some _ _ _ Hr). cbn [bind].
  cbn [Core.set_value_evaluation Core.parent Core.reward]. rewrite Hpar.
  destruct n; cbn [Core.backup_loop bind]; rewrite list_insert_insert_eq; reflexivity.
Qed.

(** C9, as the driver has it.  [search] always builds a root that is not
    terminal, so a terminal root is met by [build_tree] on a node flagged
    terminal.  There no expansion occurs: no node is created and the root
    acquires no children; the loop ends with
    [root.visits = max(visits before, budget)]; every turn sets
    [value_evaluation] to 0 and adds [gamma * 0 + root.reward] to
    [root.subtree_sum].  So [default_value()] is 0 when the root's reward
    and sum are 0, not for every incoming reward: the quotient is then
    [0 / visits] with [visits > 0], which is 0 in floating point and in
    the rationals in lowest terms. *)
Theorem build_tree_terminal_root (st : Core.State Obs Env) (r : nat)
    (nd : Core.Node Obs) (budget : Z) (fuel : nat) :
  Core.nodes st !! r = Some nd ->
  Core.terminal nd = true ->
  Core.parent nd = None ->
  (Z.to_nat (budget - Core.visits nd) <= fuel)%nat ->
  exists st' nd',
    build_tree_t fuel st r budget = Ok (r, st') /\
    Core.envs st' = Core.envs st /\
    length (Core.nodes st') = length (Core.nodes st) /\
    (forall j, j <> r -> Core.nodes st' !! j = Core.nodes st !! j) /\
    Core.nodes st' !! r = Some nd' /\
    Core.children nd' = Core.children nd /\
    Core.terminal nd' = true /\
    Core.reward nd' = Core.reward nd /\
    Core.visits nd' = Z.max (Core.visits nd) budget /\
    Core.subtree_sum nd'
    = Nat.iter (Z.to_nat (budget - Core.visits nd))
        (fun s => fadd s (terminal_gain Obs gamma nd)) (Core.subtree_sum nd) /\
    (Core.visits nd < budget -> Core.value_evaluation nd' = fzero) /\
    (terminal_gain Obs gamma nd = fzero -> fadd fzero fzero = fzero ->
     (forall k, 0 < k -> fdiv fzero (f_of_int k) = fzero) ->
     Core.subtree_sum nd = fzero ->
     0 <= Core.visits nd ->
     default_value Obs nd' = fzero).
Proof.
  revert st nd. induction fuel as [|fuel IH]; intros st nd Hnd Hterm Hpar Hfuel.
  - assert (Hdone : budget <= Core.visits nd) by lia.
    exists st, nd. cbn [Core.build_tree]. rewrite (deref_Some _ _ _ Hnd). cbn [bind].
    destruct (Z.ltb_spec (Core.visits nd) budget) as [|_]; [lia|].
    replace (Z.to_nat (budget - Core.visits nd)) with 0%nat by lia.
    repeat split; try assumption; try reflexivity; try lia.
    intros _ _ Hdiv Hsum Hv0. unfold default_value. rewrite Hsum.
    destruct (Z.eqb_spec (Core.visits nd) 0); [reflexivity | apply Hdiv; lia].
  - cbn [Core.build_tree]. rewrite (deref_Some _ _ _ Hnd). cbn [bind].
    destruct (Z.ltb_spec (Core.visits nd) budget) as [Hlt|Hge].
    + rewrite (iteration_terminal_root st r nd Hnd Hterm Hpar). cbn [bind].
      remember (Core.add_visit Obs (Core.set_value_evaluation Obs nd fzero)
                  (terminal_gain Obs gamma nd) 1) as nd1 eqn:Hdef1.
      assert (Hv1 : Core.visits nd1 = Core.visits nd + 1) by (rewrite Hdef1; reflexivity).
      assert (Hs1 : Core.subtree_sum nd1
                    = fadd (Core.subtree_sum nd) (terminal_gain Obs gamma nd))
        by (rewrite Hdef1; reflexivity).
      assert (Hg1 : terminal_gain Obs gamma nd1 = terminal_gain Obs gamma nd)
        by (rewrite Hdef1; reflexivity).
      assert (Hc1 : Core.children nd1 = Core.children nd) by (rewrite Hdef1; reflexivity).
      assert (Hr1 : Core.reward nd1 = Core.reward nd) by (rewrite Hdef1; reflexivity).
      assert (He1 : Core.value_evaluation nd1 = fzero) by (rewrite Hdef1; reflexivity).
      assert (Ht1 : Core.terminal nd1 = true) by (rewrite Hdef1; exact Hterm).
      assert (Hp1 : Core.parent nd1 = None) by (rewrite Hdef1; exact Hpar).
      clear Hdef1.
      remember (Core.set_nodes Obs Env st (<[r := nd1]> (Core.nodes st))) as st1 eqn:Hst1.
      assert (Hns1 : Core.nodes st1 = <[r := nd1]> (Core.nodes st))
        by (rewrite Hst1; reflexivity).
      assert (Hes1 : Core.envs st1 = Core.envs st) by (rewrite Hst1; reflexivity).
      clear Hst1.
      assert (Hlen : (r < length (Core.nodes st))%nat)
        by (eapply lookup_lt_Some; eassumption).
      assert (Hnd1 : Core.nodes st1 !! r = Some nd1)
        by (rewrite Hns1; apply list_lookup_insert_eq; assumption).
      destruct (IH st1 nd1 Hnd1 Ht1 Hp1) as
        (st' & nd' & Hrun & Henv & Hlen' & Hother & Hr & Hch & Ht & Hrew & Hvis & Hsum & Hval & Hdef);
        [lia|].
      exists st', nd'. split; [exact Hrun|].
      split; [congruence|].
      split; [rewrite Hlen', Hns1; apply length_insert|].
      split; [intros j Hj; rewrite Hother, Hns1 by assumption;
              apply list_lookup_insert_ne; congruence|].
      split; [exact Hr|]. split; [congruence|]. split; [exact Ht|].
      split; [congruence|].
      split; [lia|].
      split.
      * rewrite Hsum, Hv1, Hs1, Hg1.
        replace (Z.to_nat (budget - Core.visits nd))
          with (S (Z.to_nat (budget - (Core.visits nd + 1)))) by lia.
        rewrite Nat.iter_succ_r. reflexivity.
      * split.
        -- intros _. destruct (Z.ltb_spec (Core.visits nd1) budget) as [Hlt1|Hge1].
           ++ apply Hval. exact Hlt1.
           ++ destruct fuel as [|fuel'];
                cbn [Core.build_tree] in Hrun;
                rewrite (deref_Some _ _ _ Hnd1) in Hrun; cbn [bind] in Hrun;
                destruct (Z.ltb_spec (Core.visits nd1) budget) as [|_]; try lia;
                injection Hrun as <-; rewrite Hnd1 in Hr; injection Hr as <-;
                exact He1.
        -- intros Hgain Hzero Hdiv Hs Hv0. apply Hdef; try assumption; [congruence| |lia].
           rewrite Hs1, Hs, Hgain. exact Hzero.
    + exists st, nd.
      replace (Z.to_nat (budget - Core.visits nd)) with 0%nat by lia.
      repeat split; try assumption; try reflexivity; try lia.
      intros _ _ Hdiv Hsum Hv0. unfold default_value. rewrite Hsum.
      destruct (Z.eqb_spec (Core.visits nd) 0); [reflexivity | apply Hdiv; lia].
Qed.
End TerminalRoot.


(** C9 fails as stated.  On a root flagged terminal that was entered with
    reward 1, [build_tree] with budget 2 ends with [default_value() = 1].
    And [search] on an environment that has ended builds a root that is
    not terminal and expands it: the root acquires a child. *)
Lemma terminal_root_value_is_reward :
  (exists st' nd',
     Examples.build_tree_ended 2 Examples.terminal_root_state 0 2 = Ok (0%nat, st') /\
     Core.nodes st' !! 0%nat = Some nd' /\
     Core.visits nd' = 2 /\
     (default_value unit nd' == 1)%Q /\
     ~ (default_value unit nd' == 0)%Q) /\
  (exists st' nd',
     Examples.search_ended 2 Examples.fresh_state 0 2 tt 0%Q = Ok (0%nat, st') /\
     Core.nodes st' !! 0%nat = Some nd' /\
     Core.terminal nd' = false /\
     Core.children nd' = [(0%nat, 1%nat)]).
Proof.
  split.
  - eexists _, _. split; [vm_compute; reflexivity|].
    split; [reflexivity|]. split; [reflexivity|].
    split; [reflexivity | discriminate].
  - eexists _, _. split; [vm_compute; reflexivity|].
    split; [reflexivity|]. split; reflexivity.
Qed.

Lemma build_tree_terminal_root_witness :
  exists st' nd',
    ExactExamples.build_tree_ended 2 ExactExamples.zero_root_state 0 2 = Ok (0%nat, st') /\
    Core.nodes st' !! 0%nat = Some nd' /\
    Core.children nd' = [] /\
    Core.visits nd' = 2 /\
    @default_value QcScalar unit nd' = Q2Qc 0.
Proof.
  destruct (@build_tree_terminal_root QcScalar unit unit ExactExamples.ended_step
              ExactExamples.ended_sample (@first_child_policy QcScalar unit)
              (Some (@lowest_unexpanded_policy QcScalar unit)) (Q2Qc 1) Core.Zero
              (fun n => n) ExactExamples.zero_root_state 0 _ 2 2 eq_refl eq_refl eq_refl)
    as (st' & nd' & Hrun & _ & _ & _ & Hr & Hch & _ & _ & Hvis & _ & _ & Hdef).
  { cbn. lia. }
  exists st', nd'. split; [exact Hrun|]. split; [exact Hr|]. split; [exact Hch|].
  split; [exact Hvis|]. apply Hdef.
  - apply Qc_is_canon. reflexivity.
  - reflexivity.
  - intros k _. apply Qc_is_canon. cbn. rewrite !Qred_correct. unfold Qdiv.
    apply Qmult_0_l.
  - reflexivity.
  - cbn. lia.
Defined.

(** * The shape of the tree is kept by the driver *)

Section ShapeFacts.
Context `{Scalar}.
Variables (Obs Env : Type).
Variable gamma : F.

Implicit Types (ns : list (Core.Node Obs)) (st : Core.State Obs Env).

Lemma node_grows_refl (nd : Core.Node Obs) : node_grows Obs nd nd.
Proof. unfold node_grows. repeat split; lia. Qed.

Lemma node_grows_add_visit (nd : Core.Node Obs) (g : F) :
  node_grows Obs nd (Core.add_visit Obs nd g 1).
Proof. unfold node_grows. cbn. repeat split; lia. Qed.

Lemma node_grows_set_value (nd : Core.Node Obs) (v : F) :
  node_grows Obs nd (Core.set_value_evaluation Obs nd v).
Proof. unfold node_grows. cbn. repeat split; lia. Qed.

Lemma arena_grows_insert ns i nd nd' :
  ns !! i = Some nd -> node_grows Obs nd nd' ->
  Forall2 (node_grows Obs) ns (<[i := nd']> ns).
Proof.
  intros Hnd Hg. rewrite <- (list_insert_id ns i nd Hnd) at 1.
  apply Forall2_insert; [|assumption].
  apply Forall2_same_length_lookup_2; [reflexivity|].
  intros j x y Hx Hy. rewrite Hx in Hy. injection Hy as <-. apply node_grows_refl.
Qed.

Lemma tree_links_grows r0 ns ns' :
  Forall2 (node_grows Obs) ns ns' -> tree_links Obs r0 ns -> tree_links Obs r0 ns'.
Proof.
  intros HF [Hpar Hchild Hkeys Hact Hroot]. split.
  - intros i nd' p Hi Hlk Hp.
    destruct (Forall2_lookup_r _ _ _ _ _ HF Hlk) as (nd & Hnd & Hg).
    destruct Hg as (_ & Hgp & _). apply (Hpar i nd p Hi Hnd). congruence.
  - intros i nd' a c Hi Hlk Hget.
    destruct (Forall2_lookup_r _ _ _ _ _ HF Hlk) as (nd & Hnd & Hg).
    destruct Hg as (_ & _ & Hgc & _). rewrite Hgc in Hget.
    destruct (Hchild i nd a c Hi Hnd Hget) as [Hlt (cn & Hcn & Hcp)].
    split; [assumption|].
    destruct (Forall2_lookup_l _ _ _ _ _ HF Hcn) as (cn' & Hcn' & Hg').
    exists cn'. split; [assumption|]. destruct Hg' as (_ & Hgp & _). congruence.
  - intros i nd' Hi Hlk.
    destruct (Forall2_lookup_r _ _ _ _ _ HF Hlk) as (nd & Hnd & Hg).
    destruct Hg as (_ & _ & Hgc & Hgn & _). rewrite Hgc, Hgn. apply (Hkeys i nd Hi Hnd).
  - intros i nd' Hi Hlk.
    destruct (Forall2_lookup_r _ _ _ _ _ HF Hlk) as (nd & Hnd & Hg).
    destruct Hg as (_ & _ & _ & Hgn & _). rewrite Hgn. apply (Hact i nd Hi Hnd).
  - intros i nd' Hi Hlk Hp.
    destruct (Forall2_lookup_r _ _ _ _ _ HF Hlk) as (nd & Hnd & Hg).
    destruct Hg as (_ & Hgp & _). apply (Hroot i nd Hi Hnd). congruence.
Qed.

Lemma env_links_grows r0 base st st' :
  Forall2 (node_grows Obs) (Core.nodes st) (Core.nodes st') ->
  Core.envs st' = Core.envs st ->
  env_links Obs Env r0 base st -> env_links Obs Env r0 base st'.
Proof.
  intros HF Henv [Hbase Hpres Hvalid]. split.
  - rewrite Henv. assumption.
  - intros i nd' Hi Hlk Hroom.
    destruct (Forall2_lookup_r _ _ _ _ _ HF Hlk) as (nd & Hnd & Hg).
    destruct Hg as (Hge & _ & Hgc & Hgn & _). rewrite Hge.
    apply (Hpres i nd Hi Hnd). rewrite <- Hgc, <- Hgn. assumption.
  - intros i nd' l Hi Hlk Hl. rewrite Henv.
    destruct (Forall2_lookup_r _ _ _ _ _ HF Hlk) as (nd & Hnd & Hg).
    destruct Hg as (Hge & _). apply (Hvalid i nd l Hi Hnd). congruence.
Qed.

(** A backup from a node of the tree returns; it keeps the shape, counts
    one more visit at the start node and at the root, and takes no
    visit away. *)
Lemma backup_on_tree r0 st s v :
  tree_links Obs r0 (Core.nodes st) ->
  (r0 <= s < length (Core.nodes st))%nat ->
  exists st',
    Core.backup Obs Env gamma st s v 1 = Ok st' /\
    Core.envs st' = Core.envs st /\
    Core.rng st' = Core.rng st /\
    Forall2 (node_grows Obs) (Core.nodes st) (Core.nodes st') /\
    (forall j nd', (j = s \/ j = r0) -> Core.nodes st' !! j = Some nd' ->
       exists nd, Core.nodes st !! j = Some nd /\
                  Core.visits nd' = Core.visits nd + 1).
Proof.
  intros [Hpar _ _ _ Hroot] Hs.
  destruct (backup_loop_spec Obs gamma r0 1 (length (Core.nodes st)) (Core.nodes st)
              (Some s) v Hpar) as (ns' & Hrun & Hlen & Hpath & Hother).
  { intros i [= <-]. lia. }
  destruct (parent_chain_ends Obs r0 (Core.nodes st) (length (Core.nodes st)) Hpar s)
    as [Hhead (r & Hlast & Hrp & Hrlen)]; [lia | lia |].
  set (path := parent_chain Obs (length (Core.nodes st)) (Core.nodes st) (Some s)) in *.
  assert (Hs_in : s ∈ path).
  { destruct path as [|x p]; [discriminate|]. injection Hhead as ->. left. }
  assert (Hr_in : r ∈ path).
  { apply last_Some in Hlast as [p' ->]. apply elem_of_app. right. left. }
  assert (Hr0 : r = r0).
  { destruct (lookup_lt_is_Some_2 (Core.nodes st) r Hrlen) as [rd Hrd].
    apply (Hroot r rd); [|assumption|].
    - apply (parent_chain_bound Obs r0 (Core.nodes st) (length (Core.nodes st))
               Hpar s r); [lia | assumption].
    - unfold parent_of in Hrp. rewrite Hrd in Hrp. assumption. }
  subst r.
  exists (Core.set_nodes Obs Env st ns').
  split; [unfold Core.backup; rewrite Hrun; reflexivity|].
  split; [reflexivity|]. split; [reflexivity|].
  cbn [Core.set_nodes Core.nodes].
  assert (Hin : forall j nd', j ∈ path -> ns' !! j = Some nd' ->
            exists nd g, Core.nodes st !! j = Some nd /\
                         nd' = Core.add_visit Obs nd g 1).
  { intros j nd' Hj Hlk. apply list_elem_of_lookup in Hj as [pos Hpos].
    destruct (Hpath pos j Hpos) as (nd & g & Hnd & _ & Hres).
    exists nd, g. split; [assumption|]. congruence. }
  split.
  - apply Forall2_same_length_lookup_2; [symmetry; assumption|].
    intros j x y Hx Hy. destruct (decide (j ∈ path)) as [Hj|Hj].
    + destruct (Hin j y Hj Hy) as (nd & g & Hnd & ->).
      rewrite Hx in Hnd. injection Hnd as <-. apply node_grows_add_visit.
    + rewrite (Hother j Hj), Hx in Hy. injection Hy as <-. apply node_grows_refl.
  - intros j nd' Hj Hlk.
    assert (Hjp : j ∈ path) by (destruct Hj as [->| ->]; assumption).
    destruct (Hin j nd' Hjp Hlk) as (nd & g & Hnd & ->).
    exists nd. split; [assumption | reflexivity].
Qed.
End ShapeFacts.

(** * Expansion and the environment snapshots *)

Section ExpandFacts.
Context `{Scalar}.
Variables (Obs Env : Type).
Variable env_step : Env -> nat -> Env * (Obs * F * bool * bool).

Implicit Types (ns : list (Core.Node Obs)) (st : Core.State Obs Env).

(** The exact effect of [expand] at a node that holds a snapshot. *)
Lemma expand_spec st node action nd l ev ev' o r tm tr :
  Core.nodes st !! node = Some nd ->
  Core.env nd = Some l ->
  Core.envs st !! l = Some ev ->
  env_step ev action = (ev', (o, r, tm, tr)) ->
  Core.expand Obs Env env_step st node action
  = Ok (length (Core.nodes st),
        if Z.of_nat (dict_len (Core.children nd)) =? Z.of_nat (Core.action_space_n nd) - 1
        then
          Core.mkState Obs Env
            (<[node := Core.set_children Obs (Core.set_env Obs nd None)
                         (dict_set action (length (Core.nodes st)) (Core.children nd))]>
               (Core.nodes st)
             ++ [Core.Node_init Obs (Some l) (Some node) r (Core.action_space_n nd)
                   (tm || tr) (if tm then None else Some o)])
            (<[l := ev']> (Core.envs st))
            (Core.rng st)
        else
          Core.mkState Obs Env
            (<[node := Core.set_children Obs nd
                         (dict_set action (length (Core.nodes st)) (Core.children nd))]>
               (Core.nodes st)
             ++ [Core.Node_init Obs (Some (length (Core.envs st))) (Some node) r
                   (Core.action_space_n nd) (tm || tr) (if tm then None else Some o)])
            (Core.envs st ++ [ev'])
            (Core.rng st)).
Proof.
  intros Hnd Henv Hev Hstep.
  assert (Hlen : (node < length (Core.nodes st))%nat) by (eapply lookup_lt_Some; eassumption).
  unfold Core.expand. rewrite (deref_Some _ _ _ Hnd). cbn [bind].
  destruct (Z.of_nat (dict_len (Core.children nd)) =? Z.of_nat (Core.action_space_n nd) - 1).
  - cbn [bind]. rewrite Henv. cbn [of_option bind Core.set_nodes Core.envs Core.nodes].
    rewrite (deref_Some _ _ _ Hev). cbn [bind]. rewrite Hstep.
    cbn [Core.set_envs Core.set_nodes Core.envs Core.nodes Core.rng].
    rewrite length_insert.
    assert (Hlk : (<[node := Core.set_env Obs nd None]> (Core.nodes st)
                   ++ [Core.Node_init Obs (Some l) (Some node) r (Core.action_space_n nd)
                         (tm || tr) (if tm then None else Some o)]) !! node
                  = Some (Core.set_env Obs nd None)).
    { rewrite lookup_app_l by (rewrite length_insert; assumption).
      apply list_lookup_insert_eq. assumption. }
    rewrite (deref_Some _ _ _ Hlk). cbn [bind].
    rewrite insert_app_l by (rewrite length_insert; assumption).
    rewrite list_insert_insert_eq. reflexivity.
  - unfold Core.deepcopy. rewrite Henv. rewrite (deref_Some _ _ _ Hev).
    cbn [bind of_option Core.set_envs Core.envs Core.nodes].
    assert (Hcopy : (Core.envs st ++ [ev]) !! length (Core.envs st) = Some ev).
    { rewrite lookup_app_r by lia. rewrite Nat.sub_diag. reflexivity. }
    rewrite (deref_Some _ _ _ Hcopy). cbn [bind]. rewrite Hstep.
    cbn [Core.set_envs Core.set_nodes Core.envs Core.nodes Core.rng].
    assert (Hlk : (Core.nodes st
                   ++ [Core.Node_init Obs (Some (length (Core.envs st))) (Some node) r
                         (Core.action_space_n nd) (tm || tr)
                         (if tm then None else Some o)]) !! node = Some nd).
    { rewrite lookup_app_l by assumption. assumption. }
    rewrite (deref_Some _ _ _ Hlk). cbn [bind].
    rewrite (insert_app_l (Core.nodes st)) by assumption.
    rewrite insert_app_r_alt by lia. rewrite Nat.sub_diag. reflexivity.
Qed.

(** The arena after an expansion at [s]: the node [s] is replaced and the
    child is appended. *)
Lemma lookup_expanded ns s nd_s child i x :
  (s < length ns)%nat ->
  (<[s := nd_s]> ns ++ [child]) !! i = Some x ->
  (i = s /\ x = nd_s) \/
  (i = length ns /\ x = child) \/
  (i <> s /\ (i < length ns)%nat /\ ns !! i = Some x).
Proof.
  intros Hs Hlk. destruct (decide (i < length ns)%nat) as [Hlt|Hge].
  - rewrite lookup_app_l in Hlk by (rewrite length_insert; assumption).
    destruct (decide (i = s)) as [->|Hne].
    + rewrite list_lookup_insert_eq in Hlk by assumption. left. split; congruence.
    + rewrite list_lookup_insert_ne in Hlk by congruence. right. right. auto.
  - rewrite lookup_app_r in Hlk by (rewrite length_insert; lia).
    rewrite length_insert in Hlk.
    destruct (i - length ns)%nat as [|k] eqn:Hk; cbn in Hlk; [|discriminate].
    right. left. split; [lia | congruence].
Qed.

Lemma lookup_expanded_old ns s nd_s child j x :
  ns !! j = Some x -> j <> s -> (<[s := nd_s]> ns ++ [child]) !! j = Some x.
Proof.
  intros Hx Hne. rewrite lookup_app_l
    by (rewrite length_insert; eapply lookup_lt_Some; eassumption).
  rewrite list_lookup_insert_ne by congruence. assumption.
Qed.

Lemma lookup_expanded_at ns s nd_s child :
  (s < length ns)%nat -> (<[s := nd_s]> ns ++ [child]) !! s = Some nd_s.
Proof.
  intros Hs. rewrite lookup_app_l by (rewrite length_insert; assumption).
  apply list_lookup_insert_eq. assumption.
Qed.

Lemma lookup_expanded_new ns s nd_s child :
  (<[s := nd_s]> ns ++ [child]) !! length ns = Some child.
Proof.
  rewrite lookup_app_r by (rewrite length_insert; lia).
  rewrite length_insert, Nat.sub_diag. reflexivity.
Qed.

(** Expanding an unexpanded action keeps the shape of the tree. *)
Lemma tree_links_expand r0 ns s nd nd_s child a :
  tree_links Obs r0 ns ->
  (r0 <= s)%nat -> ns !! s = Some nd ->
  (a < Core.action_space_n nd)%nat ->
  dict_get a (Core.children nd) = None ->
  Core.parent nd_s = Core.parent nd ->
  Core.children nd_s = dict_set a (length ns) (Core.children nd) ->
  Core.action_space_n nd_s = Core.action_space_n nd ->
  Core.parent child = Some s ->
  Core.children child = [] ->
  Core.action_space_n child = Core.action_space_n nd ->
  tree_links Obs r0 (<[s := nd_s]> ns ++ [child]).
Proof.
  intros [Hpar Hchild Hkeys Hact Hroot] Hr0 Hnd Ha Hfree Hp_s Hc_s Hn_s Hp_c Hc_c Hn_c.
  assert (Hs : (s < length ns)%nat) by (eapply lookup_lt_Some; eassumption).
  split.
  - intros i x p Hi Hlk Hp.
    destruct (lookup_expanded _ _ _ _ _ _ Hs Hlk) as [[-> ->]|[[-> ->]|(Hne & Hlt & Hx)]].
    + apply (Hpar s nd p Hi Hnd). congruence.
    + rewrite Hp_c in Hp. injection Hp as <-. lia.
    + apply (Hpar i x p Hi Hx Hp).
  - intros i x a' c Hi Hlk Hget.
    destruct (lookup_expanded _ _ _ _ _ _ Hs Hlk) as [[-> ->]|[[-> ->]|(Hne & Hlt & Hx)]].
    + rewrite Hc_s, dict_get_set in Hget.
      destruct (Nat.eqb a' a).
      * injection Hget as <-. split; [assumption|].
        exists child. split; [apply lookup_expanded_new | assumption].
      * destruct (Hchild s nd a' c Hi Hnd Hget) as [Hlt (cn & Hcn & Hcp)].
        split; [assumption|]. exists cn.
        split; [apply lookup_expanded_old; [assumption | lia] | assumption].
    + rewrite Hc_c in Hget. discriminate.
    + destruct (Hchild i x a' c Hi Hx Hget) as [Hic (cn & Hcn & Hcp)].
      split; [assumption|].
      destruct (decide (c = s)) as [->|Hcs].
      * exists nd_s. split; [apply lookup_expanded_at; assumption|].
        rewrite Hp_s. congruence.
      * exists cn. split; [apply lookup_expanded_old; assumption | assumption].
  - intros i x Hi Hlk.
    destruct (lookup_expanded _ _ _ _ _ _ Hs Hlk) as [[-> ->]|[[-> ->]|(Hne & Hlt & Hx)]].
    + destruct (Hkeys s nd Hi Hnd) as [Hnodup Hbound].
      rewrite Hc_s, Hn_s, dict_keys_set.
      apply dict_get_None in Hfree. rewrite decide_False by assumption.
      split.
      * apply NoDup_app. split; [assumption|].
        split; [|apply NoDup_singleton].
        intros k Hk Hk'. apply list_elem_of_singleton in Hk'. congruence.
      * intros k Hk. apply elem_of_app in Hk as [Hk|Hk]; [auto|].
        apply list_elem_of_singleton in Hk. congruence.
    + rewrite Hc_c. split; [apply NoDup_nil_2 | intros k Hk; inversion Hk].
    + apply (Hkeys i x Hi Hx).
  - intros i x Hi Hlk.
    destruct (lookup_expanded _ _ _ _ _ _ Hs Hlk) as [[-> ->]|[[-> ->]|(Hne & Hlt & Hx)]].
    + rewrite Hn_s. apply (Hact s nd Hi Hnd).
    + rewrite Hn_c. apply (Hact s nd Hr0 Hnd).
    + apply (Hact i x Hi Hx).
  - intros i x Hi Hlk Hp.
    destruct (lookup_expanded _ _ _ _ _ _ Hs Hlk) as [[-> ->]|[[-> ->]|(Hne & Hlt & Hx)]].
    + apply (Hroot s nd Hi Hnd). congruence.
    + congruence.
    + apply (Hroot i x Hi Hx Hp).
Qed.

Lemma dict_set_length_new (d : dict nat) (a v : nat) :
  dict_get a d = None -> length (dict_set a v d) = S (length d).
Proof.
  intros Hfree. apply dict_get_None in Hfree.
  rewrite <- (length_map fst (dict_set a v d)), <- (length_map fst d).
  change (map fst (dict_set a v d)) with (dict_keys (dict_set a v d)).
  rewrite dict_keys_set, decide_False by assumption.
  rewrite length_app. cbn. unfold dict_keys. lia.
Qed.

(** An expansion of an unexpanded action at a node of the tree that has
    room returns; it keeps the shape and the snapshot discipline, and
    leaves the first [base] environments as they were. *)
Lemma expand_on_tree r0 base st s nd a :
  tree_links Obs r0 (Core.nodes st) ->
  env_links Obs Env r0 base st ->
  (r0 <= s)%nat -> Core.nodes st !! s = Some nd ->
  (length (Core.children nd) < Core.action_space_n nd)%nat ->
  (a < Core.action_space_n nd)%nat ->
  dict_get a (Core.children nd) = None ->
  exists st' nd_s child lc,
    Core.expand Obs Env env_step st s a = Ok (length (Core.nodes st), st') /\
    Core.nodes st' = <[s := nd_s]> (Core.nodes st) ++ [child] /\
    Core.rng st' = Core.rng st /\
    tree_links Obs r0 (Core.nodes st') /\
    env_links Obs Env r0 base st' /\
    take base (Core.envs st') = take base (Core.envs st) /\
    Core.visits nd_s = Core.visits nd /\
    Core.visits child = 0 /\
    Core.env child = Some lc /\
    (lc < length (Core.envs st'))%nat.
Proof.
  intros Hlinks Henvs Hr0 Hnd Hroom Ha Hfree.
  destruct Henvs as [Hbase Hpres Hvalid].
  assert (Hs : (s < length (Core.nodes st))%nat) by (eapply lookup_lt_Some; eassumption).
  destruct (Hpres s nd Hr0 Hnd Hroom) as [l Hl].
  destruct (Hvalid s nd l Hr0 Hnd Hl) as [Hbl Hll].
  destruct (lookup_lt_is_Some_2 (Core.envs st) l Hll) as [ev Hev].
  destruct (env_step ev a) as [ev' [[[o r] tm] tr]] eqn:Hstep.
  pose proof (expand_spec st s a nd l ev ev' o r tm tr Hnd Hl Hev Hstep) as Hrun.
  pose proof (dict_set_length_new (Core.children nd) a (length (Core.nodes st)) Hfree)
    as Hgrow.
  destruct (Z.eqb_spec (Z.of_nat (dict_len (Core.children nd)))
              (Z.of_nat (Core.action_space_n nd) - 1)) as [Hlast|Hmore].
  - eexists _, _, _, l. split; [exact Hrun|].
    cbn [Core.nodes Core.envs Core.rng].
    split; [reflexivity|]. split; [reflexivity|].
    split; [eapply tree_links_expand; try eassumption; reflexivity|].
    split; [split|].
    + cbn [Core.envs]. rewrite length_insert. assumption.
    + cbn [Core.nodes]. intros i x Hi Hlk Hroom'.
      destruct (lookup_expanded _ _ _ _ _ _ Hs Hlk) as [[-> ->]|[[-> ->]|(Hne & Hlt & Hx)]].
      * cbn [Core.set_children Core.children Core.action_space_n Core.set_env] in Hroom'.
        unfold dict_len in Hlast. lia.
      * eexists. reflexivity.
      * apply (Hpres i x Hi Hx Hroom').
    + cbn [Core.nodes Core.envs]. intros i x l' Hi Hlk Hl'. rewrite length_insert.
      destruct (lookup_expanded _ _ _ _ _ _ Hs Hlk) as [[-> ->]|[[-> ->]|(Hne & Hlt & Hx)]].
      * discriminate.
      * cbn in Hl'. injection Hl' as <-. lia.
      * apply (Hvalid i x l' Hi Hx Hl').
    + split; [apply take_insert_ge; assumption|].
      split; [reflexivity|]. split; [reflexivity|].
      split; [reflexivity|]. rewrite length_insert. assumption.
  - eexists _, _, _, (length (Core.envs st)). split; [exact Hrun|].
    cbn [Core.nodes Core.envs Core.rng].
    split; [reflexivity|]. split; [reflexivity|].
    split; [eapply tree_links_expand; try eassumption; reflexivity|].
    split; [split|].
    + cbn [Core.envs]. rewrite length_app. lia.
    + cbn [Core.nodes]. intros i x Hi Hlk Hroom'.
      destruct (lookup_expanded _ _ _ _ _ _ Hs Hlk) as [[-> ->]|[[-> ->]|(Hne & Hlt & Hx)]].
      * exists l. exact Hl.
      * eexists. reflexivity.
      * apply (Hpres i x Hi Hx Hroom').
    + cbn [Core.nodes Core.envs]. intros i x l' Hi Hlk Hl'. rewrite length_app. cbn [length].
      destruct (lookup_expanded _ _ _ _ _ _ Hs Hlk) as [[-> ->]|[[-> ->]|(Hne & Hlt & Hx)]].
      * cbn in Hl'. rewrite Hl in Hl'. injection Hl' as <-. lia.
      * cbn in Hl'. injection Hl' as <-. lia.
      * pose proof (Hvalid i x l' Hi Hx Hl'). lia.
    + split; [apply take_app_le; assumption|].
      split; [reflexivity|]. split; [reflexivity|].
      split; [reflexivity|]. rewrite length_app. cbn. lia.
Qed.
End ExpandFacts.

(** * The search loop on a tree *)

Section SearchFacts.
Context `{Scalar}.
Variables (Obs Env : Type).
Variable env_step : Env -> nat -> Env * (Obs * F * bool * bool).
Variable env_sample : Env -> Env * nat.
Variable env_n : Env -> nat.
Variable selection_policy : list (Core.Node Obs) -> nat -> result (option nat).
Variable policy : list (Core.Node Obs) -> nat -> nat -> result nat.
Variable gamma : F.
Variable value_fn : Core.estimator.
Variable rand : nat -> nat.

Hypothesis selection_ok : selection_contract Obs selection_policy.
Hypothesis expansion_ok : expansion_contract Obs policy.

Implicit Types (ns : list (Core.Node Obs)) (st : Core.State Obs Env).

Abbreviation value_function_s := (Core.value_function Obs Env env_step env_sample value_fn).
Abbreviation handle_single_s :=
  (Core.handle_single Obs Env env_step env_sample gamma value_fn).
Abbreviation iteration_s :=
  (Core.iteration Obs Env env_step env_sample selection_policy (Some policy)
     gamma value_fn rand).
Abbreviation build_tree_s :=
  (Core.build_tree Obs Env env_step env_sample selection_policy (Some policy)
     gamma value_fn rand).
Abbreviation search_s :=
  (Core.search Obs Env env_step env_sample env_n selection_policy (Some policy)
     gamma value_fn rand).

(** The descent ends at a node of the tree that is terminal or has an
    unexpanded action. *)
Lemma select_on_tree r0 ns :
  tree_links Obs r0 ns -> all_visited Obs r0 ns ->
  forall fuel i,
    (r0 <= i)%nat -> (i < length ns)%nat -> (length ns <= fuel + i)%nat ->
    exists s nd,
      Core.select_loop Obs selection_policy fuel ns i = Ok s /\
      (r0 <= s)%nat /\ ns !! s = Some nd /\
      (Core.terminal nd = true \/
       (Core.terminal nd = false /\
        (length (Core.children nd) < Core.action_space_n nd)%nat)).
Proof.
  intros Hlinks Hvis. induction fuel as [|fuel IH]; intros i Hi Hlen Hfuel; [lia|].
  destruct (lookup_lt_is_Some_2 ns i Hlen) as [nd Hnd].
  cbn [Core.select_loop]. rewrite (deref_Some _ _ _ Hnd). cbn [bind].
  unfold Core.is_terminal. destruct (Core.terminal nd) eqn:Hterm.
  - exists i, nd. split; [reflexivity|]. split; [assumption|].
    split; [assumption|]. left. assumption.
  - destruct (selection_ok r0 ns i nd Hlinks Hvis Hi Hnd Hterm)
      as [[Hsel Hroom]|(a & Hsel & Ha)]; rewrite Hsel; cbn [bind].
    + exists i, nd. split; [reflexivity|]. split; [assumption|].
      split; [assumption|]. right. split; assumption.
    + destruct (dict_get_is_Some _ _ Ha) as [c Hc].
      unfold Core.Node_step. rewrite (deref_Some _ _ _ Hnd). cbn [bind].
      rewrite Hc. cbn [of_option bind].
      destruct Hlinks as [Hpar Hchild Hkeys Hact Hroot].
      destruct (Hchild i nd a c Hi Hnd Hc) as [Hic (cn & Hcn & _)].
      apply IH; [lia | eapply lookup_lt_Some; eassumption | lia].
Qed.

(** The estimators return on a node that holds a snapshot. *)
Lemma value_function_returns st c child lc :
  Core.nodes st !! c = Some child ->
  Core.env child = Some lc ->
  (lc < length (Core.envs st))%nat ->
  exists v, value_function_s st c = Ok v.
Proof.
  intros Hc Hl Hlc. unfold Core.value_function. destruct value_fn as [|budget].
  - eauto.
  - rewrite (deref_Some _ _ _ Hc). cbn [bind].
    destruct (Core.is_terminal Obs child); [eauto|].
    rewrite Hl. cbn [of_option bind].
    destruct (lookup_lt_is_Some_2 (Core.envs st) lc Hlc) as [e He].
    rewrite (deref_Some _ _ _ He). cbn [bind]. eauto.
Qed.

Lemma all_visited_grows r0 ns ns' :
  Forall2 (node_grows Obs) ns ns' -> all_visited Obs r0 ns -> all_visited Obs r0 ns'.
Proof.
  intros HF Hvis i nd' Hi Hlk.
  destruct (Forall2_lookup_r _ _ _ _ _ HF Hlk) as (nd & Hnd & Hg).
  destruct Hg as (_ & _ & _ & _ & _ & _ & Hle). specialize (Hvis i nd Hi Hnd). lia.
Qed.

(** Expanding one action, evaluating the child and backing up. *)
Lemma handle_single_on_tree r0 base st s nd a :
  loop_inv Obs Env r0 base st ->
  (r0 <= s)%nat -> Core.nodes st !! s = Some nd ->
  (length (Core.children nd) < Core.action_space_n nd)%nat ->
  (a < Core.action_space_n nd)%nat ->
  dict_get a (Core.children nd) = None ->
  exists st',
    handle_single_s st s a = Ok st' /\
    loop_inv Obs Env r0 base st' /\
    take base (Core.envs st') = take base (Core.envs st) /\
    forall rd, Core.nodes st !! r0 = Some rd ->
      exists rd', Core.nodes st' !! r0 = Some rd' /\
                  Core.visits rd' = Core.visits rd + 1.
Proof.
  intros (Hlinks & Henvs & Hvis) Hr0 Hnd Hroom Ha Hfree.
  assert (Hs : (s < length (Core.nodes st))%nat) by (eapply lookup_lt_Some; eassumption).
  destruct (expand_on_tree Obs Env env_step r0 base st s nd a Hlinks Henvs Hr0 Hnd
              Hroom Ha Hfree)
    as (st1 & nd_s & child & lc & Hexp & Hns1 & _ & Hlinks1 & Henvs1 & Htake1 & Hv_s
        & Hv_c & He_c & Hlc).
  set (c := length (Core.nodes st)) in *.
  assert (Hc1 : Core.nodes st1 !! c = Some child)
    by (rewrite Hns1; apply lookup_expanded_new).
  destruct (value_function_returns st1 c child lc Hc1 He_c Hlc) as [v Hv].
  unfold Core.handle_single. rewrite Hexp. cbn [bind]. rewrite Hv. cbn [bind].
  rewrite (deref_Some _ _ _ Hc1). cbn [bind].
  set (st2 := Core.set_nodes Obs Env st1
                (<[c := Core.set_value_evaluation Obs child v]> (Core.nodes st1))).
  assert (Hgrow2 : Forall2 (node_grows Obs) (Core.nodes st1) (Core.nodes st2))
    by (apply (arena_grows_insert Obs _ c child); [assumption | apply node_grows_set_value]).
  assert (Hlinks2 : tree_links Obs r0 (Core.nodes st2))
    by (eapply tree_links_grows; eassumption).
  assert (Henvs2 : env_links Obs Env r0 base st2)
    by (eapply env_links_grows; [exact Hgrow2 | reflexivity | assumption]).
  assert (Hlen1 : length (Core.nodes st1) = S c)
    by (rewrite Hns1, length_app, length_insert; cbn; lia).
  destruct (backup_on_tree Obs Env gamma r0 st2 c v Hlinks2)
    as (st' & Hback & Henv' & _ & Hgrow' & Hbump).
  { cbn [st2 Core.set_nodes Core.nodes]. rewrite length_insert. lia. }
  exists st'. split; [exact Hback|].
  assert (Hlk2 : forall j, j <> c -> Core.nodes st2 !! j = Core.nodes st1 !! j)
    by (intros j Hj; apply list_lookup_insert_ne; congruence).
  assert (Hc2 : Core.nodes st2 !! c = Some (Core.set_value_evaluation Obs child v))
    by (apply list_lookup_insert_eq; lia).
  split; [split; [|split]|].
  - eapply tree_links_grows; eassumption.
  - eapply env_links_grows; [exact Hgrow' | exact Henv' | assumption].
  - intros j x Hj Hx. destruct (decide (j = c)) as [->|Hjc].
    + destruct (Hbump c x (or_introl eq_refl) Hx) as (y & Hy & Hvy).
      rewrite Hc2 in Hy. injection Hy as <-. rewrite Hvy. cbn. lia.
    + destruct (Forall2_lookup_r _ _ _ _ _ Hgrow' Hx) as (y & Hy & Hg).
      destruct Hg as (_ & _ & _ & _ & _ & _ & Hle).
      rewrite (Hlk2 j Hjc), Hns1 in Hy.
      destruct (lookup_expanded Obs _ _ _ _ _ _ Hs Hy) as [[-> ->]|[[-> ->]|(Hne & Hlt & Hy')]].
      * specialize (Hvis s nd Hr0 Hnd). lia.
      * contradiction.
      * specialize (Hvis j y Hj Hy'). lia.
  - split; [rewrite Henv'; exact Htake1|].
    intros rd Hrd.
    assert (Hr0len : (r0 < c)%nat) by (unfold c; lia).
    destruct (lookup_lt_is_Some_2 (Core.nodes st') r0) as [rd' Hrd'].
    { rewrite <- (Forall2_length _ _ _ Hgrow').
      cbn [st2 Core.set_nodes Core.nodes]. rewrite length_insert. lia. }
    exists rd'. split; [assumption|].
    destruct (Hbump r0 rd' (or_intror eq_refl) Hrd') as (y & Hy & Hvy).
    rewrite (Hlk2 r0) in Hy by lia. rewrite Hns1 in Hy.
    destruct (lookup_expanded Obs _ _ _ _ _ _ Hs Hy) as [[-> ->]|[[-> ->]|(Hne & Hlt & Hy')]].
    + rewrite Hnd in Hrd. injection Hrd as <-. lia.
    + lia.
    + rewrite Hrd in Hy'. injection Hy' as <-. assumption.
Qed.

Lemma arena_grows_refl ns : Forall2 (node_grows Obs) ns ns.
Proof.
  apply Forall2_same_length_lookup_2; [reflexivity|].
  intros j x y Hx Hy. rewrite Hx in Hy. injection Hy as <-. apply node_grows_refl.
Qed.

(** One turn of the loop returns, keeps the invariant and the first
    [base] environments, and counts exactly one more visit at the root. *)
Lemma iteration_on_tree r0 base st :
  loop_inv Obs Env r0 base st ->
  (r0 < length (Core.nodes st))%nat ->
  exists st',
    iteration_s st r0 = Ok st' /\
    loop_inv Obs Env r0 base st' /\
    take base (Core.envs st') = take base (Core.envs st) /\
    forall rd, Core.nodes st !! r0 = Some rd ->
      exists rd', Core.nodes st' !! r0 = Some rd' /\
                  Core.visits rd' = Core.visits rd + 1.
Proof.
  intros (Hlinks & Henvs & Hvis) Hroot.
  destruct (select_on_tree r0 (Core.nodes st) Hlinks Hvis (length (Core.nodes st)) r0)
    as (s & nd & Hsel & Hs0 & Hnd & Hcase); [lia | assumption | lia |].
  assert (Hs : (s < length (Core.nodes st))%nat) by (eapply lookup_lt_Some; eassumption).
  unfold Core.iteration, Core.select_node_to_expand. rewrite Hsel. cbn [bind].
  rewrite (deref_Some _ _ _ Hnd). cbn [bind]. unfold Core.is_terminal.
  destruct Hcase as [Hterm|[Hterm Hroom]]; rewrite Hterm.
  - set (st1 := Core.set_nodes Obs Env st
                  (<[s := Core.set_value_evaluation Obs nd fzero]> (Core.nodes st))).
    assert (Hgrow1 : Forall2 (node_grows Obs) (Core.nodes st) (Core.nodes st1))
      by (apply (arena_grows_insert Obs _ s nd); [assumption | apply node_grows_set_value]).
    assert (Hlinks1 : tree_links Obs r0 (Core.nodes st1))
      by (eapply tree_links_grows; eassumption).
    destruct (backup_on_tree Obs Env gamma r0 st1 s fzero Hlinks1)
      as (st' & Hback & Henv' & _ & Hgrow' & Hbump).
    { cbn [st1 Core.set_nodes Core.nodes]. rewrite length_insert. lia. }
    exists st'. split; [exact Hback|].
    split; [split; [|split]|].
    + eapply tree_links_grows; eassumption.
    + eapply env_links_grows; [exact Hgrow' | exact Henv' |].
      eapply env_links_grows; [exact Hgrow1 | reflexivity | assumption].
    + eapply all_visited_grows; [exact Hgrow'|].
      eapply all_visited_grows; eassumption.
    + split; [rewrite Henv'; reflexivity|].
      intros rd Hrd.
      destruct (lookup_lt_is_Some_2 (Core.nodes st') r0) as [rd' Hrd'].
      { rewrite <- (Forall2_length _ _ _ Hgrow'), <- (Forall2_length _ _ _ Hgrow1).
        assumption. }
      exists rd'. split; [assumption|].
      destruct (Hbump r0 rd' (or_intror eq_refl) Hrd') as (y & Hy & Hvy).
      cbn [st1 Core.set_nodes Core.nodes] in Hy.
      destruct (decide (r0 = s)) as [->|Hne].
      * rewrite list_lookup_insert_eq in Hy by assumption. injection Hy as <-.
        rewrite Hnd in Hrd. injection Hrd as <-. exact Hvy.
      * rewrite list_lookup_insert_ne in Hy by congruence.
        rewrite Hrd in Hy. injection Hy as <-. exact Hvy.
  - unfold Core.handle_selected_node.
    destruct (expansion_ok r0 (Core.nodes st) s nd (rand (Core.rng st)) Hlinks Hs0 Hnd
                Hroom) as (a & Hpol & Ha & Hfree).
    rewrite Hpol. cbn [bind].
    set (st1 := {| Core.nodes := Core.nodes st; Core.envs := Core.envs st;
                   Core.rng := S (Core.rng st) |}).
    assert (Hinv1 : loop_inv Obs Env r0 base st1).
    { split; [exact Hlinks|]. split; [|exact Hvis].
      apply (env_links_grows Obs Env r0 base st st1);
        [apply arena_grows_refl | reflexivity | assumption]. }
    destruct (handle_single_on_tree r0 base st1 s nd a Hinv1 Hs0 Hnd Hroom Ha Hfree)
      as (st' & Hrun & Hinv' & Htake & Hvisit).
    exists st'. split; [exact Hrun|]. split; [exact Hinv'|].
    split; [exact Htake | exact Hvisit].
Qed.

(** The loop of [build_tree] returns once the root has [budget] visits;
    [budget - visits] turns are enough. *)
Lemma build_tree_on_tree r0 base budget fuel :
  forall st rd,
    loop_inv Obs Env r0 base st ->
    Core.nodes st !! r0 = Some rd ->
    (Z.to_nat (budget - Core.visits rd) <= fuel)%nat ->
    exists st' rd',
      build_tree_s fuel st r0 budget = Ok (r0, st') /\
      loop_inv Obs Env r0 base st' /\
      take base (Core.envs st') = take base (Core.envs st) /\
      Core.nodes st' !! r0 = Some rd' /\
      Core.visits rd' = Z.max (Core.visits rd) budget.
Proof.
  induction fuel as [|fuel IH]; intros st rd Hinv Hrd Hfuel;
    cbn [Core.build_tree]; rewrite (deref_Some _ _ _ Hrd); cbn [bind];
    destruct (Z.ltb_spec (Core.visits rd) budget) as [Hlt|Hge]; try lia.
  - exists st, rd. split; [reflexivity|]. split; [exact Hinv|].
    split; [reflexivity|]. split; [exact Hrd | lia].
  - destruct (iteration_on_tree r0 base st Hinv) as (st1 & Hit & Hinv1 & Htake1 & Hvisit).
    { eapply lookup_lt_Some; eassumption. }
    rewrite Hit. cbn [bind].
    destruct (Hvisit rd Hrd) as (rd1 & Hrd1 & Hv1).
    destruct (IH st1 rd1 Hinv1 Hrd1) as (st' & rd' & Hrun & Hinv' & Htake' & Hrd' & Hv');
      [lia|].
    exists st', rd'. split; [exact Hrun|]. split; [exact Hinv'|].
    split; [congruence|]. split; [exact Hrd'|]. lia.
  - exists st, rd. split; [reflexivity|]. split; [exact Hinv|].
    split; [reflexivity|]. split; [exact Hrd | lia].
Qed.

Lemma lookup_snoc_ge ns (x nd : Core.Node Obs) i :
  (ns ++ [x]) !! i = Some nd -> (length ns <= i)%nat -> i = length ns /\ nd = x.
Proof.
  intros Hlk Hi. rewrite lookup_app_r in Hlk by assumption.
  destruct (i - length ns)%nat as [|k] eqn:Hk; cbn in Hlk; [|discriminate].
  split; [lia | congruence].
Qed.

(** A new root at the end of the arena is a tree. *)
Lemma root_only_links ns (x : Core.Node Obs) :
  Core.parent x = None -> Core.children x = [] ->
  (1 <= Core.action_space_n x)%nat ->
  tree_links Obs (length ns) (ns ++ [x]).
Proof.
  intros Hp Hc Hn. split.
  - intros i nd p Hi Hlk Hpar.
    destruct (lookup_snoc_ge _ _ _ _ Hlk Hi) as [-> ->]. congruence.
  - intros i nd a c Hi Hlk Hget.
    destruct (lookup_snoc_ge _ _ _ _ Hlk Hi) as [-> ->].
    rewrite Hc in Hget. discriminate.
  - intros i nd Hi Hlk.
    destruct (lookup_snoc_ge _ _ _ _ Hlk Hi) as [-> ->]. rewrite Hc.
    split; [apply NoDup_nil_2 | intros a Ha; inversion Ha].
  - intros i nd Hi Hlk.
    destruct (lookup_snoc_ge _ _ _ _ Hlk Hi) as [-> ->]. assumption.
  - intros i nd Hi Hlk _.
    destruct (lookup_snoc_ge _ _ _ _ Hlk Hi) as [-> ->]. reflexivity.
Qed.

(** [search] returns the root it creates at the end of the node arena;
    [budget - 1] turns of the loop are enough; the root then has
    [max(1, budget)] visits, and the environments that existed before the
    call, the caller's among them, are as they were. *)
Lemma search_on_tree st env e budget obs reward fuel :
  Core.envs st !! env = Some e ->
  (1 <= env_n e)%nat ->
  (Z.to_nat (budget - 1) <= fuel)%nat ->
  exists st' rd',
    search_s fuel st env budget obs reward = Ok (length (Core.nodes st), st') /\
    loop_inv Obs Env (length (Core.nodes st)) (length (Core.envs st)) st' /\
    take (length (Core.envs st)) (Core.envs st') = Core.envs st /\
    Core.nodes st' !! length (Core.nodes st) = Some rd' /\
    Core.visits rd' = Z.max 1 budget.
Proof.
  intros He Hn Hfuel.
  set (r0 := length (Core.nodes st)). set (base := length (Core.envs st)).
  set (root := Core.Node_init Obs (Some base) None reward (env_n e) false (Some obs)).
  unfold Core.search. rewrite (deref_Some _ _ _ He). cbn [bind].
  unfold Core.deepcopy. rewrite (deref_Some _ _ _ He).
  cbn [bind Core.set_envs Core.set_nodes Core.nodes Core.envs Core.rng].
  fold r0 base root.
  set (st2 := {| Core.nodes := Core.nodes st ++ [root];
                 Core.envs := Core.envs st ++ [e]; Core.rng := Core.rng st |}).
  assert (Hr2 : Core.nodes st2 !! r0 = Some root).
  { cbn [st2 Core.nodes]. rewrite lookup_app_r by (unfold r0; lia).
    unfold r0. rewrite Nat.sub_diag. reflexivity. }
  destruct (value_function_returns st2 r0 root base Hr2 eq_refl) as [v Hv].
  { cbn [st2 Core.envs]. rewrite length_app. cbn. unfold base. lia. }
  change (Core.set_nodes Obs Env (Core.set_envs Obs Env st (Core.envs st ++ [e]))
            (Core.nodes st ++ [root])) with st2.
  change (Core.nodes st ++ [root]) with (Core.nodes st2).
  rewrite Hv. cbn [bind]. rewrite (deref_Some _ _ _ Hr2). cbn [bind].
  set (st3 := Core.set_nodes Obs Env st2
                (<[r0 := Core.set_value_evaluation Obs root v]> (Core.nodes st2))).
  assert (Hlinks2 : tree_links Obs r0 (Core.nodes st2))
    by (apply root_only_links; [reflexivity | reflexivity | exact Hn]).
  assert (Henvs2 : env_links Obs Env r0 base st2).
  { split.
    - cbn [st2 Core.envs]. rewrite length_app. unfold base. lia.
    - intros i nd Hi Hlk _. destruct (lookup_snoc_ge _ _ _ _ Hlk Hi) as [_ ->].
      eexists. reflexivity.
    - intros i nd l Hi Hlk Hl. destruct (lookup_snoc_ge _ _ _ _ Hlk Hi) as [_ ->].
      cbn in Hl. injection Hl as <-. cbn [st2 Core.envs]. rewrite length_app. cbn.
      unfold base. lia. }
  assert (Hgrow3 : Forall2 (node_grows Obs) (Core.nodes st2) (Core.nodes st3))
    by (apply (arena_grows_insert Obs _ r0 root); [assumption | apply node_grows_set_value]).
  assert (Hlinks3 : tree_links Obs r0 (Core.nodes st3))
    by (eapply tree_links_grows; eassumption).
  assert (Hlen3 : length (Core.nodes st3) = S r0).
  { cbn [st3 st2 Core.set_nodes Core.nodes]. rewrite length_insert, length_app. cbn.
    unfold r0. lia. }
  destruct (backup_on_tree Obs Env gamma r0 st3 r0 v Hlinks3)
    as (st4 & Hback & Henv4 & _ & Hgrow4 & Hbump); [lia|].
  rewrite Hback. cbn [bind].
  assert (Hr3 : Core.nodes st3 !! r0 = Some (Core.set_value_evaluation Obs root v)).
  { apply list_lookup_insert_eq. cbn [st2 Core.nodes]. rewrite length_app. cbn.
    unfold r0. lia. }
  assert (Hvis4 : forall i nd, (r0 <= i)%nat -> Core.nodes st4 !! i = Some nd ->
                    i = r0 /\ Core.visits nd = 1).
  { intros i nd Hi Hlk.
    assert (i = r0) as ->.
    { apply lookup_lt_Some in Hlk. rewrite <- (Forall2_length _ _ _ Hgrow4) in Hlk. lia. }
    split; [reflexivity|].
    destruct (Hbump r0 nd (or_introl eq_refl) Hlk) as (y & Hy & Hvy).
    rewrite Hr3 in Hy. injection Hy as <-. rewrite Hvy. reflexivity. }
  assert (Hinv4 : loop_inv Obs Env r0 base st4).
  { split; [eapply tree_links_grows; eassumption|]. split.
    - eapply env_links_grows; [exact Hgrow4 | exact Henv4 |].
      eapply env_links_grows; [exact Hgrow3 | reflexivity | assumption].
    - intros i nd Hi Hlk. destruct (Hvis4 i nd Hi Hlk) as [_ ->]. lia. }
  destruct (lookup_lt_is_Some_2 (Core.nodes st4) r0) as [rd4 Hrd4].
  { rewrite <- (Forall2_length _ _ _ Hgrow4). lia. }
  destruct (Hvis4 r0 rd4 (Nat.le_refl _) Hrd4) as [_ Hv4].
  destruct (build_tree_on_tree r0 base budget fuel st4 rd4 Hinv4 Hrd4)
    as (st' & rd' & Hrun & Hinv' & Htake' & Hrd' & Hv'); [rewrite Hv4; assumption|].
  exists st', rd'. split; [exact Hrun|]. split; [exact Hinv'|].
  split.
  - rewrite Htake', Henv4. cbn [st3 st2 Core.set_nodes Core.envs].
    unfold base. apply take_app_length.
  - split; [exact Hrd'|]. rewrite Hv', Hv4. reflexivity.
Qed.
End SearchFacts.

(** * The example policies keep their contracts *)

Section ReferencePolicies.
Context `{Scalar}.
Variable Obs : Type.

Lemma keys_length_le (keys : list nat) (n : nat) :
  NoDup keys -> (forall a, a ∈ keys -> (a < n)%nat) -> (length keys <= n)%nat.
Proof.
  intros Hnd Hlt.
  assert (Hsub : keys ⊆+ seq 0 n).
  { apply NoDup_submseteq; [assumption|]. intros a Ha. apply elem_of_seq.
    specialize (Hlt a Ha). lia. }
  apply submseteq_length in Hsub. rewrite length_seq in Hsub. assumption.
Qed.

Lemma first_child_policy_contract : selection_contract Obs (first_child_policy Obs).
Proof.
  intros r0 ns i nd [_ _ Hkeys Hact _] _ Hi Hnd _.
  unfold first_child_policy. rewrite (deref_Some _ _ _ Hnd). cbn [bind].
  destruct (Hkeys i nd Hi Hnd) as [Hnodup Hbound].
  pose proof (keys_length_le _ _ Hnodup Hbound) as Hle.
  pose proof (Hact i nd Hi Hnd) as Hn.
  unfold dict_keys in Hle. rewrite length_map in Hle. unfold dict_len.
  destruct (Nat.eqb_spec (length (Core.children nd)) (Core.action_space_n nd)) as [Heq|Hne];
    cbn [negb].
  - right. destruct (Core.children nd) as [|[a c] rest]; [cbn in Heq; lia|].
    exists a. split; [reflexivity | left].
  - left. split; [reflexivity | lia].
Qed.

Lemma lowest_unexpanded_policy_contract :
  expansion_contract Obs (lowest_unexpanded_policy Obs).
Proof.
  intros r0 ns i nd draw [_ _ Hkeys _ _] Hi Hnd Hroom.
  unfold lowest_unexpanded_policy. rewrite (deref_Some _ _ _ Hnd). cbn [bind].
  destruct (Hkeys i nd Hi Hnd) as [Hnodup _].
  destruct (missing_key (dict_keys (Core.children nd)) (Core.action_space_n nd) Hnodup)
    as (a0 & Ha0 & Hfree0).
  { unfold dict_keys. rewrite length_map. assumption. }
  destruct (find _ (seq 0 (Core.action_space_n nd))) as [a|] eqn:Hfind.
  - apply find_some in Hfind as [Hin Hp]. exists a. split; [reflexivity|].
    apply in_seq in Hin. apply bool_decide_eq_true in Hp. split; [lia | assumption].
  - exfalso. pose proof (find_none _ _ Hfind a0) as Hf. cbv beta in Hf.
    apply dict_get_None in Hfree0.
    rewrite bool_decide_eq_false in Hf. apply Hf; [apply in_seq; lia | assumption].
Qed.
End ReferencePolicies.

(** * The theorems on the search *)

(** C7: with single-child expansion and either estimator, every search
    with a budget [b >= 1] returns, [b - 1] turns of the loop being
    enough, and the root it returns has exactly [b] visits.  The
    selection and expansion policies are any that keep their contracts,
    the environment is any whose action space is not empty. *)
Theorem search_root_visits_equal_budget `{Scalar} (Obs Env : Type)
    (env_step : Env -> nat -> Env * (Obs * F * bool * bool))
    (env_sample : Env -> Env * nat) (env_n : Env -> nat)
    (selection_policy : list (Core.Node Obs) -> nat -> result (option nat))
    (policy : list (Core.Node Obs) -> nat -> nat -> result nat)
    (gamma : F) (value_fn : Core.estimator) (rand : nat -> nat)
    (st : Core.State Obs Env) (env : nat) (e : Env) (budget : Z) (obs : Obs)
    (reward : F) (fuel : nat) :
  selection_contract Obs selection_policy ->
  expansion_contract Obs policy ->
  Core.envs st !! env = Some e ->
  (1 <= env_n e)%nat ->
  1 <= budget ->
  (Z.to_nat (budget - 1) <= fuel)%nat ->
  exists st' root,
    Core.search Obs Env env_step env_sample env_n selection_policy (Some policy)
      gamma value_fn rand fuel st env budget obs reward
    = Ok (length (Core.nodes st), st') /\
    Core.nodes st' !! length (Core.nodes st) = Some root /\
    Core.visits root = budget.
Proof.
  intros Hsel Hexp He Hn Hb Hfuel.
  destruct (search_on_tree Obs Env env_step env_sample env_n selection_policy policy
              gamma value_fn rand Hsel Hexp st env e budget obs reward fuel He Hn Hfuel)
    as (st' & rd' & Hrun & _ & _ & Hrd' & Hv).
  exists st', rd'. split; [exact Hrun|]. split; [exact Hrd' | lia].
Qed.

Lemma search_root_visits_equal_budget_witness :
  exists st' root,
    Examples.search_count 4 Examples.count_state 0 5 tt 0%Q = Ok (0%nat, st') /\
    Core.nodes st' !! 0%nat = Some root /\
    Core.visits root = 5.
Proof.
  apply (@search_root_visits_equal_budget QScalar unit nat Examples.count_step
           Examples.count_sample Examples.two_actions (first_child_policy unit)
           (lowest_unexpanded_policy unit) (1 # 2)%Q (Core.RandomRollout 3) (fun n => n)
           Examples.count_state 0%nat 0%nat 5 tt 0%Q 4%nat
           (first_child_policy_contract unit) (lowest_unexpanded_policy_contract unit)
           eq_refl).
  - unfold Examples.two_actions. lia.
  - lia.
  - lia.
Defined.

(** C8: an expansion of action [a] at a node that holds a snapshot steps
    exactly one environment, once, with [a], and the child is built from
    that step.  When [len(children) == n - 1], one unexpanded action is
    left: the node's own snapshot is the one stepped, it passes to the
    child, and the node's reference becomes [None].  Otherwise a fresh
    deep copy is stepped and passed to the child; the node keeps its
    reference and its snapshot keeps its state.  No other node and no
    other environment changes.  And over a whole search every environment
    that existed before the call, the caller's among them, keeps its
    state. *)
Theorem expand_snapshot_discipline `{Scalar} (Obs Env : Type)
    (env_step : Env -> nat -> Env * (Obs * F * bool * bool))
    (env_sample : Env -> Env * nat) (env_n : Env -> nat)
    (selection_policy : list (Core.Node Obs) -> nat -> result (option nat))
    (policy : list (Core.Node Obs) -> nat -> nat -> result nat)
    (gamma : F) (value_fn : Core.estimator) (rand : nat -> nat) :
  (forall (st : Core.State Obs Env) node action nd l ev ev' o r tm tr,
     Core.nodes st !! node = Some nd ->
     Core.env nd = Some l ->
     Core.envs st !! l = Some ev ->
     env_step ev action = (ev', (o, r, tm, tr)) ->
     exists st' lc,
       Core.expand Obs Env env_step st node action
       = Ok (length (Core.nodes st), st') /\
       Core.nodes st' !! length (Core.nodes st)
       = Some (Core.Node_init Obs (Some lc) (Some node) r (Core.action_space_n nd)
                 (tm || tr) (if tm then None else Some o)) /\
       (forall j, j <> node -> (j < length (Core.nodes st))%nat ->
          Core.nodes st' !! j = Core.nodes st !! j) /\
       if Z.of_nat (dict_len (Core.children nd)) =? Z.of_nat (Core.action_space_n nd) - 1
       then lc = l /\
            Core.envs st' = <[l := ev']> (Core.envs st) /\
            Core.env <$> Core.nodes st' !! node = Some None
       else lc = length (Core.envs st) /\
            Core.envs st' = Core.envs st ++ [ev'] /\
            Core.env <$> Core.nodes st' !! node = Some (Some l)) /\
  (selection_contract Obs selection_policy ->
   expansion_contract Obs policy ->
   forall (st : Core.State Obs Env) env e budget obs reward fuel,
     Core.envs st !! env = Some e ->
     (1 <= env_n e)%nat ->
     (Z.to_nat (budget - 1) <= fuel)%nat ->
     exists st',
       Core.search Obs Env env_step env_sample env_n selection_policy (Some policy)
         gamma value_fn rand fuel st env budget obs reward
       = Ok (length (Core.nodes st), st') /\
       (forall l, (l < length (Core.envs st))%nat ->
          Core.envs st' !! l = Core.envs st !! l) /\
       Core.envs st' !! env = Some e).
Proof.
  split.
  - intros st node action nd l ev ev' o r tm tr Hnd Hl Hev Hstep.
    assert (Hlen : (node < length (Core.nodes st))%nat)
      by (eapply lookup_lt_Some; eassumption).
    pose proof (expand_spec Obs Env env_step st node action nd l ev ev' o r tm tr
                  Hnd Hl Hev Hstep) as Hrun.
    destruct (Z.of_nat (dict_len (Core.children nd))
              =? Z.of_nat (Core.action_space_n nd) - 1).
    + eexists _, l. split; [exact Hrun|]. cbn [Core.nodes Core.envs].
      split; [apply lookup_expanded_new|].
      split; [intros j Hj Hjl; rewrite lookup_app_l by (rewrite length_insert; assumption);
              apply list_lookup_insert_ne; congruence|].
      split; [reflexivity|]. split; [reflexivity|].
      rewrite lookup_expanded_at by assumption. reflexivity.
    + eexists _, (length (Core.envs st)). split; [exact Hrun|]. cbn [Core.nodes Core.envs].
      split; [apply lookup_expanded_new|].
      split; [intros j Hj Hjl; rewrite lookup_app_l by (rewrite length_insert; assumption);
              apply list_lookup_insert_ne; congruence|].
      split; [reflexivity|]. split; [reflexivity|].
      rewrite lookup_expanded_at by assumption. cbn. rewrite Hl. reflexivity.
  - intros Hsel Hexp st env e budget obs reward fuel He Hn Hfuel.
    destruct (search_on_tree Obs Env env_step env_sample env_n selection_policy policy
                gamma value_fn rand Hsel Hexp st env e budget obs reward fuel He Hn Hfuel)
      as (st' & rd' & Hrun & _ & Htake & _).
    exists st'. split; [exact Hrun|].
    assert (Hframe : forall l, (l < length (Core.envs st))%nat ->
                       Core.envs st' !! l = Core.envs st !! l).
    { intros l Hl. rewrite <- Htake. symmetry. apply lookup_take_lt. assumption. }
    split; [exact Hframe|].
    rewrite Hframe by (eapply lookup_lt_Some; eassumption). assumption.
Qed.

Lemma expand_snapshot_discipline_witness :
  (exists st',
     Core.expand unit nat Examples.count_step Examples.snapshot_state 0 1
     = Ok (1%nat, st') /\
     Core.envs st' = [0%nat; 0%nat; 2%nat] /\
     Core.env <$> Core.nodes st' !! 0%nat = Some (Some 1%nat) /\
     Core.env <$> Core.nodes st' !! 1%nat = Some (Some 2%nat)) /\
  (exists st',
     Examples.search_count 4 Examples.count_state 0 5 tt 0%Q = Ok (0%nat, st') /\
     Core.envs st' !! 0%nat = Some 0%nat).
Proof.
  destruct (@expand_snapshot_discipline QScalar unit nat Examples.count_step
              Examples.count_sample Examples.two_actions (first_child_policy unit)
              (lowest_unexpanded_policy unit) (1 # 2)%Q (Core.RandomRollout 3)
              (fun n => n)) as [Hexpand Hsearch].
  split.
  - destruct (Hexpand Examples.snapshot_state 0%nat 1%nat _ 1%nat 0%nat 2%nat tt 1%Q
                false false eq_refl eq_refl eq_refl eq_refl)
      as (st' & lc & Hrun & Hchild & _ & Hcase).
    change (lc = 2%nat /\ Core.envs st' = [0%nat; 0%nat; 2%nat] /\
            Core.env <$> Core.nodes st' !! 0%nat = Some (Some 1%nat)) in Hcase.
    destruct Hcase as (Hlc & Henvs & Hnode).
    change (length (Core.nodes Examples.snapshot_state)) with 1%nat in Hchild.
    exists st'. split; [exact Hrun|]. split; [exact Henvs|]. split; [exact Hnode|].
    rewrite Hchild, Hlc. reflexivity.
  - destruct (Hsearch (first_child_policy_contract unit)
                (lowest_unexpanded_policy_contract unit)
                Examples.count_state 0%nat 0%nat 5 tt 0%Q 4%nat eq_refl)
      as (st' & Hrun & _ & Hcaller); [unfold Examples.two_actions; lia | lia |].
    exists st'. split; [exact Hrun | exact Hcaller].
Defined.

(** * The statistics never shrink *)

Section GrowthFacts.
Context `{Scalar}.
Variables (Obs Env : Type).
Variable env_step : Env -> nat -> Env * (Obs * F * bool * bool).
Variable env_sample : Env -> Env * nat.
Variable selection_policy : list (Core.Node Obs) -> nat -> result (option nat).
Variable expansion_policy : option (list (Core.Node Obs) -> nat -> nat -> result nat).
Variable gamma : F.
Variable value_fn : Core.estimator.
Variable rand : nat -> nat.

(** The condition under which the sums are compared. *)
Variable P : Prop.
Hypothesis P_positive : P -> positive Obs Env env_step gamma.

Implicit Types (ns : list (Core.Node Obs)) (st : Core.State Obs Env).

Abbreviation grow := (stats_grow Obs P).
Abbreviation nonneg := (nonneg_rewards Obs).

Lemma grow_refl ns : grow ns ns.
Proof.
  intros j nd Hnd. exists nd. split; [assumption|]. split; [reflexivity|].
  split; [lia|]. intros HP. destruct (P_positive HP) as [Hlaws _]. apply fle_refl.
Qed.

Lemma grow_trans ns1 ns2 ns3 : grow ns1 ns2 -> grow ns2 ns3 -> grow ns1 ns3.
Proof.
  intros H12 H23 j nd Hnd.
  destruct (H12 j nd Hnd) as (nd2 & Hnd2 & Hr2 & Hv2 & Hs2).
  destruct (H23 j nd2 Hnd2) as (nd3 & Hnd3 & Hr3 & Hv3 & Hs3).
  exists nd3. split; [assumption|]. split; [congruence|]. split; [lia|].
  intros HP. destruct (P_positive HP) as [Hlaws _].
  eapply fle_trans; [apply Hs2 | apply Hs3]; assumption.
Qed.

Lemma grow_insert ns i nd nd' :
  ns !! i = Some nd ->
  Core.reward nd' = Core.reward nd ->
  Core.visits nd <= Core.visits nd' ->
  (P -> fle (Core.subtree_sum nd) (Core.subtree_sum nd') = true) ->
  grow ns (<[i := nd']> ns).
Proof.
  intros Hnd Hr Hv Hs j x Hx. destruct (decide (j = i)) as [->|Hne].
  - rewrite Hnd in Hx. injection Hx as <-. exists nd'.
    split; [apply list_lookup_insert_eq; eapply lookup_lt_Some; eassumption|]. auto.
  - rewrite <- (list_lookup_insert_ne ns i j nd') in Hx by congruence.
    apply (grow_refl _ j x Hx).
Qed.

Lemma grow_app ns l : grow ns (ns ++ l).
Proof.
  intros j x Hx.
  assert (Hx' : (ns ++ l) !! j = Some x)
    by (rewrite lookup_app_l by (eapply lookup_lt_Some; eassumption); assumption).
  apply (grow_refl _ j x Hx').
Qed.

Lemma nonneg_insert ns i nd' :
  nonneg ns -> fle fzero (Core.reward nd') = true -> nonneg (<[i := nd']> ns).
Proof.
  intros Hns Hr j x Hx. destruct (decide (j = i)) as [->|Hne].
  - destruct (decide (i < length ns)%nat) as [Hlt|Hge].
    + rewrite list_lookup_insert_eq in Hx by assumption. injection Hx as <-. assumption.
    + rewrite list_insert_ge in Hx by lia. apply (Hns i x Hx).
  - rewrite list_lookup_insert_ne in Hx by congruence. apply (Hns j x Hx).
Qed.

Lemma nonneg_snoc ns x :
  nonneg ns -> fle fzero (Core.reward x) = true -> nonneg (ns ++ [x]).
Proof.
  intros Hns Hr j y Hy. destruct (decide (j < length ns)%nat) as [Hlt|Hge].
  - rewrite lookup_app_l in Hy by assumption. apply (Hns j y Hy).
  - destruct (lookup_snoc_ge Obs ns x y j Hy) as [_ ->]; [lia | assumption].
Qed.

(** The loop of the backup: visits go up by one along the walk, and the
    sums go up by returns that are not negative. *)
Lemma backup_loop_grows fuel :
  forall ns o g ns',
    Core.backup_loop Obs gamma fuel ns o g 1 = Ok ns' ->
    (P -> nonneg ns) -> (P -> fle fzero g = true) ->
    grow ns ns' /\ (P -> nonneg ns').
Proof.
  induction fuel as [|fuel IH]; intros ns o g ns' Hrun Hns Hg;
    destruct o as [i|]; cbn [Core.backup_loop] in Hrun; try discriminate;
    try (injection Hrun as <-; split; [apply grow_refl | assumption]).
  unfold deref in Hrun. destruct (ns !! i) as [nd|] eqn:Hnd; [|discriminate].
  cbn [of_option bind] in Hrun.
  set (g' := fadd (fmul g gamma) (Core.reward nd)) in *.
  assert (Hg' : P -> fle fzero g' = true).
  { intros HP. destruct (P_positive HP) as (Hlaws & Hgamma & _).
    apply fle_nonneg_add; [apply fle_nonneg_mul; auto | apply (Hns HP i nd Hnd)]. }
  destruct (IH _ _ _ _ Hrun) as [Hgrow Hns'].
  - intros HP. apply nonneg_insert; [auto | apply (Hns HP i nd Hnd)].
  - assumption.
  - split; [|assumption].
    eapply grow_trans; [|exact Hgrow].
    apply (grow_insert ns i nd); [assumption | reflexivity | cbn; lia |].
    intros HP. destruct (P_positive HP) as (Hlaws & _). cbn.
    apply fle_add_nonneg. auto.
Qed.

Lemma backup_grows st start v st' :
  Core.backup Obs Env gamma st start v 1 = Ok st' ->
  (P -> nonneg (Core.nodes st)) -> (P -> fle fzero v = true) ->
  grow (Core.nodes st) (Core.nodes st') /\ (P -> nonneg (Core.nodes st')).
Proof.
  unfold Core.backup. intros Hrun Hns Hv.
  destruct (Core.backup_loop Obs gamma (length (Core.nodes st)) (Core.nodes st)
              (Some start) v 1) as [ns'| |] eqn:Hloop; try discriminate.
  cbn [bind] in Hrun. injection Hrun as <-. cbn [Core.set_nodes Core.nodes].
  eapply backup_loop_grows; eassumption.
Qed.

Lemma rollout_nonneg budget :
  P -> forall e acc, fle fzero acc = true ->
  fle fzero (Core.rollout Obs Env env_step env_sample budget e acc) = true.
Proof.
  intros HP. destruct (P_positive HP) as (Hlaws & _ & Henv).
  induction budget as [|budget IH]; intros e acc Hacc; cbn [Core.rollout]; [assumption|].
  destruct (env_sample e) as [e1 a].
  pose proof (Henv e1 a) as Hr. unfold step_reward in Hr.
  destruct (env_step e1 a) as [e2 [[[o r] tm] tr]]. cbn in Hr.
  assert (Hacc' : fle fzero (fadd acc r) = true) by (apply fle_nonneg_add; assumption).
  destruct (tm || tr); [assumption | apply IH; assumption].
Qed.

Lemma value_function_nonneg st c v :
  Core.value_function Obs Env env_step env_sample value_fn st c = Ok v ->
  P -> fle fzero v = true.
Proof.
  intros Hv HP. destruct (P_positive HP) as (Hlaws & _).
  unfold Core.value_function in Hv. destruct value_fn as [|budget].
  - injection Hv as <-. apply fle_refl.
  - unfold deref in Hv. destruct (Core.nodes st !! c) as [nd|]; [|discriminate].
    cbn [of_option bind] in Hv.
    destruct (Core.is_terminal Obs nd); [injection Hv as <-; apply fle_refl|].
    destruct (Core.env nd) as [l|]; [|discriminate]. cbn [of_option bind] in Hv.
    destruct (Core.envs st !! l) as [e|]; [|discriminate]. cbn [of_option bind] in Hv.
    injection Hv as <-. apply rollout_nonneg; [assumption | apply fle_refl].
Qed.

(** An expansion adds a node and rewrites the links of one node: every
    statistic is as before. *)
Lemma expand_grows st node a c st' :
  Core.expand Obs Env env_step st node a = Ok (c, st') ->
  (P -> nonneg (Core.nodes st)) ->
  grow (Core.nodes st) (Core.nodes st') /\ (P -> nonneg (Core.nodes st')).
Proof.
  intros Hrun Hns.
  destruct (Core.nodes st !! node) as [nd|] eqn:Hnd.
  2:{ unfold Core.expand, deref in Hrun. rewrite Hnd in Hrun. discriminate. }
  destruct (Core.env nd) as [l|] eqn:Hl.
  2:{ unfold Core.expand, Core.deepcopy, deref in Hrun. rewrite Hnd in Hrun.
      cbn [of_option bind] in Hrun. rewrite Hl in Hrun.
      destruct (Z.of_nat (dict_len (Core.children nd))
                =? Z.of_nat (Core.action_space_n nd) - 1); discriminate. }
  destruct (Core.envs st !! l) as [ev|] eqn:Hev.
  2:{ unfold Core.expand, Core.deepcopy, deref in Hrun. rewrite Hnd in Hrun.
      cbn [of_option bind] in Hrun. rewrite Hl in Hrun.
      destruct (Z.of_nat (dict_len (Core.children nd))
                =? Z.of_nat (Core.action_space_n nd) - 1);
        cbn [of_option bind Core.set_nodes Core.envs] in Hrun;
        rewrite Hev in Hrun; discriminate. }
  destruct (env_step ev a) as [ev' [[[o r] tm] tr]] eqn:Hstep.
  rewrite (expand_spec Obs Env env_step st node a nd l ev ev' o r tm tr Hnd Hl Hev Hstep)
    in Hrun.
  assert (Hr : P -> fle fzero r = true).
  { intros HP. destruct (P_positive HP) as (_ & _ & Henv).
    pose proof (Henv ev a) as Hr. unfold step_reward in Hr. rewrite Hstep in Hr.
    exact Hr. }
  assert (Hrefl : P -> forall x : F, fle x x = true).
  { intros HP. destruct (P_positive HP) as (Hlaws & _). apply fle_refl. }
  injection Hrun as _ <-.
  destruct (Z.of_nat (dict_len (Core.children nd)) =? Z.of_nat (Core.action_space_n nd) - 1);
    cbn [Core.nodes]; (split;
      [ eapply grow_trans; [|apply grow_app];
        apply (grow_insert _ node nd); [assumption | reflexivity | cbn; lia | cbn; auto]
      | intros HP; apply nonneg_snoc; [|cbn; auto];
        apply nonneg_insert; [auto | cbn; apply (Hns HP node nd Hnd)] ]).
Qed.

(** Expanding, evaluating and backing up one child. *)
Lemma handle_single_grows st node a st' :
  Core.handle_single Obs Env env_step env_sample gamma value_fn st node a = Ok st' ->
  (P -> nonneg (Core.nodes st)) ->
  grow (Core.nodes st) (Core.nodes st') /\ (P -> nonneg (Core.nodes st')).
Proof.
  unfold Core.handle_single. intros Hrun Hns.
  destruct (Core.expand Obs Env env_step st node a) as [[c st1]| |] eqn:Hexp;
    try discriminate. cbn [bind] in Hrun.
  destruct (expand_grows _ _ _ _ _ Hexp Hns) as [Hgrow1 Hns1].
  destruct (Core.value_function Obs Env env_step env_sample value_fn st1 c)
    as [v| |] eqn:Hv; try discriminate. cbn [bind] in Hrun.
  unfold deref in Hrun. destruct (Core.nodes st1 !! c) as [nd|] eqn:Hnd; [|discriminate].
  cbn [of_option bind] in Hrun.
  destruct (backup_grows _ _ _ _ Hrun) as [Hgrow2 Hns2].
  - intros HP. cbn [Core.set_nodes Core.nodes].
    apply nonneg_insert; [auto | cbn; apply (Hns1 HP c nd Hnd)].
  - eapply value_function_nonneg; eassumption.
  - split; [|assumption].
    eapply grow_trans; [exact Hgrow1|]. eapply grow_trans; [|exact Hgrow2].
    cbn [Core.set_nodes Core.nodes].
    apply (grow_insert _ c nd); [assumption | reflexivity | cbn; lia |].
    intros HP. destruct (P_positive HP) as (Hlaws & _). cbn. apply fle_refl.
Qed.

Lemma handle_all_loop_grows actions :
  forall st node st',
    Core.handle_all_loop Obs Env env_step env_sample gamma value_fn st node actions
    = Ok st' ->
    (P -> nonneg (Core.nodes st)) ->
    grow (Core.nodes st) (Core.nodes st') /\ (P -> nonneg (Core.nodes st')).
Proof.
  induction actions as [|a actions IH]; intros st node st' Hrun Hns;
    cbn [Core.handle_all_loop] in Hrun.
  - injection Hrun as <-. split; [apply grow_refl | assumption].
  - destruct (Core.handle_single Obs Env env_step env_sample gamma value_fn st node a)
      as [st1| |] eqn:Hone; try discriminate. cbn [bind] in Hrun.
    destruct (handle_single_grows _ _ _ _ Hone Hns) as [Hgrow1 Hns1].
    destruct (IH _ _ _ Hrun Hns1) as [Hgrow2 Hns2].
    split; [eapply grow_trans; eassumption | assumption].
Qed.

Lemma handle_selected_node_grows st node st' :
  Core.handle_selected_node Obs Env env_step env_sample expansion_policy gamma value_fn
    rand st node = Ok st' ->
  (P -> nonneg (Core.nodes st)) ->
  grow (Core.nodes st) (Core.nodes st') /\ (P -> nonneg (Core.nodes st')).
Proof.
  unfold Core.handle_selected_node. intros Hrun Hns.
  destruct expansion_policy as [policy|].
  - destruct (policy (Core.nodes st) node (rand (Core.rng st))) as [a| |];
      try discriminate. cbn [bind] in Hrun.
    apply (handle_single_grows _ _ _ _ Hrun). exact Hns.
  - unfold Core.handle_all, deref in Hrun.
    destruct (Core.nodes st !! node) as [nd|]; [|discriminate].
    cbn [of_option bind] in Hrun.
    eapply handle_all_loop_grows; eassumption.
Qed.

(** One turn of the loop, in either expansion mode. *)
Lemma iteration_grows st root st' :
  Core.iteration Obs Env env_step env_sample selection_policy expansion_policy gamma
    value_fn rand st root = Ok st' ->
  (P -> nonneg (Core.nodes st)) ->
  grow (Core.nodes st) (Core.nodes st') /\ (P -> nonneg (Core.nodes st')).
Proof.
  unfold Core.iteration. intros Hrun Hns.
  destruct (Core.select_node_to_expand Obs Env selection_policy st root) as [s| |];
    try discriminate. cbn [bind] in Hrun.
  unfold deref in Hrun. destruct (Core.nodes st !! s) as [nd|] eqn:Hnd; [|discriminate].
  cbn [of_option bind] in Hrun.
  destruct (Core.is_terminal Obs nd).
  - destruct (backup_grows _ _ _ _ Hrun) as [Hgrow Hns'].
    + intros HP. cbn [Core.set_nodes Core.nodes].
      apply nonneg_insert; [auto | cbn; apply (Hns HP s nd Hnd)].
    + intros HP. destruct (P_positive HP) as (Hlaws & _). apply fle_refl.
    + split; [|assumption]. eapply grow_trans; [|exact Hgrow].
      cbn [Core.set_nodes Core.nodes].
      apply (grow_insert _ s nd); [assumption | reflexivity | cbn; lia |].
      intros HP. destruct (P_positive HP) as (Hlaws & _). cbn. apply fle_refl.
  - eapply handle_selected_node_grows; eassumption.
Qed.

Lemma build_tree_grows fuel :
  forall st root budget r st',
    Core.build_tree Obs Env env_step env_sample selection_policy expansion_policy gamma
      value_fn rand fuel st root budget = Ok (r, st') ->
    (P -> nonneg (Core.nodes st)) ->
    grow (Core.nodes st) (Core.nodes st') /\ (P -> nonneg (Core.nodes st')).
Proof.
  induction fuel as [|fuel IH]; intros st root budget r st' Hrun Hns;
    cbn [Core.build_tree] in Hrun; unfold deref in Hrun;
    destruct (Core.nodes st !! root) as [nd|]; try discriminate;
    cbn [of_option bind] in Hrun;
    destruct (Core.visits nd <? budget); try discriminate;
    try (injection Hrun as _ <-; split; [apply grow_refl | assumption]).
  destruct (Core.iteration Obs Env env_step env_sample selection_policy expansion_policy
              gamma value_fn rand st root) as [st1| |] eqn:Hit; try discriminate.
  cbn [bind] in Hrun.
  destruct (iteration_grows _ _ _ Hit Hns) as [Hgrow1 Hns1].
  destruct (IH _ _ _ _ _ Hrun Hns1) as [Hgrow2 Hns2].
  split; [eapply grow_trans; eassumption | assumption].
Qed.
End GrowthFacts.

#[export] Instance QScalarMonotone : ScalarMonotone QScalar.
Proof.
  split; cbn.
  - intros x. apply Qle_bool_iff, Qle_refl.
  - intros x y z Hxy Hyz. apply Qle_bool_iff. apply Qle_bool_iff in Hxy, Hyz.
    eapply Qle_trans; eassumption.
  - intros s g Hg. apply Qle_bool_iff. apply Qle_bool_iff in Hg.
    rewrite <- (Qplus_0_r s) at 1. apply Qplus_le_r. assumption.
  - intros x y Hx Hy. apply Qle_bool_iff. apply Qle_bool_iff in Hx, Hy.
    rewrite <- (Qplus_0_r 0). apply Qplus_le_compat; assumption.
  - intros x y Hx Hy. apply Qle_bool_iff. apply Qle_bool_iff in Hx, Hy.
    apply Qmult_le_0_compat; assumption.
Qed.

(** C6, as the driver has it.  No operation of the search loop takes a
    visit away: after a backup, an expansion, a whole turn of the loop in
    either expansion mode, or the whole loop, every node is still there
    with at least as many visits, for any environment and any policies.
    The sum of a node grows by the return that is backed up, so it is
    monotone where no return is negative (ordered arithmetic, a discount,
    rewards and leaf estimates that are not negative), and not in an
    environment with negative rewards. *)
Theorem visits_never_decrease `{Scalar} (Obs Env : Type)
    (env_step : Env -> nat -> Env * (Obs * F * bool * bool))
    (env_sample : Env -> Env * nat)
    (selection_policy : list (Core.Node Obs) -> nat -> result (option nat))
    (expansion_policy : option (list (Core.Node Obs) -> nat -> nat -> result nat))
    (gamma : F) (value_fn : Core.estimator) (rand : nat -> nat) :
  (forall (st : Core.State Obs Env) start v st',
     Core.backup Obs Env gamma st start v 1 = Ok st' ->
     stats_grow Obs
       (positive Obs Env env_step gamma /\ nonneg_rewards Obs (Core.nodes st) /\
        fle fzero v = true)
       (Core.nodes st) (Core.nodes st')) /\
  (forall (st : Core.State Obs Env) node a c st',
     Core.expand Obs Env env_step st node a = Ok (c, st') ->
     stats_grow Obs
       (positive Obs Env env_step gamma /\ nonneg_rewards Obs (Core.nodes st))
       (Core.nodes st) (Core.nodes st')) /\
  (forall (st : Core.State Obs Env) root st',
     Core.iteration Obs Env env_step env_sample selection_policy expansion_policy gamma
       value_fn rand st root = Ok st' ->
     stats_grow Obs
       (positive Obs Env env_step gamma /\ nonneg_rewards Obs (Core.nodes st))
       (Core.nodes st) (Core.nodes st')) /\
  (forall fuel (st : Core.State Obs Env) root budget r st',
     Core.build_tree Obs Env env_step env_sample selection_policy expansion_policy gamma
       value_fn rand fuel st root budget = Ok (r, st') ->
     stats_grow Obs
       (positive Obs Env env_step gamma /\ nonneg_rewards Obs (Core.nodes st))
       (Core.nodes st) (Core.nodes st')).
Proof.
  split; [|split; [|split]].
  - intros st start v st' Hrun.
    apply (backup_grows Obs Env env_step gamma _ (fun HP => proj1 HP) st start v st' Hrun).
    + intros HP. apply HP.
    + intros HP. apply HP.
  - intros st node a c st' Hrun.
    apply (expand_grows Obs Env env_step gamma _ (fun HP => proj1 HP) st node a c st' Hrun).
    intros HP. apply HP.
  - intros st root st' Hrun.
    apply (iteration_grows Obs Env env_step env_sample selection_policy expansion_policy
             gamma value_fn rand _ (fun HP => proj1 HP) st root st' Hrun).
    intros HP. apply HP.
  - intros fuel st root budget r st' Hrun.
    apply (build_tree_grows Obs Env env_step env_sample selection_policy expansion_policy
             gamma value_fn rand _ (fun HP => proj1 HP) fuel st root budget r st' Hrun).
    intros HP. apply HP.
Qed.

(** C6 fails as stated: the first backup of a root that was entered with
    reward -1 takes its sum from 0 to -1. *)
Lemma negative_reward_decreases_sum :
  exists st' root',
    Core.backup unit nat 1%Q Examples.penalty_state 0 0%Q 1 = Ok st' /\
    Core.subtree_sum <$> Core.nodes Examples.penalty_state !! 0%nat = Some 0%Q /\
    Core.nodes st' !! 0%nat = Some root' /\
    Core.subtree_sum root' = (0 + (0 * 1 + -1))%Q /\
    fle 0%Q (Core.subtree_sum root') = false.
Proof.
  eexists _, _. split; [reflexivity|]. split; [reflexivity|].
  split; [reflexivity|]. split; reflexivity.
Qed.

Lemma visits_never_decrease_witness :
  exists st' root',
    Core.backup unit unit (1 # 2)%Q Examples.chain2 1 4%Q 1 = Ok st' /\
    Core.nodes st' !! 0%nat = Some root' /\
    1 <= Core.visits root' /\
    fle 1%Q (Core.subtree_sum root') = true.
Proof.
  assert (Hrun : exists st',
             Core.backup unit unit (1 # 2)%Q Examples.chain2 1 4%Q 1 = Ok st')
    by (eexists; reflexivity).
  destruct Hrun as [st' Hrun].
  destruct (proj1 (@visits_never_decrease QScalar unit unit Examples.ended_step
                     Examples.ended_sample (first_child_policy unit)
                     (Some (lowest_unexpanded_policy unit)) (1 # 2)%Q Core.Zero
                     (fun n => n))
              Examples.chain2 1%nat 4%Q st' Hrun 0%nat _ eq_refl)
    as (root' & Hroot' & _ & Hv & Hs).
  exists st', root'. split; [exact Hrun|]. split; [exact Hroot'|].
  split; [exact Hv|]. apply Hs.
  split; [|split; [|reflexivity]].
  - split; [apply QScalarMonotone|]. split; [reflexivity|]. intros e a. reflexivity.
  - intros j nd Hnd. destruct j as [|[|j]]; cbn in Hnd; try discriminate;
      injection Hnd as <-; reflexivity.
Defined.

(** * The driver at the edges of its input *)

Section DriverEdges.
Context `{Scalar}.
Variables (Obs Env : Type).
Variable env_step : Env -> nat -> Env * (Obs * F * bool * bool).
Variable env_sample : Env -> Env * nat.
Variable env_n : Env -> nat.
Variable selection_policy : list (Core.Node Obs) -> nat -> result (option nat).
Variable expansion_policy : option (list (Core.Node Obs) -> nat -> nat -> result nat).
Variable gamma : F.
Variable value_fn : Core.estimator.
Variable rand : nat -> nat.

Implicit Types (st : Core.State Obs Env).

Lemma lookup_snoc_new {A : Type} (l : list A) (x : A) : (l ++ [x]) !! length l = Some x.
Proof. rewrite lookup_app_r by lia. rewrite Nat.sub_diag. reflexivity. Qed.

(** The estimate of the root that [search] creates from a copy of the
    environment [e]. *)
Lemma root_estimate st (e : Env) (root : Core.Node Obs) :
  Core.terminal root = false ->
  Core.env root = Some (length (Core.envs st)) ->
  Core.value_function Obs Env env_step env_sample value_fn
    (Core.mkState Obs Env (Core.nodes st ++ [root]) (Core.envs st ++ [e]) (Core.rng st))
    (length (Core.nodes st))
  = Ok match value_fn with
       | Core.Zero => fzero
       | Core.RandomRollout rollout_budget =>
           Core.rollout Obs Env env_step env_sample rollout_budget e fzero
       end.
Proof.
  intros Hterm Henv. unfold Core.value_function. destruct value_fn as [|b]; [reflexivity|].
  cbn [Core.nodes Core.envs]. rewrite (deref_Some _ _ _ (lookup_snoc_new _ _)). cbn [bind].
  unfold Core.is_terminal. rewrite Hterm, Henv. cbn [of_option bind].
  rewrite (deref_Some _ _ _ (lookup_snoc_new _ _)). reflexivity.
Qed.

(** [search] up to the loop: the root is a new node at the end of the
    arena, holding a copy of the caller's environment, evaluated and
    backed up once. *)
Lemma search_builds_root st (env : nat) (e : Env) (iterations : Z)
    (obs : Obs) (reward : F) (fuel : nat) :
  Core.envs st !! env = Some e ->
  let v := match value_fn with
           | Core.Zero => fzero
           | Core.RandomRollout rollout_budget =>
               Core.rollout Obs Env env_step env_sample rollout_budget e fzero
           end in
  Core.search Obs Env env_step env_sample env_n selection_policy expansion_policy
    gamma value_fn rand fuel st env iterations obs reward
  = Core.build_tree Obs Env env_step env_sample selection_policy expansion_policy
      gamma value_fn rand fuel
      (Core.mkState Obs Env
         (Core.nodes st ++
            [Core.mkNode Obs (Some (length (Core.envs st))) None reward (env_n e) false
               (Some obs) [] 1 (fadd fzero (fadd (fmul v gamma) reward)) v])
         (Core.envs st ++ [e])
         (Core.rng st))
      (length (Core.nodes st)) iterations.
Proof.
  intros He v. unfold Core.search.
  rewrite (deref_Some _ _ _ He). cbn [bind Core.deepcopy].
  rewrite (deref_Some _ _ _ He). cbn [bind].
  unfold Core.set_nodes, Core.set_envs. cbn [Core.nodes Core.envs Core.rng].
  set (root := Core.Node_init Obs (Some (length (Core.envs st))) None reward (env_n e)
                 false (Some obs)).
  rewrite (root_estimate st e root eq_refl eq_refl). fold v. cbn [bind].
  rewrite (deref_Some _ _ _ (lookup_snoc_new _ _)). cbn [bind].
  unfold Core.backup, Core.set_nodes. cbn [Core.nodes Core.envs Core.rng].
  rewrite length_insert, length_app. cbn [length].
  rewrite Nat.add_1_r. cbn [Core.backup_loop].
  rewrite (deref_Some _ _ (Core.set_value_evaluation Obs root v))
    by (apply list_lookup_insert_eq; rewrite length_app; cbn; lia).
  cbn [bind Core.set_value_evaluation Core.parent Core.reward root Core.Node_init].
  rewrite list_insert_insert_eq.
  assert (Hend : forall n ns, Core.backup_loop Obs gamma n ns None
                                (fadd (fmul v gamma) reward) 1 = Ok ns)
    by (intros [|n] ns; reflexivity).
  rewrite Hend. cbn [bind].
  replace (length (Core.nodes st)) with (length (Core.nodes st) + 0)%nat at 1 by lia.
  rewrite insert_app_r. reflexivity.
Qed.

(** X1: a search with a budget of at most 1, zero and negative budgets
    included, consults neither policy.  It deep-copies the caller's
    environment, creates the root, evaluates it and backs the estimate
    up; the loop of [build_tree] is not entered.  The tree it returns is
    the root alone: one visit, no children, the estimate [v] as
    [value_evaluation] and [0 + (v * gamma + reward)] as sum. *)
Theorem search_small_budget_lone_root st (env : nat) (e : Env) (iterations : Z)
    (obs : Obs) (reward : F) (fuel : nat) :
  Core.envs st !! env = Some e ->
  iterations <= 1 ->
  let v := match value_fn with
           | Core.Zero => fzero
           | Core.RandomRollout rollout_budget =>
               Core.rollout Obs Env env_step env_sample rollout_budget e fzero
           end in
  Core.search Obs Env env_step env_sample env_n selection_policy expansion_policy
    gamma value_fn rand fuel st env iterations obs reward
  = Ok (length (Core.nodes st),
        Core.mkState Obs Env
          (Core.nodes st ++
             [Core.mkNode Obs (Some (length (Core.envs st))) None reward (env_n e) false
                (Some obs) [] 1 (fadd fzero (fadd (fmul v gamma) reward)) v])
          (Core.envs st ++ [e])
          (Core.rng st)).
Proof.
  intros He Hb v. rewrite (search_builds_root st env e iterations obs reward fuel He).
  fold v.
  destruct fuel as [|fuel']; cbn [Core.build_tree Core.nodes];
    rewrite (deref_Some _ _ _ (lookup_snoc_new _ _)); cbn [bind Core.visits];
    destruct (Z.ltb_spec 1 iterations); try lia; reflexivity.
Qed.

(** X2: [expand] needs the node's snapshot.  At a node whose [env] is
    [None] it fails with [AssertionError] for every action, on both
    branches.  In particular, once the expansion that finds
    [len(children) == n - 1] has moved the snapshot into the child, every
    further expansion at that node fails. *)
Theorem expand_without_snapshot_fails st (node : nat) (nd : Core.Node Obs) :
  Core.nodes st !! node = Some nd ->
  (Core.env nd = None ->
   forall action,
     Core.expand Obs Env env_step st node action = Raise AssertionError) /\
  (Z.of_nat (dict_len (Core.children nd)) = Z.of_nat (Core.action_space_n nd) - 1 ->
   forall l ev action,
     Core.env nd = Some l -> Core.envs st !! l = Some ev ->
     exists st',
       Core.expand Obs Env env_step st node action = Ok (length (Core.nodes st), st') /\
       forall action',
         Core.expand Obs Env env_step st' node action' = Raise AssertionError).
Proof.
  intros Hnd.
  assert (Hnone : forall st0 nd0, Core.nodes st0 !! node = Some nd0 -> Core.env nd0 = None ->
            forall action, Core.expand Obs Env env_step st0 node action = Raise AssertionError).
  { intros st0 nd0 Hnd0 Hnone action. unfold Core.expand.
    rewrite (deref_Some _ _ _ Hnd0). cbn [bind].
    destruct (Z.of_nat (dict_len (Core.children nd0))
              =? Z.of_nat (Core.action_space_n nd0) - 1);
      rewrite Hnone; reflexivity. }
  split; [apply (Hnone st nd Hnd)|].
  intros Hlast l ev action Hl Hev.
  destruct (env_step ev action) as [ev' [[[o r] tm] tr]] eqn:Hstep.
  pose proof (expand_spec Obs Env env_step st node action nd l ev ev' o r tm tr
                Hnd Hl Hev Hstep) as Hrun.
  apply Z.eqb_eq in Hlast. rewrite Hlast in Hrun.
  eexists. split; [exact Hrun|].
  intros action'. eapply Hnone.
  - cbn [Core.nodes]. apply lookup_expanded_at. eapply lookup_lt_Some. eassumption.
  - reflexivity.
Qed.
End DriverEdges.

Lemma search_small_budget_lone_root_witness :
  exists root,
    Examples.search_count 0 Examples.count_state 0 0 tt 0%Q
    = Ok (0%nat, Core.mkState unit nat [root] [0%nat; 0%nat] 0) /\
    Core.visits root = 1 /\ Core.children root = [].
Proof.
  eexists. split.
  - apply (@search_small_budget_lone_root QScalar unit nat Examples.count_step
             Examples.count_sample Examples.two_actions (first_child_policy unit)
             (Some (lowest_unexpanded_policy unit)) (1 # 2)%Q (Core.RandomRollout 3)
             (fun n => n) Examples.count_state 0%nat 0%nat 0 tt 0%Q 0%nat eq_refl).
    lia.
  - split; reflexivity.
Defined.

Lemma expand_without_snapshot_fails_witness :
  Core.expand unit unit Examples.ended_step Examples.terminal_root_state 0 0
  = Raise AssertionError.
Proof.
  apply (proj1 (@expand_without_snapshot_fails QScalar unit unit Examples.ended_step
                  Examples.terminal_root_state 0%nat _ eq_refl) eq_refl).
Defined.

(** * The tree-evaluation distribution away from the leaves *)

Section DistributionShape.
Context `{Scalar}.
Variable Obs : Type.
Variable tensor_max : list F -> F.
Variable feq : F -> F -> bool.
Variable softmax : list F -> list F.
Variable logits_valid : list F -> bool.
Variable temperature : option F.
Variable _probs : Core.Node Obs -> list F.

Lemma set_last_length (t : list F) (x : F) :
  t <> [] -> exists t', Policies.set_last t x = Ok t' /\ length t' = length t.
Proof.
  intros Ht. destruct t as [|y t]; [contradiction|].
  eexists. split; [reflexivity|]. apply length_insert.
Qed.

(** [Categorical(probs=t)] returns a vector as long as [t] or raises
    [ValueError]. *)
Lemma Categorical_outcomes (t : list F) :
  match Policies.Categorical t with
  | Ok dist => length dist = length t
  | Raise e => e = ValueError
  | OutOfFuel => False
  end.
Proof.
  unfold Policies.Categorical.
  destruct (Policies.simplex _); [apply length_map | reflexivity].
Qed.

Lemma add_self_length (node : Core.Node Obs) (t : list F) :
  length (Policies.add_self_to_probs Obs node t) = (length t + 1)%nat.
Proof. unfold Policies.add_self_to_probs. rewrite length_app. reflexivity. Qed.

(** X3: the outcomes of [softmaxed_distribution], for every node, every
    temperature, both values of [include_self] and every arithmetic.
    It raises nothing but [ValueError], from the validation of
    [Categorical], and [RuntimeError], from [th.max] at temperature 0
    when [_probs(node)] is empty.  A distribution that it returns has
    one entry per entry of [_probs(node)], and one more for the node
    itself when [include_self] is set; on a node without children and
    with [include_self] it has [n + 1] entries, whatever [_probs] would
    return.  The softmax of torch keeps the shape of its argument. *)
Theorem softmaxed_distribution_outcomes (node : Core.Node Obs) (include_self : bool) :
  (forall t, length (softmax t) = length t) ->
  match Policies.softmaxed_distribution Obs tensor_max feq softmax logits_valid
          temperature _probs node include_self with
  | Ok dist =>
      length dist =
        if include_self && Nat.eqb (dict_len (Core.children node)) 0
        then (Core.action_space_n node + 1)%nat
        else (length (_probs node) + (if include_self then 1 else 0))%nat
  | Raise e =>
      e = ValueError \/
      (e = RuntimeError /\ _probs node = [] /\
       (include_self && Nat.eqb (dict_len (Core.children node)) 0 = false) /\
       exists t, temperature = Some t /\ feq t fzero = true)
  | OutOfFuel => False
  end.
Proof.
  intros Hsoft. unfold Policies.softmaxed_distribution.
  destruct (include_self && Nat.eqb (dict_len (Core.children node)) 0) eqn:Hleaf.
  - apply andb_true_iff in Hleaf as [-> _].
    destruct (set_last_length (replicate (Core.action_space_n node + 1) fzero) fone)
      as (t' & Hset & Hlen).
    { rewrite Nat.add_1_r. discriminate. }
    rewrite Hset. cbn [bind]. pose proof (Categorical_outcomes t') as Hc.
    destruct (Policies.Categorical t') as [dist|e|]; [|left; exact Hc | exact Hc].
    rewrite Hc, Hlen, length_replicate. reflexivity.
  - destruct temperature as [t|].
    + destruct (feq t fzero) eqn:Ht.
      * unfold Policies.th_max. destruct (_probs node) as [|p ps] eqn:Hp; cbn [bind].
        { right. split; [reflexivity|]. split; [reflexivity|]. split; [reflexivity|].
          exists t. split; [reflexivity | exact Ht]. }
        set (ind := map _ (p :: ps)).
        assert (Hind : length ind = length (p :: ps)) by apply length_map.
        destruct include_self.
        -- pose proof (Categorical_outcomes (Policies.add_self_to_probs Obs node ind)) as Hc.
           destruct (Policies.Categorical _) as [dist|e|]; [|left; exact Hc | exact Hc].
           rewrite Hc, add_self_length, Hind. reflexivity.
        -- pose proof (Categorical_outcomes ind) as Hc.
           destruct (Policies.Categorical _) as [dist|e|]; [|left; exact Hc | exact Hc].
           rewrite Hc, Hind. lia.
      * unfold Policies.Categorical_logits.
        destruct (logits_valid _); cbn [bind]; [|left; reflexivity].
        destruct include_self.
        -- pose proof (Categorical_outcomes
                         (Policies.add_self_to_probs Obs node
                            (softmax (map (fun p => fdiv p t) (_probs node))))) as Hc.
           destruct (Policies.Categorical _) as [dist|e|]; [|left; exact Hc | exact Hc].
           rewrite Hc, add_self_length, Hsoft, length_map. reflexivity.
        -- rewrite Hsoft, length_map. lia.
    + destruct include_self.
      * pose proof (Categorical_outcomes (Policies.add_self_to_probs Obs node (_probs node)))
          as Hc.
        destruct (Policies.Categorical _) as [dist|e|]; [|left; exact Hc | exact Hc].
        rewrite Hc. apply add_self_length.
      * pose proof (Categorical_outcomes (_probs node)) as Hc.
        destruct (Policies.Categorical _) as [dist|e|]; [|left; exact Hc | exact Hc].
        rewrite Hc. lia.
Qed.
End DistributionShape.

Lemma softmaxed_distribution_outcomes_witness :
  exists dist,
    Policies.softmaxed_distribution unit Examples.q_tensor_max Qeq_bool
      Examples.q_softmax Examples.q_logits_valid (Some 1%Q) MoreExamples.prior_probs
      MoreExamples.visited_root true
    = Ok dist /\
    length dist = 3%nat.
Proof.
  pose proof (@softmaxed_distribution_outcomes QScalar unit Examples.q_tensor_max Qeq_bool
                Examples.q_softmax Examples.q_logits_valid (Some 1%Q)
                MoreExamples.prior_probs MoreExamples.visited_root true
                (fun t => eq_refl)) as Hout.
  remember (@Policies.softmaxed_distribution QScalar unit Examples.q_tensor_max Qeq_bool
              Examples.q_softmax Examples.q_logits_valid (Some 1%Q)
              MoreExamples.prior_probs MoreExamples.visited_root true) as r eqn:Hr.
  destruct r as [dist|e|].
  - exists dist. split; [reflexivity | exact Hout].
  - exfalso. vm_compute in Hr. discriminate Hr.
  - contradiction.
Defined.

(** ** In exact arithmetic *)

(** The rationals in lowest terms are an exact arithmetic. *)
#[export] Instance QcScalarExact : ScalarExact QcScalar.
Proof.
  split; cbn.
  - constructor.
    + constructor; intros; cbv beta; ring.
    + discriminate.
    + intros p q. unfold Qcdiv. ring.
    + intros p Hp. cbv beta. field. exact Hp.
  - reflexivity.
  - reflexivity.
  - intros a b. apply Qc_is_canon. cbn [this Q2Qc Qcplus].
    rewrite !Qred_correct, inject_Z_plus. reflexivity.
  - intros k Hk. unfold Qgtb. apply negb_true_iff, not_true_iff_false.
    rewrite Qle_bool_iff. cbn [this Q2Qc]. rewrite !Qred_correct.
    unfold Qle. cbn. lia.
  - intros x. unfold Qgtb. apply negb_false_iff, Qle_bool_iff, Qle_refl.
  - intros x Hx. unfold Qgtb in Hx. apply negb_true_iff, not_true_iff_false in Hx.
    rewrite Qle_bool_iff in Hx |- *. apply Qlt_le_weak, Qnot_le_lt. exact Hx.
  - reflexivity.
  - intros x y Hx Hy. unfold Qgtb in *. apply negb_true_iff, not_true_iff_false in Hx, Hy.
    apply negb_true_iff, not_true_iff_false. rewrite Qle_bool_iff in *.
    apply Qnot_le_lt in Hx, Hy. apply Qlt_not_le. cbn [this Q2Qc Qcplus] in *.
    rewrite Qred_correct in *. rewrite Qred_correct.
    apply (Qplus_lt_le_compat 0 x 0 y); [exact Hx | apply Qlt_le_weak; exact Hy].
  - intros x y Hx Hy. unfold Qgtb in *. apply negb_true_iff, not_true_iff_false in Hx, Hy.
    apply negb_true_iff, not_true_iff_false. rewrite Qle_bool_iff in *.
    apply Qnot_le_lt in Hx, Hy. apply Qlt_not_le.
    cbn [this Q2Qc Qcdiv Qcmult Qcinv] in *. rewrite !Qred_correct in *.
    apply Qlt_shift_div_l; [exact Hy|]. rewrite Qmult_0_l. exact Hx.
  - intros x y Hx Hy. unfold Qgtb in *. apply negb_true_iff, not_true_iff_false in Hy.
    rewrite Qle_bool_iff in *. apply Qnot_le_lt in Hy.
    cbn [this Q2Qc Qcdiv Qcmult Qcinv] in *. rewrite !Qred_correct in *.
    apply Qle_shift_div_l; [exact Hy|]. rewrite Qmult_0_l. exact Hx.
  - reflexivity.
Qed.

Section DistributionExact.
Context `{SE : ScalarExact}.
Variable Obs : Type.
Variable tensor_max : list F -> F.
Variable feq : F -> F -> bool.
Variable softmax : list F -> list F.
Variable logits_valid : list F -> bool.
Variable _probs : Core.Node Obs -> list F.

Add Field scalar_exact_field : exact_field.

Lemma fgt_nonzero (x : F) : fgt x fzero = true -> x <> fzero.
Proof. intros Hx ->. rewrite fgt_irrefl in Hx. discriminate. Qed.

Lemma fgt_one : fgt fone fzero = true.
Proof. rewrite <- f_of_int_one. apply fgt_of_int. lia. Qed.

Lemma fdiv_mul (x y : F) : fdiv x y = fmul x (fdiv fone y).
Proof. apply (Fdiv_def exact_field). Qed.

Lemma fdiv_zero (y : F) : fdiv fzero y = fzero.
Proof. rewrite fdiv_mul. ring. Qed.

Lemma fdiv_add (x y c : F) : fdiv (fadd x y) c = fadd (fdiv x c) (fdiv y c).
Proof. rewrite (fdiv_mul (fadd x y)), (fdiv_mul x), (fdiv_mul y). ring. Qed.

Lemma tensor_sum_snoc (t : list F) (x : F) :
  Policies.tensor_sum (t ++ [x]) = fadd (Policies.tensor_sum t) x.
Proof. unfold Policies.tensor_sum. rewrite fold_left_app. reflexivity. Qed.

Lemma fold_scaled (c : F) (t : list F) :
  forall acc,
    fold_left fadd (map (fun p => fdiv p c) t) (fdiv acc c)
    = fdiv (fold_left fadd t acc) c.
Proof.
  induction t as [|x t IH]; intros acc; cbn [map fold_left]; [reflexivity|].
  rewrite <- fdiv_add. apply IH.
Qed.

Lemma tensor_sum_scaled (c : F) (t : list F) :
  Policies.tensor_sum (map (fun p => fdiv p c) t) = fdiv (Policies.tensor_sum t) c.
Proof.
  unfold Policies.tensor_sum. rewrite <- fold_scaled, fdiv_zero. reflexivity.
Qed.

(** The validation accepts the normalisation of relative probabilities
    that are not negative and have a positive sum. *)
Lemma Categorical_exact (t : list F) :
  (forall p, p ∈ t -> fle fzero p = true) ->
  fgt (Policies.tensor_sum t) fzero = true ->
  Policies.Categorical t = Ok (map (fun p => fdiv p (Policies.tensor_sum t)) t).
Proof.
  intros Hnn Hpos. unfold Policies.Categorical.
  set (c := Policies.tensor_sum t) in *.
  assert (Hc : c <> fzero) by (apply fgt_nonzero; exact Hpos).
  assert (Hvalid : Policies.simplex (map (fun p => fdiv p c) t) = true).
  { unfold Policies.simplex. apply andb_true_iff. split.
    - apply forallb_forall. intros q Hq. apply in_map_iff in Hq as (p & <- & Hp).
      apply fle_div; [|exact Hpos]. apply Hnn. apply list_elem_of_In. exact Hp.
    - rewrite tensor_sum_scaled. fold c.
      replace (fsub (fdiv c c) fone) with fzero by (field; exact Hc).
      rewrite fabs_exact_zero. apply fgt_div; [apply fgt_one|].
      apply fgt_of_int. lia. }
  rewrite Hvalid. reflexivity.
Qed.

Lemma fmul_nonzero (x y : F) : x <> fzero -> y <> fzero -> fmul x y <> fzero.
Proof.
  intros Hx Hy Hxy. apply Hx.
  replace x with (fdiv (fmul x y) y) by (field; exact Hy).
  rewrite Hxy. apply fdiv_zero.
Qed.


(** The sum of an indicator vector counts its ones. *)
Lemma indicator_sum (P : F -> bool) (t : list F) :
  forall acc,
    fold_left fadd (map (fun p => if P p then fone else fzero) t) acc
    = fadd acc (f_of_int (Z.of_nat (length (List.filter P t)))).
Proof.
  induction t as [|x t IH]; intros acc; cbn [map fold_left List.filter length].
  - cbn. rewrite f_of_int_zero. ring.
  - rewrite IH. destruct (P x); cbn [length].
    + rewrite Nat2Z.inj_succ. unfold Z.succ. rewrite f_of_int_add, f_of_int_one. ring.
    + ring.
Qed.

End DistributionExact.



(** * Visit accounting *)

Section ValuesFacts.
Context {V : Type}.
Implicit Types (d : dict V).

Lemma dict_values_set_new d a v :
  dict_get a d = None -> dict_values (dict_set a v d) = dict_values d ++ [v].
Proof.
  induction d as [|[k' v'] d IH]; cbn; [reflexivity|].
  destruct (Nat.eqb_spec a k') as [->|Hne]; [discriminate|].
  intros Hg. cbn. f_equal. apply IH. assumption.
Qed.

Lemma dict_value_get d c :
  NoDup (dict_keys d) -> c ∈ dict_values d -> exists a, dict_get a d = Some c.
Proof.
  induction d as [|[k v] d IH]; cbn; intros Hnd Hc; [inversion Hc|].
  apply NoDup_cons in Hnd as [Hk Hnd]. apply elem_of_cons in Hc as [->|Hc].
  - exists k. rewrite Nat.eqb_refl. reflexivity.
  - destruct (IH Hnd Hc) as [a Ha]. exists a.
    destruct (Nat.eqb_spec a k) as [->|Hne]; [|assumption].
    exfalso. apply Hk. eapply dict_get_Some_key. eassumption.
Qed.

Lemma dict_get_value d a c : dict_get a d = Some c -> c ∈ dict_values d.
Proof.
  intros Hg. apply dict_get_elem in Hg. unfold dict_values.
  apply list_elem_of_fmap. exists (a, c). split; [reflexivity | assumption].
Qed.
End ValuesFacts.

Section CountFacts.
Context `{Scalar}.
Variable Obs : Type.
Variable gamma : F.

Implicit Types (ns : list (Core.Node Obs)) (d : dict nat).

Lemma visits_at_insert ns i x j :
  (i < length ns)%nat ->
  visits_at Obs (<[i := x]> ns) j = if decide (j = i) then Core.visits x else visits_at Obs ns j.
Proof.
  intros Hi. unfold visits_at. destruct (decide (j = i)) as [->|Hne].
  - rewrite list_lookup_insert_eq by assumption. reflexivity.
  - rewrite list_lookup_insert_ne by congruence. reflexivity.
Qed.

Lemma children_visits_ext ns ns' d :
  (forall c, c ∈ dict_values d -> visits_at Obs ns' c = visits_at Obs ns c) ->
  children_visits Obs ns' d = children_visits Obs ns d.
Proof.
  unfold children_visits. induction (dict_values d) as [|c l IH]; intros Hsame; cbn;
    [reflexivity|].
  rewrite (Hsame c) by left. rewrite IH; [reflexivity|].
  intros c' Hc'. apply Hsame. right. assumption.
Qed.

Lemma children_visits_set_new ns d a c :
  dict_get a d = None ->
  children_visits Obs ns (dict_set a c d) = children_visits Obs ns d + visits_at Obs ns c.
Proof.
  intros Hfree. unfold children_visits. rewrite (dict_values_set_new d a c Hfree).
  induction (dict_values d) as [|c' l IH]; cbn; [lia|]. rewrite IH. lia.
Qed.

(** One more visit at a node that is listed once adds one to the sum. *)
Lemma children_visits_bump ns d i nd g :
  NoDup (dict_values d) -> i ∈ dict_values d -> ns !! i = Some nd ->
  children_visits Obs (<[i := Core.add_visit Obs nd g 1]> ns) d
  = children_visits Obs ns d + 1.
Proof.
  intros Hnd Hi Hlk.
  assert (Hlen : (i < length ns)%nat) by (eapply lookup_lt_Some; eassumption).
  unfold children_visits. induction (dict_values d) as [|c l IH]; [inversion Hi|].
  apply NoDup_cons in Hnd as [Hc Hnd]. cbn [foldr].
  rewrite visits_at_insert by assumption.
  apply elem_of_cons in Hi as [->|Hi].
  - rewrite decide_True by reflexivity.
    assert (Hrest : foldr (fun c0 acc => visits_at Obs (<[c := Core.add_visit Obs nd g 1]> ns) c0 + acc) 0 l
                    = foldr (fun c0 acc => visits_at Obs ns c0 + acc) 0 l).
    { clear IH Hnd. induction l as [|c' l IHl]; cbn; [reflexivity|].
      apply not_elem_of_cons in Hc as [Hne Hc].
      rewrite visits_at_insert by assumption.
      rewrite decide_False by congruence. rewrite IHl by assumption. reflexivity. }
    rewrite Hrest. cbn [Core.add_visit Core.visits]. unfold visits_at. rewrite Hlk. lia.
  - rewrite decide_False by (intros ->; contradiction).
    rewrite IH by assumption. lia.
Qed.

Lemma children_visits_other ns d i x :
  i ∉ dict_values d ->
  children_visits Obs (<[i := x]> ns) d = children_visits Obs ns d.
Proof.
  intros Hi. apply children_visits_ext. intros c Hc.
  unfold visits_at. rewrite list_lookup_insert_ne; [reflexivity|].
  intros ->. contradiction.
Qed.

Lemma tree_counts_grows r0 ns ns' :
  Forall2 (node_grows Obs) ns ns' -> tree_counts Obs r0 ns -> tree_counts Obs r0 ns'.
Proof.
  intros HF [Hlisted Honce Hleaf]. split.
  - intros i nd' p pn' Hi Hlk Hp Hpn.
    destruct (Forall2_lookup_r _ _ _ _ _ HF Hlk) as (nd & Hnd & Hg).
    destruct (Forall2_lookup_r _ _ _ _ _ HF Hpn) as (pn & Hpn0 & Hgp).
    destruct Hg as (_ & Hpar & _). destruct Hgp as (_ & _ & Hkids & _).
    rewrite Hkids. apply (Hlisted i nd p pn Hi Hnd); [congruence | assumption].
  - intros i nd' Hi Hlk.
    destruct (Forall2_lookup_r _ _ _ _ _ HF Hlk) as (nd & Hnd & Hg).
    destruct Hg as (_ & _ & Hkids & _). rewrite Hkids. eapply Honce; eassumption.
  - intros i nd' Hi Hlk Hterm.
    destruct (Forall2_lookup_r _ _ _ _ _ HF Hlk) as (nd & Hnd & Hg).
    destruct Hg as (_ & _ & Hkids & _ & Ht & _). rewrite Hkids.
    apply (Hleaf i nd Hi Hnd). congruence.
Qed.

(** A node is listed only among the children of its parent. *)
Lemma listed_parent r0 ns i j nd ndj :
  tree_links Obs r0 ns -> (r0 <= j)%nat ->
  ns !! j = Some ndj -> ns !! i = Some nd ->
  i ∈ dict_values (Core.children ndj) ->
  (j < i)%nat /\ Core.parent nd = Some j.
Proof.
  intros [_ Hchild Hkeys _ _] Hj Hndj Hnd Hin.
  destruct (Hkeys j ndj Hj Hndj) as [Hnodup _].
  destruct (dict_value_get _ _ Hnodup Hin) as [a Ha].
  destruct (Hchild j ndj a i Hj Hndj Ha) as [Hlt (cn & Hcn & Hpar)].
  split; [assumption|]. congruence.
Qed.

(** The backup settles the accounts: it counts the visit owed at its
    start node and the visit that each count makes owed at the parent. *)
Lemma backup_loop_balance r0 fuel :
  forall ns i g ns',
    tree_links Obs r0 ns -> tree_counts Obs r0 ns ->
    (r0 <= i)%nat -> visit_owed Obs r0 i ns ->
    Core.backup_loop Obs gamma fuel ns (Some i) g 1 = Ok ns' ->
    visits_balanced Obs r0 ns'.
Proof.
  induction fuel as [|fuel IH]; intros ns i g ns' Hlinks Hcounts Hi Howed Hrun;
    [discriminate|].
  cbn [Core.backup_loop] in Hrun.
  destruct (ns !! i) as [nd|] eqn:Hnd;
    [rewrite (deref_Some _ _ _ Hnd) in Hrun | unfold deref in Hrun; rewrite Hnd in Hrun;
     discriminate].
  cbn [bind] in Hrun.
  set (g' := fadd (fmul g gamma) (Core.reward nd)) in *.
  set (ns1 := <[i := Core.add_visit Obs nd g' 1]> ns) in *.
  assert (Hlen : (i < length ns)%nat) by (eapply lookup_lt_Some; eassumption).
  assert (Hgrow : Forall2 (node_grows Obs) ns ns1)
    by (apply (arena_grows_insert Obs _ i nd); [assumption | apply node_grows_add_visit]).
  assert (Hlinks1 : tree_links Obs r0 ns1) by (eapply tree_links_grows; eassumption).
  assert (Hcounts1 : tree_counts Obs r0 ns1) by (eapply tree_counts_grows; eassumption).
  (* the accounts of a node other than [i] and its parent do not move,
     and [i] itself is settled *)
  assert (Hself : i ∉ dict_values (Core.children nd)).
  { intros Hin. destruct (listed_parent r0 ns i i nd nd Hlinks Hi Hnd Hnd Hin). lia. }
  assert (Hsettled : forall j ndj, (r0 <= j)%nat -> ns1 !! j = Some ndj ->
            Core.terminal ndj = false -> Some j <> Core.parent nd ->
            Core.visits ndj = 1 + children_visits Obs ns1 (Core.children ndj)).
  { intros j ndj Hj Hlk Hterm Hnp. destruct (decide (j = i)) as [->|Hne].
    - unfold ns1 in Hlk. rewrite list_lookup_insert_eq in Hlk by assumption.
      injection Hlk as <-. cbn [Core.add_visit Core.visits Core.children].
      unfold ns1. rewrite children_visits_other by assumption.
      specialize (Howed i nd Hi Hnd Hterm). rewrite decide_True in Howed by reflexivity.
      lia.
    - unfold ns1 in Hlk. rewrite list_lookup_insert_ne in Hlk by congruence.
      unfold ns1. rewrite children_visits_other.
      + specialize (Howed j ndj Hj Hlk Hterm). rewrite decide_False in Howed by assumption.
        exact Howed.
      + intros Hin. destruct (listed_parent r0 ns i j nd ndj Hlinks Hj Hlk Hnd Hin)
          as [_ Hpar]. congruence. }
  destruct (Core.parent nd) as [p|] eqn:Hpar.
  - destruct Hlinks as [Hdec Hchild Hkeys Hact Hroot].
    destruct (Hdec i nd p Hi Hnd Hpar) as [Hp0 Hpi].
    apply (IH ns1 p g' ns' Hlinks1 Hcounts1 Hp0); [|exact Hrun].
    intros j ndj Hj Hlk Hterm. destruct (decide (j = p)) as [->|Hne].
    + unfold ns1 in Hlk. rewrite list_lookup_insert_ne in Hlk by lia.
      destruct Hcounts as [Hlisted Honce _].
      unfold ns1. rewrite children_visits_bump.
      * specialize (Howed p ndj Hj Hlk Hterm). rewrite decide_False in Howed by lia. lia.
      * eapply Honce; eassumption.
      * eapply Hlisted; eassumption.
      * assumption.
    + apply (Hsettled j ndj); [assumption | assumption | assumption | congruence].
  - assert (ns' = ns1) as -> by (destruct fuel; cbn in Hrun; congruence).
    intros j ndj Hj Hlk Hterm.
    apply (Hsettled j ndj); [assumption | assumption | assumption | discriminate].
Qed.

Lemma lookup_expanded_old_lt ns s (nd_s child : Core.Node Obs) j :
  j <> s -> (j < length ns)%nat -> (<[s := nd_s]> ns ++ [child]) !! j = ns !! j.
Proof.
  intros Hne Hlt. rewrite lookup_app_l by (rewrite length_insert; assumption).
  apply list_lookup_insert_ne. congruence.
Qed.

(** The accounts after a new child, not yet visited, was linked under a
    free action of [s]: the visit of the child is owed. *)
Lemma accounts_expand r0 ns s nd nd_s child a :
  tree_links Obs r0 ns -> tree_counts Obs r0 ns -> visits_balanced Obs r0 ns ->
  (r0 <= s)%nat -> ns !! s = Some nd -> Core.terminal nd = false ->
  dict_get a (Core.children nd) = None ->
  Core.parent nd_s = Core.parent nd ->
  Core.children nd_s = dict_set a (length ns) (Core.children nd) ->
  Core.terminal nd_s = Core.terminal nd ->
  Core.visits nd_s = Core.visits nd ->
  Core.parent child = Some s -> Core.children child = [] -> Core.visits child = 0 ->
  tree_counts Obs r0 (<[s := nd_s]> ns ++ [child]) /\
  visit_owed Obs r0 (length ns) (<[s := nd_s]> ns ++ [child]).
Proof.
  intros Hlinks [Hlisted Honce Hleaf] Hbal Hs0 Hnd Hterm Hfree Hp_s Hk_s Ht_s Hv_s
    Hp_c Hk_c Hv_c.
  assert (Hs : (s < length ns)%nat) by (eapply lookup_lt_Some; eassumption).
  set (c := length ns) in *. set (ns1 := <[s := nd_s]> ns ++ [child]).
  assert (Hvals : forall j ndj x, (r0 <= j)%nat -> ns !! j = Some ndj ->
            x ∈ dict_values (Core.children ndj) -> (x < c)%nat).
  { intros j ndj x Hj Hndj Hx. destruct Hlinks as [_ Hchild Hkeys _ _].
    destruct (Hkeys j ndj Hj Hndj) as [Hnodup _].
    destruct (dict_value_get _ _ Hnodup Hx) as [b Hb].
    destruct (Hchild j ndj b x Hj Hndj Hb) as [_ (cn & Hcn & _)].
    eapply lookup_lt_Some. eassumption. }
  assert (Hva : forall j, (j < c)%nat -> visits_at Obs ns1 j = visits_at Obs ns j).
  { intros j Hj. unfold visits_at, ns1.
    rewrite lookup_app_l by (rewrite length_insert; assumption).
    destruct (decide (j = s)) as [->|Hne].
    - rewrite list_lookup_insert_eq by assumption. rewrite Hnd. assumption.
    - rewrite list_lookup_insert_ne by congruence. reflexivity. }
  assert (Hvc : visits_at Obs ns1 c = 0).
  { unfold visits_at, ns1, c. rewrite lookup_expanded_new. assumption. }
  assert (Hcv : forall j ndj, (r0 <= j)%nat -> ns !! j = Some ndj ->
            children_visits Obs ns1 (Core.children ndj)
            = children_visits Obs ns (Core.children ndj)).
  { intros j ndj Hj Hndj. apply children_visits_ext. intros x Hx.
    apply Hva. eapply Hvals; eassumption. }
  split; [split|].
  - intros i x p pn Hi Hx Hpar Hpn. unfold ns1 in Hpn.
    destruct (lookup_expanded Obs _ _ _ _ _ _ Hs Hx) as [[-> ->]|[[-> ->]|(Hne & Hlt & Hx')]].
    + (* the node [s] itself *)
      rewrite Hp_s in Hpar.
      destruct Hlinks as [Hdec _ _ _ _]. destruct (Hdec s nd p Hs0 Hnd Hpar) as [Hp0 Hps].
      rewrite lookup_expanded_old_lt in Hpn by lia.
      eapply Hlisted; eassumption.
    + (* the new child *)
      rewrite Hp_c in Hpar. injection Hpar as <-.
      rewrite lookup_expanded_at in Hpn by assumption.
      injection Hpn as <-. rewrite Hk_s, dict_values_set_new by assumption.
      apply elem_of_app. right. left.
    + destruct Hlinks as [Hdec _ _ _ _]. destruct (Hdec i x p Hi Hx' Hpar) as [Hp0 Hpi].
      destruct (decide (p = s)) as [->|Hps].
      * rewrite lookup_expanded_at in Hpn by assumption.
        injection Hpn as <-. rewrite Hk_s, dict_values_set_new by assumption.
        apply elem_of_app. left. eapply Hlisted; eassumption.
      * rewrite lookup_expanded_old_lt in Hpn by lia.
        eapply Hlisted; eassumption.
  - intros i x Hi Hx.
    destruct (lookup_expanded Obs _ _ _ _ _ _ Hs Hx) as [[-> ->]|[[-> ->]|(Hne & Hlt & Hx')]].
    + rewrite Hk_s, dict_values_set_new by assumption.
      apply NoDup_app. split; [eapply Honce; eassumption|].
      split; [|apply NoDup_singleton].
      intros y Hy Hyc. apply list_elem_of_singleton in Hyc as ->.
      specialize (Hvals s nd c Hs0 Hnd Hy). lia.
    + rewrite Hk_c. apply NoDup_nil_2.
    + eapply Honce; eassumption.
  - intros i x Hi Hx Htx.
    destruct (lookup_expanded Obs _ _ _ _ _ _ Hs Hx) as [[-> ->]|[[-> ->]|(Hne & Hlt & Hx')]].
    + congruence.
    + assumption.
    + eapply Hleaf; eassumption.
  - intros j x Hj Hx Htx.
    destruct (lookup_expanded Obs _ _ _ _ _ _ Hs Hx) as [[-> ->]|[[-> ->]|(Hne & Hlt & Hx')]].
    + rewrite decide_False by lia.
      rewrite Hk_s, children_visits_set_new by assumption.
      fold ns1. rewrite Hvc, (Hcv s nd Hs0 Hnd), Hv_s.
      specialize (Hbal s nd Hs0 Hnd Hterm). lia.
    + rewrite decide_True by reflexivity. rewrite Hk_c, Hv_c. reflexivity.
    + rewrite decide_False by lia. fold ns1. rewrite (Hcv j x Hj Hx').
      apply (Hbal j x Hj Hx' Htx).
Qed.

Lemma snapshots_grows r0 ns ns' :
  Forall2 (node_grows Obs) ns ns' ->
  snapshots_owned Obs r0 ns /\ snapshots_released Obs r0 ns ->
  snapshots_owned Obs r0 ns' /\ snapshots_released Obs r0 ns'.
Proof.
  intros HF [Hown Hrel]. split.
  - intros i j xi xj l Hi Hj Hxi Hxj Hli Hlj.
    destruct (Forall2_lookup_r _ _ _ _ _ HF Hxi) as (yi & Hyi & Hgi).
    destruct (Forall2_lookup_r _ _ _ _ _ HF Hxj) as (yj & Hyj & Hgj).
    destruct Hgi as (Hei & _). destruct Hgj as (Hej & _).
    apply (Hown i j yi yj l Hi Hj Hyi Hyj); congruence.
  - intros i x Hi Hx Hfull.
    destruct (Forall2_lookup_r _ _ _ _ _ HF Hx) as (y & Hy & Hg).
    destruct Hg as (He & _ & Hk & Hn & _). rewrite He.
    apply (Hrel i y Hi Hy). congruence.
Qed.
End CountFacts.

(** * The accounts over the search loop *)

Section AccountFacts.
Context `{Scalar}.
Variables (Obs Env : Type).
Variable env_step : Env -> nat -> Env * (Obs * F * bool * bool).
Variable env_sample : Env -> Env * nat.
Variable env_n : Env -> nat.
Variable gamma : F.
Variable value_fn : Core.estimator.

Implicit Types (ns : list (Core.Node Obs)) (st : Core.State Obs Env).

Abbreviation handle_single_a :=
  (Core.handle_single Obs Env env_step env_sample gamma value_fn).

(** Ownership of the snapshots after an expansion: the child holds the
    node's own snapshot if the node gave it away, a new one otherwise. *)
Lemma snapshots_expand r0 base st s nd nd_s child l a :
  tree_links Obs r0 (Core.nodes st) ->
  env_links Obs Env r0 base st ->
  snapshots_owned Obs r0 (Core.nodes st) ->
  snapshots_released Obs r0 (Core.nodes st) ->
  (r0 <= s)%nat -> Core.nodes st !! s = Some nd -> Core.env nd = Some l ->
  dict_get a (Core.children nd) = None ->
  Core.children nd_s = dict_set a (length (Core.nodes st)) (Core.children nd) ->
  Core.action_space_n nd_s = Core.action_space_n nd ->
  Core.env nd_s
  = (if Z.of_nat (dict_len (Core.children nd)) =? Z.of_nat (Core.action_space_n nd) - 1
     then None else Some l) ->
  Core.env child
  = Some (if Z.of_nat (dict_len (Core.children nd)) =? Z.of_nat (Core.action_space_n nd) - 1
          then l else length (Core.envs st)) ->
  Core.children child = [] -> (1 <= Core.action_space_n child)%nat ->
  snapshots_owned Obs r0 (<[s := nd_s]> (Core.nodes st) ++ [child]) /\
  snapshots_released Obs r0 (<[s := nd_s]> (Core.nodes st) ++ [child]).
Proof.
  intros Hlinks [_ _ Hvalid] Hown Hrel Hs0 Hnd Hl Hfree Hk_s Hn_s He_s He_c Hk_c Hn_c.
  assert (Hs : (s < length (Core.nodes st))%nat) by (eapply lookup_lt_Some; eassumption).
  destruct (Hvalid s nd l Hs0 Hnd Hl) as [_ Hlen_l].
  set (last := Z.of_nat (dict_len (Core.children nd))
               =? Z.of_nat (Core.action_space_n nd) - 1) in *.
  (* where each node of the new arena keeps its snapshot *)
  assert (Hold : forall j x l', (r0 <= j)%nat -> j <> s ->
            Core.nodes st !! j = Some x -> Core.env x = Some l' ->
            (l' < length (Core.envs st))%nat /\ l' <> l).
  { intros j x l' Hj Hne Hx Hl'. split; [apply (Hvalid j x l' Hj Hx Hl')|].
    intros ->. apply Hne. apply (Hown j s x nd l Hj Hs0 Hx Hnd Hl' Hl). }
  assert (Hat_s : forall l', Core.env nd_s = Some l' -> l' = l /\ last = false).
  { intros l' Hl'. rewrite He_s in Hl'. destruct last; [discriminate|].
    injection Hl' as <-. split; reflexivity. }
  assert (Hat_c : forall l', Core.env child = Some l' ->
            (last = true /\ l' = l) \/ (last = false /\ l' = length (Core.envs st))).
  { intros l' Hl'. rewrite He_c in Hl'. injection Hl' as <-.
    destruct last; [left | right]; split; reflexivity. }
  split.
  - intros i j xi xj l' Hi Hj Hxi Hxj Hli Hlj.
    destruct (lookup_expanded Obs _ _ _ _ _ _ Hs Hxi)
      as [[-> ->]|[[-> ->]|(Hnei & Hlti & Hxi')]];
    destruct (lookup_expanded Obs _ _ _ _ _ _ Hs Hxj)
      as [[-> ->]|[[-> ->]|(Hnej & Hltj & Hxj')]];
      try reflexivity.
    + destruct (Hat_s l' Hli) as [-> Hlast].
      destruct (Hat_c l Hlj) as [[Ht _]|[_ Heq]]; [congruence | lia].
    + destruct (Hat_s l' Hli) as [-> _].
      destruct (Hold j xj l Hj Hnej Hxj' Hlj) as [_ Hne]. contradiction.
    + destruct (Hat_s l' Hlj) as [-> Hlast].
      destruct (Hat_c l Hli) as [[Ht _]|[_ Heq]]; [congruence | lia].
    + destruct (Hold j xj l' Hj Hnej Hxj' Hlj) as [Hlt Hne].
      destruct (Hat_c l' Hli) as [[_ ->]|[_ ->]]; [contradiction | lia].
    + destruct (Hat_s l' Hlj) as [-> _].
      destruct (Hold i xi l Hi Hnei Hxi' Hli) as [_ Hne]. contradiction.
    + destruct (Hold i xi l' Hi Hnei Hxi' Hli) as [Hlt Hne].
      destruct (Hat_c l' Hlj) as [[_ ->]|[_ ->]]; [contradiction | lia].
    + apply (Hown i j xi xj l' Hi Hj Hxi' Hxj' Hli Hlj).
  - intros i x Hi Hx Hfull.
    destruct (lookup_expanded Obs _ _ _ _ _ _ Hs Hx) as [[-> ->]|[[-> ->]|(Hne & Hlt & Hx')]].
    + rewrite He_s. rewrite Hk_s, dict_set_length_new, Hn_s in Hfull by assumption.
      unfold last, dict_len. destruct (Z.eqb_spec (Z.of_nat (length (Core.children nd)))
                                         (Z.of_nat (Core.action_space_n nd) - 1));
        [reflexivity | lia].
    + rewrite Hk_c in Hfull. cbn in Hfull. lia.
    + apply (Hrel i x Hi Hx' Hfull).
Qed.

(** What [handle_single] does at a node with a free action [a]: it links
    a new child under [a], which takes over or copies the snapshot of
    the node, and backs the child's estimate up from the child. *)
Lemma handle_single_shape r0 base st s nd a :
  loop_inv Obs Env r0 base st ->
  (r0 <= s)%nat -> Core.nodes st !! s = Some nd ->
  (length (Core.children nd) < Core.action_space_n nd)%nat ->
  (a < Core.action_space_n nd)%nat ->
  dict_get a (Core.children nd) = None ->
  exists l nd_s child v st',
    Core.env nd = Some l /\
    handle_single_a st s a = Ok st' /\
    Core.parent nd_s = Core.parent nd /\
    Core.children nd_s = dict_set a (length (Core.nodes st)) (Core.children nd) /\
    Core.action_space_n nd_s = Core.action_space_n nd /\
    Core.terminal nd_s = Core.terminal nd /\
    Core.visits nd_s = Core.visits nd /\
    Core.env nd_s
    = (if Z.of_nat (dict_len (Core.children nd)) =? Z.of_nat (Core.action_space_n nd) - 1
       then None else Some l) /\
    Core.parent child = Some s /\
    Core.children child = [] /\
    Core.visits child = 0 /\
    Core.action_space_n child = Core.action_space_n nd /\
    Core.env child
    = Some (if Z.of_nat (dict_len (Core.children nd)) =? Z.of_nat (Core.action_space_n nd) - 1
            then l else length (Core.envs st)) /\
    Core.backup_loop Obs gamma (S (length (Core.nodes st)))
      (<[s := nd_s]> (Core.nodes st) ++ [child]) (Some (length (Core.nodes st))) v 1
    = Ok (Core.nodes st') /\
    Forall2 (node_grows Obs) (<[s := nd_s]> (Core.nodes st) ++ [child]) (Core.nodes st') /\
    take base (Core.envs st') = take base (Core.envs st) /\
    env_links Obs Env r0 base st' /\
    (forall j x', (j = length (Core.nodes st) \/ j = r0) -> Core.nodes st' !! j = Some x' ->
       exists x, (<[s := nd_s]> (Core.nodes st) ++ [child]) !! j = Some x /\
                 Core.visits x' = Core.visits x + 1).
Proof.
  intros (Hlinks & Henvs & Hvis) Hs0 Hnd Hroom Ha Hfree.
  assert (Hs : (s < length (Core.nodes st))%nat) by (eapply lookup_lt_Some; eassumption).
  destruct Henvs as [Hbase Hpresent Hvalid].
  destruct (Hpresent s nd Hs0 Hnd Hroom) as [l Hl].
  destruct (Hvalid s nd l Hs0 Hnd Hl) as [Hbl Hlen_l].
  destruct (lookup_lt_is_Some_2 (Core.envs st) l Hlen_l) as [ev Hev].
  destruct (env_step ev a) as [ev' [[[o r] tm] tr]] eqn:Hstep.
  pose proof (expand_spec Obs Env env_step st s a nd l ev ev' o r tm tr Hnd Hl Hev Hstep)
    as Hexp.
  set (last := Z.of_nat (dict_len (Core.children nd))
               =? Z.of_nat (Core.action_space_n nd) - 1) in *.
  set (c := length (Core.nodes st)) in *.
  set (nd_s := Core.set_children Obs (if last then Core.set_env Obs nd None else nd)
                 (dict_set a c (Core.children nd))).
  set (child0 := Core.Node_init Obs (Some (if last then l else length (Core.envs st)))
                   (Some s) r (Core.action_space_n nd) (tm || tr)
                   (if tm then None else Some o)).
  set (envs1 := if last then <[l := ev']> (Core.envs st) else Core.envs st ++ [ev']).
  set (st1 := Core.mkState Obs Env (<[s := nd_s]> (Core.nodes st) ++ [child0]) envs1
                (Core.rng st)).
  assert (Hst1 : Core.expand Obs Env env_step st s a = Ok (c, st1)).
  { rewrite Hexp. unfold st1, nd_s, child0, envs1. destruct last; reflexivity. }
  assert (Hfields : Core.parent nd_s = Core.parent nd /\
                    Core.children nd_s = dict_set a c (Core.children nd) /\
                    Core.action_space_n nd_s = Core.action_space_n nd /\
                    Core.terminal nd_s = Core.terminal nd /\
                    Core.visits nd_s = Core.visits nd /\
                    Core.env nd_s = (if last then None else Some l)).
  { unfold nd_s. destruct last; cbn; rewrite ?Hl; repeat split; reflexivity. }
  destruct Hfields as (Hp_s & Hk_s & Hn_s & Ht_s & Hv_s & He_s).
  assert (Hlinks1 : tree_links Obs r0 (Core.nodes st1)).
  { apply (tree_links_expand Obs r0 (Core.nodes st) s nd nd_s child0 a); try assumption;
      reflexivity. }
  assert (Hlen_envs1 : (length (Core.envs st) <= length envs1)%nat).
  { unfold envs1. destruct last; [rewrite length_insert | rewrite length_app]; lia. }
  assert (Hc1 : Core.nodes st1 !! c = Some child0) by apply lookup_expanded_new.
  destruct (value_function_returns Obs Env env_step env_sample value_fn st1 c child0
              (if last then l else length (Core.envs st)) Hc1 eq_refl) as [v Hv].
  { cbn [st1 Core.envs]. unfold envs1.
    destruct last; [rewrite length_insert | rewrite length_app; cbn]; lia. }
  set (child := Core.set_value_evaluation Obs child0 v).
  set (st2 := Core.set_nodes Obs Env st1 (<[c := child]> (Core.nodes st1))).
  assert (Hns2 : Core.nodes st2 = <[s := nd_s]> (Core.nodes st) ++ [child]).
  { cbn [st2 st1 Core.set_nodes Core.nodes].
    replace c with (length (<[s := nd_s]> (Core.nodes st)) + 0)%nat at 1
      by (rewrite length_insert; unfold c; lia).
    rewrite insert_app_r. reflexivity. }
  assert (Hgrow2 : Forall2 (node_grows Obs) (Core.nodes st1) (Core.nodes st2))
    by (apply (arena_grows_insert Obs _ c child0); [assumption | apply node_grows_set_value]).
  assert (Hlinks2 : tree_links Obs r0 (Core.nodes st2))
    by (eapply tree_links_grows; eassumption).
  assert (Hlen2 : length (Core.nodes st2) = S c).
  { rewrite Hns2, length_app, length_insert. cbn. unfold c. lia. }
  destruct (backup_on_tree Obs Env gamma r0 st2 c v Hlinks2)
    as (st' & Hback & Henv' & _ & Hgrow' & Hbump); [unfold c in *; lia|].
  assert (Hloop : Core.backup_loop Obs gamma (S c) (Core.nodes st2) (Some c) v 1
                  = Ok (Core.nodes st')).
  { unfold Core.backup in Hback. rewrite Hlen2 in Hback.
    destruct (Core.backup_loop Obs gamma (S c) (Core.nodes st2) (Some c) v 1) as [ns'| |];
      cbn [bind] in Hback; try discriminate.
    injection Hback as <-. reflexivity. }
  exists l, nd_s, child, v, st'.
  split; [exact Hl|]. split.
  { unfold Core.handle_single. rewrite Hst1. cbn [bind]. rewrite Hv. cbn [bind].
    rewrite (deref_Some _ _ _ Hc1). cbn [bind]. exact Hback. }
  split; [exact Hp_s|]. split; [exact Hk_s|]. split; [exact Hn_s|].
  split; [exact Ht_s|]. split; [exact Hv_s|]. split; [exact He_s|].
  split; [reflexivity|]. split; [reflexivity|]. split; [reflexivity|].
  split; [reflexivity|]. split; [reflexivity|].
  rewrite <- Hns2. split; [exact Hloop|]. split; [exact Hgrow'|].
  assert (Htake : take base (Core.envs st') = take base (Core.envs st)).
  { rewrite Henv'. cbn [st2 st1 Core.set_nodes Core.envs]. unfold envs1.
    destruct last.
    - apply take_insert_ge. lia.
    - apply take_app_le. lia. }
  split; [exact Htake|]. split; [|exact Hbump].
  (* the snapshot links of the new arena *)
  assert (Hel2 : env_links Obs Env r0 base st2).
  { split.
    - cbn [st2 st1 Core.set_nodes Core.envs]. lia.
    - intros j x Hj Hx Hroomx. rewrite Hns2 in Hx.
      destruct (lookup_expanded Obs _ _ _ _ _ _ Hs Hx)
        as [[-> ->]|[[-> ->]|(Hne & Hlt & Hx')]].
      + rewrite He_s. rewrite Hk_s, dict_set_length_new, Hn_s in Hroomx by assumption.
        unfold last, dict_len.
        destruct (Z.eqb_spec (Z.of_nat (length (Core.children nd)))
                    (Z.of_nat (Core.action_space_n nd) - 1)); [lia | eauto].
      + eexists. reflexivity.
      + apply (Hpresent j x Hj Hx' Hroomx).
    - intros j x l' Hj Hx Hl'. rewrite Hns2 in Hx.
      cbn [st2 st1 Core.set_nodes Core.envs].
      destruct (lookup_expanded Obs _ _ _ _ _ _ Hs Hx)
        as [[-> ->]|[[-> ->]|(Hne & Hlt & Hx')]].
      + rewrite He_s in Hl'. destruct last eqn:Hlast; [discriminate|].
        injection Hl' as <-. lia.
      + cbn in Hl'. injection Hl' as <-. unfold envs1.
        destruct last; [rewrite length_insert | rewrite length_app; cbn]; lia.
      + destruct (Hvalid j x l' Hj Hx' Hl'). lia. }
  eapply env_links_grows; [exact Hgrow' | exact Henv' | exact Hel2].
Qed.
End AccountFacts.

Section AccountLoop.
Context `{Scalar}.
Variables (Obs Env : Type).
Variable env_step : Env -> nat -> Env * (Obs * F * bool * bool).
Variable env_sample : Env -> Env * nat.
Variable env_n : Env -> nat.
Variable selection_policy : list (Core.Node Obs) -> nat -> result (option nat).
Variable policy : list (Core.Node Obs) -> nat -> nat -> result nat.
Variable gamma : F.
Variable value_fn : Core.estimator.
Variable rand : nat -> nat.

Hypothesis selection_ok : selection_contract Obs selection_policy.
Hypothesis expansion_ok : expansion_contract Obs policy.

Implicit Types (ns : list (Core.Node Obs)) (st : Core.State Obs Env).

Abbreviation handle_single_l :=
  (Core.handle_single Obs Env env_step env_sample gamma value_fn).
Abbreviation iteration_l :=
  (Core.iteration Obs Env env_step env_sample selection_policy (Some policy)
     gamma value_fn rand).
Abbreviation build_tree_l :=
  (Core.build_tree Obs Env env_step env_sample selection_policy (Some policy)
     gamma value_fn rand).
Abbreviation search_l :=
  (Core.search Obs Env env_step env_sample env_n selection_policy (Some policy)
     gamma value_fn rand).

(** A backup from a node where a visit is owed settles the accounts. *)
Lemma backup_settles r0 fuel ns s v ns' :
  tree_links Obs r0 ns -> tree_counts Obs r0 ns ->
  snapshots_owned Obs r0 ns /\ snapshots_released Obs r0 ns ->
  (r0 <= s)%nat -> visit_owed Obs r0 s ns ->
  Core.backup_loop Obs gamma fuel ns (Some s) v 1 = Ok ns' ->
  Forall2 (node_grows Obs) ns ns' ->
  tree_counts Obs r0 ns' /\ visits_balanced Obs r0 ns' /\
  snapshots_owned Obs r0 ns' /\ snapshots_released Obs r0 ns'.
Proof.
  intros Hlinks Hcounts Hsnap Hs Howed Hrun Hgrow.
  split; [eapply tree_counts_grows; eassumption|].
  split; [eapply backup_loop_balance; eassumption|].
  eapply snapshots_grows; eassumption.
Qed.

Lemma handle_single_accounts r0 base st s nd a :
  loop_inv Obs Env r0 base st -> accounts Obs r0 (Core.nodes st) ->
  (r0 < length (Core.nodes st))%nat ->
  (r0 <= s)%nat -> Core.nodes st !! s = Some nd -> Core.terminal nd = false ->
  (length (Core.children nd) < Core.action_space_n nd)%nat ->
  (a < Core.action_space_n nd)%nat ->
  dict_get a (Core.children nd) = None ->
  exists st',
    handle_single_l st s a = Ok st' /\
    loop_inv Obs Env r0 base st' /\ accounts Obs r0 (Core.nodes st') /\
    take base (Core.envs st') = take base (Core.envs st) /\
    forall rd, Core.nodes st !! r0 = Some rd ->
      exists rd', Core.nodes st' !! r0 = Some rd' /\
                  Core.visits rd' = Core.visits rd + 1.
Proof.
  intros Hinv (Hcounts & Hbal & Hown & Hrel & Hcounted) Hroot Hs0 Hnd Hterm Hroom Ha Hfree.
  destruct (handle_single_on_tree Obs Env env_step env_sample gamma value_fn r0 base st s
              nd a Hinv Hs0 Hnd Hroom Ha Hfree) as (st' & Hrun & Hinv' & Htake & Hvisit).
  destruct (handle_single_shape Obs Env env_step env_sample gamma value_fn r0 base st s
              nd a Hinv Hs0 Hnd Hroom Ha Hfree)
    as (l & nd_s & child & v & st'' & Hl & Hrun' & Hp_s & Hk_s & Hn_s & Ht_s & Hv_s & He_s
        & Hp_c & Hk_c & Hv_c & Hn_c & He_c & Hloop & Hgrow & _).
  rewrite Hrun in Hrun'. injection Hrun' as <-.
  exists st'. split; [exact Hrun|]. split; [exact Hinv'|].
  split; [|split; [exact Htake | exact Hvisit]].
  destruct Hinv as (Hlinks & Henvs & Hvis).
  assert (Hn1 : (1 <= Core.action_space_n nd)%nat) by lia.
  destruct (accounts_expand Obs r0 (Core.nodes st) s nd nd_s child a Hlinks Hcounts Hbal
              Hs0 Hnd Hterm Hfree Hp_s Hk_s Ht_s Hv_s Hp_c Hk_c Hv_c) as [Hcounts2 Howed2].
  assert (Hlinks2 : tree_links Obs r0 (<[s := nd_s]> (Core.nodes st) ++ [child]))
    by (apply (tree_links_expand Obs r0 (Core.nodes st) s nd nd_s child a); assumption).
  assert (Hsnap2 : snapshots_owned Obs r0 (<[s := nd_s]> (Core.nodes st) ++ [child]) /\
                   snapshots_released Obs r0 (<[s := nd_s]> (Core.nodes st) ++ [child])).
  { apply (snapshots_expand Obs Env r0 base st s nd nd_s child l a); try assumption. lia. }
  destruct (backup_settles r0 _ _ _ _ _ Hlinks2 Hcounts2 Hsnap2 (Nat.lt_le_incl _ _ Hroot)
              Howed2 Hloop Hgrow) as (Hc' & Hb' & Ho' & Hr').
  split; [exact Hc'|]. split; [exact Hb'|]. split; [exact Ho'|]. split; [exact Hr'|].
  intros rd' Hrd'.
  destruct (lookup_lt_is_Some_2 (Core.nodes st) r0 Hroot) as [rd Hrd].
  destruct (Hvisit rd Hrd) as (rd'' & Hrd'' & Hv'').
  rewrite Hrd' in Hrd''. injection Hrd'' as <-.
  specialize (Hcounted rd Hrd).
  rewrite <- (Forall2_length _ _ _ Hgrow), length_app, length_insert. cbn [length]. lia.
Qed.

Lemma iteration_accounts r0 base st :
  loop_inv Obs Env r0 base st -> accounts Obs r0 (Core.nodes st) ->
  (r0 < length (Core.nodes st))%nat ->
  exists st',
    iteration_l st r0 = Ok st' /\
    loop_inv Obs Env r0 base st' /\ accounts Obs r0 (Core.nodes st') /\
    take base (Core.envs st') = take base (Core.envs st) /\
    forall rd, Core.nodes st !! r0 = Some rd ->
      exists rd', Core.nodes st' !! r0 = Some rd' /\
                  Core.visits rd' = Core.visits rd + 1.
Proof.
  intros Hinv Hacc Hroot.
  destruct (iteration_on_tree Obs Env env_step env_sample selection_policy policy gamma
              value_fn rand selection_ok expansion_ok r0 base st Hinv Hroot)
    as (st' & Hrun & Hinv' & Htake & Hvisit).
  exists st'. split; [exact Hrun|]. split; [exact Hinv'|].
  split; [|split; [exact Htake | exact Hvisit]].
  destruct Hinv as (Hlinks & Henvs & Hvis).
  destruct (select_on_tree Obs selection_policy selection_ok r0 (Core.nodes st) Hlinks Hvis
              (length (Core.nodes st)) r0)
    as (s & nd & Hsel & Hs0 & Hnd & Hcase); [lia | assumption | lia |].
  assert (Hs : (s < length (Core.nodes st))%nat) by (eapply lookup_lt_Some; eassumption).
  unfold Core.iteration, Core.select_node_to_expand in Hrun. rewrite Hsel in Hrun.
  cbn [bind] in Hrun. rewrite (deref_Some _ _ _ Hnd) in Hrun. cbn [bind] in Hrun.
  unfold Core.is_terminal in Hrun.
  destruct Hcase as [Hterm|[Hterm Hroom]]; rewrite Hterm in Hrun.
  - destruct Hacc as (Hcounts & Hbal & Hown & Hrel & Hcounted).
    set (ns1 := <[s := Core.set_value_evaluation Obs nd fzero]> (Core.nodes st)) in *.
    assert (Hgrow1 : Forall2 (node_grows Obs) (Core.nodes st) ns1)
      by (apply (arena_grows_insert Obs _ s nd); [assumption | apply node_grows_set_value]).
    assert (Hlinks1 : tree_links Obs r0 ns1) by (eapply tree_links_grows; eassumption).
    assert (Hcounts1 : tree_counts Obs r0 ns1) by (eapply tree_counts_grows; eassumption).
    assert (Hsnap1 : snapshots_owned Obs r0 ns1 /\ snapshots_released Obs r0 ns1)
      by (eapply snapshots_grows; [eassumption | split; assumption]).
    assert (Hva : forall d, children_visits Obs ns1 d = children_visits Obs (Core.nodes st) d).
    { intros d. apply children_visits_ext. intros x _. unfold ns1.
      rewrite visits_at_insert by assumption.
      destruct (decide (x = s)) as [->|]; [|reflexivity].
      unfold visits_at. rewrite Hnd. reflexivity. }
    assert (Howed1 : visit_owed Obs r0 s ns1).
    { intros j x Hj Hx Htx. rewrite Hva. unfold ns1 in Hx.
      destruct (decide (j = s)) as [->|Hne].
      - rewrite list_lookup_insert_eq in Hx by assumption. injection Hx as <-.
        cbn in Htx. congruence.
      - rewrite list_lookup_insert_ne in Hx by congruence. apply (Hbal j x Hj Hx Htx). }
    destruct (backup_on_tree Obs Env gamma r0 (Core.set_nodes Obs Env st ns1) s fzero Hlinks1)
      as (st'' & Hback & _ & _ & Hgrow' & Hbump).
    { cbn [Core.set_nodes Core.nodes]. unfold ns1. rewrite length_insert. lia. }
    rewrite Hrun in Hback. injection Hback as <-.
    assert (Hloop : Core.backup_loop Obs gamma (length ns1) ns1 (Some s) fzero 1
                    = Ok (Core.nodes st')).
    { unfold Core.backup in Hrun. cbn [Core.set_nodes Core.nodes] in Hrun.
      destruct (Core.backup_loop Obs gamma (length ns1) ns1 (Some s) fzero 1) as [ns'| |];
        cbn [bind] in Hrun; try discriminate.
      injection Hrun as <-. reflexivity. }
    cbn [Core.set_nodes Core.nodes] in Hgrow'.
    destruct (backup_settles r0 _ _ _ _ _ Hlinks1 Hcounts1 Hsnap1 Hs0 Howed1 Hloop Hgrow')
      as (Hc' & Hb' & Ho' & Hr').
    split; [exact Hc'|]. split; [exact Hb'|]. split; [exact Ho'|]. split; [exact Hr'|].
    intros rd' Hrd'.
    destruct (lookup_lt_is_Some_2 (Core.nodes st) r0 Hroot) as [rd Hrd].
    destruct (Hvisit rd Hrd) as (rd'' & Hrd'' & Hv'').
    rewrite Hrd' in Hrd''. injection Hrd'' as <-.
    specialize (Hcounted rd Hrd).
    rewrite <- (Forall2_length _ _ _ Hgrow'), <- (Forall2_length _ _ _ Hgrow1). lia.
  - unfold Core.handle_selected_node in Hrun.
    destruct (expansion_ok r0 (Core.nodes st) s nd (rand (Core.rng st)) Hlinks Hs0 Hnd
                Hroom) as (a & Hpol & Ha & Hfree).
    rewrite Hpol in Hrun. cbn [bind] in Hrun.
    set (st1 := {| Core.nodes := Core.nodes st; Core.envs := Core.envs st;
                   Core.rng := S (Core.rng st) |}) in *.
    assert (Hinv1 : loop_inv Obs Env r0 base st1).
    { split; [exact Hlinks|]. split; [|exact Hvis].
      apply (env_links_grows Obs Env r0 base st st1);
        [apply arena_grows_refl | reflexivity | assumption]. }
    destruct (handle_single_accounts r0 base st1 s nd a Hinv1 Hacc Hroot Hs0 Hnd Hterm
                Hroom Ha Hfree) as (st'' & Hrun'' & _ & Hacc'' & _).
    rewrite Hrun in Hrun''. injection Hrun'' as <-. exact Hacc''.
Qed.

Lemma build_tree_accounts r0 base budget fuel :
  forall st rd,
    loop_inv Obs Env r0 base st -> accounts Obs r0 (Core.nodes st) ->
    Core.nodes st !! r0 = Some rd ->
    (Z.to_nat (budget - Core.visits rd) <= fuel)%nat ->
    exists st' rd',
      build_tree_l fuel st r0 budget = Ok (r0, st') /\
      loop_inv Obs Env r0 base st' /\ accounts Obs r0 (Core.nodes st') /\
      take base (Core.envs st') = take base (Core.envs st) /\
      Core.nodes st' !! r0 = Some rd' /\
      Core.visits rd' = Z.max (Core.visits rd) budget.
Proof.
  induction fuel as [|fuel IH]; intros st rd Hinv Hacc Hrd Hfuel;
    cbn [Core.build_tree]; rewrite (deref_Some _ _ _ Hrd); cbn [bind];
    destruct (Z.ltb_spec (Core.visits rd) budget) as [Hlt|Hge]; try lia.
  - exists st, rd. split; [reflexivity|]. split; [exact Hinv|]. split; [exact Hacc|].
    split; [reflexivity|]. split; [exact Hrd | lia].
  - destruct (iteration_accounts r0 base st Hinv Hacc)
      as (st1 & Hit & Hinv1 & Hacc1 & Htake1 & Hvisit).
    { eapply lookup_lt_Some; eassumption. }
    rewrite Hit. cbn [bind].
    destruct (Hvisit rd Hrd) as (rd1 & Hrd1 & Hv1).
    destruct (IH st1 rd1 Hinv1 Hacc1 Hrd1)
      as (st' & rd' & Hrun & Hinv' & Hacc' & Htake' & Hrd' & Hv'); [lia|].
    exists st', rd'. split; [exact Hrun|]. split; [exact Hinv'|]. split; [exact Hacc'|].
    split; [congruence|]. split; [exact Hrd'|]. lia.
  - exists st, rd. split; [reflexivity|]. split; [exact Hinv|]. split; [exact Hacc|].
    split; [reflexivity|]. split; [exact Hrd | lia].
Qed.

(** The accounts of the tree that [search] returns. *)
Lemma search_accounts st env e budget obs reward fuel :
  Core.envs st !! env = Some e ->
  (1 <= env_n e)%nat ->
  (Z.to_nat (budget - 1) <= fuel)%nat ->
  exists st' rd',
    search_l fuel st env budget obs reward = Ok (length (Core.nodes st), st') /\
    loop_inv Obs Env (length (Core.nodes st)) (length (Core.envs st)) st' /\
    accounts Obs (length (Core.nodes st)) (Core.nodes st') /\
    Core.nodes st' !! length (Core.nodes st) = Some rd' /\
    Core.visits rd' = Z.max 1 budget.
Proof.
  intros He Hn Hfuel.
  rewrite (search_builds_root Obs Env env_step env_sample env_n selection_policy
             (Some policy) gamma value_fn rand st env e budget obs reward fuel He).
  set (r0 := length (Core.nodes st)). set (base := length (Core.envs st)).
  match goal with
  | |- context [Core.mkNode Obs ?a ?b ?c ?d ?e0 ?f ?g ?h ?i ?j] =>
      set (root := Core.mkNode Obs a b c d e0 f g h i j)
  end.
  set (st4 := Core.mkState Obs Env (Core.nodes st ++ [root]) (Core.envs st ++ [e])
                (Core.rng st)).
  assert (Hr4 : Core.nodes st4 !! r0 = Some root) by apply lookup_snoc_new.
  assert (Honly : forall i nd, (r0 <= i)%nat -> Core.nodes st4 !! i = Some nd ->
                    i = r0 /\ nd = root).
  { intros i nd Hi Hlk. apply (lookup_snoc_ge Obs _ _ _ _ Hlk Hi). }
  assert (Hinv4 : loop_inv Obs Env r0 base st4).
  { split; [apply root_only_links; [reflexivity | reflexivity | exact Hn]|]. split.
    - split.
      + cbn [st4 Core.envs]. rewrite length_app. unfold base. lia.
      + intros i nd Hi Hlk _. destruct (Honly i nd Hi Hlk) as [_ ->].
        eexists. reflexivity.
      + intros i nd l Hi Hlk Hl. destruct (Honly i nd Hi Hlk) as [_ ->].
        cbn in Hl. injection Hl as <-. cbn [st4 Core.envs]. rewrite length_app. cbn.
        unfold base. lia.
    - intros i nd Hi Hlk. destruct (Honly i nd Hi Hlk) as [_ ->]. cbn. lia. }
  assert (Hacc4 : accounts Obs r0 (Core.nodes st4)).
  { split; [split|].
    - intros i nd p pn Hi Hlk Hp _. destruct (Honly i nd Hi Hlk) as [_ ->]. discriminate.
    - intros i nd Hi Hlk. destruct (Honly i nd Hi Hlk) as [_ ->]. apply NoDup_nil_2.
    - intros i nd Hi Hlk _. destruct (Honly i nd Hi Hlk) as [_ ->]. reflexivity.
    - split; [|split; [|split]].
      + intros i nd Hi Hlk _. destruct (Honly i nd Hi Hlk) as [_ ->]. reflexivity.
      + intros i j ndi ndj l Hi Hj Hli Hlj _ _.
        destruct (Honly i ndi Hi Hli) as [-> _]. destruct (Honly j ndj Hj Hlj) as [-> _].
        reflexivity.
      + intros i nd Hi Hlk Hfull. destruct (Honly i nd Hi Hlk) as [_ ->].
        cbn in Hfull. lia.
      + intros rd Hrd. rewrite Hr4 in Hrd. injection Hrd as <-.
        cbn [st4 Core.nodes]. rewrite length_app. cbn. unfold r0. lia. }
  destruct (build_tree_accounts r0 base budget fuel st4 root Hinv4 Hacc4 Hr4)
    as (st' & rd' & Hrun & Hinv' & Hacc' & _ & Hrd' & Hv'); [exact Hfuel|].
  exists st', rd'. split; [exact Hrun|]. split; [exact Hinv'|]. split; [exact Hacc'|].
  split; [exact Hrd' | exact Hv'].
Qed.
End AccountLoop.

(** * The tree that a search returns *)

Section SearchTree.
Context `{Scalar}.
Variables (Obs Env : Type).
Variable env_step : Env -> nat -> Env * (Obs * F * bool * bool).
Variable env_sample : Env -> Env * nat.
Variable env_n : Env -> nat.
Variable selection_policy : list (Core.Node Obs) -> nat -> result (option nat).
Variable policy : list (Core.Node Obs) -> nat -> nat -> result nat.
Variable gamma : F.
Variable value_fn : Core.estimator.
Variable rand : nat -> nat.

Abbreviation search_t :=
  (Core.search Obs Env env_step env_sample env_n selection_policy (Some policy)
     gamma value_fn rand).

(** X6: the tree that a search with single-child expansion returns is
    linked both ways.  Every node has at least one visit; the keys of
    its [children] are distinct actions below [n]; each entry of
    [children] is a later node of the arena whose [parent] is the node;
    and the node is either the root, without parent, or listed among the
    [children] of its parent, an earlier node of the tree. *)
Theorem search_returns_linked_tree (st : Core.State Obs Env) (env : nat) (e : Env)
    (budget : Z) (obs : Obs) (reward : F) (fuel : nat) :
  selection_contract Obs selection_policy ->
  expansion_contract Obs policy ->
  Core.envs st !! env = Some e ->
  (1 <= env_n e)%nat ->
  (Z.to_nat (budget - 1) <= fuel)%nat ->
  exists st',
    search_t fuel st env budget obs reward = Ok (length (Core.nodes st), st') /\
    forall i nd,
      (length (Core.nodes st) <= i)%nat -> Core.nodes st' !! i = Some nd ->
      1 <= Core.visits nd /\
      NoDup (dict_keys (Core.children nd)) /\
      (forall a, a ∈ dict_keys (Core.children nd) -> (a < Core.action_space_n nd)%nat) /\
      (forall a c, dict_get a (Core.children nd) = Some c ->
         (i < c)%nat /\
         exists cn, Core.nodes st' !! c = Some cn /\ Core.parent cn = Some i) /\
      match Core.parent nd with
      | None => i = length (Core.nodes st)
      | Some p =>
          (length (Core.nodes st) <= p < i)%nat /\
          exists pn, Core.nodes st' !! p = Some pn /\ i ∈ dict_values (Core.children pn)
      end.
Proof.
  intros Hsel Hexp He Hn Hfuel.
  destruct (search_accounts Obs Env env_step env_sample env_n selection_policy policy
              gamma value_fn rand Hsel Hexp st env e budget obs reward fuel He Hn Hfuel)
    as (st' & rd' & Hrun & (Hlinks & _ & Hvis) & (Hcounts & _) & _).
  exists st'. split; [exact Hrun|].
  intros i nd Hi Hnd. destruct Hlinks as [Hdec Hchild Hkeys Hact Hroot].
  split; [apply (Hvis i nd Hi Hnd)|].
  destruct (Hkeys i nd Hi Hnd) as [Hnodup Hbound].
  split; [exact Hnodup|]. split; [exact Hbound|].
  split; [intros a c Hc; apply (Hchild i nd a c Hi Hnd Hc)|].
  destruct (Core.parent nd) as [p|] eqn:Hp.
  - destruct (Hdec i nd p Hi Hnd Hp) as [Hp0 Hpi]. split; [lia|].
    destruct (lookup_lt_is_Some_2 (Core.nodes st') p) as [pn Hpn].
    { apply lookup_lt_Some in Hnd. lia. }
    exists pn. split; [exact Hpn|].
    destruct Hcounts as [Hlisted _ _]. apply (Hlisted i nd p pn Hi Hnd Hp Hpn).
  - apply (Hroot i nd Hi Hnd Hp).
Qed.

(** X7: visits are conserved in the tree that a search with single-child
    expansion returns.  A node that is not terminal has one visit for
    its own evaluation and one for every visit of a child:
    [visits = 1 + sum(child.visits)].  A terminal node has no children;
    its visits count the turns that ended there. *)
Theorem search_conserves_visits (st : Core.State Obs Env) (env : nat) (e : Env)
    (budget : Z) (obs : Obs) (reward : F) (fuel : nat) :
  selection_contract Obs selection_policy ->
  expansion_contract Obs policy ->
  Core.envs st !! env = Some e ->
  (1 <= env_n e)%nat ->
  (Z.to_nat (budget - 1) <= fuel)%nat ->
  exists st',
    search_t fuel st env budget obs reward = Ok (length (Core.nodes st), st') /\
    forall i nd,
      (length (Core.nodes st) <= i)%nat -> Core.nodes st' !! i = Some nd ->
      if Core.terminal nd
      then Core.children nd = [] /\ 1 <= Core.visits nd
      else Core.visits nd = 1 + children_visits Obs (Core.nodes st') (Core.children nd).
Proof.
  intros Hsel Hexp He Hn Hfuel.
  destruct (search_accounts Obs Env env_step env_sample env_n selection_policy policy
              gamma value_fn rand Hsel Hexp st env e budget obs reward fuel He Hn Hfuel)
    as (st' & rd' & Hrun & (_ & _ & Hvis) & ([_ _ Hleaf] & Hbal & _) & _).
  exists st'. split; [exact Hrun|].
  intros i nd Hi Hnd. destruct (Core.terminal nd) eqn:Hterm.
  - split; [apply (Hleaf i nd Hi Hnd Hterm) | apply (Hvis i nd Hi Hnd)].
  - apply (Hbal i nd Hi Hnd Hterm).
Qed.

(** X8: the snapshots of the tree that a search with single-child
    expansion returns.  No two nodes hold the same environment object; a
    node holds one exactly as long as it has an unexpanded action, and
    gives it up with its last expansion; and every snapshot was
    allocated by this search: none is an environment that existed
    before the call. *)
Theorem search_snapshots_have_one_owner (st : Core.State Obs Env) (env : nat) (e : Env)
    (budget : Z) (obs : Obs) (reward : F) (fuel : nat) :
  selection_contract Obs selection_policy ->
  expansion_contract Obs policy ->
  Core.envs st !! env = Some e ->
  (1 <= env_n e)%nat ->
  (Z.to_nat (budget - 1) <= fuel)%nat ->
  exists st',
    search_t fuel st env budget obs reward = Ok (length (Core.nodes st), st') /\
    (forall i j ndi ndj l,
       (length (Core.nodes st) <= i)%nat -> (length (Core.nodes st) <= j)%nat ->
       Core.nodes st' !! i = Some ndi -> Core.nodes st' !! j = Some ndj ->
       Core.env ndi = Some l -> Core.env ndj = Some l -> i = j) /\
    forall i nd,
      (length (Core.nodes st) <= i)%nat -> Core.nodes st' !! i = Some nd ->
      (length (Core.children nd) <= Core.action_space_n nd)%nat /\
      (Core.env nd = None <-> length (Core.children nd) = Core.action_space_n nd) /\
      (forall l, Core.env nd = Some l ->
         (length (Core.envs st) <= l < length (Core.envs st'))%nat).
Proof.
  intros Hsel Hexp He Hn Hfuel.
  destruct (search_accounts Obs Env env_step env_sample env_n selection_policy policy
              gamma value_fn rand Hsel Hexp st env e budget obs reward fuel He Hn Hfuel)
    as (st' & rd' & Hrun & (Hlinks & Henvs & _) & (_ & _ & Hown & Hrel & _) & _).
  exists st'. split; [exact Hrun|]. split; [exact Hown|].
  intros i nd Hi Hnd. destruct Hlinks as [_ _ Hkeys _ _].
  destruct (Hkeys i nd Hi Hnd) as [Hnodup Hbound].
  pose proof (keys_length_le _ _ Hnodup Hbound) as Hle.
  unfold dict_keys in Hle. rewrite length_map in Hle.
  destruct Henvs as [_ Hpresent Hvalid].
  split; [exact Hle|]. split; [split|].
  - intros Hnone.
    destruct (decide (length (Core.children nd) = Core.action_space_n nd)) as [|Hne];
      [assumption|].
    destruct (Hpresent i nd Hi Hnd) as [l Hl]; [lia | congruence].
  - apply (Hrel i nd Hi Hnd).
  - intros l Hl. apply (Hvalid i nd l Hi Hnd Hl).
Qed.

(** X9: a search with single-child expansion creates at most as many
    nodes as its budget: every turn of the loop counts a visit at the
    root and creates at most one node, none when it ends in a terminal
    node. *)
Theorem search_tree_size_within_budget (st : Core.State Obs Env) (env : nat) (e : Env)
    (budget : Z) (obs : Obs) (reward : F) (fuel : nat) :
  selection_contract Obs selection_policy ->
  expansion_contract Obs policy ->
  Core.envs st !! env = Some e ->
  (1 <= env_n e)%nat ->
  (Z.to_nat (budget - 1) <= fuel)%nat ->
  exists st',
    search_t fuel st env budget obs reward = Ok (length (Core.nodes st), st') /\
    1 <= Z.of_nat (length (Core.nodes st')) - Z.of_nat (length (Core.nodes st))
      <= Z.max 1 budget.
Proof.
  intros Hsel Hexp He Hn Hfuel.
  destruct (search_accounts Obs Env env_step env_sample env_n selection_policy policy
              gamma value_fn rand Hsel Hexp st env e budget obs reward fuel He Hn Hfuel)
    as (st' & rd' & Hrun & _ & (_ & _ & _ & _ & Hcounted) & Hrd' & Hv').
  exists st'. split; [exact Hrun|].
  specialize (Hcounted rd' Hrd'). apply lookup_lt_Some in Hrd'. lia.
Qed.
End SearchTree.

Lemma search_returns_linked_tree_witness :
  exists st',
    Examples.search_count 4 Examples.count_state 0 5 tt 0%Q = Ok (0%nat, st') /\
    forall i nd, (0 <= i)%nat -> Core.nodes st' !! i = Some nd -> 1 <= Core.visits nd.
Proof.
  destruct (@search_returns_linked_tree QScalar unit nat Examples.count_step
              Examples.count_sample Examples.two_actions (first_child_policy unit)
              (lowest_unexpanded_policy unit) (1 # 2)%Q (Core.RandomRollout 3) (fun n => n)
              Examples.count_state 0%nat 0%nat 5 tt 0%Q 4%nat
              (first_child_policy_contract unit) (lowest_unexpanded_policy_contract unit)
              eq_refl) as (st' & Hrun & Htree).
  - unfold Examples.two_actions. lia.
  - lia.
  - exists st'. split; [exact Hrun|]. intros i nd Hi Hnd. apply (Htree i nd Hi Hnd).
Defined.

Lemma search_conserves_visits_witness :
  exists st',
    Examples.search_count 4 Examples.count_state 0 5 tt 0%Q = Ok (0%nat, st') /\
    forall i nd,
      (0 <= i)%nat -> Core.nodes st' !! i = Some nd ->
      if Core.terminal nd
      then Core.children nd = [] /\ 1 <= Core.visits nd
      else Core.visits nd = 1 + children_visits unit (Core.nodes st') (Core.children nd).
Proof.
  apply (@search_conserves_visits QScalar unit nat Examples.count_step
           Examples.count_sample Examples.two_actions (first_child_policy unit)
           (lowest_unexpanded_policy unit) (1 # 2)%Q (Core.RandomRollout 3) (fun n => n)
           Examples.count_state 0%nat 0%nat 5 tt 0%Q 4%nat
           (first_child_policy_contract unit) (lowest_unexpanded_policy_contract unit)
           eq_refl).
  - unfold Examples.two_actions. lia.
  - lia.
Defined.

Lemma search_snapshots_have_one_owner_witness :
  exists st',
    Examples.search_count 4 Examples.count_state 0 5 tt 0%Q = Ok (0%nat, st') /\
    forall i j ndi ndj l,
      (0 <= i)%nat -> (0 <= j)%nat ->
      Core.nodes st' !! i = Some ndi -> Core.nodes st' !! j = Some ndj ->
      Core.env ndi = Some l -> Core.env ndj = Some l -> i = j.
Proof.
  destruct (@search_snapshots_have_one_owner QScalar unit nat Examples.count_step
              Examples.count_sample Examples.two_actions (first_child_policy unit)
              (lowest_unexpanded_policy unit) (1 # 2)%Q (Core.RandomRollout 3) (fun n => n)
              Examples.count_state 0%nat 0%nat 5 tt 0%Q 4%nat
              (first_child_policy_contract unit) (lowest_unexpanded_policy_contract unit)
              eq_refl) as (st' & Hrun & Hown & _).
  - unfold Examples.two_actions. lia.
  - lia.
  - exists st'. split; [exact Hrun | exact Hown].
Defined.

Lemma search_tree_size_within_budget_witness :
  exists st',
    Examples.search_count 4 Examples.count_state 0 5 tt 0%Q = Ok (0%nat, st') /\
    1 <= Z.of_nat (length (Core.nodes st')) - 0 <= 5.
Proof.
  apply (@search_tree_size_within_budget QScalar unit nat Examples.count_step
           Examples.count_sample Examples.two_actions (first_child_policy unit)
           (lowest_unexpanded_policy unit) (1 # 2)%Q (Core.RandomRollout 3) (fun n => n)
           Examples.count_state 0%nat 0%nat 5 tt 0%Q 4%nat
           (first_child_policy_contract unit) (lowest_unexpanded_policy_contract unit)
           eq_refl).
  - unfold Examples.two_actions. lia.
  - lia.
Defined.

(** * Expand-all mode *)

Section ExpandAllFacts.
Context `{Scalar}.
Variables (Obs Env : Type).
Variable env_step : Env -> nat -> Env * (Obs * F * bool * bool).
Variable env_sample : Env -> Env * nat.
Variable env_n : Env -> nat.
Variable selection_policy : list (Core.Node Obs) -> nat -> result (option nat).
Variable gamma : F.
Variable value_fn : Core.estimator.
Variable rand : nat -> nat.

Hypothesis selection_ok : selection_contract Obs selection_policy.

Implicit Types (ns : list (Core.Node Obs)) (st : Core.State Obs Env).

Abbreviation handle_single_e :=
  (Core.handle_single Obs Env env_step env_sample gamma value_fn).
Abbreviation handle_all_loop_e :=
  (Core.handle_all_loop Obs Env env_step env_sample gamma value_fn).
Abbreviation iteration_e :=
  (Core.iteration Obs Env env_step env_sample selection_policy None gamma value_fn rand).
Abbreviation build_tree_e :=
  (Core.build_tree Obs Env env_step env_sample selection_policy None gamma value_fn rand).
Abbreviation search_e :=
  (Core.search Obs Env env_step env_sample env_n selection_policy None gamma value_fn rand).

Lemma handle_single_expanding r0 base N st s k :
  loop_inv Obs Env r0 base st ->
  expanding Obs r0 N s k (Core.nodes st) ->
  (r0 <= s < length (Core.nodes st))%nat -> (k < N)%nat ->
  exists st',
    handle_single_e st s k = Ok st' /\
    loop_inv Obs Env r0 base st' /\
    expanding Obs r0 N s (S k) (Core.nodes st') /\
    take base (Core.envs st') = take base (Core.envs st) /\
    (length (Core.nodes st) <= length (Core.nodes st'))%nat /\
    forall rd, Core.nodes st !! r0 = Some rd ->
      exists rd', Core.nodes st' !! r0 = Some rd' /\
                  Core.visits rd' = Core.visits rd + 1.
Proof.
  intros Hinv Hexp [Hs0 Hs] Hk.
  destruct (lookup_lt_is_Some_2 (Core.nodes st) s Hs) as [nd Hnd].
  destruct (Hexp s nd Hs0 Hnd) as [Hn Hat]. rewrite decide_True in Hat by reflexivity.
  destruct Hat as [Hterm Hkeys].
  assert (Hlenk : length (Core.children nd) = k).
  { rewrite <- (length_map fst). change (map fst (Core.children nd))
      with (dict_keys (Core.children nd)). rewrite Hkeys. apply length_seq. }
  assert (Hfree : dict_get k (Core.children nd) = None).
  { apply dict_get_None. rewrite Hkeys. rewrite elem_of_seq. lia. }
  assert (Hroom : (length (Core.children nd) < Core.action_space_n nd)%nat) by lia.
  assert (Ha : (k < Core.action_space_n nd)%nat) by lia.
  destruct (handle_single_on_tree Obs Env env_step env_sample gamma value_fn r0 base st s
              nd k Hinv Hs0 Hnd Hroom Ha Hfree) as (st' & Hrun & Hinv' & Htake & Hvisit).
  destruct (handle_single_shape Obs Env env_step env_sample gamma value_fn r0 base st s
              nd k Hinv Hs0 Hnd Hroom Ha Hfree)
    as (l & nd_s & child & v & st'' & Hl & Hrun' & Hp_s & Hk_s & Hn_s & Ht_s & Hv_s & He_s
        & Hp_c & Hk_c & Hv_c & Hn_c & He_c & Hloop & Hgrow & _).
  rewrite Hrun in Hrun'. injection Hrun' as <-.
  exists st'. split; [exact Hrun|]. split; [exact Hinv'|].
  split; [|split; [exact Htake|split; [|exact Hvisit]]].
  - intros i x' Hi Hx'.
    destruct (Forall2_lookup_r _ _ _ _ _ Hgrow Hx') as (x & Hx & Hg).
    destruct Hg as (_ & _ & Hkids & Hnx & Htx & _). rewrite Hkids, Hnx, Htx.
    destruct (lookup_expanded Obs _ _ _ _ _ _ Hs Hx) as [[-> ->]|[[-> ->]|(Hne & Hlt & Hx0)]].
    + rewrite decide_True by reflexivity. split; [congruence|]. split; [congruence|].
      rewrite Hk_s, dict_keys_set, Hkeys.
      rewrite decide_False by (rewrite elem_of_seq; lia).
      rewrite seq_S. reflexivity.
    + rewrite decide_False by lia. split; [congruence|]. left. assumption.
    + destruct (Hexp i x Hi Hx0) as [Hnx0 Hat0]. rewrite decide_False in Hat0 by assumption.
      rewrite decide_False by assumption. split; assumption.
  - rewrite <- (Forall2_length _ _ _ Hgrow), length_app, length_insert. lia.
Qed.

(** [handle_all] at a node without children expands the actions
    [k, k + 1, ..., N - 1] in turn; each expansion counts one visit at
    the root. *)
Lemma handle_all_loop_expanding r0 base N s :
  forall m k st,
    (k + m = N)%nat ->
    loop_inv Obs Env r0 base st ->
    expanding Obs r0 N s k (Core.nodes st) ->
    (r0 <= s < length (Core.nodes st))%nat ->
    exists st',
      handle_all_loop_e st s (seq k m) = Ok st' /\
      loop_inv Obs Env r0 base st' /\
      expanding Obs r0 N s N (Core.nodes st') /\
      take base (Core.envs st') = take base (Core.envs st) /\
      (length (Core.nodes st) <= length (Core.nodes st'))%nat /\
      forall rd, Core.nodes st !! r0 = Some rd ->
        exists rd', Core.nodes st' !! r0 = Some rd' /\
                    Core.visits rd' = Core.visits rd + Z.of_nat m.
Proof.
  induction m as [|m IH]; intros k st Hkm Hinv Hexp Hs; cbn [seq Core.handle_all_loop].
  - exists st. split; [reflexivity|]. split; [exact Hinv|].
    assert (k = N) as -> by lia. split; [exact Hexp|]. split; [reflexivity|].
    split; [lia|]. intros rd Hrd. exists rd. split; [exact Hrd | lia].
  - destruct (handle_single_expanding r0 base N st s k Hinv Hexp Hs)
      as (st1 & Hrun1 & Hinv1 & Hexp1 & Htake1 & Hlen1 & Hvisit1); [lia|].
    rewrite Hrun1. cbn [bind].
    destruct (IH (S k) st1) as (st' & Hrun & Hinv' & Hexp' & Htake' & Hlen' & Hvisit');
      [lia | exact Hinv1 | exact Hexp1 | lia |].
    exists st'. split; [exact Hrun|]. split; [exact Hinv'|]. split; [exact Hexp'|].
    split; [congruence|]. split; [lia|].
    intros rd Hrd. destruct (Hvisit1 rd Hrd) as (rd1 & Hrd1 & Hv1).
    destruct (Hvisit' rd1 Hrd1) as (rd' & Hrd' & Hv'). exists rd'. split; [exact Hrd'|]. lia.
Qed.

Lemma all_or_none_grows r0 N ns ns' :
  Forall2 (node_grows Obs) ns ns' -> all_or_none Obs r0 N ns -> all_or_none Obs r0 N ns'.
Proof.
  intros HF Hall i x' Hi Hx'.
  destruct (Forall2_lookup_r _ _ _ _ _ HF Hx') as (x & Hx & Hg).
  destruct Hg as (_ & _ & Hkids & Hnx & _). rewrite Hkids, Hnx. apply (Hall i x Hi Hx).
Qed.

(** One turn of the loop in expand-all mode counts one visit at the root
    if it ends in a terminal node, and [N] otherwise. *)
Lemma iteration_expand_all r0 base N st :
  (1 <= N)%nat ->
  loop_inv Obs Env r0 base st -> all_or_none Obs r0 N (Core.nodes st) ->
  (r0 < length (Core.nodes st))%nat ->
  exists st',
    iteration_e st r0 = Ok st' /\
    loop_inv Obs Env r0 base st' /\ all_or_none Obs r0 N (Core.nodes st') /\
    take base (Core.envs st') = take base (Core.envs st) /\
    forall rd, Core.nodes st !! r0 = Some rd ->
      exists rd', Core.nodes st' !! r0 = Some rd' /\
                  (Core.visits rd' = Core.visits rd + 1 \/
                   Core.visits rd' = Core.visits rd + Z.of_nat N).
Proof.
  intros HN Hinv Hall Hroot. pose proof Hinv as (Hlinks & Henvs & Hvis).
  destruct (select_on_tree Obs selection_policy selection_ok r0 (Core.nodes st) Hlinks Hvis
              (length (Core.nodes st)) r0)
    as (s & nd & Hsel & Hs0 & Hnd & Hcase); [lia | assumption | lia |].
  assert (Hs : (s < length (Core.nodes st))%nat) by (eapply lookup_lt_Some; eassumption).
  unfold Core.iteration, Core.select_node_to_expand. rewrite Hsel. cbn [bind].
  rewrite (deref_Some _ _ _ Hnd). cbn [bind]. unfold Core.is_terminal.
  destruct Hcase as [Hterm|[Hterm Hroom]]; rewrite Hterm.
  - set (st1 := Core.set_nodes Obs Env st
                  (<[s := Core.set_value_evaluation Obs nd fzero]> (Core.nodes st))).
    assert (Hgrow1 : Forall2 (node_grows Obs) (Core.nodes st) (Core.nodes st1))
      by (apply (arena_grows_insert Obs _ s nd); [assumption | apply node_grows_set_value]).
    assert (Hlinks1 : tree_links Obs r0 (Core.nodes st1))
      by (eapply tree_links_grows; eassumption).
    destruct (backup_on_tree Obs Env gamma r0 st1 s fzero Hlinks1)
      as (st' & Hback & Henv' & _ & Hgrow' & Hbump).
    { cbn [st1 Core.set_nodes Core.nodes]. rewrite length_insert. lia. }
    exists st'. split; [exact Hback|].
    split; [split; [|split]|].
    + eapply tree_links_grows; eassumption.
    + eapply env_links_grows; [exact Hgrow' | exact Henv' |].
      eapply env_links_grows; [exact Hgrow1 | reflexivity | assumption].
    + eapply all_visited_grows; [exact Hgrow'|].
      eapply all_visited_grows; eassumption.
    + split; [eapply all_or_none_grows; [exact Hgrow'|];
              eapply all_or_none_grows; eassumption|].
      split; [rewrite Henv'; reflexivity|].
      intros rd Hrd.
      destruct (lookup_lt_is_Some_2 (Core.nodes st') r0) as [rd' Hrd'].
      { rewrite <- (Forall2_length _ _ _ Hgrow'), <- (Forall2_length _ _ _ Hgrow1).
        assumption. }
      exists rd'. split; [assumption|]. left.
      destruct (Hbump r0 rd' (or_intror eq_refl) Hrd') as (y & Hy & Hvy).
      cbn [st1 Core.set_nodes Core.nodes] in Hy.
      destruct (decide (r0 = s)) as [->|Hne].
      * rewrite list_lookup_insert_eq in Hy by assumption. injection Hy as <-.
        rewrite Hnd in Hrd. injection Hrd as <-. exact Hvy.
      * rewrite list_lookup_insert_ne in Hy by congruence.
        rewrite Hrd in Hy. injection Hy as <-. exact Hvy.
  - unfold Core.handle_selected_node, Core.handle_all.
    rewrite (deref_Some _ _ _ Hnd). cbn [bind].
    destruct (Hall s nd Hs0 Hnd) as [HnN Hkids].
    assert (Hnone : Core.children nd = []).
    { destruct Hkids as [|Hfull]; [assumption|]. exfalso.
      rewrite <- (length_map fst) in Hroom.
      change (map fst (Core.children nd)) with (dict_keys (Core.children nd)) in Hroom.
      rewrite Hfull, length_seq in Hroom. lia. }
    rewrite HnN.
    destruct (handle_all_loop_expanding r0 base N s N 0%nat st)
      as (st' & Hrun & Hinv' & Hexp' & Htake' & _ & Hvisit'); [lia | exact Hinv | | lia |].
    { intros i x Hi Hx. destruct (Hall i x Hi Hx) as [Hnx Hkx]. split; [exact Hnx|].
      destruct (decide (i = s)) as [->|Hne]; [|exact Hkx].
      rewrite Hnd in Hx. injection Hx as <-. rewrite Hnone. split; [exact Hterm | reflexivity]. }
    exists st'. split; [exact Hrun|]. split; [exact Hinv'|].
    split; [|split; [exact Htake'|]].
    + intros i x Hi Hx. destruct (Hexp' i x Hi Hx) as [Hnx Hat]. split; [exact Hnx|].
      destruct (decide (i = s)); [right; apply Hat | exact Hat].
    + intros rd Hrd. destruct (Hvisit' rd Hrd) as (rd' & Hrd' & Hv').
      exists rd'. split; [exact Hrd'|]. right. exact Hv'.
Qed.

Lemma build_tree_expand_all r0 base N budget fuel :
  (1 <= N)%nat ->
  forall st rd,
    loop_inv Obs Env r0 base st -> all_or_none Obs r0 N (Core.nodes st) ->
    Core.nodes st !! r0 = Some rd ->
    (Z.to_nat (budget - Core.visits rd) <= fuel)%nat ->
    exists st' rd',
      build_tree_e fuel st r0 budget = Ok (r0, st') /\
      loop_inv Obs Env r0 base st' /\ all_or_none Obs r0 N (Core.nodes st') /\
      take base (Core.envs st') = take base (Core.envs st) /\
      Core.nodes st' !! r0 = Some rd' /\
      Z.max (Core.visits rd) budget <= Core.visits rd'
        <= Z.max (Core.visits rd) (budget + Z.of_nat N - 1).
Proof.
  intros HN. induction fuel as [|fuel IH]; intros st rd Hinv Hall Hrd Hfuel;
    cbn [Core.build_tree]; rewrite (deref_Some _ _ _ Hrd); cbn [bind];
    destruct (Z.ltb_spec (Core.visits rd) budget) as [Hlt|Hge]; try lia.
  - exists st, rd. split; [reflexivity|]. split; [exact Hinv|]. split; [exact Hall|].
    split; [reflexivity|]. split; [exact Hrd | lia].
  - destruct (iteration_expand_all r0 base N st HN Hinv Hall)
      as (st1 & Hit & Hinv1 & Hall1 & Htake1 & Hvisit).
    { eapply lookup_lt_Some; eassumption. }
    rewrite Hit. cbn [bind].
    destruct (Hvisit rd Hrd) as (rd1 & Hrd1 & Hv1).
    destruct (IH st1 rd1 Hinv1 Hall1 Hrd1)
      as (st' & rd' & Hrun & Hinv' & Hall' & Htake' & Hrd' & Hv'); [lia|].
    exists st', rd'. split; [exact Hrun|]. split; [exact Hinv'|]. split; [exact Hall'|].
    split; [congruence|]. split; [exact Hrd'|]. lia.
  - exists st, rd. split; [reflexivity|]. split; [exact Hinv|]. split; [exact Hall|].
    split; [reflexivity|]. split; [exact Hrd | lia].
Qed.

(** X10: with [expansion_policy = None] every turn expands all the
    actions of the selected node at once, in the order of [range(n)].
    A search returns; its root then has at least [budget] visits and
    fewer than [budget + n], since the last turn may count [n] visits
    where one was missing; and every node of the tree has either no
    children or a child for each of the [n] actions. *)
Theorem search_expand_all (st : Core.State Obs Env) (env : nat) (e : Env)
    (budget : Z) (obs : Obs) (reward : F) (fuel : nat) :
  Core.envs st !! env = Some e ->
  (1 <= env_n e)%nat ->
  (Z.to_nat (budget - 1) <= fuel)%nat ->
  exists st' root,
    search_e fuel st env budget obs reward = Ok (length (Core.nodes st), st') /\
    Core.nodes st' !! length (Core.nodes st) = Some root /\
    Z.max 1 budget <= Core.visits root <= Z.max 1 (budget + Z.of_nat (env_n e) - 1) /\
    (forall i nd,
       (length (Core.nodes st) <= i)%nat -> Core.nodes st' !! i = Some nd ->
       Core.action_space_n nd = env_n e /\
       (Core.children nd = [] \/ dict_keys (Core.children nd) = seq 0 (env_n e))) /\
    forall l, (l < length (Core.envs st))%nat -> Core.envs st' !! l = Core.envs st !! l.
Proof.
  intros He Hn Hfuel.
  rewrite (search_builds_root Obs Env env_step env_sample env_n selection_policy None gamma
             value_fn rand st env e budget obs reward fuel He).
  set (r0 := length (Core.nodes st)). set (base := length (Core.envs st)).
  match goal with
  | |- context [Core.mkNode Obs ?a ?b ?c ?d ?e0 ?f ?g ?h ?i ?j] =>
      set (root := Core.mkNode Obs a b c d e0 f g h i j)
  end.
  set (st4 := Core.mkState Obs Env (Core.nodes st ++ [root]) (Core.envs st ++ [e])
                (Core.rng st)).
  assert (Hr4 : Core.nodes st4 !! r0 = Some root) by apply lookup_snoc_new.
  assert (Honly : forall i nd, (r0 <= i)%nat -> Core.nodes st4 !! i = Some nd ->
                    i = r0 /\ nd = root).
  { intros i nd Hi Hlk. apply (lookup_snoc_ge Obs _ _ _ _ Hlk Hi). }
  assert (Hinv4 : loop_inv Obs Env r0 base st4).
  { split; [apply root_only_links; [reflexivity | reflexivity | exact Hn]|]. split.
    - split.
      + cbn [st4 Core.envs]. rewrite length_app. unfold base. lia.
      + intros i nd Hi Hlk _. destruct (Honly i nd Hi Hlk) as [_ ->].
        eexists. reflexivity.
      + intros i nd l Hi Hlk Hl. destruct (Honly i nd Hi Hlk) as [_ ->].
        cbn in Hl. injection Hl as <-. cbn [st4 Core.envs]. rewrite length_app. cbn.
        unfold base. lia.
    - intros i nd Hi Hlk. destruct (Honly i nd Hi Hlk) as [_ ->]. cbn. lia. }
  assert (Hall4 : all_or_none Obs r0 (env_n e) (Core.nodes st4)).
  { intros i nd Hi Hlk. destruct (Honly i nd Hi Hlk) as [_ ->].
    split; [reflexivity | left; reflexivity]. }
  destruct (build_tree_expand_all r0 base (env_n e) budget fuel Hn st4 root Hinv4 Hall4 Hr4)
    as (st' & rd' & Hrun & Hinv' & Hall' & Htake' & Hrd' & Hv'); [exact Hfuel|].
  exists st', rd'. split; [exact Hrun|]. split; [exact Hrd'|].
  split; [exact Hv'|]. split; [exact Hall'|].
  intros l Hl.
  assert (Hpre : take base (Core.envs st') = Core.envs st).
  { rewrite Htake'. cbn [st4 Core.envs]. unfold base. apply take_app_length. }
  rewrite <- Hpre. symmetry. apply lookup_take_lt. exact Hl.
Qed.
End ExpandAllFacts.

Lemma search_expand_all_witness :
  exists st' root,
    MoreExamples.search_count_all 3 Examples.count_state 0 4 tt 0%Q = Ok (0%nat, st') /\
    Core.nodes st' !! 0%nat = Some root /\
    4 <= Core.visits root <= 5.
Proof.
  destruct (@search_expand_all QScalar unit nat Examples.count_step Examples.count_sample
              Examples.two_actions (first_child_policy unit) (1 # 2)%Q
              (Core.RandomRollout 3) (fun n => n) (first_child_policy_contract unit)
              Examples.count_state 0%nat 0%nat 4 tt 0%Q 3%nat eq_refl)
    as (st' & root & Hrun & Hroot & Hv & _).
  - unfold Examples.two_actions. lia.
  - lia.
  - exists st', root. split; [exact Hrun|]. split; [exact Hroot|].
    unfold Examples.two_actions in Hv. lia.
Defined.

(** * The prototype's search *)

Section MaxIntFacts.

(** [max] with integer keys returns the first element, in iteration
    order, whose key no other element exceeds. *)
Lemma max_loop_int_first_max (key : nat -> result Z) (rest : list nat) :
  forall (best : nat) (best_key : Z),
  key best = Ok best_key ->
  (forall x, x ∈ rest -> exists k, key x = Ok k) ->
  exists a before after ka,
    max_loop_int key best best_key rest = Ok a /\
    best :: rest = before ++ a :: after /\
    key a = Ok ka /\
    (forall b, b ∈ before -> exists kb, key b = Ok kb /\ kb < ka) /\
    (forall b, b ∈ after -> exists kb, key b = Ok kb /\ kb <= ka).
Proof.
  induction rest as [|x rest IH]; intros best bk Hbest Hkeys; cbn [max_loop_int].
  - exists best, [], [], bk. repeat split; try assumption; intros b Hb; inversion Hb.
  - destruct (Hkeys x) as [k Hk]; [left|]. rewrite Hk. cbn [bind].
    assert (Hrest : forall y, y ∈ rest -> exists ky, key y = Ok ky)
      by (intros y Hy; apply Hkeys; right; assumption).
    destruct (Z.ltb_spec bk k) as [Hlt|Hge].
    + destruct (IH x k Hk Hrest) as (a & before & after & ka & Hm & Hsplit & Ha & Hb & Hafter).
      exists a, (best :: before), after, ka.
      split; [assumption|]. split; [cbn; congruence|]. split; [assumption|].
      split; [|assumption].
      intros b Hin. apply elem_of_cons in Hin as [->|Hin]; [|auto].
      exists bk. split; [assumption|].
      destruct before as [|x' before].
      * cbn in Hsplit. injection Hsplit as -> _.
        assert (ka = k) by congruence. lia.
      * cbn in Hsplit. injection Hsplit as <- _.
        destruct (Hb x) as (kx & Hkx & Hgx); [left|].
        assert (kx = k) by congruence. lia.
    + destruct (IH best bk Hbest Hrest)
        as (a & before & after & ka & Hm & Hsplit & Ha & Hb & Hafter).
      destruct before as [|b0 before].
      * cbn in Hsplit. injection Hsplit as <- <-.
        exists best, [], (x :: rest), ka.
        split; [assumption|]. split; [reflexivity|]. split; [assumption|].
        split; [intros b Hin; inversion Hin|].
        intros b Hin. apply elem_of_cons in Hin as [->|Hin]; [|auto].
        exists k. split; [assumption|]. assert (ka = bk) by congruence. lia.
      * cbn in Hsplit. injection Hsplit as <- ->.
        exists a, (best :: x :: before), after, ka.
        split; [assumption|]. split; [reflexivity|]. split; [assumption|].
        split; [|assumption].
        intros b Hin. apply elem_of_cons in Hin as [->|Hin]; [apply Hb; left|].
        apply elem_of_cons in Hin as [->|Hin]; [|apply Hb; right; assumption].
        exists k. split; [assumption|].
        destruct (Hb best) as (kb & Hkb & Hgb); [left|].
        assert (kb = bk) by congruence. lia.
Qed.

Lemma py_max_int_first_max (key : nat -> result Z) (xs : list nat) :
  xs <> [] ->
  (forall x, x ∈ xs -> exists k, key x = Ok k) ->
  exists a before after ka,
    py_max_int xs key = Ok a /\
    xs = before ++ a :: after /\
    key a = Ok ka /\
    (forall b, b ∈ before -> exists kb, key b = Ok kb /\ kb < ka) /\
    (forall b, b ∈ after -> exists kb, key b = Ok kb /\ kb <= ka).
Proof.
  destruct xs as [|x rest]; [congruence|]. intros _ Hkeys.
  destruct (Hkeys x) as [k Hk]; [left|].
  unfold py_max_int. rewrite Hk. cbn [bind].
  apply max_loop_int_first_max; [assumption|].
  intros y Hy. apply Hkeys. right. assumption.
Qed.
End MaxIntFacts.

Section ProtoFacts.
Context `{Scalar}.
Variable Obs : Type.

Implicit Types (ns : list (AlphaZero.Node Obs)) (d : dict nat).

Lemma az_grows_refl (nd : AlphaZero.Node Obs) : az_grows Obs nd nd.
Proof. unfold az_grows. repeat split; lia. Qed.

Lemma az_arena_grows_refl ns : Forall2 (az_grows Obs) ns ns.
Proof.
  apply Forall2_same_length_lookup_2; [reflexivity|].
  intros j x y Hx Hy. rewrite Hx in Hy. injection Hy as <-. apply az_grows_refl.
Qed.

Lemma az_arena_grows_insert ns i nd nd' :
  ns !! i = Some nd -> az_grows Obs nd nd' -> Forall2 (az_grows Obs) ns (<[i := nd']> ns).
Proof.
  intros Hnd Hg. apply Forall2_same_length_lookup_2; [symmetry; apply length_insert|].
  intros j x y Hx Hy. destruct (decide (j = i)) as [->|Hne].
  - rewrite list_lookup_insert_eq in Hy by (eapply lookup_lt_Some; eassumption).
    injection Hy as <-. rewrite Hnd in Hx. injection Hx as <-. exact Hg.
  - rewrite list_lookup_insert_ne in Hy by congruence.
    rewrite Hx in Hy. injection Hy as <-. apply az_grows_refl.
Qed.

Lemma az_arena_grows_trans ns1 ns2 ns3 :
  Forall2 (az_grows Obs) ns1 ns2 -> Forall2 (az_grows Obs) ns2 ns3 ->
  Forall2 (az_grows Obs) ns1 ns3.
Proof.
  intros H12 H23. apply Forall2_same_length_lookup_2.
  - rewrite (Forall2_length _ _ _ H12). apply (Forall2_length _ _ _ H23).
  - intros j x z Hx Hz.
    destruct (Forall2_lookup_l _ _ _ _ _ H12 Hx) as (y & Hy & Hxy).
    destruct (Forall2_lookup_l _ _ _ _ _ H23 Hy) as (z' & Hz' & Hyz).
    rewrite Hz in Hz'. injection Hz' as <-.
    destruct Hxy as (? & ? & ? & ? & ? & ?). destruct Hyz as (? & ? & ? & ? & ? & ?).
    unfold az_grows. repeat split; try congruence. lia.
Qed.

Lemma az_links_grows r0 ns ns' :
  Forall2 (az_grows Obs) ns ns' -> az_links Obs r0 ns -> az_links Obs r0 ns'.
Proof.
  intros HF [Hpar Hchild Hkeys Hlisted Honce Hleaf Hact Hvis Hroot].
  assert (Hback : forall i nd', ns' !! i = Some nd' ->
            exists nd, ns !! i = Some nd /\ az_grows Obs nd nd')
    by (intros i nd' Hlk; apply (Forall2_lookup_r _ _ _ _ _ HF Hlk)).
  split.
  - intros i nd' p Hi Hlk Hp. destruct (Hback i nd' Hlk) as (nd & Hnd & Hg).
    destruct Hg as (Hgp & _). apply (Hpar i nd p Hi Hnd). congruence.
  - intros i nd' a c Hi Hlk Hget. destruct (Hback i nd' Hlk) as (nd & Hnd & Hg).
    destruct Hg as (_ & Hgc & _). rewrite Hgc in Hget.
    destruct (Hchild i nd a c Hi Hnd Hget) as [Hlt (cn & Hcn & Hcp)].
    split; [assumption|].
    destruct (Forall2_lookup_l _ _ _ _ _ HF Hcn) as (cn' & Hcn' & Hg').
    destruct Hg' as (Hgp & _). exists cn'. split; [assumption | congruence].
  - intros i nd' Hi Hlk. destruct (Hback i nd' Hlk) as (nd & Hnd & Hg).
    destruct Hg as (_ & Hgc & Hgn & _). rewrite Hgc, Hgn. apply (Hkeys i nd Hi Hnd).
  - intros i nd' p pn' Hi Hlk Hp Hpn. destruct (Hback i nd' Hlk) as (nd & Hnd & Hg).
    destruct (Hback p pn' Hpn) as (pn & Hpn0 & Hgp).
    destruct Hg as (Hgpar & _). destruct Hgp as (_ & Hgc & _). rewrite Hgc.
    apply (Hlisted i nd p pn Hi Hnd); [congruence | assumption].
  - intros i nd' Hi Hlk. destruct (Hback i nd' Hlk) as (nd & Hnd & Hg).
    destruct Hg as (_ & Hgc & _). rewrite Hgc. apply (Honce i nd Hi Hnd).
  - intros i nd' Hi Hlk Ht. destruct (Hback i nd' Hlk) as (nd & Hnd & Hg).
    destruct Hg as (_ & Hgc & _ & Hgt & _). rewrite Hgc. apply (Hleaf i nd Hi Hnd).
    congruence.
  - intros i nd' Hi Hlk. destruct (Hback i nd' Hlk) as (nd & Hnd & Hg).
    destruct Hg as (_ & _ & Hgn & _). rewrite Hgn. apply (Hact i nd Hi Hnd).
  - intros i nd' Hi Hlk. destruct (Hback i nd' Hlk) as (nd & Hnd & Hg).
    destruct Hg as (_ & _ & _ & _ & _ & Hle). specialize (Hvis i nd Hi Hnd). lia.
  - intros i nd' Hi Hlk Hp. destruct (Hback i nd' Hlk) as (nd & Hnd & Hg).
    destruct Hg as (Hgp & _). apply (Hroot i nd Hi Hnd). congruence.
Qed.

Lemma az_visits_at_insert ns i x j :
  (i < length ns)%nat ->
  az_visits_at Obs (<[i := x]> ns) j
  = if decide (j = i) then AlphaZero.visits x else az_visits_at Obs ns j.
Proof.
  intros Hi. unfold az_visits_at. destruct (decide (j = i)) as [->|Hne].
  - rewrite list_lookup_insert_eq by assumption. reflexivity.
  - rewrite list_lookup_insert_ne by congruence. reflexivity.
Qed.

Lemma az_children_visits_ext ns ns' d :
  (forall c, c ∈ dict_values d -> az_visits_at Obs ns' c = az_visits_at Obs ns c) ->
  az_children_visits Obs ns' d = az_children_visits Obs ns d.
Proof.
  unfold az_children_visits. induction (dict_values d) as [|c l IH]; intros Hsame; cbn;
    [reflexivity|].
  rewrite (Hsame c) by left. rewrite IH; [reflexivity|].
  intros c' Hc'. apply Hsame. right. assumption.
Qed.

Lemma az_children_visits_set_new ns d a c :
  dict_get a d = None ->
  az_children_visits Obs ns (dict_set a c d)
  = az_children_visits Obs ns d + az_visits_at Obs ns c.
Proof.
  intros Hfree. unfold az_children_visits. rewrite (dict_values_set_new d a c Hfree).
  induction (dict_values d) as [|c' l IH]; cbn; [lia|]. rewrite IH. lia.
Qed.

(** One more visit at a node that is listed once adds one to the sum. *)
Lemma az_children_visits_bump ns d i nd :
  NoDup (dict_values d) -> i ∈ dict_values d -> ns !! i = Some nd ->
  az_children_visits Obs
    (<[i := AlphaZero.set_visits Obs nd (AlphaZero.visits nd + 1)]> ns) d
  = az_children_visits Obs ns d + 1.
Proof.
  intros Hnd Hi Hlk.
  assert (Hlen : (i < length ns)%nat) by (eapply lookup_lt_Some; eassumption).
  unfold az_children_visits. induction (dict_values d) as [|c l IH]; [inversion Hi|].
  apply NoDup_cons in Hnd as [Hc Hnd]. cbn [foldr].
  rewrite az_visits_at_insert by assumption.
  apply elem_of_cons in Hi as [->|Hi].
  - rewrite decide_True by reflexivity.
    assert (Hrest : foldr (fun c0 acc =>
                             az_visits_at Obs
                               (<[c := AlphaZero.set_visits Obs nd (AlphaZero.visits nd + 1)]> ns)
                               c0 + acc) 0 l
                    = foldr (fun c0 acc => az_visits_at Obs ns c0 + acc) 0 l).
    { clear IH Hnd. induction l as [|c' l IHl]; cbn; [reflexivity|].
      apply not_elem_of_cons in Hc as [Hne Hc].
      rewrite az_visits_at_insert by assumption.
      rewrite decide_False by congruence. rewrite IHl by assumption. reflexivity. }
    rewrite Hrest. cbn [AlphaZero.set_visits AlphaZero.visits].
    unfold az_visits_at. rewrite Hlk. lia.
  - rewrite decide_False by (intros ->; contradiction).
    rewrite IH by assumption. lia.
Qed.

Lemma az_children_visits_other ns d i x :
  i ∉ dict_values d ->
  az_children_visits Obs (<[i := x]> ns) d = az_children_visits Obs ns d.
Proof.
  intros Hi. apply az_children_visits_ext. intros c Hc.
  unfold az_visits_at. rewrite list_lookup_insert_ne; [reflexivity|].
  intros ->. contradiction.
Qed.

(** The accounts do not see a change of the value statistics. *)
Lemma az_accounts_same_visits r0 o ns ns' :
  Forall2 (fun nd nd' =>
             AlphaZero.children nd' = AlphaZero.children nd /\
             AlphaZero.terminal nd' = AlphaZero.terminal nd /\
             AlphaZero.visits nd' = AlphaZero.visits nd) ns ns' ->
  az_accounts Obs r0 o ns -> az_accounts Obs r0 o ns'.
Proof.
  intros HF Hacc j nd' Hj Hlk Hterm.
  destruct (Forall2_lookup_r _ _ _ _ _ HF Hlk) as (nd & Hnd & Hc & Ht & Hv).
  rewrite Hv, Hc. rewrite (az_children_visits_ext ns ns').
  - apply (Hacc j nd Hj Hnd). congruence.
  - intros c _. unfold az_visits_at.
    destruct (ns' !! c) as [x'|] eqn:Hx'.
    + destruct (Forall2_lookup_r _ _ _ _ _ HF Hx') as (x & Hx & _ & _ & Hvx).
      rewrite Hx. assumption.
    + destruct (ns !! c) as [x|] eqn:Hx; [|reflexivity].
      destruct (Forall2_lookup_l _ _ _ _ _ HF Hx) as (x' & Hx'' & _). congruence.
Qed.

(** A node is listed only among the children of its parent. *)
Lemma az_listed_parent r0 ns i j nd ndj :
  az_links Obs r0 ns -> (r0 <= j)%nat ->
  ns !! j = Some ndj -> ns !! i = Some nd ->
  i ∈ dict_values (AlphaZero.children ndj) ->
  (j < i)%nat /\ AlphaZero.parent nd = Some j.
Proof.
  intros Hlinks Hj Hndj Hnd Hin.
  destruct (az_keys Obs r0 ns Hlinks j ndj Hj Hndj) as [Hnodup _].
  destruct (dict_value_get _ _ Hnodup Hin) as [a Ha].
  destruct (az_child Obs r0 ns Hlinks j ndj a i Hj Hndj Ha) as [Hlt (cn & Hcn & Hpar)].
  split; [assumption|]. congruence.
Qed.
End ProtoFacts.

(** * The prototype's backpropagation *)

Section BackpropFacts.
Context `{Scalar}.
Variable Obs : Type.

Implicit Types (ns : list (AlphaZero.Node Obs)) (o : option nat).

Abbreviation az_parent_at ns i :=
  (match ns !! i with Some nd => AlphaZero.parent nd | None => None end).

(** Parent links lead to earlier nodes of the arena. *)
Abbreviation az_decreasing r0 ns :=
  (forall i nd p,
     (r0 <= i)%nat -> ns !! i = Some nd -> AlphaZero.parent nd = Some p ->
     (r0 <= p < i)%nat).

Lemma az_parent_chain_ext fuel ns ns' o :
  (forall j, az_parent_at ns' j = az_parent_at ns j) ->
  az_parent_chain Obs fuel ns' o = az_parent_chain Obs fuel ns o.
Proof.
  intros Hpar. revert o. induction fuel as [|fuel IH]; intros [i|]; cbn; try reflexivity.
  rewrite Hpar, IH. reflexivity.
Qed.

Lemma az_parent_chain_bound r0 ns fuel :
  az_decreasing r0 ns ->
  forall i j, (r0 <= i)%nat -> j ∈ az_parent_chain Obs fuel ns (Some i) ->
              (r0 <= j <= i)%nat.
Proof.
  intros Hdec. induction fuel as [|fuel IH]; intros i j Hi Hj; cbn in Hj.
  - inversion Hj.
  - apply elem_of_cons in Hj as [->|Hj]; [lia|].
    destruct (ns !! i) as [nd|] eqn:Hnd.
    + destruct (AlphaZero.parent nd) as [p|] eqn:Hp.
      * destruct (Hdec i nd p Hi Hnd Hp) as [Hr0 Hlt].
        specialize (IH p j Hr0 Hj). lia.
      * destruct fuel; inversion Hj.
    + destruct fuel; inversion Hj.
Qed.

(** More fuel than the start index walks the same chain. *)
Lemma az_parent_chain_fuel r0 ns :
  az_decreasing r0 ns ->
  forall fuel fuel' i,
    (r0 <= i)%nat -> (i < fuel)%nat -> (i < fuel')%nat ->
    az_parent_chain Obs fuel ns (Some i) = az_parent_chain Obs fuel' ns (Some i).
Proof.
  intros Hdec. induction fuel as [|fuel IH]; intros fuel' i Hi Hf Hf'; [lia|].
  destruct fuel' as [|fuel']; [lia|]. cbn [az_parent_chain]. f_equal.
  destruct (ns !! i) as [nd|] eqn:Hnd.
  - destruct (AlphaZero.parent nd) as [p|] eqn:Hp.
    + destruct (Hdec i nd p Hi Hnd Hp). apply IH; lia.
    + destruct fuel, fuel'; reflexivity.
  - destruct fuel, fuel'; reflexivity.
Qed.

(** The loop of [backprop] adds the same amount to the sum of every node
    of the walk and changes nothing else. *)
Lemma backprop_loop_spec r0 (self : nat) (v r : F) (fuel : nat) :
  forall ns o,
    az_decreasing r0 ns ->
    (exists me, ns !! self = Some me /\
                AlphaZero.value_evaluation me = v /\ AlphaZero.reward me = r) ->
    (forall i, o = Some i -> (r0 <= i < length ns)%nat /\ (i < fuel)%nat) ->
    exists ns',
      AlphaZeroMCTS.backprop_loop Obs fuel ns self o = Ok ns' /\
      length ns' = length ns /\
      forall j,
        ns' !! j
        = (fun nd =>
             if decide (j ∈ az_parent_chain Obs fuel ns o)
             then AlphaZeroMCTS.set_subtree_value Obs nd
                    (fadd (AlphaZero.subtree_value nd) (fadd v r))
             else nd) <$> ns !! j.
Proof.
  induction fuel as [|fuel IH]; intros ns o Hdec Hme Ho.
  - destruct o as [i|]; [destruct (Ho i eq_refl); lia|].
    exists ns. cbn [AlphaZeroMCTS.backprop_loop az_parent_chain].
    split; [reflexivity|]. split; [reflexivity|].
    intros j. destruct (ns !! j) as [x|]; cbn [fmap option_fmap option_map]; [|reflexivity].
    rewrite decide_False by apply not_elem_of_nil. reflexivity.
  - destruct o as [i|].
    2:{ exists ns. cbn [AlphaZeroMCTS.backprop_loop az_parent_chain].
        split; [reflexivity|]. split; [reflexivity|].
        intros j. destruct (ns !! j) as [x|]; cbn [fmap option_fmap option_map];
          [|reflexivity].
        rewrite decide_False by apply not_elem_of_nil. reflexivity. }
    destruct (Ho i eq_refl) as [[Hr0 Hlen] Hfuel].
    destruct (lookup_lt_is_Some_2 ns i Hlen) as [nd Hnd].
    destruct Hme as (me & Hself & Hv & Hr).
    cbn [AlphaZeroMCTS.backprop_loop].
    rewrite (deref_Some _ _ _ Hself). cbn [bind].
    rewrite (deref_Some _ _ _ Hnd). cbn [bind]. rewrite Hv, Hr.
    set (nd1 := AlphaZeroMCTS.set_subtree_value Obs nd
                  (fadd (AlphaZero.subtree_value nd) (fadd v r))).
    set (ns1 := <[i := nd1]> ns).
    assert (Hpar1 : forall j, az_parent_at ns1 j = az_parent_at ns j).
    { intros j. unfold ns1. destruct (decide (j = i)) as [->|Hne].
      - rewrite list_lookup_insert_eq by assumption. rewrite Hnd. reflexivity.
      - rewrite list_lookup_insert_ne by congruence. reflexivity. }
    assert (Hdec1 : az_decreasing r0 ns1).
    { intros j x p Hj Hx Hp. unfold ns1 in Hx. destruct (decide (j = i)) as [->|Hne].
      - rewrite list_lookup_insert_eq in Hx by assumption. injection Hx as <-.
        apply (Hdec i nd p Hj Hnd Hp).
      - rewrite list_lookup_insert_ne in Hx by congruence. apply (Hdec j x p Hj Hx Hp). }
    destruct (IH ns1 (AlphaZero.parent nd) Hdec1) as (ns' & Hrun & Hlen' & Hspec).
    { unfold ns1. destruct (decide (self = i)) as [->|Hne].
      - rewrite list_lookup_insert_eq by assumption. exists nd1.
        split; [reflexivity|]. rewrite Hnd in Hself. injection Hself as <-.
        split; assumption.
      - rewrite list_lookup_insert_ne by congruence. exists me. auto. }
    { intros p Hp. destruct (Hdec i nd p Hr0 Hnd Hp). unfold ns1.
      rewrite length_insert. lia. }
    exists ns'. split; [exact Hrun|].
    split; [rewrite Hlen'; apply length_insert|].
    pose proof (az_parent_chain_ext fuel ns ns1 (AlphaZero.parent nd) Hpar1) as Hchain.
    assert (Habove : forall x, x ∈ az_parent_chain Obs fuel ns (AlphaZero.parent nd) ->
                       (x < i)%nat).
    { intros x Hx. destruct (AlphaZero.parent nd) as [p|] eqn:Hp.
      - destruct (Hdec i nd p Hr0 Hnd Hp) as [Hp0 Hpi].
        pose proof (az_parent_chain_bound r0 ns fuel Hdec p x Hp0 Hx). lia.
      - destruct fuel; inversion Hx. }
    intros j. rewrite Hspec. destruct (decide (j = i)) as [->|Hne].
    + replace (ns1 !! i) with (Some nd1)
        by (symmetry; apply list_lookup_insert_eq; assumption).
      rewrite Hnd. cbn [fmap option_fmap option_map az_parent_chain]. rewrite Hchain, Hnd.
      rewrite decide_False by (intros Hin; apply Habove in Hin; lia).
      rewrite decide_True by left. reflexivity.
    + replace (ns1 !! j) with (ns !! j)
        by (symmetry; apply list_lookup_insert_ne; congruence).
      destruct (ns !! j) as [x|]; cbn [fmap option_fmap option_map az_parent_chain];
        [|reflexivity].
      rewrite Hchain, Hnd.
      destruct (decide (j ∈ az_parent_chain Obs fuel ns (AlphaZero.parent nd))) as [Hin|Hin].
      * rewrite decide_True by (right; assumption). reflexivity.
      * rewrite decide_False; [reflexivity|].
        intros Hc. apply elem_of_cons in Hc as [?|?]; contradiction.
Qed.

(** [backprop] on a tree: what it returns, node by node. *)
Lemma backprop_spec r0 ns (self : nat) (me : AlphaZero.Node Obs) (value : F) :
  az_decreasing r0 ns ->
  (r0 <= self)%nat -> ns !! self = Some me ->
  exists ns',
    AlphaZeroMCTS.backprop Obs ns self value = Ok ns' /\
    length ns' = length ns /\
    forall j,
      ns' !! j
      = (fun nd =>
           let nd1 := if decide (j = self)
                      then AlphaZeroMCTS.set_value_evaluation Obs nd value else nd in
           if decide (j ∈ az_path_to_root Obs ns self)
           then AlphaZeroMCTS.set_subtree_value Obs nd1
                  (fadd (AlphaZero.subtree_value nd1) (fadd value (AlphaZero.reward me)))
           else nd1) <$> ns !! j.
Proof.
  intros Hdec Hs0 Hme.
  assert (Hlen : (self < length ns)%nat) by (eapply lookup_lt_Some; eassumption).
  unfold AlphaZeroMCTS.backprop. rewrite (deref_Some _ _ _ Hme). cbn [bind].
  set (me1 := AlphaZeroMCTS.set_value_evaluation Obs me value).
  set (ns1 := <[self := me1]> ns).
  assert (Hpar1 : forall j, az_parent_at ns1 j = az_parent_at ns j).
  { intros j. unfold ns1. destruct (decide (j = self)) as [->|Hne].
    - rewrite list_lookup_insert_eq by assumption. rewrite Hme. reflexivity.
    - rewrite list_lookup_insert_ne by congruence. reflexivity. }
  assert (Hdec1 : az_decreasing r0 ns1).
  { intros j x p Hj Hx Hp. unfold ns1 in Hx. destruct (decide (j = self)) as [->|Hne].
    - rewrite list_lookup_insert_eq in Hx by assumption. injection Hx as <-.
      apply (Hdec self me p Hj Hme Hp).
    - rewrite list_lookup_insert_ne in Hx by congruence. apply (Hdec j x p Hj Hx Hp). }
  destruct (backprop_loop_spec r0 self value (AlphaZero.reward me) (length ns1) ns1
              (Some self) Hdec1) as (ns' & Hrun & Hlen' & Hspec).
  { exists me1. split; [apply list_lookup_insert_eq; assumption|]. split; reflexivity. }
  { intros i [= <-]. unfold ns1. rewrite length_insert. lia. }
  exists ns'. split; [exact Hrun|].
  split; [rewrite Hlen'; apply length_insert|].
  pose proof (az_parent_chain_ext (length ns1) ns ns1 (Some self) Hpar1) as Hchain.
  assert (Hl1 : length ns1 = length ns) by (unfold ns1; apply length_insert).
  rewrite Hl1 in Hchain. rewrite Hl1 in Hspec.
  intros j. rewrite Hspec. unfold az_path_to_root.
  destruct (decide (j = self)) as [->|Hne].
  - replace (ns1 !! self) with (Some me1)
      by (symmetry; apply list_lookup_insert_eq; assumption).
    rewrite Hme. cbn [fmap option_fmap option_map]. rewrite Hchain. reflexivity.
  - replace (ns1 !! j) with (ns !! j)
      by (symmetry; apply list_lookup_insert_ne; congruence).
    destruct (ns !! j) as [x|]; cbn [fmap option_fmap option_map]; [|reflexivity].
    rewrite Hchain. reflexivity.
Qed.

(** X11: [Node.backprop(value)] stores [value] as the node's
    [value_evaluation] and walks the parent links from the node to the
    root, adding the same amount [value + self.reward], the reward of
    the start node, to the [subtree_value] of every node of the walk.
    It counts no visit: the visits, the links and the rewards of all
    nodes are as before, and so are the sums of the nodes off the
    walk. *)
Theorem backprop_adds_along_parent_chain ns (self : nat) (me : AlphaZero.Node Obs)
    (value : F) :
  (forall i nd p, ns !! i = Some nd -> AlphaZero.parent nd = Some p -> (p < i)%nat) ->
  ns !! self = Some me ->
  exists ns',
    AlphaZeroMCTS.backprop Obs ns self value = Ok ns' /\
    length ns' = length ns /\
    forall j nd, ns !! j = Some nd ->
      exists nd',
        ns' !! j = Some nd' /\
        AlphaZero.visits nd' = AlphaZero.visits nd /\
        AlphaZero.parent nd' = AlphaZero.parent nd /\
        AlphaZero.children nd' = AlphaZero.children nd /\
        AlphaZero.reward nd' = AlphaZero.reward nd /\
        AlphaZero.terminal nd' = AlphaZero.terminal nd /\
        AlphaZero.value_evaluation nd'
        = (if decide (j = self) then value else AlphaZero.value_evaluation nd) /\
        AlphaZero.subtree_value nd'
        = (if decide (j ∈ az_path_to_root Obs ns self)
           then fadd (AlphaZero.subtree_value nd) (fadd value (AlphaZero.reward me))
           else AlphaZero.subtree_value nd).
Proof.
  intros Hdec Hme.
  destruct (backprop_spec 0 ns self me value) as (ns' & Hrun & Hlen & Hspec);
    [intros i nd p _ Hnd Hp; specialize (Hdec i nd p Hnd Hp); lia | lia | exact Hme |].
  exists ns'. split; [exact Hrun|]. split; [exact Hlen|].
  intros j nd Hnd. rewrite Hspec, Hnd. cbn [fmap option_fmap option_map].
  eexists. split; [reflexivity|].
  destruct (decide (j = self)), (decide (j ∈ az_path_to_root Obs ns self));
    cbn; repeat split; reflexivity.
Qed.
End BackpropFacts.

Lemma backprop_adds_along_parent_chain_witness :
  exists ns',
    AlphaZeroMCTS.backprop unit Examples.az_pair 1 5%Q = Ok ns' /\
    length ns' = 2%nat.
Proof.
  destruct (@backprop_adds_along_parent_chain QScalar unit Examples.az_pair 1%nat
              (@AlphaZero.mkNode QScalar unit (Some 0%nat) [] 1%Z 1%Q 1%Q 0%Q 2%nat None false) 5%Q)
    as (ns' & Hrun & Hlen & _).
  - intros [|[|i]] nd p Hnd Hp; cbn in Hnd.
    + injection Hnd as <-. discriminate.
    + injection Hnd as <-. cbn in Hp. injection Hp as <-. lia.
    + discriminate.
  - reflexivity.
  - exists ns'. split; [exact Hrun | exact Hlen].
Defined.

(** * The prototype's search loop on a tree *)

Section GrownArena.
Context {A : Type}.
Implicit Types (l : list A).

Lemma lookup_grown l s x y i z :
  (s < length l)%nat ->
  (<[s := x]> l ++ [y]) !! i = Some z ->
  (i = s /\ z = x) \/
  (i = length l /\ z = y) \/
  (i <> s /\ (i < length l)%nat /\ l !! i = Some z).
Proof.
  intros Hs Hlk. destruct (decide (i < length l)%nat) as [Hlt|Hge].
  - rewrite lookup_app_l in Hlk by (rewrite length_insert; assumption).
    destruct (decide (i = s)) as [->|Hne].
    + rewrite list_lookup_insert_eq in Hlk by assumption. left. split; congruence.
    + rewrite list_lookup_insert_ne in Hlk by congruence. right. right. auto.
  - rewrite lookup_app_r in Hlk by (rewrite length_insert; lia).
    rewrite length_insert in Hlk.
    destruct (i - length l)%nat as [|k] eqn:Hk; cbn in Hlk; [|discriminate].
    right. left. split; [lia | congruence].
Qed.

Lemma lookup_grown_at l s x y :
  (s < length l)%nat -> (<[s := x]> l ++ [y]) !! s = Some x.
Proof.
  intros Hs. rewrite lookup_app_l by (rewrite length_insert; assumption).
  apply list_lookup_insert_eq. assumption.
Qed.

Lemma lookup_grown_new l s x y : (<[s := x]> l ++ [y]) !! length l = Some y.
Proof.
  rewrite lookup_app_r by (rewrite length_insert; lia).
  rewrite length_insert, Nat.sub_diag. reflexivity.
Qed.

Lemma lookup_grown_old l s x y j :
  j <> s -> (j < length l)%nat -> (<[s := x]> l ++ [y]) !! j = l !! j.
Proof.
  intros Hne Hlt. rewrite lookup_app_l by (rewrite length_insert; assumption).
  apply list_lookup_insert_ne. congruence.
Qed.
End GrownArena.

Section ProtoSearch.
Context `{Scalar}.
Variables (Obs Env : Type).
Variable env_step : Env -> nat -> Env * (Obs * F * bool * bool).
Variable env_sample : Env -> Env * nat.
Variable env_n : Env -> nat.
Variable selection_policy : list (AlphaZero.Node Obs) -> nat -> result (option nat).
Variable expansion_policy :
  list (AlphaZero.Node Obs) -> Env -> nat -> result (nat * Env).

Hypothesis selection_ok : az_selection_contract Obs selection_policy.
Hypothesis expansion_ok : az_expansion_contract Obs Env expansion_policy.

Implicit Types (ns : list (AlphaZero.Node Obs)) (st : AlphaZeroMCTS.State Obs Env).

Abbreviation select_loop_p := (AlphaZeroMCTS.select_loop Obs Env env_step selection_policy).
Abbreviation select_p :=
  (AlphaZeroMCTS.select_node_to_expand Obs Env env_step selection_policy).
Abbreviation expand_p := (AlphaZeroMCTS.expand Obs Env env_step expansion_policy).
Abbreviation iteration_p :=
  (AlphaZeroMCTS.iteration Obs Env env_step env_sample selection_policy expansion_policy).
Abbreviation build_tree_loop_p :=
  (AlphaZeroMCTS.build_tree_loop Obs Env env_step env_sample selection_policy
     expansion_policy).
Abbreviation search_p :=
  (AlphaZeroMCTS.search Obs Env env_step env_sample env_n selection_policy
     expansion_policy).

Lemma az_grows_visit (nd : AlphaZero.Node Obs) :
  az_grows Obs nd (AlphaZero.set_visits Obs nd (AlphaZero.visits nd + 1)).
Proof. unfold az_grows. cbn. repeat split; lia. Qed.

(** [step] into an expanded action of a node of the tree. *)
Lemma az_step_spec r0 ns i nd a :
  az_links Obs r0 ns -> (r0 <= i)%nat -> ns !! i = Some nd ->
  a ∈ dict_keys (AlphaZero.children nd) ->
  exists c ch,
    ns !! c = Some ch /\ (i < c)%nat /\ AlphaZero.parent ch = Some i /\
    c ∈ dict_values (AlphaZero.children nd) /\
    AlphaZero.step Obs ns i a
    = Ok (c, <[c := AlphaZero.set_visits Obs ch (AlphaZero.visits ch + 1)]> ns).
Proof.
  intros Hlinks Hi Hnd Ha.
  destruct (dict_get_is_Some _ _ Ha) as [c Hc].
  destruct (az_child Obs r0 ns Hlinks i nd a c Hi Hnd Hc) as [Hlt (ch & Hch & Hpar)].
  exists c, ch. split; [exact Hch|]. split; [exact Hlt|]. split; [exact Hpar|].
  split; [eapply dict_get_value; eassumption|].
  unfold AlphaZero.step. rewrite (deref_Some _ _ _ Hnd). cbn [bind].
  rewrite Hc. cbn [of_option bind]. rewrite (deref_Some _ _ _ Hch). reflexivity.
Qed.

(** The descent: it enters one node after the other, counting a visit at
    each, and ends at a node of the tree that is terminal or has an
    unexpanded action. *)
Lemma az_select_on_tree r0 :
  forall fuel ns i env,
    az_links Obs r0 ns -> az_accounts Obs r0 (Some i) ns ->
    (r0 <= i)%nat -> (i < length ns)%nat -> (length ns <= fuel + i)%nat ->
    exists s nd ns' env',
      select_loop_p fuel ns i env = Ok (s, ns', env') /\
      az_links Obs r0 ns' /\ az_accounts Obs r0 (Some s) ns' /\
      Forall2 (az_grows Obs) ns ns' /\
      (forall j, (j <= i)%nat -> ns' !! j = ns !! j) /\
      (r0 <= s)%nat /\ ns' !! s = Some nd /\
      (AlphaZero.terminal nd = true \/
       (AlphaZero.terminal nd = false /\
        (length (AlphaZero.children nd) < AlphaZero.action_space_n nd)%nat)).
Proof.
  induction fuel as [|fuel IH]; intros ns i env Hlinks Hacc Hi Hlen Hfuel; [lia|].
  destruct (lookup_lt_is_Some_2 ns i Hlen) as [nd Hnd].
  cbn [AlphaZeroMCTS.select_loop]. rewrite (deref_Some _ _ _ Hnd). cbn [bind].
  unfold AlphaZero.is_terminal. destruct (AlphaZero.terminal nd) eqn:Hterm.
  - exists i, nd, ns, env. split; [reflexivity|]. split; [assumption|].
    split; [assumption|]. split; [apply az_arena_grows_refl|].
    split; [reflexivity|]. split; [assumption|]. split; [assumption|]. left. assumption.
  - destruct (selection_ok r0 ns i nd Hlinks Hi Hnd Hterm)
      as [[Hsel Hroom]|(a & Hsel & Ha)]; rewrite Hsel; cbn [bind].
    + exists i, nd, ns, env. split; [reflexivity|]. split; [assumption|].
      split; [assumption|]. split; [apply az_arena_grows_refl|].
      split; [reflexivity|]. split; [assumption|]. split; [assumption|].
      right. split; assumption.
    + destruct (az_step_spec r0 ns i nd a Hlinks Hi Hnd Ha)
        as (c & ch & Hch & Hic & Hpar & Hin & Hstep).
      rewrite Hstep. cbn [bind].
      destruct (env_step env a) as [env1 res].
      set (ns1 := <[c := AlphaZero.set_visits Obs ch (AlphaZero.visits ch + 1)]> ns).
      assert (Hc : (c < length ns)%nat) by (eapply lookup_lt_Some; eassumption).
      assert (Hgrow : Forall2 (az_grows Obs) ns ns1)
        by (apply (az_arena_grows_insert Obs ns c ch); [assumption | apply az_grows_visit]).
      assert (Hlinks1 : az_links Obs r0 ns1) by (eapply az_links_grows; eassumption).
      assert (Hacc1 : az_accounts Obs r0 (Some c) ns1).
      { intros j x Hj Hx Htx. unfold ns1 in Hx |- *.
        destruct (decide (j = c)) as [->|Hjc].
        - rewrite list_lookup_insert_eq in Hx by assumption. injection Hx as <-.
          rewrite decide_True by reflexivity.
          cbn [AlphaZero.set_visits AlphaZero.visits AlphaZero.children].
          rewrite az_children_visits_other.
          + cbn in Htx. specialize (Hacc c ch (Nat.le_trans _ _ _ Hi (Nat.lt_le_incl _ _ Hic))
                                      Hch Htx).
            rewrite decide_False in Hacc by (intros [= ->]; lia). lia.
          + intros Hself.
            destruct (az_listed_parent Obs r0 ns c c ch ch Hlinks
                        (Nat.le_trans _ _ _ Hi (Nat.lt_le_incl _ _ Hic)) Hch Hch Hself). lia.
        - rewrite list_lookup_insert_ne in Hx by congruence.
          rewrite decide_False by (intros [= ->]; congruence).
          specialize (Hacc j x Hj Hx Htx).
          destruct (decide (j = i)) as [->|Hji].
          + rewrite decide_True in Hacc by reflexivity.
            rewrite Hnd in Hx. injection Hx as <-.
            rewrite az_children_visits_bump;
              [lia | apply (az_once Obs r0 ns Hlinks i nd Hi Hnd) | assumption | assumption].
          + rewrite decide_False in Hacc by (intros [= ->]; congruence).
            rewrite az_children_visits_other; [exact Hacc|].
            intros Hlisted.
            destruct (az_listed_parent Obs r0 ns c j ch x Hlinks Hj Hx Hch Hlisted)
              as [_ Hpj]. congruence. }
      destruct (IH ns1 c env1 Hlinks1 Hacc1)
        as (s & nds & ns' & env' & Hrun & Hlinks' & Hacc' & Hgrow' & Hframe & Hs0 & Hnds
            & Hcase);
        [lia | unfold ns1; rewrite length_insert; assumption
         | unfold ns1; rewrite length_insert; lia |].
      exists s, nds, ns', env'. split; [exact Hrun|]. split; [exact Hlinks'|].
      split; [exact Hacc'|]. split; [eapply az_arena_grows_trans; eassumption|].
      split; [|split; [exact Hs0 | split; [exact Hnds | exact Hcase]]].
      intros j Hj. rewrite Hframe by lia. unfold ns1.
      apply list_lookup_insert_ne. lia.
Qed.

(** A new child, visited once, linked under a free action of the node
    [s] where the descent stands: the tree keeps its shape and the
    accounts are settled. *)
Lemma az_links_expand r0 ns s nd a (child : AlphaZero.Node Obs) :
  az_links Obs r0 ns -> az_accounts Obs r0 (Some s) ns ->
  (r0 <= s)%nat -> ns !! s = Some nd -> AlphaZero.terminal nd = false ->
  (a < AlphaZero.action_space_n nd)%nat ->
  dict_get a (AlphaZero.children nd) = None ->
  AlphaZero.parent child = Some s -> AlphaZero.children child = [] ->
  AlphaZero.visits child = 1 ->
  AlphaZero.action_space_n child = AlphaZero.action_space_n nd ->
  let nd_s := AlphaZeroMCTS.set_children Obs nd
                (dict_set a (length ns) (AlphaZero.children nd)) in
  az_links Obs r0 (<[s := nd_s]> ns ++ [child]) /\
  az_accounts Obs r0 None (<[s := nd_s]> ns ++ [child]).
Proof.
  intros Hlinks Hacc Hs0 Hnd Hterm Ha Hfree Hp_c Hk_c Hv_c Hn_c nd_s.
  pose proof Hlinks as [Hpar Hchild Hkeys Hlisted Honce Hleaf Hact Hvis Hroot].
  assert (Hs : (s < length ns)%nat) by (eapply lookup_lt_Some; eassumption).
  set (c := length ns) in *. set (ns1 := <[s := nd_s]> ns ++ [child]).
  assert (Hvals : forall j ndj x, (r0 <= j)%nat -> ns !! j = Some ndj ->
            x ∈ dict_values (AlphaZero.children ndj) -> (x < c)%nat).
  { intros j ndj x Hj Hndj Hx. destruct (Hkeys j ndj Hj Hndj) as [Hnodup _].
    destruct (dict_value_get _ _ Hnodup Hx) as [b Hb].
    destruct (Hchild j ndj b x Hj Hndj Hb) as [_ (cn & Hcn & _)].
    eapply lookup_lt_Some. eassumption. }
  assert (Hva : forall j, (j < c)%nat -> az_visits_at Obs ns1 j = az_visits_at Obs ns j).
  { intros j Hj. unfold az_visits_at, ns1. destruct (decide (j = s)) as [->|Hne].
    - rewrite lookup_grown_at by assumption. rewrite Hnd. reflexivity.
    - rewrite lookup_grown_old by assumption. reflexivity. }
  assert (Hvc : az_visits_at Obs ns1 c = 1).
  { unfold az_visits_at, ns1, c. rewrite lookup_grown_new. assumption. }
  assert (Hcv : forall j ndj, (r0 <= j)%nat -> ns !! j = Some ndj ->
            az_children_visits Obs ns1 (AlphaZero.children ndj)
            = az_children_visits Obs ns (AlphaZero.children ndj)).
  { intros j ndj Hj Hndj. apply az_children_visits_ext. intros x Hx.
    apply Hva. eapply Hvals; eassumption. }
  split; [split|].
  - intros i x p Hi Hx Hp.
    destruct (lookup_grown _ _ _ _ _ _ Hs Hx) as [[-> ->]|[[-> ->]|(Hne & Hlt & Hx')]].
    + apply (Hpar s nd p Hs0 Hnd Hp).
    + rewrite Hp_c in Hp. injection Hp as <-. unfold c. lia.
    + apply (Hpar i x p Hi Hx' Hp).
  - intros i x b y Hi Hx Hget.
    destruct (lookup_grown _ _ _ _ _ _ Hs Hx) as [[-> ->]|[[-> ->]|(Hne & Hlt & Hx')]].
    + cbn [nd_s AlphaZeroMCTS.set_children AlphaZero.children] in Hget.
      rewrite dict_get_set in Hget. destruct (Nat.eqb_spec b a) as [->|Hba].
      * injection Hget as <-. split; [exact Hs|].
        exists child. split; [apply lookup_grown_new | exact Hp_c].
      * destruct (Hchild s nd b y Hs0 Hnd Hget) as [Hlt (cn & Hcn & Hcp)].
        split; [exact Hlt|]. exists cn. split; [|exact Hcp].
        unfold ns1. rewrite lookup_grown_old; [exact Hcn | lia |].
        eapply lookup_lt_Some. eassumption.
    + rewrite Hk_c in Hget. discriminate.
    + destruct (Hchild i x b y Hi Hx' Hget) as [Hiy (cn & Hcn & Hcp)].
      split; [exact Hiy|]. destruct (decide (y = s)) as [->|Hys].
      * exists nd_s. split; [apply lookup_grown_at; assumption|].
        rewrite Hnd in Hcn. injection Hcn as <-. exact Hcp.
      * exists cn. split; [|exact Hcp].
        unfold ns1. rewrite lookup_grown_old; [exact Hcn | assumption |].
        eapply lookup_lt_Some. eassumption.
  - intros i x Hi Hx.
    destruct (lookup_grown _ _ _ _ _ _ Hs Hx) as [[-> ->]|[[-> ->]|(Hne & Hlt & Hx')]].
    + destruct (Hkeys s nd Hs0 Hnd) as [Hnodup Hbound].
      cbn [nd_s AlphaZeroMCTS.set_children AlphaZero.children AlphaZero.action_space_n].
      rewrite dict_keys_set.
      apply dict_get_None in Hfree. rewrite decide_False by assumption. split.
      * apply NoDup_app. split; [assumption|]. split; [|apply NoDup_singleton].
        intros y Hy Hya. apply list_elem_of_singleton in Hya as ->. contradiction.
      * intros y Hy. apply elem_of_app in Hy as [Hy|Hy]; [auto|].
        apply list_elem_of_singleton in Hy as ->. assumption.
    + rewrite Hk_c. split; [apply NoDup_nil_2 | intros y Hy; inversion Hy].
    + apply (Hkeys i x Hi Hx').
  - intros i x p pn Hi Hx Hp Hpn. unfold ns1 in Hpn.
    destruct (lookup_grown _ _ _ _ _ _ Hs Hx) as [[-> ->]|[[-> ->]|(Hne & Hlt & Hx')]].
    + destruct (Hpar s nd p Hs0 Hnd Hp) as [Hp0 Hps].
      rewrite lookup_grown_old in Hpn by lia. apply (Hlisted s nd p pn Hs0 Hnd Hp Hpn).
    + rewrite Hp_c in Hp. injection Hp as <-.
      rewrite lookup_grown_at in Hpn by assumption. injection Hpn as <-.
      cbn [nd_s AlphaZeroMCTS.set_children AlphaZero.children].
      rewrite dict_values_set_new by assumption. apply elem_of_app. right. left.
    + destruct (Hpar i x p Hi Hx' Hp) as [Hp0 Hpi].
      destruct (decide (p = s)) as [->|Hps].
      * rewrite lookup_grown_at in Hpn by assumption. injection Hpn as <-.
        cbn [nd_s AlphaZeroMCTS.set_children AlphaZero.children].
        rewrite dict_values_set_new by assumption.
        apply elem_of_app. left. apply (Hlisted i x s nd Hi Hx' Hp Hnd).
      * rewrite lookup_grown_old in Hpn by lia. apply (Hlisted i x p pn Hi Hx' Hp Hpn).
  - intros i x Hi Hx.
    destruct (lookup_grown _ _ _ _ _ _ Hs Hx) as [[-> ->]|[[-> ->]|(Hne & Hlt & Hx')]].
    + cbn [nd_s AlphaZeroMCTS.set_children AlphaZero.children].
      rewrite dict_values_set_new by assumption.
      apply NoDup_app. split; [apply (Honce s nd Hs0 Hnd)|].
      split; [|apply NoDup_singleton].
      intros y Hy Hyc. apply list_elem_of_singleton in Hyc as ->.
      specialize (Hvals s nd c Hs0 Hnd Hy). lia.
    + rewrite Hk_c. apply NoDup_nil_2.
    + apply (Honce i x Hi Hx').
  - intros i x Hi Hx Htx.
    destruct (lookup_grown _ _ _ _ _ _ Hs Hx) as [[-> ->]|[[-> ->]|(Hne & Hlt & Hx')]].
    + cbn in Htx. congruence.
    + assumption.
    + apply (Hleaf i x Hi Hx' Htx).
  - intros i x Hi Hx.
    destruct (lookup_grown _ _ _ _ _ _ Hs Hx) as [[-> ->]|[[-> ->]|(Hne & Hlt & Hx')]].
    + apply (Hact s nd Hs0 Hnd).
    + rewrite Hn_c. apply (Hact s nd Hs0 Hnd).
    + apply (Hact i x Hi Hx').
  - intros i x Hi Hx.
    destruct (lookup_grown _ _ _ _ _ _ Hs Hx) as [[-> ->]|[[-> ->]|(Hne & Hlt & Hx')]].
    + apply (Hvis s nd Hs0 Hnd).
    + rewrite Hv_c. lia.
    + apply (Hvis i x Hi Hx').
  - intros i x Hi Hx Hp.
    destruct (lookup_grown _ _ _ _ _ _ Hs Hx) as [[-> ->]|[[-> ->]|(Hne & Hlt & Hx')]].
    + apply (Hroot s nd Hs0 Hnd Hp).
    + congruence.
    + apply (Hroot i x Hi Hx' Hp).
  - intros j x Hj Hx Htx. rewrite decide_False by discriminate.
    destruct (lookup_grown _ _ _ _ _ _ Hs Hx) as [[-> ->]|[[-> ->]|(Hne & Hlt & Hx')]].
    + cbn [nd_s AlphaZeroMCTS.set_children AlphaZero.children AlphaZero.visits].
      rewrite az_children_visits_set_new by assumption.
      fold ns1. rewrite Hvc, (Hcv s nd Hs0 Hnd).
      specialize (Hacc s nd Hs0 Hnd Hterm). rewrite decide_True in Hacc by reflexivity.
      lia.
    + rewrite Hk_c, Hv_c. reflexivity.
    + fold ns1. rewrite (Hcv j x Hj Hx').
      specialize (Hacc j x Hj Hx' Htx).
      rewrite decide_False in Hacc by (intros [= ->]; congruence). exact Hacc.
Qed.

(** [backprop] changes the value statistics only. *)
Lemma backprop_on_tree r0 ns (self : nat) (value : F) :
  az_links Obs r0 ns -> (r0 <= self < length ns)%nat ->
  exists ns',
    AlphaZeroMCTS.backprop Obs ns self value = Ok ns' /\
    Forall2 (fun nd nd' =>
               AlphaZero.parent nd' = AlphaZero.parent nd /\
               AlphaZero.children nd' = AlphaZero.children nd /\
               AlphaZero.action_space_n nd' = AlphaZero.action_space_n nd /\
               AlphaZero.terminal nd' = AlphaZero.terminal nd /\
               AlphaZero.reward nd' = AlphaZero.reward nd /\
               AlphaZero.visits nd' = AlphaZero.visits nd) ns ns'.
Proof.
  intros Hlinks [Hs0 Hs]. destruct (lookup_lt_is_Some_2 ns self Hs) as [me Hme].
  destruct (backprop_spec Obs r0 ns self me value (az_parent Obs r0 ns Hlinks) Hs0 Hme)
    as (ns' & Hrun & Hlen & Hspec).
  exists ns'. split; [exact Hrun|].
  apply Forall2_same_length_lookup_2; [symmetry; exact Hlen|].
  intros j x y Hx Hy. rewrite Hspec, Hx in Hy. cbn [fmap option_fmap option_map] in Hy.
  injection Hy as <-.
  destruct (decide (j = self)), (decide (j ∈ az_path_to_root Obs ns self));
    cbn; repeat split; reflexivity.
Qed.

Lemma az_invariant_backprop r0 ns (self : nat) (value : F) :
  az_links Obs r0 ns -> az_accounts Obs r0 None ns -> (r0 <= self < length ns)%nat ->
  exists ns',
    AlphaZeroMCTS.backprop Obs ns self value = Ok ns' /\
    az_links Obs r0 ns' /\ az_accounts Obs r0 None ns' /\
    length ns' = length ns /\
    forall j nd', ns' !! j = Some nd' ->
      exists nd, ns !! j = Some nd /\ AlphaZero.visits nd' = AlphaZero.visits nd /\
                 AlphaZero.children nd' = AlphaZero.children nd /\
                 AlphaZero.terminal nd' = AlphaZero.terminal nd.
Proof.
  intros Hlinks Hacc Hs.
  destruct (backprop_on_tree r0 ns self value Hlinks Hs) as (ns' & Hrun & Hsame).
  exists ns'. split; [exact Hrun|]. split; [|split; [|split]].
  - apply (az_links_grows Obs r0 ns ns'); [|exact Hlinks].
    eapply Forall2_impl; [exact Hsame|].
    intros x y (? & ? & ? & ? & ? & Hv). unfold az_grows. repeat split; try assumption. lia.
  - apply (az_accounts_same_visits Obs r0 None ns ns'); [|exact Hacc].
    eapply Forall2_impl; [exact Hsame|]. intros x y (? & ? & ? & ? & ? & ?). auto.
  - symmetry. apply (Forall2_length _ _ _ Hsame).
  - intros j nd' Hlk. destruct (Forall2_lookup_r _ _ _ _ _ Hsame Hlk) as (nd & Hnd & Hf).
    destruct Hf as (? & ? & ? & ? & ? & ?). exists nd. auto.
Qed.

(** One turn of the loop of [build_tree]: it returns, counts one visit
    at the root and creates at most one node. *)
Lemma az_iteration_on_tree r0 st rd :
  az_links Obs r0 (AlphaZeroMCTS.nodes st) ->
  az_accounts Obs r0 None (AlphaZeroMCTS.nodes st) ->
  AlphaZeroMCTS.nodes st !! r0 = Some rd ->
  exists st' rd',
    iteration_p st r0 = Ok st' /\
    az_links Obs r0 (AlphaZeroMCTS.nodes st') /\
    az_accounts Obs r0 None (AlphaZeroMCTS.nodes st') /\
    AlphaZeroMCTS.nodes st' !! r0 = Some rd' /\
    AlphaZero.visits rd' = AlphaZero.visits rd + 1 /\
    AlphaZero.terminal rd' = AlphaZero.terminal rd /\
    (length (AlphaZeroMCTS.nodes st) <= length (AlphaZeroMCTS.nodes st')
     <= S (length (AlphaZeroMCTS.nodes st)))%nat.
Proof.
  intros Hlinks Hacc Hrd.
  assert (Hr : (r0 < length (AlphaZeroMCTS.nodes st))%nat)
    by (eapply lookup_lt_Some; eassumption).
  unfold AlphaZeroMCTS.iteration, AlphaZeroMCTS.select_node_to_expand.
  rewrite (deref_Some _ _ _ Hrd). cbn [bind].
  set (rd1 := AlphaZero.set_visits Obs rd (AlphaZero.visits rd + 1)).
  set (ns0 := <[r0 := rd1]> (AlphaZeroMCTS.nodes st)).
  assert (Hgrow0 : Forall2 (az_grows Obs) (AlphaZeroMCTS.nodes st) ns0)
    by (apply (az_arena_grows_insert Obs _ r0 rd); [assumption | apply az_grows_visit]).
  assert (Hlinks0 : az_links Obs r0 ns0) by (eapply az_links_grows; eassumption).
  assert (Hunlisted : forall j x, (r0 <= j)%nat -> AlphaZeroMCTS.nodes st !! j = Some x ->
            r0 ∉ dict_values (AlphaZero.children x)).
  { intros j x Hj Hx Hin.
    destruct (az_listed_parent Obs r0 _ r0 j rd x Hlinks Hj Hx Hrd Hin). lia. }
  assert (Hacc0 : az_accounts Obs r0 (Some r0) ns0).
  { intros j x Hj Hx Htx. unfold ns0 in Hx |- *. destruct (decide (j = r0)) as [->|Hne].
    - rewrite list_lookup_insert_eq in Hx by assumption. injection Hx as <-.
      rewrite decide_True by reflexivity. cbn [rd1 AlphaZero.set_visits AlphaZero.visits
                                                AlphaZero.children].
      rewrite az_children_visits_other by (eapply Hunlisted; [|eassumption]; lia).
      cbn in Htx. specialize (Hacc r0 rd (Nat.le_refl _) Hrd Htx).
      rewrite decide_False in Hacc by discriminate. lia.
    - rewrite list_lookup_insert_ne in Hx by congruence.
      rewrite decide_False by (intros [= ->]; congruence).
      rewrite az_children_visits_other by (eapply Hunlisted; eassumption).
      specialize (Hacc j x Hj Hx Htx). rewrite decide_False in Hacc by discriminate.
      exact Hacc. }
  destruct (az_select_on_tree r0 (length ns0) ns0 r0 (AlphaZeroMCTS.self_env st)
              Hlinks0 Hacc0)
    as (s & nd & ns1 & env1 & Hsel & Hlinks1 & Hacc1 & Hgrow1 & Hframe & Hs0 & Hnd & Hcase);
    [lia | unfold ns0; rewrite length_insert; assumption | lia |].
  rewrite Hsel. cbn [bind AlphaZeroMCTS.nodes AlphaZeroMCTS.self_env].
  rewrite (deref_Some _ _ _ Hnd). cbn [bind]. unfold AlphaZero.is_terminal.
  assert (Hlen1 : length ns1 = length (AlphaZeroMCTS.nodes st)).
  { rewrite <- (Forall2_length _ _ _ Hgrow1). unfold ns0. apply length_insert. }
  assert (Hs : (s < length ns1)%nat) by (eapply lookup_lt_Some; eassumption).
  assert (Hroot1 : ns1 !! r0 = Some rd1).
  { rewrite Hframe by lia. unfold ns0. apply list_lookup_insert_eq. assumption. }
  destruct Hcase as [Hterm|[Hterm Hroom]]; rewrite Hterm; cbn [bind].
  - (* the descent ended in a terminal node *)
    assert (Hacc1' : az_accounts Obs r0 None ns1).
    { intros j x Hj Hx Htx. rewrite decide_False by discriminate.
      specialize (Hacc1 j x Hj Hx Htx).
      rewrite decide_False in Hacc1 by (intros [= ->]; congruence). exact Hacc1. }
    unfold AlphaZeroMCTS.value_function. cbn [AlphaZeroMCTS.nodes].
    rewrite (deref_Some _ _ _ Hnd). cbn [bind]. unfold AlphaZero.is_terminal.
    rewrite Hterm. cbn [bind].
    destruct (az_invariant_backprop r0 ns1 s (AlphaZero.reward nd) Hlinks1 Hacc1')
      as (ns' & Hrun & Hlinks' & Hacc' & Hlen' & Hsame); [lia|].
    rewrite Hrun. cbn [bind].
    destruct (lookup_lt_is_Some_2 ns' r0) as [rd' Hrd']; [lia|].
    destruct (Hsame r0 rd' Hrd') as (y & Hy & Hvy & _ & Hty).
    rewrite Hroot1 in Hy. injection Hy as <-.
    eexists _, rd'. split; [reflexivity|]. cbn [AlphaZeroMCTS.nodes].
    split; [exact Hlinks'|]. split; [exact Hacc'|]. split; [exact Hrd'|].
    split; [rewrite Hvy; reflexivity|]. split; [rewrite Hty; reflexivity | lia].
  - (* the descent ended at a node with an unexpanded action *)
    unfold AlphaZeroMCTS.expand. cbn [AlphaZeroMCTS.nodes AlphaZeroMCTS.self_env].
    destruct (expansion_ok r0 ns1 (AlphaZeroMCTS.self_env st) s nd Hlinks1 Hs0 Hnd Hroom)
      as (a & e' & Hpol & Ha & Hfree).
    rewrite Hpol. cbn [bind].
    destruct (env_step env1 a) as [env2 [[[o r] tm] tr]].
    rewrite (deref_Some _ _ _ Hnd). cbn [bind].
    set (child := AlphaZero.Node_init Obs (Some s) r (AlphaZero.action_space_n nd)
                    (Some o) (tm || tr)).
    set (nd_s := AlphaZeroMCTS.set_children Obs nd
                   (dict_set a (length ns1) (AlphaZero.children nd))).
    set (ns2 := <[s := nd_s]> ns1 ++ [child]).
    destruct (az_links_expand r0 ns1 s nd a child Hlinks1 Hacc1 Hs0 Hnd Hterm Ha Hfree
                eq_refl eq_refl eq_refl eq_refl) as [Hlinks2 Hacc2].
    fold nd_s in Hlinks2, Hacc2. fold ns2 in Hlinks2, Hacc2.
    assert (Hlen2 : length ns2 = S (length ns1)).
    { unfold ns2. rewrite length_app, length_insert. cbn. lia. }
    assert (Hc2 : ns2 !! length ns1 = Some child) by apply lookup_grown_new.
    assert (Hval : exists v,
              AlphaZeroMCTS.value_function Obs Env env_step env_sample ns2 (length ns1)
                env2 40 = Ok v).
    { unfold AlphaZeroMCTS.value_function. rewrite (deref_Some _ _ _ Hc2). cbn [bind].
      destruct (AlphaZero.is_terminal Obs child); eauto. }
    destruct Hval as [v Hv]. cbn [AlphaZeroMCTS.nodes AlphaZeroMCTS.self_env].
    rewrite Hv. cbn [bind].
    destruct (az_invariant_backprop r0 ns2 (length ns1) v Hlinks2 Hacc2)
      as (ns' & Hrun & Hlinks' & Hacc' & Hlen' & Hsame); [lia|].
    rewrite Hrun. cbn [bind].
    destruct (lookup_lt_is_Some_2 ns' r0) as [rd' Hrd']; [lia|].
    destruct (Hsame r0 rd' Hrd') as (y & Hy & Hvy & _ & Hty).
    assert (Hroot2 : AlphaZero.visits y = AlphaZero.visits rd1 /\
                     AlphaZero.terminal y = AlphaZero.terminal rd1).
    { unfold ns2 in Hy. destruct (decide (r0 = s)) as [->|Hne].
      - rewrite lookup_grown_at in Hy by assumption. injection Hy as <-.
        rewrite Hroot1 in Hnd. injection Hnd as <-. split; reflexivity.
      - rewrite lookup_grown_old in Hy by lia. rewrite Hroot1 in Hy. injection Hy as <-.
        split; reflexivity. }
    destruct Hroot2 as [Hv2 Ht2].
    eexists _, rd'. split; [reflexivity|]. cbn [AlphaZeroMCTS.nodes].
    split; [exact Hlinks'|]. split; [exact Hacc'|]. split; [exact Hrd'|].
    split; [rewrite Hvy, Hv2; reflexivity|].
    split; [rewrite Hty, Ht2; reflexivity | lia].
Qed.

Lemma az_build_tree_loop_on_tree r0 :
  forall turns st rd,
    az_links Obs r0 (AlphaZeroMCTS.nodes st) ->
    az_accounts Obs r0 None (AlphaZeroMCTS.nodes st) ->
    AlphaZeroMCTS.nodes st !! r0 = Some rd ->
    exists st' rd',
      build_tree_loop_p turns st r0 = Ok st' /\
      az_links Obs r0 (AlphaZeroMCTS.nodes st') /\
      az_accounts Obs r0 None (AlphaZeroMCTS.nodes st') /\
      AlphaZeroMCTS.nodes st' !! r0 = Some rd' /\
      AlphaZero.visits rd' = AlphaZero.visits rd + Z.of_nat turns /\
      AlphaZero.terminal rd' = AlphaZero.terminal rd /\
      (length (AlphaZeroMCTS.nodes st) <= length (AlphaZeroMCTS.nodes st')
       <= length (AlphaZeroMCTS.nodes st) + turns)%nat.
Proof.
  induction turns as [|turns IH]; intros st rd Hlinks Hacc Hrd;
    cbn [AlphaZeroMCTS.build_tree_loop].
  - exists st, rd. split; [reflexivity|]. split; [exact Hlinks|]. split; [exact Hacc|].
    split; [exact Hrd|]. split; [lia|]. split; [reflexivity | lia].
  - destruct (az_iteration_on_tree r0 st rd Hlinks Hacc Hrd)
      as (st1 & rd1 & Hit & Hlinks1 & Hacc1 & Hrd1 & Hv1 & Ht1 & Hlen1).
    rewrite Hit. cbn [bind].
    destruct (IH st1 rd1 Hlinks1 Hacc1 Hrd1)
      as (st' & rd' & Hrun & Hlinks' & Hacc' & Hrd' & Hv' & Ht' & Hlen').
    exists st', rd'. split; [exact Hrun|]. split; [exact Hlinks'|]. split; [exact Hacc'|].
    split; [exact Hrd'|]. split; [lia|]. split; [congruence | lia].
Qed.

(** [search]: the root is the new node at the end of the arena; it ends
    with one visit for its creation and one for every turn of the
    loop. *)
Lemma az_search_on_tree st (iterations : Z) :
  (1 <= env_n (AlphaZeroMCTS.self_env st))%nat ->
  exists st' rd',
    search_p st iterations = Ok (length (AlphaZeroMCTS.nodes st), st') /\
    az_links Obs (length (AlphaZeroMCTS.nodes st)) (AlphaZeroMCTS.nodes st') /\
    az_accounts Obs (length (AlphaZeroMCTS.nodes st)) None (AlphaZeroMCTS.nodes st') /\
    AlphaZeroMCTS.nodes st' !! length (AlphaZeroMCTS.nodes st) = Some rd' /\
    AlphaZero.visits rd' = 1 + Z.max 0 iterations /\
    AlphaZero.terminal rd' = false /\
    (length (AlphaZeroMCTS.nodes st) < length (AlphaZeroMCTS.nodes st')
     <= length (AlphaZeroMCTS.nodes st) + 1 + Z.to_nat iterations)%nat.
Proof.
  intros Hn. unfold AlphaZeroMCTS.search, AlphaZeroMCTS.build_tree.
  set (r0 := length (AlphaZeroMCTS.nodes st)).
  set (root := AlphaZero.Node_init Obs None fzero (env_n (AlphaZeroMCTS.self_env st))
                 None false).
  set (st1 := AlphaZeroMCTS.mkState Obs Env (AlphaZeroMCTS.nodes st ++ [root])
                (AlphaZeroMCTS.self_env st)).
  assert (Honly : forall i nd, (r0 <= i)%nat -> AlphaZeroMCTS.nodes st1 !! i = Some nd ->
                    i = r0 /\ nd = root).
  { intros i nd Hi Hlk. cbn [st1 AlphaZeroMCTS.nodes] in Hlk.
    rewrite lookup_app_r in Hlk by assumption.
    destruct (i - length (AlphaZeroMCTS.nodes st))%nat as [|k] eqn:Hk; cbn in Hlk;
      [|discriminate].
    split; [unfold r0; lia | congruence]. }
  assert (Hlinks1 : az_links Obs r0 (AlphaZeroMCTS.nodes st1)).
  { split.
    - intros i nd p Hi Hlk Hp. destruct (Honly i nd Hi Hlk) as [_ ->]. discriminate.
    - intros i nd a c Hi Hlk Hget. destruct (Honly i nd Hi Hlk) as [_ ->]. discriminate.
    - intros i nd Hi Hlk. destruct (Honly i nd Hi Hlk) as [_ ->].
      split; [apply NoDup_nil_2 | intros a Ha; inversion Ha].
    - intros i nd p pn Hi Hlk Hp _. destruct (Honly i nd Hi Hlk) as [_ ->]. discriminate.
    - intros i nd Hi Hlk. destruct (Honly i nd Hi Hlk) as [_ ->]. apply NoDup_nil_2.
    - intros i nd Hi Hlk _. destruct (Honly i nd Hi Hlk) as [_ ->]. reflexivity.
    - intros i nd Hi Hlk. destruct (Honly i nd Hi Hlk) as [_ ->]. exact Hn.
    - intros i nd Hi Hlk. destruct (Honly i nd Hi Hlk) as [_ ->]. cbn. lia.
    - intros i nd Hi Hlk _. destruct (Honly i nd Hi Hlk) as [-> _]. reflexivity. }
  assert (Hacc1 : az_accounts Obs r0 None (AlphaZeroMCTS.nodes st1)).
  { intros j nd Hj Hlk _. destruct (Honly j nd Hj Hlk) as [_ ->].
    rewrite decide_False by discriminate. reflexivity. }
  assert (Hr1 : AlphaZeroMCTS.nodes st1 !! r0 = Some root).
  { cbn [st1 AlphaZeroMCTS.nodes]. rewrite lookup_app_r by (unfold r0; lia).
    unfold r0. rewrite Nat.sub_diag. reflexivity. }
  destruct (az_build_tree_loop_on_tree r0 (Z.to_nat iterations) st1 root Hlinks1 Hacc1 Hr1)
    as (st' & rd' & Hrun & Hlinks' & Hacc' & Hrd' & Hv' & Ht' & Hlen').
  rewrite Hrun. cbn [bind].
  exists st', rd'. split; [reflexivity|]. split; [exact Hlinks'|]. split; [exact Hacc'|].
  split; [exact Hrd'|]. split; [cbn in Hv'; lia|]. split; [exact Ht'|].
  cbn [st1 AlphaZeroMCTS.nodes] in Hlen'. rewrite length_app in Hlen'. cbn in Hlen'.
  unfold r0. lia.
Qed.
End ProtoSearch.

(** * The policies of the prototype and [run_episode] *)

Section KeyFacts.
Context {V : Type}.
Implicit Types (d : dict V).

Lemma keys_within (keys : list nat) (n : nat) :
  NoDup keys -> (forall a, a ∈ keys -> (a < n)%nat) -> (length keys <= n)%nat.
Proof.
  intros Hnd Hlt.
  assert (Hsub : keys ⊆+ seq 0 n).
  { apply NoDup_submseteq; [assumption|]. intros b Hb. apply elem_of_seq.
    specialize (Hlt b Hb). lia. }
  apply submseteq_length in Hsub. rewrite length_seq in Hsub. exact Hsub.
Qed.

Lemma dict_keys_length d : length (dict_keys d) = length d.
Proof. unfold dict_keys. apply length_map. Qed.

Lemma dict_elem_get d k v : NoDup (dict_keys d) -> (k, v) ∈ d -> dict_get k d = Some v.
Proof.
  induction d as [|[k' v'] d IH]; cbn; intros Hnd Hin; [inversion Hin|].
  apply NoDup_cons in Hnd as [Hk Hnd]. apply elem_of_cons in Hin as [Heq|Hin].
  - injection Heq as -> ->. rewrite Nat.eqb_refl. reflexivity.
  - destruct (Nat.eqb_spec k k') as [->|Hne]; [|auto].
    exfalso. apply Hk. apply list_elem_of_fmap. exists (k', v). split; [reflexivity | assumption].
Qed.
End KeyFacts.

Section ProtoPolicies.
Context `{SO : ScalarOrder}.
Variables (Obs Env : Type).
Variable space_draw : Env -> Env * nat.

(** On a tree [UCB] does not fail: every child it scores is in the
    arena and has been visited. *)
Lemma UCB_contract (c : F) : az_selection_contract Obs (AlphaZero.UCB Obs c).
Proof.
  intros r0 ns i nd Hlinks Hi Hnd Hterm.
  destruct (az_keys Obs r0 ns Hlinks i nd Hi Hnd) as [Hnodup Hlt].
  pose proof (keys_within _ _ Hnodup Hlt) as Hlen. rewrite dict_keys_length in Hlen.
  unfold AlphaZero.UCB. rewrite (deref_Some _ _ _ Hnd). cbn [bind].
  unfold AlphaZero.is_fully_expanded, dict_len.
  destruct (Nat.eqb_spec (length (AlphaZero.children nd)) (AlphaZero.action_space_n nd))
    as [Hfull|Hroom]; cbn [negb].
  - right.
    destruct (py_max_first_max (AlphaZero.ucb Obs c ns nd)
                (dict_keys (AlphaZero.children nd)))
      as (a & before & after & ka & Hm & Hsplit & _).
    { pose proof (az_actions Obs r0 ns Hlinks i nd Hi Hnd).
      destruct (AlphaZero.children nd); [cbn in Hfull; lia | discriminate]. }
    { intros x Hx. apply ucb_defined; [|assumption].
      intros b child Hin. apply dict_elem_get in Hin; [|assumption].
      destruct (az_child Obs r0 ns Hlinks i nd b child Hi Hnd Hin) as [Hic (cn & Hcn & _)].
      exists cn. split; [assumption|].
      assert (Hrc : (r0 <= child)%nat) by lia.
      pose proof (az_visited Obs r0 ns Hlinks child cn Hrc Hcn). lia. }
    exists a. rewrite Hm. cbn [bind]. split; [reflexivity|].
    rewrite Hsplit. apply elem_of_app. right. left.
  - left. split; [reflexivity | lia].
Qed.

(** On a node of a tree with an unexpanded action the default expansion
    policy answers one of them. *)
Lemma DefaultExpansionPolicy_contract :
  az_expansion_contract Obs Env (AlphaZeroMCTS.DefaultExpansionPolicy Obs Env space_draw).
Proof.
  intros r0 ns e i nd Hlinks Hi Hnd Hroom.
  destruct (az_keys Obs r0 ns Hlinks i nd Hi Hnd) as [Hnodup Hlt].
  destruct (unexplored_mask Obs nd Hlt) as (mask & Hmask & Hvalid).
  unfold AlphaZeroMCTS.DefaultExpansionPolicy. rewrite (deref_Some _ _ _ Hnd). cbn [bind].
  rewrite Hmask. cbn [bind].
  destruct (missing_key (dict_keys (AlphaZero.children nd)) (AlphaZero.action_space_n nd)
              Hnodup) as (a0 & Ha0 & Hna0).
  { rewrite dict_keys_length. exact Hroom. }
  assert (Hin0 : a0 ∈ AlphaZero.where_one mask).
  { apply Hvalid. split; [assumption|]. apply dict_get_None. assumption. }
  destruct (AlphaZero.where_one mask) as [|x valid] eqn:Hw; [inversion Hin0|].
  destruct (space_draw e) as [e' draw].
  exists (AlphaZero.discrete_sample mask draw), e'. split; [reflexivity|].
  unfold AlphaZero.discrete_sample. rewrite Hw.
  destruct ((x :: valid) !! (draw mod length (x :: valid))%nat) as [a|] eqn:Hlk.
  - apply list_elem_of_lookup_2 in Hlk. apply Hvalid in Hlk.
    cbn [AlphaZero.space_start Nat.add]. exact Hlk.
  - apply lookup_ge_None in Hlk.
    pose proof (Nat.mod_upper_bound draw (length (x :: valid))) as Hb.
    cbn [length] in Hlk, Hb. lia.
Qed.
End ProtoPolicies.

Section TreeEvaluator.
Context `{Scalar}.
Variable Obs : Type.

Implicit Types (ns : list (AlphaZero.Node Obs)).

(** The key of [DefaultTreeEvaluator] at an expanded action. *)
Lemma tree_evaluator_key ns (nd : AlphaZero.Node Obs) (a c : nat) :
  dict_get a (AlphaZero.children nd) = Some c -> is_Some (ns !! c) ->
  (let* child := of_option KeyError (dict_get a (AlphaZero.children nd)) in
   let* ch := deref ns child in
   Ok (AlphaZero.visits ch)) = Ok (az_visits_at Obs ns c).
Proof.
  intros Hget [ch Hch]. rewrite Hget. cbn [of_option bind].
  rewrite (deref_Some _ _ _ Hch). cbn [bind]. unfold az_visits_at. rewrite Hch. reflexivity.
Qed.

Lemma tree_evaluator_first_max ns (node : nat) (nd : AlphaZero.Node Obs) :
  ns !! node = Some nd ->
  AlphaZero.children nd <> [] ->
  (forall a c, dict_get a (AlphaZero.children nd) = Some c -> is_Some (ns !! c)) ->
  exists a ca before after,
    AlphaZeroMCTS.DefaultTreeEvaluator Obs ns node = Ok a /\
    dict_get a (AlphaZero.children nd) = Some ca /\
    dict_keys (AlphaZero.children nd) = before ++ a :: after /\
    (forall b cb, b ∈ before -> dict_get b (AlphaZero.children nd) = Some cb ->
       az_visits_at Obs ns cb < az_visits_at Obs ns ca) /\
    (forall b cb, b ∈ after -> dict_get b (AlphaZero.children nd) = Some cb ->
       az_visits_at Obs ns cb <= az_visits_at Obs ns ca).
Proof.
  intros Hnd Hne Hin.
  unfold AlphaZeroMCTS.DefaultTreeEvaluator. rewrite (deref_Some _ _ _ Hnd). cbn [bind].
  set (key := fun action : nat =>
                let* child := of_option KeyError (dict_get action (AlphaZero.children nd)) in
                let* ch := deref ns child in
                Ok (AlphaZero.visits ch)).
  destruct (py_max_int_first_max key (dict_keys (AlphaZero.children nd)))
    as (a & before & after & ka & Hm & Hsplit & Ha & Hb & Hafter).
  { destruct (AlphaZero.children nd); [congruence | discriminate]. }
  { intros x Hx. destruct (dict_get_is_Some _ _ Hx) as [c Hc].
    exists (az_visits_at Obs ns c). apply tree_evaluator_key; eauto. }
  assert (Hka : a ∈ dict_keys (AlphaZero.children nd))
    by (rewrite Hsplit; apply elem_of_app; right; left).
  destruct (dict_get_is_Some _ _ Hka) as [ca Hca].
  assert (Hkey : ka = az_visits_at Obs ns ca).
  { pose proof (tree_evaluator_key ns nd a ca Hca (Hin a ca Hca)) as Hk.
    fold (key a) in Hk. congruence. }
  exists a, ca, before, after. split; [exact Hm|]. split; [exact Hca|].
  split; [exact Hsplit|]. subst ka. split.
  - intros b cb Hbin Hcb. destruct (Hb b Hbin) as (kb & Hkb & Hlt).
    pose proof (tree_evaluator_key ns nd b cb Hcb (Hin b cb Hcb)) as Hk.
    fold (key b) in Hk. assert (kb = az_visits_at Obs ns cb) by congruence. lia.
  - intros b cb Hbin Hcb. destruct (Hafter b Hbin) as (kb & Hkb & Hle).
    pose proof (tree_evaluator_key ns nd b cb Hcb (Hin b cb Hcb)) as Hk.
    fold (key b) in Hk. assert (kb = az_visits_at Obs ns cb) by congruence. lia.
Qed.

Lemma tree_evaluator_childless ns (node : nat) (nd : AlphaZero.Node Obs) :
  ns !! node = Some nd -> AlphaZero.children nd = [] ->
  AlphaZeroMCTS.DefaultTreeEvaluator Obs ns node = Raise ValueError.
Proof.
  intros Hnd Hch. unfold AlphaZeroMCTS.DefaultTreeEvaluator.
  rewrite (deref_Some _ _ _ Hnd). cbn [bind]. rewrite Hch. reflexivity.
Qed.
End TreeEvaluator.

Section ProtoEpisode.
Context `{Scalar}.
Variables (Obs Env : Type).
Variable env_step : Env -> nat -> Env * (Obs * F * bool * bool).
Variable env_sample : Env -> Env * nat.
Variable env_n : Env -> nat.
Variable selection_policy : list (AlphaZero.Node Obs) -> nat -> result (option nat).
Variable expansion_policy :
  list (AlphaZero.Node Obs) -> Env -> nat -> result (nat * Env).

Implicit Types (st : AlphaZeroMCTS.State Obs Env).

Abbreviation run_episode_loop_p :=
  (AlphaZeroMCTS.run_episode_loop Obs Env env_step env_sample env_n selection_policy
     expansion_policy (AlphaZeroMCTS.DefaultTreeEvaluator Obs)).

(** Without a budget the tree is the root alone, and the tree evaluator
    has nothing to choose from. *)
Lemma run_episode_loop_no_budget (steps : nat) st (compute_budget : Z) (total : F) :
  compute_budget <= 0 ->
  run_episode_loop_p (S steps) st compute_budget total = Raise ValueError.
Proof.
  intros Hb. cbn [AlphaZeroMCTS.run_episode_loop].
  unfold AlphaZeroMCTS.search, AlphaZeroMCTS.build_tree.
  replace (Z.to_nat compute_budget) with 0%nat by lia.
  cbn [AlphaZeroMCTS.build_tree_loop bind AlphaZeroMCTS.nodes AlphaZeroMCTS.self_env].
  set (root := AlphaZero.Node_init Obs None fzero (env_n (AlphaZeroMCTS.self_env st))
                 None false).
  assert (Hr : (AlphaZeroMCTS.nodes st ++ [root]) !! length (AlphaZeroMCTS.nodes st)
               = Some root) by apply lookup_snoc_new.
  rewrite (deref_Some _ _ _ Hr). cbn [bind].
  unfold AlphaZero.default_value, AlphaZero.truediv_int. cbn [root AlphaZero.Node_init
    AlphaZero.visits AlphaZero.subtree_value Z.eqb bind].
  rewrite (tree_evaluator_childless Obs _ _ root Hr eq_refl). reflexivity.
Qed.

Hypothesis selection_ok : az_selection_contract Obs selection_policy.
Hypothesis expansion_ok : az_expansion_contract Obs Env expansion_policy.
Hypothesis actions_ok : forall e, (1 <= env_n e)%nat.

(** With a budget of at least 1 every search expands its root, the tree
    evaluator finds a child, and the loop runs to its end. *)
Lemma run_episode_loop_returns (compute_budget : Z) :
  1 <= compute_budget ->
  forall (steps : nat) st (total : F),
  exists total' st',
    run_episode_loop_p steps st compute_budget total = Ok (total', st') /\
    (length (AlphaZeroMCTS.nodes st) <= length (AlphaZeroMCTS.nodes st')
     <= length (AlphaZeroMCTS.nodes st) + steps * (1 + Z.to_nat compute_budget))%nat.
Proof.
  intros Hb. induction steps as [|steps IH]; intros st total;
    cbn [AlphaZeroMCTS.run_episode_loop].
  - exists total, st. split; [reflexivity | lia].
  - destruct (az_search_on_tree Obs Env env_step env_sample env_n selection_policy
                expansion_policy selection_ok expansion_ok st compute_budget
                (actions_ok _))
      as (st1 & rd & Hsearch & Hlinks & Hacc & Hrd & Hv & Ht & Hlen).
    rewrite Hsearch. cbn [bind]. rewrite (deref_Some _ _ _ Hrd). cbn [bind].
    unfold AlphaZero.default_value, AlphaZero.truediv_int.
    destruct (Z.eqb_spec (AlphaZero.visits rd) 0) as [Hz|_]; [lia|]. cbn [bind].
    assert (Hch : AlphaZero.children rd <> []).
    { intros Hnil. specialize (Hacc _ rd (Nat.le_refl _) Hrd Ht).
      rewrite decide_False in Hacc by discriminate. rewrite Hnil in Hacc.
      cbn in Hacc. lia. }
    destruct (tree_evaluator_first_max Obs (AlphaZeroMCTS.nodes st1) _ rd Hrd Hch)
      as (a & ca & before & after & Hev & _).
    { intros b c Hget.
      destruct (az_child Obs _ _ Hlinks _ rd b c (Nat.le_refl _) Hrd Hget)
        as [_ (cn & Hcn & _)]. eauto. }
    rewrite Hev. cbn [bind].
    destruct (env_step (AlphaZeroMCTS.self_env st1) a) as [e' [[[o r] tm] tr]].
    destruct (tm || tr).
    + eexists _, _. split; [reflexivity|]. cbn [AlphaZeroMCTS.nodes]. lia.
    + destruct (IH (AlphaZeroMCTS.mkState Obs Env (AlphaZeroMCTS.nodes st1) e')
                  (fadd total r)) as (total' & st' & Hrun & Hlen').
      exists total', st'. split; [exact Hrun|]. cbn [AlphaZeroMCTS.nodes] in Hlen'. lia.
Qed.
End ProtoEpisode.

(** * The tree that the prototype's search returns *)

Section ProtoTree.
Context `{Scalar}.
Variables (Obs Env : Type).
Variable env_step : Env -> nat -> Env * (Obs * F * bool * bool).
Variable env_sample : Env -> Env * nat.
Variable env_n : Env -> nat.
Variable selection_policy : list (AlphaZero.Node Obs) -> nat -> result (option nat).
Variable expansion_policy :
  list (AlphaZero.Node Obs) -> Env -> nat -> result (nat * Env).

Implicit Types (st : AlphaZeroMCTS.State Obs Env).

Abbreviation search_a :=
  (AlphaZeroMCTS.search Obs Env env_step env_sample env_n selection_policy
     expansion_policy).

(** X12: [MCTS.search] of the prototype, with policies that keep their
    contracts on an environment with at least one action, returns the
    root it created.  The root has no parent and
    [1 + max(0, iterations)] visits, one from its creation and one for
    every turn of the loop, and the search creates the root and at most
    one node per turn. *)
Theorem proto_search_root_visits st (iterations : Z) :
  az_selection_contract Obs selection_policy ->
  az_expansion_contract Obs Env expansion_policy ->
  (1 <= env_n (AlphaZeroMCTS.self_env st))%nat ->
  exists st' rd,
    search_a st iterations = Ok (length (AlphaZeroMCTS.nodes st), st') /\
    AlphaZeroMCTS.nodes st' !! length (AlphaZeroMCTS.nodes st) = Some rd /\
    AlphaZero.parent rd = None /\
    AlphaZero.visits rd = 1 + Z.max 0 iterations /\
    (length (AlphaZeroMCTS.nodes st) < length (AlphaZeroMCTS.nodes st')
     <= length (AlphaZeroMCTS.nodes st) + 1 + Z.to_nat iterations)%nat.
Proof.
  intros Hsel Hexp Hn.
  destruct (az_search_on_tree Obs Env env_step env_sample env_n selection_policy
              expansion_policy Hsel Hexp st iterations Hn)
    as (st' & rd & Hrun & Hlinks & _ & Hrd & Hv & _ & Hlen).
  exists st', rd. split; [exact Hrun|]. split; [exact Hrd|].
  split; [|split; [exact Hv | exact Hlen]].
  destruct (AlphaZero.parent rd) as [p|] eqn:Hp; [|reflexivity].
  pose proof (az_parent Obs _ _ Hlinks _ rd p (Nat.le_refl _) Hrd Hp). lia.
Qed.

(** X13: visits are conserved in the tree that the prototype's search
    returns.  A node that is not terminal has the visit of its creation
    and one for every visit of a child:
    [visits = 1 + sum(child.visits)]; the root's extra visit per turn
    and the visit that [step] counts at the child balance the books.  A
    terminal node has no children. *)
Theorem proto_search_conserves_visits st (iterations : Z) :
  az_selection_contract Obs selection_policy ->
  az_expansion_contract Obs Env expansion_policy ->
  (1 <= env_n (AlphaZeroMCTS.self_env st))%nat ->
  exists st',
    search_a st iterations = Ok (length (AlphaZeroMCTS.nodes st), st') /\
    forall i nd,
      (length (AlphaZeroMCTS.nodes st) <= i)%nat ->
      AlphaZeroMCTS.nodes st' !! i = Some nd ->
      if AlphaZero.terminal nd
      then AlphaZero.children nd = [] /\ 1 <= AlphaZero.visits nd
      else AlphaZero.visits nd
           = 1 + az_children_visits Obs (AlphaZeroMCTS.nodes st') (AlphaZero.children nd).
Proof.
  intros Hsel Hexp Hn.
  destruct (az_search_on_tree Obs Env env_step env_sample env_n selection_policy
              expansion_policy Hsel Hexp st iterations Hn)
    as (st' & rd & Hrun & Hlinks & Hacc & _).
  exists st'. split; [exact Hrun|]. intros i nd Hi Hnd.
  destruct (AlphaZero.terminal nd) eqn:Ht.
  - split; [apply (az_leaf Obs _ _ Hlinks i nd Hi Hnd Ht)
           | apply (az_visited Obs _ _ Hlinks i nd Hi Hnd)].
  - specialize (Hacc i nd Hi Hnd Ht). rewrite decide_False in Hacc by discriminate.
    exact Hacc.
Qed.

(** X14: the tree that the prototype's search returns is linked both
    ways.  The keys of a node's [children] are distinct actions below
    [action_space.n]; each entry of [children] is a later node of the
    arena whose [parent] is the node, and no node is the value of two
    entries; a node is either the root, without parent, or listed among
    the [children] of its parent, an earlier node of the tree. *)
Theorem proto_search_returns_linked_tree st (iterations : Z) :
  az_selection_contract Obs selection_policy ->
  az_expansion_contract Obs Env expansion_policy ->
  (1 <= env_n (AlphaZeroMCTS.self_env st))%nat ->
  exists st',
    search_a st iterations = Ok (length (AlphaZeroMCTS.nodes st), st') /\
    forall i nd,
      (length (AlphaZeroMCTS.nodes st) <= i)%nat ->
      AlphaZeroMCTS.nodes st' !! i = Some nd ->
      NoDup (dict_keys (AlphaZero.children nd)) /\
      NoDup (dict_values (AlphaZero.children nd)) /\
      (forall a, a ∈ dict_keys (AlphaZero.children nd) ->
         (a < AlphaZero.action_space_n nd)%nat) /\
      (forall a c, dict_get a (AlphaZero.children nd) = Some c ->
         (i < c)%nat /\
         exists cn, AlphaZeroMCTS.nodes st' !! c = Some cn /\
                    AlphaZero.parent cn = Some i) /\
      match AlphaZero.parent nd with
      | None => i = length (AlphaZeroMCTS.nodes st)
      | Some p =>
          (length (AlphaZeroMCTS.nodes st) <= p < i)%nat /\
          exists pn, AlphaZeroMCTS.nodes st' !! p = Some pn /\
                     i ∈ dict_values (AlphaZero.children pn)
      end.
Proof.
  intros Hsel Hexp Hn.
  destruct (az_search_on_tree Obs Env env_step env_sample env_n selection_policy
              expansion_policy Hsel Hexp st iterations Hn)
    as (st' & rd & Hrun & Hlinks & _).
  exists st'. split; [exact Hrun|]. intros i nd Hi Hnd.
  destruct (az_keys Obs _ _ Hlinks i nd Hi Hnd) as [Hnodup Hbound].
  split; [exact Hnodup|]. split; [apply (az_once Obs _ _ Hlinks i nd Hi Hnd)|].
  split; [exact Hbound|].
  split; [intros a c Hc; apply (az_child Obs _ _ Hlinks i nd a c Hi Hnd Hc)|].
  destruct (AlphaZero.parent nd) as [p|] eqn:Hp.
  - pose proof (az_parent Obs _ _ Hlinks i nd p Hi Hnd Hp) as Hpi. split; [exact Hpi|].
    destruct (lookup_lt_is_Some_2 (AlphaZeroMCTS.nodes st') p) as [pn Hpn].
    { apply lookup_lt_Some in Hnd. lia. }
    exists pn. split; [exact Hpn|].
    apply (az_listed Obs _ _ Hlinks i nd p pn Hi Hnd Hp Hpn).
  - apply (az_root Obs _ _ Hlinks i nd Hi Hnd Hp).
Qed.

(** X15: [DefaultTreeEvaluator] on a node without children raises
    [ValueError], the error of [max] on an empty dictionary.  On a node
    with children, all in the arena, it returns the action whose child
    has the most visits, and among several such actions the one that
    was expanded first. *)
Theorem DefaultTreeEvaluator_first_most_visited (ns : list (AlphaZero.Node Obs))
    (node : nat) (nd : AlphaZero.Node Obs) :
  ns !! node = Some nd ->
  (AlphaZero.children nd = [] ->
   AlphaZeroMCTS.DefaultTreeEvaluator Obs ns node = Raise ValueError) /\
  (AlphaZero.children nd <> [] ->
   (forall a c, dict_get a (AlphaZero.children nd) = Some c -> is_Some (ns !! c)) ->
   exists a ca before after,
     AlphaZeroMCTS.DefaultTreeEvaluator Obs ns node = Ok a /\
     dict_get a (AlphaZero.children nd) = Some ca /\
     dict_keys (AlphaZero.children nd) = before ++ a :: after /\
     (forall b cb, b ∈ before -> dict_get b (AlphaZero.children nd) = Some cb ->
        az_visits_at Obs ns cb < az_visits_at Obs ns ca) /\
     (forall b cb, b ∈ after -> dict_get b (AlphaZero.children nd) = Some cb ->
        az_visits_at Obs ns cb <= az_visits_at Obs ns ca)).
Proof.
  intros Hnd. split.
  - apply tree_evaluator_childless. exact Hnd.
  - apply tree_evaluator_first_max. exact Hnd.
Qed.

(** X16: [run_episode] with a compute budget of 0 or less and at least
    one step fails in its first step with [ValueError], whatever the
    selection and expansion policies are: the search returns a root
    without children and [DefaultTreeEvaluator] takes the maximum of
    nothing. *)
Theorem run_episode_without_budget_fails st (compute_budget max_steps : Z) :
  compute_budget <= 0 ->
  1 <= max_steps ->
  AlphaZeroMCTS.run_episode Obs Env env_step env_sample env_n selection_policy
    expansion_policy (AlphaZeroMCTS.DefaultTreeEvaluator Obs) st compute_budget max_steps
  = Raise ValueError.
Proof.
  intros Hb Hs. unfold AlphaZeroMCTS.run_episode.
  destruct (Z.to_nat max_steps) as [|steps] eqn:Hk; [lia|].
  apply run_episode_loop_no_budget. exact Hb.
Qed.

(** X18: the reward of a terminal node enters the sums twice.  When
    the node that [build_tree] evaluates is terminal, [value_function]
    returns its reward, whatever the environment and the rollout budget
    are, and [backprop] of that value adds [reward + reward] to the
    [subtree_value] of the node and of each of its ancestors; no visit
    is counted. *)
Theorem terminal_reward_counted_twice (ns : list (AlphaZero.Node Obs)) (self : nat)
    (me : AlphaZero.Node Obs) (env : Env) (rollout_budget : nat) :
  (forall i nd p, ns !! i = Some nd -> AlphaZero.parent nd = Some p -> (p < i)%nat) ->
  ns !! self = Some me ->
  AlphaZero.terminal me = true ->
  exists ns',
    (let* value :=
       AlphaZeroMCTS.value_function Obs Env env_step env_sample ns self env rollout_budget in
     AlphaZeroMCTS.backprop Obs ns self value) = Ok ns' /\
    forall j nd, ns !! j = Some nd ->
      exists nd',
        ns' !! j = Some nd' /\
        AlphaZero.visits nd' = AlphaZero.visits nd /\
        AlphaZero.subtree_value nd'
        = (if decide (j ∈ az_path_to_root Obs ns self)
           then fadd (AlphaZero.subtree_value nd)
                  (fadd (AlphaZero.reward me) (AlphaZero.reward me))
           else AlphaZero.subtree_value nd).
Proof.
  intros Hdec Hme Hterm.
  unfold AlphaZeroMCTS.value_function. rewrite (deref_Some _ _ _ Hme). cbn [bind].
  unfold AlphaZero.is_terminal. rewrite Hterm. cbn [bind].
  destruct (backprop_spec Obs 0 ns self me (AlphaZero.reward me))
    as (ns' & Hrun & Hlen & Hspec);
    [intros i nd p _ Hnd Hp; specialize (Hdec i nd p Hnd Hp); lia | lia | exact Hme |].
  exists ns'. split; [exact Hrun|].
  intros j nd Hnd. rewrite Hspec, Hnd. cbn [fmap option_fmap option_map].
  eexists. split; [reflexivity|].
  destruct (decide (j = self)), (decide (j ∈ az_path_to_root Obs ns self));
    cbn; split; reflexivity.
Qed.
End ProtoTree.

Section ProtoDefaults.
Context `{SO : ScalarOrder}.
Variables (Obs Env : Type).
Variable env_step : Env -> nat -> Env * (Obs * F * bool * bool).
Variable env_sample : Env -> Env * nat.
Variable env_n : Env -> nat.
Variable space_draw : Env -> Env * nat.

(** X17: [run_episode] with [UCB], the default expansion policy and
    [DefaultTreeEvaluator] runs to its end when the compute budget is at
    least 1 and every state of the environment has an action: no
    search, no policy and no [default_value] fails, for every
    exploration constant, every number of steps and whatever the
    generators draw.  It creates at most [1 + compute_budget] nodes per
    step. *)
Theorem run_episode_with_budget_returns (c : F) (st : AlphaZeroMCTS.State Obs Env)
    (compute_budget max_steps : Z) :
  (forall e, (1 <= env_n e)%nat) ->
  1 <= compute_budget ->
  exists total_reward st',
    AlphaZeroMCTS.run_episode Obs Env env_step env_sample env_n (AlphaZero.UCB Obs c)
      (AlphaZeroMCTS.DefaultExpansionPolicy Obs Env space_draw)
      (AlphaZeroMCTS.DefaultTreeEvaluator Obs) st compute_budget max_steps
    = Ok (total_reward, st') /\
    (length (AlphaZeroMCTS.nodes st) <= length (AlphaZeroMCTS.nodes st')
     <= length (AlphaZeroMCTS.nodes st)
        + Z.to_nat max_steps * (1 + Z.to_nat compute_budget))%nat.
Proof.
  intros Hn Hb. unfold AlphaZeroMCTS.run_episode.
  apply (run_episode_loop_returns Obs Env env_step env_sample env_n (AlphaZero.UCB Obs c)
           (AlphaZeroMCTS.DefaultExpansionPolicy Obs Env space_draw)
           (UCB_contract Obs c) (DefaultExpansionPolicy_contract Obs Env space_draw)
           Hn compute_budget Hb).
Qed.
End ProtoDefaults.

Lemma proto_search_root_visits_witness :
  exists st' rd,
    ProtoExamples.az_search_count ProtoExamples.az_count_state 3 = Ok (0%nat, st') /\
    AlphaZeroMCTS.nodes st' !! 0%nat = Some rd /\
    AlphaZero.parent rd = None /\
    AlphaZero.visits rd = 4 /\
    (0 < length (AlphaZeroMCTS.nodes st') <= 4)%nat.
Proof.
  apply (@proto_search_root_visits QScalar unit nat Examples.count_step
           Examples.count_sample Examples.two_actions (@AlphaZero.UCB QScalar unit 1%Q)
           (AlphaZeroMCTS.DefaultExpansionPolicy unit nat ProtoExamples.count_draw)
           ProtoExamples.az_count_state 3
           (@UCB_contract QScalar QScalarOrder unit 1%Q)
           (@DefaultExpansionPolicy_contract QScalar unit nat ProtoExamples.count_draw)).
  unfold Examples.two_actions. lia.
Defined.

Lemma proto_search_conserves_visits_witness :
  exists st',
    ProtoExamples.az_search_count ProtoExamples.az_count_state 3 = Ok (0%nat, st') /\
    forall i nd,
      (0 <= i)%nat -> AlphaZeroMCTS.nodes st' !! i = Some nd ->
      if AlphaZero.terminal nd
      then AlphaZero.children nd = [] /\ 1 <= AlphaZero.visits nd
      else AlphaZero.visits nd
           = 1 + az_children_visits unit (AlphaZeroMCTS.nodes st') (AlphaZero.children nd).
Proof.
  apply (@proto_search_conserves_visits QScalar unit nat Examples.count_step
           Examples.count_sample Examples.two_actions (@AlphaZero.UCB QScalar unit 1%Q)
           (AlphaZeroMCTS.DefaultExpansionPolicy unit nat ProtoExamples.count_draw)
           ProtoExamples.az_count_state 3
           (@UCB_contract QScalar QScalarOrder unit 1%Q)
           (@DefaultExpansionPolicy_contract QScalar unit nat ProtoExamples.count_draw)).
  unfold Examples.two_actions. lia.
Defined.

Lemma proto_search_returns_linked_tree_witness :
  exists st',
    ProtoExamples.az_search_count ProtoExamples.az_count_state 3 = Ok (0%nat, st') /\
    forall i nd,
      (0 <= i)%nat -> AlphaZeroMCTS.nodes st' !! i = Some nd ->
      NoDup (dict_keys (AlphaZero.children nd)).
Proof.
  destruct (@proto_search_returns_linked_tree QScalar unit nat Examples.count_step
              Examples.count_sample Examples.two_actions (@AlphaZero.UCB QScalar unit 1%Q)
              (AlphaZeroMCTS.DefaultExpansionPolicy unit nat ProtoExamples.count_draw)
              ProtoExamples.az_count_state 3
              (@UCB_contract QScalar QScalarOrder unit 1%Q)
              (@DefaultExpansionPolicy_contract QScalar unit nat ProtoExamples.count_draw))
    as (st' & Hrun & Htree).
  - unfold Examples.two_actions. lia.
  - exists st'. split; [exact Hrun|]. intros i nd Hi Hnd. apply (Htree i nd Hi Hnd).
Defined.

Lemma DefaultTreeEvaluator_first_most_visited_witness :
  exists a, AlphaZeroMCTS.DefaultTreeEvaluator unit Examples.az_tie 0 = Ok a.
Proof.
  destruct (proj2 (@DefaultTreeEvaluator_first_most_visited QScalar unit Examples.az_tie
                     0%nat _ eq_refl))
    as (a & ca & before & after & Hrun & _).
  - discriminate.
  - intros a c Hget. destruct a as [|[|a]]; cbn in Hget; try discriminate;
      injection Hget as <-; eexists; reflexivity.
  - exists a. exact Hrun.
Defined.

Lemma run_episode_without_budget_fails_witness :
  ProtoExamples.az_run_episode_count ProtoExamples.az_count_state 0 1 = Raise ValueError.
Proof.
  apply (@run_episode_without_budget_fails QScalar unit nat Examples.count_step
           Examples.count_sample Examples.two_actions (@AlphaZero.UCB QScalar unit 1%Q)
           (AlphaZeroMCTS.DefaultExpansionPolicy unit nat ProtoExamples.count_draw)
           ProtoExamples.az_count_state 0 1); lia.
Defined.

Lemma run_episode_with_budget_returns_witness :
  exists total_reward st',
    ProtoExamples.az_run_episode_count ProtoExamples.az_count_state 2 2
    = Ok (total_reward, st') /\
    (0 <= length (AlphaZeroMCTS.nodes st') <= 6)%nat.
Proof.
  apply (@run_episode_with_budget_returns QScalar QScalarOrder unit nat Examples.count_step
           Examples.count_sample Examples.two_actions ProtoExamples.count_draw 1%Q
           ProtoExamples.az_count_state 2 2).
  - intros e. unfold Examples.two_actions. lia.
  - lia.
Defined.

Lemma terminal_reward_counted_twice_witness :
  exists ns',
    (let* value :=
       AlphaZeroMCTS.value_function unit nat Examples.count_step Examples.count_sample
         ProtoExamples.az_ended_pair 1 0%nat 40 in
     AlphaZeroMCTS.backprop unit ProtoExamples.az_ended_pair 1 value) = Ok ns' /\
    forall j nd, ProtoExamples.az_ended_pair !! j = Some nd ->
      exists nd',
        ns' !! j = Some nd' /\
        AlphaZero.visits nd' = AlphaZero.visits nd /\
        AlphaZero.subtree_value nd'
        = (if decide (j ∈ az_path_to_root unit ProtoExamples.az_ended_pair 1)
           then (AlphaZero.subtree_value nd + (1 + 1))%Q
           else AlphaZero.subtree_value nd).
Proof.
  apply (@terminal_reward_counted_twice QScalar unit nat Examples.count_step
           Examples.count_sample ProtoExamples.az_ended_pair 1%nat
           (@AlphaZero.mkNode QScalar unit (Some 0%nat) [] 1%Z 0%Q 0%Q 1%Q 2%nat None true)
           0%nat 40%nat).
  - intros i nd p Hnd Hp. destruct i as [|[|i]]; cbn in Hnd; try discriminate;
      injection Hnd as <-; cbn in Hp; try discriminate; injection Hp as <-; lia.
  - reflexivity.
  - reflexivity.
Defined.
